(* ===== verification/_CoqProject ===== *)
-Q . S2P
Prelude.v
DList.v
ListSpec.v
ListIter.v
HList.v
Structs.v
World.v
Util.v
Context.v
BufferPump.v
SplicePump.v
Pump.v
Socks5.v
Listener.v
Alloc.v
Main.v
Kept.v
Log.v
Inv.v
Streams.v
Run.v
SpliceRun.v
Start.v
Program.v
