(* ===== verification/Prelude.v ===== *)
(** * transocks-wong: a model of the program and its theorems

    transocks-wong is a single-threaded transparent proxy.  Connections that
    netfilter redirects to its listening socket are accepted, their original
    destination is read back from the kernel, a SOCKS5 handshake asks a relay
    for a connection to it, and from then on a pump relays the bytes in both
    directions.  libevent calls the program back for sockets, timers and
    signals; every callback gets the client (or the environment) as its
    argument, and all clients hang in one doubly linked list.

    ** How C is modelled

    A C function is a function of the monad [M state] below: it returns a
    value and a new state ([Ok]), has undefined behaviour ([Fault]: an access
    to an object that is not live or not initialised), or runs out of the fuel
    of a loop ([NoFuel]).  [wp] is its weakest precondition; since [wp m Q s]
    is false when [m] faults or runs out of fuel, every theorem of the form
    [m s = Ok a s'] or [wp m Q s] says that the code returns.

    [state] (World) holds one map per struct type, from addresses to live
    objects, the list nodes embedded in them, what the program registered with
    libevent (events, bufferevents, bases), the global [pumpMethodImpl], and
    the history of calls that left the program.  Addresses are never used
    twice, so the use of a freed object is the use of a missing one.  The
    kernel, libc and libevent answer calls through the parameter [ext], a
    function of the whole history: a theorem without hypotheses on [ext] holds
    for every behaviour of the outside.  What the code relies on is named: the
    contents of evbuffers ([EvbufferLaws]), a kernel pipe ([PipeLaws]), the
    four calls whose failure the code does not survive ([Survives]), calls
    that succeed ([Succeeds], [Starts], [SpliceReady]), the addresses the
    kernel reports ([AddressLaws]), libc's clock and error texts ([Libc]), whose
    memory a function deals with ([MemoryLaws]), each with a concrete world
    that satisfies it ([buffered], [piped], [quiet], [session], [flaky],
    [piping], [ex_libc], [documented_memory]).  Errors are values: [errno] is
    part of a reply, an allocation replies whether it succeeded.

    Integers are [Z]; [size_t] counters wrap at 64 bits.  An uninitialised
    field is [None] and reading it faults.  Socket addresses are their bytes.
    The macros TRANSOCKS_FREE and TRANSOCKS_CLOSE exist twice: on a local
    variable, and ([_at]) on a struct field that they overwrite.

    ** Files and the code they model

    - Prelude: integers, list lemmas, the monad, [wp] and its rules.
    - DList: list.h: nodes, every operation on circular lists, the entry and
      iteration macros; [dlist h head l] is the representation predicate.
    - ListSpec: list.h against sequences.
    - ListIter: the iteration macros of list.h, as runs of their body over a
      sequence.
    - HList: the hash lists (hlist) of list.h.
    - Structs: the structs and enums of context.h and splicepump.h, the
      constants of the system headers.
    - World: the state, the calls, allocation, libevent's registrations.
    - Util: util.h and util.c.
    - Context: context.c except for the operations that go through the pump
      (in Pump) and the release of the environment (in Listener).
    - BufferPump: bufferpump.c.    - SplicePump: splicepump.h, splicepump.c.
    - Pump: pump.h, pump.c, and [transocks_drop_all_clients],
      [transocks_dump_all_client_info] of context.c.
    - Socks5: socks5.h, socks5.c.
    - Listener: listener.c, signal.c, [transocks_global_env_free].
    - Alloc: mem-allocator.h, the two builds and the functions they call.
    - Main: transocks.c, the dispatch of callbacks, print_help of util.c.
    - Kept: for each function, what it leaves alone ([keeps]), in any world.
    - Log: log.h and log.c, over a model of printf and of two streams.
    - Inv: the invariant [inv] of the event loop for either pump, the state
      machine of the connections ([session_step]), the callbacks of the
      handshake and the listener, schedules of events, and the interface
      [Loop]: what the callbacks of a pump promise to the event loop.
    - Streams: the bytes of the connections: what the history of calls took
      out of buffers and handed over ([flows]), what this is at each stage
      ([traffic]) and by each event ([streams_on]), and the interface
      [StreamLoop].
    - Run: the callbacks of the buffer pump, [Loop] and [StreamLoop] for it.
    - SpliceRun: who owns the pumps, pipes and events of the splice pump
      ([layer]), its callbacks, [Loop] and [StreamLoop] for it.
    - Start: the start of the program when any of its calls fails.
    - Program: the program from its start to its end, proved once against the
      interface [PumpProgram] of a pump and then for the two pumps.

    Definitions keep the C names.  A callback loses the arguments the C code
    ignores; a C out-parameter is part of the result.  The program's function
    pointers are the values of [fn], and [run_callback] of Main calls the
    function behind one, so a run of the event loop is [run_callbacks] over a
    schedule, a list of what libevent delivers.

    ** What the theorems show

    - Lists: every sequence of operations and queries on a list within its
      contract follows the same operations on sequences (refinement); cutting
      and splicing are inverse;
      each of the fourteen iteration macros equals the run of its body over the
      part of the list it names and ends: the plain ones for a body that keeps
      the list, the safe ones also for a body that removes and frees the
      visited member; the same for hash lists.
    - Clients and environment: creation, all its failure branches, timers, and
      release: exactly which calls are made in which order, exactly which
      objects go away, and that the list loses exactly the client's node.
    - Listener: an accepted connection ends as a client in the list that meets
      what the handshake callbacks need; one that is refused by accept, for its
      address, its options, its memory or its unknown destination leaves
      nothing behind but a closed descriptor.
    - Handshake: the bytes of both messages, their round trip through a
      decoder by RFC 1928, and for every answer, timeout and error whether the
      handshake goes on, the pump starts or the client is released.
    - Buffer pump: the read callbacks move all bytes in order; the write and
      event callbacks follow the half-close protocol, given as a table of
      flags and calls, and release the client exactly when it is over.
    - Splice pump: its start; every reply of splice with the calls that
      follow; the counter of a pipe is exact and never wraps; the release
      closes and frees all it should.
    - Log: the text of a record, that a log reads back as the records that
      were written, and the same for dumps of data.
    - Any world (Kept): whatever fails, the event loop leaves the environment
      alone.
    - Program: option parsing, validation before anything starts, signals.
      With the buffer pump, whatever calls fail among those the code survives
      (all but four): from the start on, over every schedule of events and
      whatever the peers send, no callback faults, the invariant holds, each
      callback is a step of the connections' state machine (SIGUSR1 drops all,
      a timeout ends its connection), no connection
      skips a stage of the handshake, and at the end everything is released.
      Each connection has at every point moved exactly the bytes of its stage:
      what goes to the relay is the greeting, the request for the connection's
      own destination and then the client's bytes, what goes to the client is
      what the relay sent after its two answers, in order and without a byte
      added, lost or taken from another connection.
      With the splice pump, in worlds in which in addition the calls of its
      start succeed ([SpliceReady]) and for events that libevent has added, the
      same holds, with the same state machine as long as SIGUSR1 finds no
      connection in its handshake; and in addition each relaying connection owns its pump, its pipes
      and its events, and through buffers each moves the bytes of its handshake
      and no others; at the end, and after SIGUSR1, only connections in their
      handshake are left.  In any world, a start that fails releases what it
      had set up (Start).  Whole sessions are run on concrete data.
    - Some theorems state defects of the code: a NULL dereference, uses after
      release, descriptors closed twice, connections cut off or kept.

    ** Fuel

    The list loops take [list_fuel], one more than the number of list nodes in
    the heap, which is enough because the members of a list are different
    nodes ([nodes_length]); the option loop takes [S argc], since getopt_long
    reports at most one option per argument and then -1 ([wp_getopt_loop]).

    ** Not modelled

    The two allocators behind mem-allocator.h (tr_malloc, tr_calloc and
    tr_free are calls that may fail), transocks_pump_dump_info_debug (empty
    outside debug builds), the log lines inside the program's functions (Log
    models what a log call writes, and the functions' models leave the calls
    out), build files.  Descriptors are
    numbers: which of them the kernel holds open is not part of the state, but
    every call of close is in the history.

    A schedule of the buffer pump may deliver any event of an object that is
    registered; one of the splice pump only events that are added and events
    of bufferevents that have a descriptor, as libevent does.  The start of
    the splice pump is taken to succeed in the theorems on the loop, because
    its failure releases the client twice ([splice_start_failure_releases_twice]).

    The bytes of a connection are those that the program takes out of libevent's
    buffers and hands to them; when libevent reads and writes the sockets is up
    to the outside.  Under the splice pump the data itself stays in the kernel,
    and the theorems count it ([pipe_counter_exact]).

    ** What is left

    A general form of the defects that are shown on one state, and the
    descriptors that the kernel holds open as part of the state. *)

From stdpp Require Export base gmap strings numbers list.

Local Open Scope Z_scope.
Declare Scope tr_scope.
Delimit Scope tr_scope with tr.

Create HintDb tr.
Create Rewrite HintDb tr.

(** ** C data *)

(** Pointers, file descriptors and C integers are [Z]; the null pointer is 0. *)
Abbreviation ptr := Z (only parsing).
Definition NULL : Z := 0.

(** Unsigned integers keep their width: [size_t] and [uint16_t] wrap around. *)
Definition wrap (w z : Z) : Z := z mod 2 ^ w.
Abbreviation size_t := (wrap 64) (only parsing).
Abbreviation uint16_t := (wrap 16) (only parsing).

Lemma wrap_small w z : (0 ≤ z < 2 ^ w)%Z → wrap w z = z.
Proof. apply Z.mod_small. Qed.

Lemma wrap_range w z : (0 ≤ w)%Z → (0 ≤ wrap w z < 2 ^ w)%Z.
Proof. intros Hw. apply Z.mod_pos_bound. by apply Z.pow_pos_nonneg. Qed.

(** ** Generic lemmas on lists *)

Section lists.
Context {A : Type}.
Implicit Types (l : list A) (x y : A).

(** Last element of a list with a default, as a circular list reads it. *)
Definition last_or (d : A) (l : list A) : A := default d (last l).

Definition hd_or (d : A) (l : list A) : A := default d (head l).

Lemma last_or_nil d : last_or d [] = d.
Proof. done. Qed.

Lemma last_or_snoc d l x : last_or d (l ++ [x]) = x.
Proof. unfold last_or. by rewrite last_snoc. Qed.

Lemma last_or_cons d x l : last_or d (x :: l) = last_or x l.
Proof. unfold last_or. rewrite last_cons. by destruct (last l). Qed.

Lemma last_or_app d l k : last_or d (l ++ k) = last_or (last_or d l) k.
Proof.
  revert d; induction l as [|x l IH]; intros d; [done|].
  change ((x :: l) ++ k) with (x :: (l ++ k)). by rewrite !last_or_cons.
Qed.

Lemma hd_or_app d l k : hd_or d (l ++ k) = hd_or (hd_or d k) l.
Proof. by destruct l. Qed.

Lemma last_or_elem d l : last_or d l = d ∨ last_or d l ∈ l.
Proof.
  destruct (last l) as [x|] eqn:E; unfold last_or; rewrite E; [right|by left].
  simpl. by apply last_Some_elem_of.
Qed.

Lemma hd_or_elem d l : hd_or d l = d ∨ hd_or d l ∈ l.
Proof. destruct l; [by left|right]. simpl. constructor. Qed.
End lists.

#[export] Hint Rewrite @last_or_nil @last_or_snoc @last_or_cons @last_or_app @hd_or_app : tr.

Lemma removelast_snoc {A} (x : A) l : removelast (l ++ [x]) = l.
Proof. apply List.removelast_last. Qed.

Lemma cons_last_or {A} (x : A) l : x :: l = removelast (x :: l) ++ [last_or x l].
Proof.
  destruct l as [|y l _] using rev_ind; [done|].
  rewrite last_or_snoc, app_comm_cons. by rewrite removelast_snoc.
Qed.

Lemma elem_of_removelast {A} (x : A) l : x ∈ removelast l → x ∈ l.
Proof.
  destruct l as [|y l _] using rev_ind; [done|]. rewrite removelast_snoc. set_solver.
Qed.

Lemma NoDup_last_or {A} (x : A) l : NoDup (x :: l) → last_or x l ∉ removelast (x :: l).
Proof.
  intros H. rewrite cons_last_or in H. apply NoDup_app in H as (_ & H & _).
  intros Hin. eapply H; eauto. set_solver.
Qed.

Lemma elem_of_tail {A} (x : A) l : x ∈ tail l → x ∈ l.
Proof. destruct l; set_solver. Qed.

Lemma NoDup_hd_or_tail {A} (d : A) l : NoDup (l ++ [d]) → hd_or d l ∉ tail (l ++ [d]).
Proof. destruct l as [|x l]; simpl; [set_solver|]. by inversion 1. Qed.

Lemma hd_or_snoc {A} (d : A) l : head (l ++ [d]) = Some (hd_or d l).
Proof. by destruct l. Qed.

(** ** Maps *)

Lemma alter_not_in {T} (f : T → T) (i : Z) (m : gmap Z T) : m !! i = None → alter f i m = m.
Proof.
  intros H. apply map_eq. intros j. rewrite lookup_alter. case_decide; [|done]. subst. by rewrite H.
Qed.

Lemma alter_insert_Some {T} (f : T → T) (i : Z) (m : gmap Z T) x :
  m !! i = Some x → alter f i m = <[i := f x]> m.
Proof.
  intros H. apply map_eq. intros j. rewrite lookup_alter, lookup_insert.
  case_decide; [subst; by rewrite H|done].
Qed.

Lemma delete_alter {T} (f : T → T) (i : Z) (m : gmap Z T) : delete i (alter f i m) = delete i m.
Proof.
  apply map_eq. intros j. rewrite !lookup_delete, lookup_alter. by repeat case_decide.
Qed.

Lemma alter_None {T} (f : T → T) (i j : Z) (m : gmap Z T) : m !! j = None → alter f i m !! j = None.
Proof. intros H. rewrite lookup_alter. case_decide; subst; by rewrite ?H. Qed.

Lemma delete_None {T} (i j : Z) (m : gmap Z T) : m !! j = None → delete i m !! j = None.
Proof. intros H. rewrite lookup_delete. by case_decide. Qed.

Lemma alter_is_Some {T} (f : T → T) (i j : Z) (m : gmap Z T) :
  is_Some (alter f i m !! j) ↔ is_Some (m !! j).
Proof. rewrite lookup_alter. case_decide; subst; by rewrite ?fmap_is_Some. Qed.

Lemma insert_live {T} (i j : Z) (x y : T) (m : gmap Z T) :
  m !! i = Some x → is_Some (<[i := y]> m !! j) ↔ is_Some (m !! j).
Proof. intros H. rewrite lookup_insert. case_decide; [subst; rewrite H; split; eauto|done]. Qed.

#[export] Hint Resolve alter_None delete_None : tr.

Lemma delete2_alter2 {T} (f g : T → T) (i j : Z) (m : gmap Z T) :
  delete i (delete j (alter f i (alter g j m))) = delete i (delete j m).
Proof.
  apply map_eq. intros k. rewrite !lookup_delete, !lookup_alter. by repeat case_decide.
Qed.

Lemma delete2_alter2' {T} (f g : T → T) (i j : Z) (m : gmap Z T) :
  delete i (delete j (alter f j (alter g i m))) = delete i (delete j m).
Proof.
  apply map_eq. intros k. rewrite !lookup_delete, !lookup_alter. by repeat case_decide.
Qed.

Lemma delete2_insert2 {T} (x y : T) (i j : Z) (m : gmap Z T) :
  m !! i = None → m !! j = None → delete i (delete j (<[i := x]> (<[j := y]> m))) = m.
Proof.
  intros Hi Hj. apply map_eq. intros k. rewrite !lookup_delete, !lookup_insert.
  by repeat case_decide; subst.
Qed.

(** ** Computations with state, faults and bounded loops

    A C function is a computation over a state [S].  It returns a value and a
    new state, or it reaches undefined behaviour ([Fault]: a dereference of
    memory that is not live, a handle passed to a library after it was freed,
    a read of an uninitialised field), or a loop bound runs out ([NoFuel]). *)

Inductive res (S A : Type) : Type :=
| Ok (a : A) (s : S)
| Fault
| NoFuel.
Arguments Ok {S A} a s.
Arguments Fault {S A}.
Arguments NoFuel {S A}.

Definition M (S A : Type) : Type := S → res S A.

#[global] Instance M_ret {S} : MRet (M S) := λ A a s, Ok a s.
#[global] Instance M_bind {S} : MBind (M S) := λ A B f m s,
  match m s with
  | Ok a s' => f a s'
  | Fault => Fault
  | NoFuel => NoFuel
  end.

Definition fault {S A} : M S A := λ _, Fault.
Definition gets {S A} (f : S → A) : M S A := λ s, Ok (f s) s.
Definition puts {S} (f : S → S) : M S unit := λ s, Ok tt (f s).
Definition when {S} (b : bool) (m : M S unit) : M S unit := if b then m else mret tt.

(** Run a computation on a part of the state. *)
Definition zoom {S T A} (get : S → T) (put : T → S → S) (m : M T A) : M S A := λ s,
  match m (get s) with
  | Ok a t => Ok a (put t s)
  | Fault => Fault
  | NoFuel => NoFuel
  end.

(** Weakest precondition for total correctness: the computation returns (it
    neither faults nor runs out of loop bound) and its result satisfies [Q]. *)
Definition wp {S A} (m : M S A) (Q : A → S → Prop) (s : S) : Prop :=
  match m s with
  | Ok a s' => Q a s'
  | _ => False
  end.

Section wp.
Context {S : Type}.
Implicit Types s : S.

Lemma wp_ret {A} (a : A) (Q : A → S → Prop) s : Q a s → wp (mret a) Q s.
Proof. done. Qed.

Lemma wp_bind {A B} (m : M S A) (f : A → M S B) Q s :
  wp m (λ a s', wp (f a) Q s') s → wp (mbind f m) Q s.
Proof. unfold wp, mbind, M_bind. by destruct (m s). Qed.

Lemma wp_gets {A} (f : S → A) (Q : A → S → Prop) s : Q (f s) s → wp (gets f) Q s.
Proof. done. Qed.

Lemma wp_puts (f : S → S) (Q : unit → S → Prop) s : Q tt (f s) → wp (puts f) Q s.
Proof. done. Qed.

Lemma wp_when b (m : M S unit) (Q : unit → S → Prop) s :
  (b = true → wp m Q s) → (b = false → Q tt s) → wp (when b m) Q s.
Proof. destruct b; intros H1 H2; [by apply H1|by apply H2]. Qed.

Lemma wp_mono {A} (m : M S A) (Q Q' : A → S → Prop) s :
  wp m Q s → (∀ a s', Q a s' → Q' a s') → wp m Q' s.
Proof. unfold wp. destruct (m s); naive_solver. Qed.

Lemma wp_zoom {T A} (get : S → T) (put : T → S → S) (m : M T A) (Q : A → S → Prop) s :
  wp m (λ a t, Q a (put t s)) (get s) → wp (zoom get put m) Q s.
Proof. unfold wp, zoom. by destruct (m (get s)). Qed.

(** [wp] says exactly what running the computation gives. *)
Lemma wp_run {A} (m : M S A) (Q : A → S → Prop) s :
  wp m Q s ↔ ∃ a s', m s = Ok a s' ∧ Q a s'.
Proof. unfold wp. destruct (m s); naive_solver. Qed.

(** A run with a known result. *)
Lemma wp_Ok {A} (m : M S A) (Q : A → S → Prop) (a : A) (P : S → Prop) s :
  wp m Q s → (∀ b s', Q b s' → b = a ∧ P s') → ∃ s', m s = Ok a s' ∧ P s'.
Proof. intros (b & s' & -> & H)%wp_run HQ. destruct (HQ _ _ H) as [-> HP]. eauto. Qed.

Lemma wp_Ok_run {A} (m : M S A) (Q : A → S → Prop) a s s' : m s = Ok a s' → Q a s' → wp m Q s.
Proof. unfold wp. by intros ->. Qed.

Lemma wp_tt (m : M S unit) (P : S → Prop) s : wp m (λ _ s', P s') s → ∃ s', m s = Ok tt s' ∧ P s'.
Proof. intros ([] & s' & ? & ?)%wp_run. eauto. Qed.

Lemma bind_Ok {A B} (m : M S A) (f : A → M S B) a s s' : m s = Ok a s' → (m ≫= f) s = f a s'.
Proof. unfold mbind, M_bind. by intros ->. Qed.

(** Run the first part of a computation; go on with one that runs the same. *)
Lemma bind_runs {A B} (m : M S A) (f : A → M S B) r s : wp m (λ a s', f a s' = r) s → (m ≫= f) s = r.
Proof. intros (a & s' & E & <-)%wp_run. by apply bind_Ok. Qed.

Lemma wp_and {A} (m : M S A) (P Q : A → S → Prop) s : wp m P s → (∀ a s', m s = Ok a s' → P a s' → Q a s') → wp m (λ a s', P a s' ∧ Q a s') s.
Proof. unfold wp. destruct (m s); naive_solver. Qed.

Lemma wp_elim {A} (m : M S A) (Q : A → S → Prop) a s s' : wp m Q s → m s = Ok a s' → Q a s'.
Proof. unfold wp. intros H E. by rewrite E in H. Qed.

Lemma wp_runs {A} (m m' : M S A) (Q : A → S → Prop) s s' : m s = m' s' → wp m' Q s' → wp m Q s.
Proof. unfold wp. by intros ->. Qed.

Lemma wp_val_eq {A} (m : M S A) a s s' : wp m (λ b t, b = a ∧ t = s') s → m s = Ok a s'.
Proof. by intros (b & t & ? & -> & ->)%wp_run. Qed.

Lemma wp_tt_eq (m : M S unit) s s' : wp m (λ _ t, t = s') s → m s = Ok tt s'.
Proof. by intros ([] & t & ? & ->)%wp_run. Qed.

Lemma wp_ex {A B} (m : M S A) (Q : A → S → B → Prop) s :
  wp m (λ a s', ∃ b, Q a s' b) s → ∃ a s' b, m s = Ok a s' ∧ Q a s' b.
Proof. intros (a & s' & ? & b & ?)%wp_run. eauto 10. Qed.
End wp.

(** ** Visiting the elements of a list

    What a loop over a data structure should amount to: its body on every
    element, in order. *)

Fixpoint visit {S A} (body : A → M S unit) (l : list A) : M S unit :=
  match l with
  | [] => mret tt
  | x :: l => body x ;; visit body l
  end.

Lemma visit_fmap {S A B} (f : A → B) (body : B → M S unit) l :
  visit body (f <$> l) = visit (λ x, body (f x)) l.
Proof. induction l as [|x l IH]; [done|]. rewrite fmap_cons. cbn [visit]. by rewrite IH. Qed.

Lemma bind_ext {S A B} (m : M S A) (f g : A → M S B) s :
  (∀ a s', m s = Ok a s' → f a s' = g a s') → (m ≫= f) s = (m ≫= g) s.
Proof. unfold mbind, M_bind. destruct (m s); naive_solver. Qed.

(** ** Relations kept by computations

    [keeps R m]: whenever [m] returns, the states before and after are related
    by [R].  For a preorder [R] this is a property of the parts of [m]. *)

Definition keeps {S A} (R : S → S → Prop) (m : M S A) : Prop := ∀ s a s', m s = Ok a s' → R s s'.

Section keeps.
Context {S : Type} (R : S → S → Prop) `{!PreOrder R}.

Lemma keeps_ret {A} (a : A) : keeps R (mret a).
Proof. intros s b s' [= _ <-]. done. Qed.

Lemma keeps_fault {A} : keeps R (fault : M S A).
Proof. by intros s b s'. Qed.

Lemma keeps_no_fuel {A} : keeps R ((λ _, NoFuel) : M S A).
Proof. by intros s b s'. Qed.

Lemma keeps_gets {A} (f : S → A) : keeps R (gets f).
Proof. intros s b s' [= _ <-]. done. Qed.

Lemma keeps_bind {A B} (m : M S A) (f : A → M S B) :
  keeps R m → (∀ a, keeps R (f a)) → keeps R (mbind f m).
Proof.
  intros Hm Hf s b s'. unfold mbind, M_bind. destruct (m s) as [a s1| |] eqn:E; intros H; try done.
  etrans; [by eapply Hm|by eapply Hf].
Qed.

Lemma keeps_when b (m : M S unit) : keeps R m → keeps R (when b m).
Proof. destruct b; [done|]. intros _. apply keeps_ret. Qed.

Lemma keeps_zoom {T A} (get : S → T) (put : T → S → S) (P : T → T → Prop) (m : M T A) :
  keeps P m → (∀ s t, P (get s) t → R s (put t s)) → keeps R (zoom get put m).
Proof.
  intros Hm Hp s a s'. unfold zoom. destruct (m (get s)) as [b t| |] eqn:E; intros H; simplify_eq.
  apply Hp. by eapply Hm.
Qed.
End keeps.

Lemma keeps_mono {S A} (R R' : S → S → Prop) (m : M S A) :
  (∀ s s', R s s' → R' s s') → keeps R m → keeps R' m.
Proof. intros HR Hm s a s' H. by eapply HR, Hm. Qed.

Lemma wp_keeps {S A} (R : S → S → Prop) (m : M S A) (Q : A → S → Prop) s :
  wp m Q s → keeps R m → wp m (λ a s', Q a s' ∧ R s s') s.
Proof. intros (a & s' & E & HQ)%wp_run Hm. eapply wp_Ok_run; [done|]. split; [done|]. by eapply Hm. Qed.

#[export] Hint Resolve keeps_ret keeps_fault keeps_no_fuel keeps_gets keeps_when : tr.

(** Follow the structure of a computation. *)
Ltac keeps :=
  repeat match goal with
  | |- keeps _ (mbind _ _) => apply keeps_bind; [typeclasses eauto| |intros ?]
  | |- keeps _ (if ?b then _ else _) => destruct b
  | |- keeps _ (match ?p with _ => _ end) => destruct p
  | |- keeps _ (let '_ := ?p in _) => destruct p
  end; eauto with tr typeclass_instances.

(** Case analysis on the integer tests of the code: on the test a computation
    is at, or on one of the goal. *)
Ltac z_destruct t :=
  match t with
  | context [?a =? ?b] => destruct (Z.eqb_spec a b)
  | context [?a <? ?b] => destruct (Z.ltb_spec a b)
  | context [?a <=? ?b] => destruct (Z.leb_spec a b)
  end.

Ltac z_case :=
  match goal with
  | |- wp (if ?t then _ else _) _ _ => z_destruct t; cbn [negb andb orb]
  | |- ?G => z_destruct G
  end.
