(* ===== verification/DList.v ===== *)
(** * The circular doubly linked list of list.h

    The nodes live in a heap from addresses to [struct list_head]; every
    pointer write of the C code is one heap write, in the code's order, and a
    dereference of an address without a live node faults.  [dlist h head l]
    says that the heap [h] represents the list [l] below the head node [head];
    the theorems show that each operation implements the corresponding
    operation on lists, touches only the nodes it should, and that the
    iteration macros visit the elements in order and end. *)

From S2P Require Import Prelude.
Local Open Scope Z_scope.

(** ** Data *)

Record list_head := ListHead { next : Z; prev : Z }.

Abbreviation lheap := (gmap Z list_head).

(** x86_64: [CONFIG_ILLEGAL_POINTER_VALUE] is 0xdead000000000000. *)
Definition POISON_POINTER_DELTA : Z := 0xdead000000000000.
Definition LIST_POISON1 : Z := 0x100 + POISON_POINTER_DELTA.
Definition LIST_POISON2 : Z := 0x200 + POISON_POINTER_DELTA.

(** ** Loads and stores *)

Definition upd_next (p v : Z) (h : lheap) : lheap := alter (λ n, ListHead v (prev n)) p h.
Definition upd_prev (p v : Z) (h : lheap) : lheap := alter (λ n, ListHead (next n) v) p h.

Definition get_next (p : Z) : M lheap Z := λ h,
  match h !! p with Some n => Ok (next n) h | None => Fault end.
Definition get_prev (p : Z) : M lheap Z := λ h,
  match h !! p with Some n => Ok (prev n) h | None => Fault end.
Definition set_next (p v : Z) : M lheap unit := λ h,
  match h !! p with Some _ => Ok tt (upd_next p v h) | None => Fault end.
Definition set_prev (p v : Z) : M lheap unit := λ h,
  match h !! p with Some _ => Ok tt (upd_prev p v h) | None => Fault end.

(** ** Operations *)

Definition INIT_LIST_HEAD (list : Z) : M lheap unit :=
  set_next list list ;;
  set_prev list list.

Definition __list_add_valid (new prev next : Z) : bool := true.
Definition __list_del_entry_valid (entry : Z) : bool := true.

Definition __list_add (new prev next : Z) : M lheap unit :=
  if negb (__list_add_valid new prev next) then mret tt else
  set_prev next new ;;
  set_next new next ;;
  set_prev new prev ;;
  set_next prev new.

Definition list_add (new head : Z) : M lheap unit :=
  n ← get_next head;
  __list_add new head n.

Definition list_add_tail (new head : Z) : M lheap unit :=
  p ← get_prev head;
  __list_add new p head.

Definition __list_del (prev next : Z) : M lheap unit :=
  set_prev next prev ;;
  set_next prev next.

Definition __list_del_entry (entry : Z) : M lheap unit :=
  if negb (__list_del_entry_valid entry) then mret tt else
  p ← get_prev entry;
  n ← get_next entry;
  __list_del p n.

Definition list_del (entry : Z) : M lheap unit :=
  __list_del_entry entry ;;
  set_next entry LIST_POISON1 ;;
  set_prev entry LIST_POISON2.

Definition list_replace (old new : Z) : M lheap unit :=
  n ← get_next old;
  set_next new n ;;
  n' ← get_next new;
  set_prev n' new ;;
  p ← get_prev old;
  set_prev new p ;;
  p' ← get_prev new;
  set_next p' new.

Definition list_replace_init (old new : Z) : M lheap unit :=
  list_replace old new ;;
  INIT_LIST_HEAD old.

Definition list_del_init (entry : Z) : M lheap unit :=
  __list_del_entry entry ;;
  INIT_LIST_HEAD entry.

Definition list_move (list head : Z) : M lheap unit :=
  __list_del_entry list ;;
  list_add list head.

Definition list_move_tail (list head : Z) : M lheap unit :=
  __list_del_entry list ;;
  list_add_tail list head.

Definition list_bulk_move_tail (head first last : Z) : M lheap unit :=
  fp ← get_prev first;
  ln ← get_next last;
  set_next fp ln ;;
  ln' ← get_next last;
  fp' ← get_prev first;
  set_prev ln' fp' ;;
  hp ← get_prev head;
  set_next hp first ;;
  hp' ← get_prev head;
  set_prev first hp' ;;
  set_next last head ;;
  set_prev head last.

Definition list_is_last (list head : Z) : M lheap bool :=
  n ← get_next list;
  mret (n =? head).

Definition list_empty (head : Z) : M lheap bool :=
  n ← get_next head;
  mret (n =? head).

Definition list_empty_careful (head : Z) : M lheap bool :=
  n ← get_next head;
  if n =? head then p ← get_prev head; mret (n =? p) else mret false.

Definition list_rotate_left (head : Z) : M lheap unit :=
  e ← list_empty head;
  if negb e then
    first ← get_next head;
    list_move_tail first head
  else mret tt.

Definition list_is_singular (head : Z) : M lheap bool :=
  e ← list_empty head;
  if negb e then
    n ← get_next head;
    p ← get_prev head;
    mret (n =? p)
  else mret false.

Definition __list_cut_position (list head entry : Z) : M lheap unit :=
  new_first ← get_next entry;
  hn ← get_next head;
  set_next list hn ;;
  ln ← get_next list;
  set_prev ln list ;;
  set_prev list entry ;;
  set_next entry list ;;
  set_next head new_first ;;
  set_prev new_first head.

Definition list_cut_position (list head entry : Z) : M lheap unit :=
  e ← list_empty head;
  if e : bool then mret tt else
  sing ← list_is_singular head;
  hn ← get_next head;
  if sing && (negb (hn =? entry) && negb (head =? entry)) then mret tt else
  if entry =? head then INIT_LIST_HEAD list
  else __list_cut_position list head entry.

Definition list_cut_before (list head entry : Z) : M lheap unit :=
  hn ← get_next head;
  if hn =? entry then INIT_LIST_HEAD list else
  hn' ← get_next head;
  set_next list hn' ;;
  ln ← get_next list;
  set_prev ln list ;;
  ep ← get_prev entry;
  set_prev list ep ;;
  lp ← get_prev list;
  set_next lp list ;;
  set_next head entry ;;
  set_prev entry head.

Definition __list_splice (list prev next : Z) : M lheap unit :=
  first ← get_next list;
  last ← get_prev list;
  set_prev first prev ;;
  set_next prev first ;;
  set_next last next ;;
  set_prev next last.

Definition list_splice (list head : Z) : M lheap unit :=
  e ← list_empty list;
  if negb e then n ← get_next head; __list_splice list head n else mret tt.

Definition list_splice_tail (list head : Z) : M lheap unit :=
  e ← list_empty list;
  if negb e then p ← get_prev head; __list_splice list p head else mret tt.

Definition list_splice_init (list head : Z) : M lheap unit :=
  e ← list_empty list;
  if negb e then
    n ← get_next head;
    __list_splice list head n ;;
    INIT_LIST_HEAD list
  else mret tt.

Definition list_splice_tail_init (list head : Z) : M lheap unit :=
  e ← list_empty list;
  if negb e then
    p ← get_prev head;
    __list_splice list p head ;;
    INIT_LIST_HEAD list
  else mret tt.

(** ** Entries and iteration

    [off] is [offsetof(type, member)]: an entry is the address of the struct
    the node is embedded in.  The loop macros are textual, so they are defined
    over any state [S] that contains the node heap ([hp]); [fuel] bounds the
    number of condition tests. *)

Definition container_of (p off : Z) : Z := p - off.
Definition list_entry (p off : Z) : Z := container_of p off.

Section iteration.
Context {S : Type} (hp : S → lheap) (off : Z).

Definition rd_next (p : Z) : M S Z := λ s,
  match hp s !! p with Some n => Ok (next n) s | None => Fault end.
Definition rd_prev (p : Z) : M S Z := λ s,
  match hp s !! p with Some n => Ok (prev n) s | None => Fault end.

Definition list_first_entry (p : Z) : M S Z := n ← rd_next p; mret (list_entry n off).
Definition list_last_entry (p : Z) : M S Z := n ← rd_prev p; mret (list_entry n off).
Definition list_first_entry_or_null (p : Z) : M S Z :=
  pos ← rd_next p;
  mret (if negb (pos =? p) then list_entry pos off else NULL).
Definition list_next_entry (pos : Z) : M S Z := n ← rd_next (pos + off); mret (list_entry n off).
Definition list_prev_entry (pos : Z) : M S Z := n ← rd_prev (pos + off); mret (list_entry n off).

(** [for (; &pos->member != (head); pos = step(pos)) body] *)
Fixpoint entry_loop (step : Z → M S Z) (fuel : nat) (pos head : Z) (body : Z → M S unit) : M S unit :=
  match fuel with
  | O => λ _, NoFuel
  | Datatypes.S fuel =>
      if pos + off =? head then mret tt else
      body pos ;;
      pos' ← step pos;
      entry_loop step fuel pos' head body
  end.

(** [for (; &pos->member != (head); pos = n, n = step(n)) body] *)
Fixpoint entry_safe_loop (step : Z → M S Z) (fuel : nat) (pos n head : Z) (body : Z → M S unit)
    : M S unit :=
  match fuel with
  | O => λ _, NoFuel
  | Datatypes.S fuel =>
      if pos + off =? head then mret tt else
      body pos ;;
      n' ← step n;
      entry_safe_loop step fuel n n' head body
  end.

Definition list_for_each_entry (fuel : nat) (head : Z) (body : Z → M S unit) : M S unit :=
  pos ← list_first_entry head;
  entry_loop list_next_entry fuel pos head body.

Definition list_for_each_entry_reverse (fuel : nat) (head : Z) (body : Z → M S unit) : M S unit :=
  pos ← list_last_entry head;
  entry_loop list_prev_entry fuel pos head body.

Definition list_for_each_entry_safe (fuel : nat) (head : Z) (body : Z → M S unit) : M S unit :=
  pos ← list_first_entry head;
  n ← list_next_entry pos;
  entry_safe_loop list_next_entry fuel pos n head body.

Definition list_for_each_entry_safe_reverse (fuel : nat) (head : Z) (body : Z → M S unit) : M S unit :=
  pos ← list_last_entry head;
  n ← list_prev_entry pos;
  entry_safe_loop list_prev_entry fuel pos n head body.
End iteration.

(** ** Representation *)

Definition nxt (h : lheap) (p : Z) : option Z := next <$> h !! p.
Definition prv (h : lheap) (p : Z) : option Z := prev <$> h !! p.

(** [a] and [b] are neighbours, and both pointers between them agree. *)
Definition link (h : lheap) (a b : Z) : Prop := nxt h a = Some b ∧ prv h b = Some a.

(** Consecutive elements of [l] are linked. *)
Fixpoint path (h : lheap) (l : list Z) : Prop :=
  match l with
  | x :: (y :: _) as l' => link h x y ∧ path h l'
  | _ => True
  end.

Definition dlist (h : lheap) (head : Z) (l : list Z) : Prop :=
  NoDup (head :: l) ∧ path h (head :: l ++ [head]).

(** Nodes outside [ns] are untouched. *)
Definition same_outside (ns : list Z) (h h' : lheap) : Prop :=
  ∀ q, q ∉ ns → h' !! q = h !! q.

(** ** Heap lemmas *)

Section heap_lemmas.
Implicit Types h : lheap.

Lemma nxt_upd_next h p v q :
  nxt (upd_next p v h) q = if decide (p = q) then (λ _, v) <$> nxt h q else nxt h q.
Proof.
  unfold nxt, upd_next. rewrite lookup_alter.
  case_decide; [subst; by destruct (h !! q)|done].
Qed.

Lemma prv_upd_prev h p v q :
  prv (upd_prev p v h) q = if decide (p = q) then (λ _, v) <$> prv h q else prv h q.
Proof.
  unfold prv, upd_prev. rewrite lookup_alter.
  case_decide; [subst; by destruct (h !! q)|done].
Qed.

Lemma nxt_upd_prev h p v q : nxt (upd_prev p v h) q = nxt h q.
Proof.
  unfold nxt, upd_prev. rewrite lookup_alter. case_decide; [subst; by destruct (h !! q)|done].
Qed.

Lemma prv_upd_next h p v q : prv (upd_next p v h) q = prv h q.
Proof.
  unfold prv, upd_next. rewrite lookup_alter. case_decide; [subst; by destruct (h !! q)|done].
Qed.

Lemma is_Some_upd_next h p v q : is_Some (upd_next p v h !! q) ↔ is_Some (h !! q).
Proof. unfold upd_next. rewrite lookup_alter. case_decide; [subst; by rewrite fmap_is_Some|done]. Qed.

Lemma is_Some_upd_prev h p v q : is_Some (upd_prev p v h !! q) ↔ is_Some (h !! q).
Proof. unfold upd_prev. rewrite lookup_alter. case_decide; [subst; by rewrite fmap_is_Some|done]. Qed.

Lemma nxt_live h p v : nxt h p = Some v → is_Some (h !! p).
Proof. unfold nxt. destruct (h !! p); naive_solver. Qed.

Lemma prv_live h p v : prv h p = Some v → is_Some (h !! p).
Proof. unfold prv. destruct (h !! p); naive_solver. Qed.

Lemma wp_get_next h p v (Q : Z → lheap → Prop) : nxt h p = Some v → Q v h → wp (get_next p) Q h.
Proof. unfold nxt, wp, get_next. destruct (h !! p); naive_solver. Qed.

Lemma wp_get_prev h p v (Q : Z → lheap → Prop) : prv h p = Some v → Q v h → wp (get_prev p) Q h.
Proof. unfold prv, wp, get_prev. destruct (h !! p); naive_solver. Qed.

Lemma wp_set_next h p v (Q : unit → lheap → Prop) :
  is_Some (h !! p) → Q tt (upd_next p v h) → wp (set_next p v) Q h.
Proof. intros [n Hn] HQ. unfold wp, set_next. by rewrite Hn. Qed.

Lemma wp_set_prev h p v (Q : unit → lheap → Prop) :
  is_Some (h !! p) → Q tt (upd_prev p v h) → wp (set_prev p v) Q h.
Proof. intros [n Hn] HQ. unfold wp, set_prev. by rewrite Hn. Qed.

Lemma path_cons2 h x y l : path h (x :: y :: l) ↔ link h x y ∧ path h (y :: l).
Proof. done. Qed.

Lemma path_app h l x k : path h (l ++ x :: k) ↔ path h (l ++ [x]) ∧ path h (x :: k).
Proof.
  induction l as [|a l IH]; simpl; [naive_solver|].
  destruct l as [|b l]; simpl in *; naive_solver.
Qed.

Lemma path_app2 h l x y k :
  path h (l ++ x :: y :: k) ↔ path h (l ++ [x]) ∧ link h x y ∧ path h (y :: k).
Proof. rewrite path_app, path_cons2. done. Qed.

Lemma path_upd_next h p v l : p ∉ removelast l → path h l → path (upd_next p v h) l.
Proof.
  induction l as [|x [|y l] IH]; intros Hp Hl; [done|done|].
  change (removelast (x :: y :: l)) with (x :: removelast (y :: l)) in Hp.
  destruct Hl as [[H1 H2] Hl]. split; [|apply IH; [set_solver|done]].
  split; [|by rewrite prv_upd_next].
  rewrite nxt_upd_next, decide_False; [done|set_solver].
Qed.

Lemma path_upd_prev h p v l : p ∉ tail l → path h l → path (upd_prev p v h) l.
Proof.
  induction l as [|x [|y l] IH]; intros Hp Hl; [done|done|].
  simpl in Hp. destruct Hl as [[H1 H2] Hl]. split; [|apply IH; [set_solver|done]].
  split; [by rewrite nxt_upd_prev|].
  rewrite prv_upd_prev, decide_False; [done|set_solver].
Qed.

Lemma same_upd_next ns h h' p v : p ∈ ns → same_outside ns h h' → same_outside ns h (upd_next p v h').
Proof.
  intros Hp H q Hq. unfold upd_next. rewrite lookup_alter, decide_False; [by apply H|set_solver].
Qed.

Lemma same_upd_prev ns h h' p v : p ∈ ns → same_outside ns h h' → same_outside ns h (upd_prev p v h').
Proof.
  intros Hp H q Hq. unfold upd_prev. rewrite lookup_alter, decide_False; [by apply H|set_solver].
Qed.

Lemma same_insert ns h h' p v : p ∈ ns → same_outside ns h h' → same_outside ns h (<[p := v]> h').
Proof. intros Hp H q Hq. rewrite lookup_insert_ne; [by apply H|]. by intros ->. Qed.

Lemma same_refl ns h : same_outside ns h h.
Proof. done. Qed.

Lemma same_outside_path ns h h' l :
  (∀ x, x ∈ l → x ∉ ns) → same_outside ns h h' → path h l → path h' l.
Proof.
  intros Hd Hs. induction l as [|x [|y l] IH]; intros Hl; [done|done|].
  destruct Hl as [[H1 H2] Hl]. split; [|apply IH; [set_solver|done]].
  unfold link, nxt, prv in *. rewrite !Hs by (apply Hd; set_solver). done.
Qed.
End heap_lemmas.

(** ** Structure of a represented list *)

Section structure.
Implicit Types h : lheap.

Lemma path_glue h a l b k :
  path h (a :: l ++ b :: k) ↔ path h (a :: l) ∧ link h (last_or a l) b ∧ path h (b :: k).
Proof.
  revert a. induction l as [|c l IH]; intros a; [simpl; naive_solver|].
  change ((c :: l) ++ b :: k) with (c :: (l ++ b :: k)).
  rewrite !path_cons2, IH, last_or_cons. naive_solver.
Qed.

Lemma snoc_hd (head : Z) l : l ++ [head] = hd_or head l :: tail (l ++ [head]).
Proof. by destruct l. Qed.

(** A represented list cut into two parts: each part is a path, and the two
    ends are linked across the cut. *)
Lemma dlist_cut h head l1 l2 :
  dlist h head (l1 ++ l2) ↔
  NoDup (head :: l1 ++ l2) ∧ path h (head :: l1) ∧
  link h (last_or head l1) (hd_or head l2) ∧ path h (l2 ++ [head]).
Proof.
  unfold dlist. rewrite <-(assoc_L (++)), (snoc_hd head l2), path_glue, <-snoc_hd. naive_solver.
Qed.

Lemma dlist_nxt h head l1 e l2 :
  dlist h head (l1 ++ e :: l2) → nxt h e = Some (hd_or head l2).
Proof.
  intros [_ Hp]. rewrite <-(assoc_L (++)) in Hp.
  change ((e :: l2) ++ [head]) with (e :: (l2 ++ [head])) in Hp.
  rewrite path_glue, (snoc_hd head l2), path_cons2 in Hp. apply Hp.
Qed.

Lemma dlist_prv h head l1 e l2 :
  dlist h head (l1 ++ e :: l2) → prv h e = Some (last_or head l1).
Proof. intros (_ & _ & [_ H] & _)%dlist_cut. exact H. Qed.

Lemma dlist_head_nxt h head l : dlist h head l → nxt h head = Some (hd_or head l).
Proof. intros (_ & _ & [H _] & _)%(dlist_cut h head [] l). exact H. Qed.

Lemma dlist_head_prv h head l : dlist h head l → prv h head = Some (last_or head l).
Proof.
  intros H. rewrite <-(app_nil_r l) in H.
  apply dlist_cut in H as (_ & _ & [_ H] & _). exact H.
Qed.

Lemma dlist_live h head l x : dlist h head l → x ∈ head :: l → is_Some (h !! x).
Proof.
  intros Hd [->|Hx]%elem_of_cons; [eapply nxt_live, dlist_head_nxt, Hd|].
  apply list_elem_of_split in Hx as (l1 & l2 & ->). eapply nxt_live, dlist_nxt, Hd.
Qed.

Lemma last_or_in (head : Z) l : last_or head l ∈ head :: l.
Proof. destruct (last_or_elem head l) as [->|]; set_solver. Qed.

Lemma hd_or_in (head : Z) l : hd_or head l ∈ head :: l.
Proof. destruct (hd_or_elem head l) as [->|]; set_solver. Qed.

Lemma NoDup_cut (head : Z) l1 l2 :
  NoDup (head :: l1 ++ l2) ↔
  (head ∉ l1) ∧ (head ∉ l2) ∧ NoDup l1 ∧ NoDup l2 ∧ ∀ x, x ∈ l1 → x ∉ l2.
Proof. rewrite NoDup_cons, NoDup_app, elem_of_app. naive_solver. Qed.

Lemma NoDup_mid head l1 (e : Z) l2 :
  NoDup (head :: l1 ++ e :: l2) → NoDup (head :: l1 ++ l2) ∧ e ∉ head :: l1 ++ l2.
Proof.
  intros (?&?&?&[? ?]%NoDup_cons&?)%NoDup_cut. split; [apply NoDup_cut; split_and!|]; set_solver.
Qed.
(** The ends of the two parts of a cut list. *)
Lemma cut_ends (head : Z) l1 l2 :
  NoDup (head :: l1 ++ l2) →
  (last_or head l1 ∉ l2) ∧ (hd_or head l2 ∉ l1) ∧
  (last_or head l1 ∉ removelast (head :: l1)) ∧ (hd_or head l2 ∉ tail (l2 ++ [head])).
Proof.
  intros (H1 & H2 & Hn1 & Hn2 & Hd)%NoDup_cut. split_and!.
  - destruct (last_or_elem head l1) as [->|?]; auto.
  - destruct (hd_or_elem head l2) as [->|?]; [auto|]. intros ?. by eapply Hd.
  - apply NoDup_last_or. by constructor.
  - apply NoDup_hd_or_tail. apply NoDup_app. split; [done|].
    split; [set_solver|apply NoDup_singleton].
Qed.

Lemma cut_ends_in (head : Z) l1 l2 :
  (last_or head l1 ∈ head :: l1 ++ l2) ∧ (hd_or head l2 ∈ head :: l1 ++ l2).
Proof.
  destruct (last_or_elem head l1) as [->|]; destruct (hd_or_elem head l2) as [->|]; set_solver.
Qed.

Lemma cut_ends_ne (head : Z) l1 l2 x :
  x ∉ head :: l1 ++ l2 → x ≠ last_or head l1 ∧ x ≠ hd_or head l2.
Proof.
  intros Hx. pose proof (last_or_in head l1). pose proof (hd_or_in head l2).
  split; intros ->; set_solver.
Qed.
End structure.

(** Side conditions of [path_upd_next] and [path_upd_prev]. *)
Ltac dl_notin :=
  repeat match goal with
  | |- _ ∉ removelast (_ ++ [_]) => rewrite removelast_snoc
  | |- _ ∉ _ => intros Hin; first
      [ contradiction
      | apply elem_of_removelast in Hin; contradiction
      | apply elem_of_tail in Hin; contradiction
      | apply elem_of_removelast in Hin; set_solver
      | apply elem_of_tail in Hin; set_solver
      | set_solver ]
  end.

Ltac dl_path :=
  repeat first
    [ apply path_upd_next; [try assumption; dl_notin|]
    | apply path_upd_prev; [try assumption; dl_notin|] ];
  try assumption.

Ltac dl_lookup :=
  repeat first
    [ rewrite nxt_upd_prev
    | rewrite prv_upd_next
    | rewrite nxt_upd_next; case_decide; simplify_eq
    | rewrite prv_upd_prev; case_decide; simplify_eq
    | progress match goal with H : nxt _ _ = _ |- _ => rewrite H end
    | progress match goal with H : prv _ _ = _ |- _ => rewrite H end ];
  try done.

Ltac dl_in := first [assumption | apply list_elem_of_here | apply list_elem_of_further; dl_in].

Ltac dl_same :=
  repeat first [apply same_upd_next; [dl_in|] | apply same_upd_prev; [dl_in|]];
  apply same_refl.

Ltac dl_live :=
  repeat first [rewrite is_Some_upd_next | rewrite is_Some_upd_prev];
  eauto using nxt_live, prv_live.

(** One instruction of the list code. *)
Ltac dl_step :=
  first
    [ apply wp_bind
    | eapply wp_get_next; [first [eassumption | dl_lookup; congruence]|]
    | eapply wp_get_prev; [first [eassumption | dl_lookup; congruence]|]
    | apply wp_set_next; [dl_live|]
    | apply wp_set_prev; [dl_live|]
    | apply wp_ret ].

Section operations.
Implicit Types h : lheap.

Lemma live_nxt h p : is_Some (h !! p) → ∃ v, nxt h p = Some v.
Proof. intros [n Hn]. exists (next n). unfold nxt. by rewrite Hn. Qed.

Lemma live_prv h p : is_Some (h !! p) → ∃ v, prv h p = Some v.
Proof. intros [n Hn]. exists (prev n). unfold prv. by rewrite Hn. Qed.

Lemma wp_INIT_LIST_HEAD h p :
  is_Some (h !! p) →
  wp (INIT_LIST_HEAD p) (λ _ h', h' = upd_prev p p (upd_next p p h)) h.
Proof. intros Hl. unfold INIT_LIST_HEAD. repeat dl_step. done. Qed.

Lemma dlist_init h p : is_Some (h !! p) → dlist (upd_prev p p (upd_next p p h)) p [].
Proof.
  intros Hl. destruct (live_nxt h p Hl) as [v Hv]. destruct (live_prv h p Hl) as [w Hw].
  split; [apply NoDup_singleton|]. simpl. split; [|done]. split; dl_lookup.
Qed.

Lemma wp_list_add_between h head l1 l2 new :
  dlist h head (l1 ++ l2) → is_Some (h !! new) → new ∉ head :: l1 ++ l2 →
  wp (__list_add new (last_or head l1) (hd_or head l2))
     (λ _ h', dlist h' head (l1 ++ new :: l2) ∧ same_outside (new :: head :: l1 ++ l2) h h') h.
Proof.
  intros Hd Hlive Hnew. pose proof Hd as (Hnd & P1 & [Lf Lb] & P2)%dlist_cut.
  destruct (cut_ends head l1 l2 Hnd) as (E1 & E2 & E3 & E4).
  destruct (cut_ends_ne head l1 l2 new Hnew) as [N1 N2].
  destruct (live_nxt h new Hlive) as [nn Hnn]. destruct (live_prv h new Hlive) as [np Hnp].
  unfold __list_add. simpl. repeat dl_step.
  pose proof Hnd as (H1 & H2 & Hn1 & Hn2 & Hdis)%NoDup_cut.
  split.
  - apply dlist_cut. split; [apply NoDup_cut; split_and!; try done|].
    { set_solver. } { constructor; set_solver. } { set_solver. }
    split; [dl_path|]. split.
    { change (hd_or head (new :: l2)) with new.
      split; dl_lookup; congruence. }
    change ((new :: l2) ++ [head]) with (new :: (l2 ++ [head])).
    rewrite snoc_hd, path_cons2, <-snoc_hd. split; [|dl_path].
    split; dl_lookup; congruence.
  - destruct (cut_ends_in head l1 l2). dl_same.
Qed.

Lemma wp_list_add h head l new :
  dlist h head l → is_Some (h !! new) → new ∉ head :: l →
  wp (list_add new head) (λ _ h', dlist h' head (new :: l) ∧ same_outside (new :: head :: l) h h') h.
Proof.
  intros Hd Hlive Hnew. unfold list_add. apply wp_bind.
  eapply wp_get_next; [by apply dlist_head_nxt|].
  exact (wp_list_add_between h head [] l new Hd Hlive Hnew).
Qed.

Lemma wp_list_add_tail h head l new :
  dlist h head l → is_Some (h !! new) → new ∉ head :: l →
  wp (list_add_tail new head)
     (λ _ h', dlist h' head (l ++ [new]) ∧ same_outside (new :: head :: l) h h') h.
Proof.
  intros Hd Hlive Hnew. unfold list_add_tail. apply wp_bind.
  eapply wp_get_prev; [by apply dlist_head_prv|].
  pose proof (wp_list_add_between h head l [] new) as H. rewrite !app_nil_r in H. by apply H.
Qed.

Lemma wp_list_del_entry h head l1 e l2 :
  dlist h head (l1 ++ e :: l2) →
  wp (__list_del_entry e) (λ _ h', dlist h' head (l1 ++ l2) ∧ same_outside (head :: l1 ++ l2) h h') h.
Proof.
  intros Hd. pose proof (dlist_prv _ _ _ _ _ Hd) as Hp. pose proof (dlist_nxt _ _ _ _ _ Hd) as Hn.
  pose proof Hd as (Hnd & P1 & [Lf _] & P2)%dlist_cut.
  change ((e :: l2) ++ [head]) with (e :: (l2 ++ [head])) in P2.
  rewrite snoc_hd, path_cons2, <-snoc_hd in P2. destruct P2 as [[_ Lb] P2].
  destruct (NoDup_mid _ _ _ _ Hnd) as [Hnd' _].
  destruct (cut_ends head l1 l2 Hnd') as (E1 & E2 & E3 & E4).
  unfold __list_del_entry, __list_del. simpl. repeat dl_step. split.
  - apply dlist_cut. split; [done|]. split; [dl_path|]. split; [|dl_path].
    split; dl_lookup.
  - destruct (cut_ends_in head l1 l2). dl_same.
Qed.

Lemma same_outside_trans ns ms h h' h'' :
  same_outside ns h h' → same_outside ms h' h'' → same_outside (ns ++ ms) h h''.
Proof. intros H1 H2 q Hq. rewrite H2, H1; set_solver. Qed.

Lemma same_outside_mono ns ms h h' : ns ⊆ ms → same_outside ns h h' → same_outside ms h h'.
Proof. intros Hs H q Hq. apply H. set_solver. Qed.

Lemma dlist_same_outside h h' ns head l :
  (∀ x, x ∈ head :: l → x ∉ ns) → same_outside ns h h' → dlist h head l → dlist h' head l.
Proof.
  intros Hx Hs [Hn Hp]. split; [done|]. eapply same_outside_path; [|done|done]. set_solver.
Qed.

Lemma wp_list_del h head l1 e l2 :
  dlist h head (l1 ++ e :: l2) →
  wp (list_del e)
     (λ _ h', dlist h' head (l1 ++ l2) ∧ h' !! e = Some (ListHead LIST_POISON1 LIST_POISON2) ∧
              same_outside (head :: l1 ++ e :: l2) h h') h.
Proof.
  intros Hd. unfold list_del. apply wp_bind.
  pose proof Hd as [[_ He]%NoDup_mid _].
  eapply wp_mono; [by apply wp_list_del_entry|]. intros [] h1 [Hd1 Hs1].
  assert (is_Some (h1 !! e)) as [n Hlive].
  { rewrite Hs1 by done. eapply dlist_live; [done|set_solver]. }
  repeat dl_step. split_and!.
  - eapply dlist_same_outside; [|dl_same|exact Hd1]. instantiate (1 := [e]). set_solver.
  - unfold upd_prev, upd_next. rewrite lookup_alter, decide_True by done.
    rewrite lookup_alter, decide_True by done. by rewrite Hlive.
  - eapply same_outside_mono; [|eapply same_outside_trans; [exact Hs1|]].
    2: { instantiate (1 := [e]). dl_same. }
    set_solver.
Qed.


(** An entry that is linked to itself only. *)
Lemma wp_list_del_self h e :
  dlist h e [] → wp (list_del e) (λ _ h', same_outside [e] h h') h.
Proof.
  intros Hd. pose proof (dlist_head_nxt _ _ _ Hd) as Hn. pose proof (dlist_head_prv _ _ _ Hd) as Hp.
  change (hd_or e []) with e in Hn. change (last_or e []) with e in Hp.
  unfold list_del, __list_del_entry, __list_del, __list_del_entry_valid. simpl.
  repeat dl_step. dl_same.
Qed.

Lemma dlist_delete h x head l : x ∉ head :: l → dlist h head l → dlist (delete x h) head l.
Proof.
  intros Hx. apply (dlist_same_outside _ _ [x]).
  - intros y Hy ->%list_elem_of_singleton. done.
  - intros q Hq. rewrite lookup_delete_ne; [done|]. intros ->. apply Hq. set_solver.
Qed.

Lemma wp_list_replace h head l1 old l2 new :
  dlist h head (l1 ++ old :: l2) → is_Some (h !! new) → new ∉ head :: l1 ++ old :: l2 →
  wp (list_replace old new)
     (λ _ h', dlist h' head (l1 ++ new :: l2) ∧ h' !! old = h !! old ∧
              same_outside (new :: head :: l1 ++ l2) h h') h.
Proof.
  intros Hd Hlive Hnew. pose proof (dlist_prv _ _ _ _ _ Hd) as Hp. pose proof (dlist_nxt _ _ _ _ _ Hd) as Hn.
  pose proof Hd as (Hnd & P1 & [Lf _] & P2)%dlist_cut.
  change ((old :: l2) ++ [head]) with (old :: (l2 ++ [head])) in P2.
  rewrite snoc_hd, path_cons2, <-snoc_hd in P2. destruct P2 as [[_ Lb] P2].
  destruct (NoDup_mid _ _ _ _ Hnd) as [Hnd' Hold].
  assert ((new ∉ head :: l1 ++ l2) ∧ new ≠ old) as [Hnew' Hno] by set_solver.
  destruct (cut_ends head l1 l2 Hnd') as (E1 & E2 & E3 & E4).
  destruct (cut_ends_ne head l1 l2 new Hnew') as [N1 N2].
  destruct (cut_ends_ne head l1 l2 old Hold) as [O1 O2].
  destruct (live_nxt h new Hlive) as [nn Hnn]. destruct (live_prv h new Hlive) as [np Hnp].
  unfold list_replace. repeat dl_step.
  pose proof Hnd' as (H1 & H2 & Hn1 & Hn2 & Hdis)%NoDup_cut.
  assert (∀ h', same_outside (new :: head :: l1 ++ l2) h h' → h' !! old = h !! old) as Hsame
    by (intros h' Hs; apply Hs; set_solver).
  split; [|split; [apply Hsame|]; destruct (cut_ends_in head l1 l2); dl_same].
  apply dlist_cut. split; [apply NoDup_cut; split_and!; try done|].
  { set_solver. } { constructor; set_solver. } { set_solver. }
  split; [dl_path|]. split.
  { change (hd_or head (new :: l2)) with new. split; dl_lookup; congruence. }
  change ((new :: l2) ++ [head]) with (new :: (l2 ++ [head])).
  rewrite snoc_hd, path_cons2, <-snoc_hd. split; [|dl_path].
  split; dl_lookup; congruence.
Qed.

Lemma wp_list_move_tail h head l1 e l2 :
  dlist h head (l1 ++ e :: l2) →
  wp (list_move_tail e head)
     (λ _ h', dlist h' head (l1 ++ l2 ++ [e]) ∧ same_outside (head :: l1 ++ e :: l2) h h') h.
Proof.
  intros Hd. unfold list_move_tail. apply wp_bind.
  pose proof Hd as [[_ He]%NoDup_mid _].
  eapply wp_mono; [by apply wp_list_del_entry|]. intros [] h1 [Hd1 Hs1].
  assert (is_Some (h1 !! e)) as Hlive.
  { rewrite Hs1 by done. eapply dlist_live; [done|set_solver]. }
  eapply wp_mono; [by apply wp_list_add_tail|]. intros [] h2 [Hd2 Hs2].
  rewrite (assoc_L (++)). split; [done|].
  eapply same_outside_mono; [|by eapply same_outside_trans]. set_solver.
Qed.

Lemma wp_list_empty h head l :
  dlist h head l → wp (list_empty head) (λ b h', b = bool_decide (l = []) ∧ h' = h) h.
Proof.
  intros Hd. unfold list_empty. apply wp_bind. eapply wp_get_next; [by apply dlist_head_nxt|].
  apply wp_ret. split; [|done]. destruct l as [|x l].
  - case_bool_decide; [apply Z.eqb_refl|done].
  - case_bool_decide; [done|]. apply Z.eqb_neq. destruct Hd as [[Hh _]%NoDup_cons _]. set_solver.
Qed.

Lemma wp_list_rotate_left h head l :
  dlist h head l →
  wp (list_rotate_left head)
     (λ _ h', dlist h' head (tail l ++ take 1 l) ∧ same_outside (head :: l) h h') h.
Proof.
  intros Hd. unfold list_rotate_left. apply wp_bind.
  eapply wp_mono; [by apply wp_list_empty|]. intros b h' [-> ->].
  case_bool_decide as E; simpl; [by subst|]. destruct l as [|x l]; [done|].
  apply wp_bind. eapply wp_get_next; [by apply dlist_head_nxt|].
  exact (wp_list_move_tail h head [] x l Hd).
Qed.

(** The nodes of [k] below [list], joined in between [l1] and [l2] below [head]. *)
Lemma wp_list_splice_between h list x k head l1 l2 :
  dlist h list (x :: k) → dlist h head (l1 ++ l2) →
  (∀ y, y ∈ list :: x :: k → y ∉ head :: l1 ++ l2) →
  wp (__list_splice list (last_or head l1) (hd_or head l2))
     (λ _ h', dlist h' head (l1 ++ (x :: k) ++ l2) ∧
              same_outside (head :: x :: k ++ l1 ++ l2) h h') h.
Proof.
  intros Hk Hd Hdisj. pose proof Hd as (Hnd & P1 & [Lf Lb] & P2)%dlist_cut.
  pose proof (dlist_head_nxt _ _ _ Hk) as Kn. pose proof (dlist_head_prv _ _ _ Hk) as Kp.
  change (hd_or list (x :: k)) with x in Kn. rewrite last_or_cons in Kp.
  pose proof Hk as [Hkn Hkp]. pose proof Hkn as [_ Hkn']%NoDup_cons.
  change ((x :: k) ++ [list]) with (x :: (k ++ [list])) in Hkp.
  rewrite path_cons2, path_glue in Hkp. destruct Hkp as [[_ Kx] (PK & [Kl _] & _)].
  destruct (cut_ends head l1 l2 Hnd) as (E1 & E2 & E3 & E4).
  pose proof (NoDup_last_or x k Hkn') as E5. pose proof (last_or_in x k) as Hlast.
  assert ((last_or x k ∉ head :: l1 ++ l2) ∧ (x ∉ head :: l1 ++ l2)) as [HL HX].
  { split; apply Hdisj; [by apply list_elem_of_further|set_solver]. }
  destruct (cut_ends_ne head l1 l2 _ HL) as [N1 N2]. destruct (cut_ends_ne head l1 l2 _ HX) as [N3 N4].
  assert ((last_or head l1 ∉ x :: k) ∧ (hd_or head l2 ∉ x :: k)) as [D1 D2].
  { destruct (cut_ends_in head l1 l2) as [I1 I2].
    split; intros Hin; (eapply Hdisj; [apply list_elem_of_further; exact Hin|done]). }
  unfold __list_splice. repeat dl_step.
  pose proof Hnd as (H1 & H2 & Hn1 & Hn2 & Hdis)%NoDup_cut.
  pose proof Hkn' as [Hxk Hkk]%NoDup_cons.
  clear Hlast. split.
  - apply dlist_cut. split.
    { apply NoDup_cut. split_and!; try done.
      - set_solver.
      - apply NoDup_app. split; [done|]. split; [|done]. intros y Hy. pose proof (Hdisj y). set_solver.
      - intros y Hy. pose proof (Hdisj y). set_solver. }
    split; [dl_path|]. split.
    { change (hd_or head ((x :: k) ++ l2)) with x. split; dl_lookup; congruence. }
    rewrite <-(assoc_L (++)). change ((x :: k) ++ (l2 ++ [head])) with (x :: (k ++ (l2 ++ [head]))).
    rewrite snoc_hd, path_glue, <-snoc_hd. split_and!; [dl_path| |dl_path].
    split; dl_lookup; congruence.
  - destruct (cut_ends_in head l1 l2) as [I1 I2]. pose proof (last_or_in x k) as I3.
    assert (∀ y, (y ∈ head :: l1 ++ l2) → y ∈ head :: x :: k ++ l1 ++ l2) as J1 by set_solver.
    assert (∀ y, (y ∈ x :: k) → y ∈ head :: x :: k ++ l1 ++ l2) as J2 by set_solver.
    apply J1 in I1, I2. apply J2 in I3. dl_same.
Qed.

Lemma wp_list_splice h list k head l :
  dlist h list k → dlist h head l → (∀ y, y ∈ list :: k → y ∉ head :: l) →
  wp (list_splice list head) (λ _ h', dlist h' head (k ++ l) ∧ same_outside (head :: k ++ l) h h') h.
Proof.
  intros Hk Hd Hdisj. unfold list_splice. apply wp_bind.
  eapply wp_mono; [by apply wp_list_empty|]. intros b h' [-> ->].
  case_bool_decide as E; simpl; [by subst|]. destruct k as [|x k]; [done|].
  apply wp_bind. eapply wp_get_next; [by apply dlist_head_nxt|].
  exact (wp_list_splice_between h list x k head [] l Hk Hd Hdisj).
Qed.

Lemma wp_list_splice_tail h list k head l :
  dlist h list k → dlist h head l → (∀ y, y ∈ list :: k → y ∉ head :: l) →
  wp (list_splice_tail list head)
     (λ _ h', dlist h' head (l ++ k) ∧ same_outside (head :: k ++ l) h h') h.
Proof.
  intros Hk Hd Hdisj. unfold list_splice_tail. apply wp_bind.
  eapply wp_mono; [by apply wp_list_empty|]. intros b h' [-> ->].
  case_bool_decide as E; simpl; [subst; by rewrite app_nil_r|]. destruct k as [|x k]; [done|].
  apply wp_bind. eapply wp_get_prev; [by apply dlist_head_prv|].
  pose proof (wp_list_splice_between h list x k head l []) as H. rewrite !app_nil_r in H.
  by apply H.
Qed.

Lemma wp_list_splice_tail_init h list k head l :
  dlist h list k → dlist h head l → (∀ y, y ∈ list :: k → y ∉ head :: l) →
  wp (list_splice_tail_init list head)
     (λ _ h', dlist h' head (l ++ k) ∧ dlist h' list [] ∧ same_outside (list :: head :: k ++ l) h h') h.
Proof.
  intros Hk Hd Hdisj. unfold list_splice_tail_init. apply wp_bind.
  eapply wp_mono; [by apply wp_list_empty|]. intros b h' [-> ->].
  case_bool_decide as E; simpl; [subst; by rewrite app_nil_r|]. destruct k as [|x k]; [done|].
  assert (list ∉ head :: (x :: k) ++ l) as Hnl.
  { destruct Hk as [[? _]%NoDup_cons _]. specialize (Hdisj list). set_solver. }
  apply wp_bind. eapply wp_get_prev; [by apply dlist_head_prv|]. apply wp_bind.
  pose proof (wp_list_splice_between h list x k head l []) as H. rewrite !app_nil_r in H.
  eapply wp_mono; [by apply H|]. intros [] h3 [H1 H2].
  assert (is_Some (h3 !! list)) as Hlive.
  { rewrite H2 by done. eapply dlist_live; [exact Hk|set_solver]. }
  eapply wp_mono; [by apply wp_INIT_LIST_HEAD|]. intros [] h4 ->. split_and!.
  - eapply dlist_same_outside; [|dl_same|exact H1]. instantiate (1 := [list]). set_solver.
  - by apply dlist_init.
  - eapply same_outside_mono; [|eapply same_outside_trans; [exact H2|]].
    2: { instantiate (1 := [list]). dl_same. }
    set_solver.
Qed.

(** The first part of the list below [head], up to and with [last_or x k],
    moved below [list]. *)
Lemma wp_list_cut_position h list head x k l :
  dlist h head (x :: k ++ l) → is_Some (h !! list) → list ∉ head :: x :: k ++ l →
  wp (list_cut_position list head (last_or x k))
     (λ _ h', dlist h' list (x :: k) ∧ dlist h' head l ∧
              same_outside (list :: head :: x :: k ++ l) h h') h.
Proof.
  intros Hd Hlive Hnl.
  pose proof (dlist_head_nxt _ _ _ Hd) as Hn. change (hd_or head (x :: k ++ l)) with x in Hn.
  pose proof (dlist_head_prv _ _ _ Hd) as Hp.
  pose proof Hd as (Hnd & P1 & [Lf Lb] & P2)%(dlist_cut h head (x :: k) l).
  rewrite path_cons2 in P1. destruct P1 as [[_ Lx] PK]. rewrite last_or_cons in Lf, Lb.
  pose proof Hnd as (H1 & H2 & Hn1 & Hn2 & Hdis)%(NoDup_cut head (x :: k) l).
  destruct (cut_ends head (x :: k) l Hnd) as (E1 & E2 & _ & E4). rewrite last_or_cons in E1.
  pose proof (NoDup_last_or x k Hn1) as E3. pose proof (last_or_in x k) as I1.
  assert (last_or x k ≠ head) as Nh by (intros Eh; rewrite Eh in I1; done).
  destruct (cut_ends_ne head (x :: k) l list Hnl) as [N1 N2]. rewrite last_or_cons in N1.
  assert (list ≠ head ∧ list ≠ x ∧ hd_or head l ≠ x) as (N3 & N4 & N5)
    by (clear - Hnl E2; split_and!; intros E; [set_solver|set_solver|apply E2; rewrite E; constructor]).
  destruct (live_nxt h list Hlive) as [nn Hnn]. destruct (live_prv h list Hlive) as [np Hnp].
  unfold list_cut_position. apply wp_bind.
  eapply wp_mono; [by apply wp_list_empty|]. intros b h' [-> ->]. rewrite bool_decide_false by done.
  unfold list_is_singular. apply wp_bind, wp_bind.
  eapply wp_mono; [by apply wp_list_empty|]. intros b h' [-> ->]. rewrite bool_decide_false by done.
  simpl. repeat dl_step. destruct (_ && _) eqn:Eg.
  { exfalso. apply andb_prop in Eg as [Es%Z.eqb_eq [Ex%negb_true_iff%Z.eqb_neq _]%andb_prop].
    apply Ex. rewrite last_or_cons, last_or_app in Es. pose proof (last_or_elem (last_or x k) l) as [E|E].
    - by rewrite E in Es.
    - rewrite <-Es in E. exfalso. eapply Hdis; [|exact E]. constructor. }
  replace (last_or x k =? head) with false by (symmetry; by apply Z.eqb_neq).
  pose proof Hn1 as [Hxk _]%NoDup_cons.
  assert ((list ∉ x :: k) ∧ (list ∉ l ++ [head]) ∧ (list ∉ l) ∧ (x ∉ l ++ [head])) as (F1 & F2 & F3 & F4)
    by (clear - Hnl Hnd; apply NoDup_cons in Hnd as [? [? _]%NoDup_cons]; set_solver).
  unfold __list_cut_position. repeat dl_step. clear I1. split_and!.
  - split; [apply NoDup_cons; split; [clear - Hnl; set_solver|done]|].
    change ((x :: k) ++ [list]) with (x :: (k ++ [list])). rewrite path_cons2, path_glue.
    split; [split; dl_lookup; congruence|]. split; [dl_path|].
    split; [split; dl_lookup; congruence|done].
  - apply (dlist_cut _ head [] l). split; [by apply NoDup_cons|].
    split; [done|]. split; [|dl_path]. rewrite last_or_nil. split; dl_lookup; congruence.
  - destruct (cut_ends_in head (x :: k) l) as [I2 I3]. rewrite last_or_cons in I2. dl_same.
Qed.
End operations.

(** ** Iteration *)

Section iteration_specs.
Context {S : Type} (hp : S → lheap) (off : Z).
Implicit Types s : S.

Lemma wp_rd_next s p v (Q : Z → S → Prop) : nxt (hp s) p = Some v → Q v s → wp (rd_next hp p) Q s.
Proof. unfold nxt, wp, rd_next. destruct (hp s !! p); naive_solver. Qed.

Lemma wp_list_next_entry s p v (Q : Z → S → Prop) :
  nxt (hp s) (p + off) = Some v → Q (v - off) s → wp (list_next_entry hp off p) Q s.
Proof. intros. apply wp_bind. eapply wp_rd_next; [done|]. by apply wp_ret. Qed.

Lemma wp_list_first_entry s p v (Q : Z → S → Prop) :
  nxt (hp s) p = Some v → Q (v - off) s → wp (list_first_entry hp off p) Q s.
Proof. intros. apply wp_bind. eapply wp_rd_next; [done|]. by apply wp_ret. Qed.

Section loops.
Context (head : Z) (body : Z → M S unit).

Lemma eqb_head_cons x rest l vis :
  NoDup (head :: l) → l = vis ++ x :: rest → (x - off + off =? head) = false.
Proof.
  intros [H _]%NoDup_cons ->. apply Z.eqb_neq. replace (x - off + off) with x by lia. set_solver.
Qed.

Lemma wp_entry_loop (l : list Z) (I : list Z → S → Prop) :
  NoDup (head :: l) → (∀ vis s, I vis s → dlist (hp s) head l) →
  (∀ vis x rest s, l = vis ++ x :: rest → I vis s →
     wp (body (x - off)) (λ _ s', I (vis ++ [x]) s') s) →
  ∀ fuel vis rest s, l = vis ++ rest → I vis s → (length rest < fuel)%nat →
  wp (entry_loop off (list_next_entry hp off) fuel (hd_or head rest - off) head body)
     (λ _ s', I l s') s.
Proof.
  intros Hnd Hdl Hbody. induction fuel as [|fuel IH]; intros vis rest s El HI Hf; [lia|]. simpl.
  destruct rest as [|x rest].
  { change (hd_or head []) with head. replace (head - off + off) with head by lia.
    rewrite Z.eqb_refl, app_nil_r in *. apply wp_ret. by subst. }
  change (hd_or head (x :: rest)) with x. rewrite (eqb_head_cons x rest l vis) by done.
  apply wp_bind. eapply wp_mono; [by eapply Hbody|]. intros [] s' HI'. apply wp_bind.
  eapply wp_list_next_entry.
  { replace (x - off + off) with x by lia. eapply (dlist_nxt _ head vis x rest).
    rewrite <-El. by eapply Hdl. }
  eapply IH; [|done|simpl in Hf; lia]. by rewrite <-(assoc_L (++)).
Qed.

(** [list_for_each_entry] visits the elements in order and ends, if its body
    keeps the list.  [I vis s]: the state after the elements [vis]. *)
Lemma wp_list_for_each_entry (l : list Z) (I : list Z → S → Prop) fuel s :
  NoDup (head :: l) → (∀ vis s, I vis s → dlist (hp s) head l) →
  (∀ vis x rest s, l = vis ++ x :: rest → I vis s →
     wp (body (x - off)) (λ _ s', I (vis ++ [x]) s') s) →
  I [] s → (length l < fuel)%nat →
  wp (list_for_each_entry hp off fuel head body) (λ _ s', I l s') s.
Proof.
  intros Hnd Hdl Hbody HI Hf. apply wp_bind.
  eapply wp_list_first_entry; [eapply dlist_head_nxt; by eapply Hdl|].
  by eapply (wp_entry_loop l I Hnd Hdl Hbody fuel []).
Qed.

Lemma path_hd_nxt h rest :
  path h (rest ++ [head]) → is_Some (h !! head) →
  ∃ v, nxt h (hd_or head rest) = Some v ∧ (rest ≠ [] → v = hd_or head (tail rest)).
Proof.
  intros Hp Hl. destruct rest as [|y rest].
  - destruct (live_nxt _ _ Hl) as [v Hv]. by exists v.
  - exists (hd_or head rest). split; [|done].
    change ((y :: rest) ++ [head]) with (y :: (rest ++ [head])) in Hp.
    rewrite snoc_hd, path_cons2 in Hp. apply Hp.
Qed.

(** [I vis rest s]: the state after the elements [vis], with [rest] to visit. *)
Lemma wp_entry_safe_loop (l : list Z) (I : list Z → list Z → S → Prop) :
  NoDup (head :: l) →
  (∀ vis rest s, I vis rest s → path (hp s) (rest ++ [head]) ∧ is_Some (hp s !! head)) →
  (∀ vis x rest s, l = vis ++ x :: rest → I vis (x :: rest) s →
     wp (body (x - off)) (λ _ s', I (vis ++ [x]) rest s') s) →
  ∀ fuel vis rest n s, l = vis ++ rest → I vis rest s → (length rest < fuel)%nat →
  (rest ≠ [] → n = hd_or head (tail rest)) →
  wp (entry_safe_loop off (list_next_entry hp off) fuel (hd_or head rest - off) (n - off) head body)
     (λ _ s', I l [] s') s.
Proof.
  intros Hnd Hpath Hbody. induction fuel as [|fuel IH]; intros vis rest n s El HI Hf Hn; [lia|].
  simpl. destruct rest as [|x rest].
  { change (hd_or head []) with head. replace (head - off + off) with head by lia.
    rewrite Z.eqb_refl, app_nil_r in *. apply wp_ret. by subst. }
  change (hd_or head (x :: rest)) with x. rewrite (eqb_head_cons x rest l vis) by done.
  rewrite Hn by done. change (tail (x :: rest)) with rest. clear n Hn.
  apply wp_bind. eapply wp_mono; [by eapply Hbody|]. intros [] s' HI'. apply wp_bind.
  destruct (Hpath _ _ _ HI') as [Hp Hl]. destruct (path_hd_nxt _ _ Hp Hl) as (v & Hv & Hvn).
  eapply wp_list_next_entry; [by replace (hd_or head rest - off + off) with (hd_or head rest) by lia|].
  eapply IH; [|done|simpl in Hf; lia|done]. by rewrite <-(assoc_L (++)).
Qed.

(** [list_for_each_entry_safe] visits the elements in order and ends, even
    when its body unlinks or frees the current element, as long as the
    elements still to visit stay linked up to the head. *)
Lemma wp_list_for_each_entry_safe (l : list Z) (I : list Z → list Z → S → Prop) fuel s :
  NoDup (head :: l) →
  (∀ vis rest s, I vis rest s → path (hp s) (rest ++ [head]) ∧ is_Some (hp s !! head)) →
  (∀ vis x rest s, l = vis ++ x :: rest → I vis (x :: rest) s →
     wp (body (x - off)) (λ _ s', I (vis ++ [x]) rest s') s) →
  I [] l s → dlist (hp s) head l → (length l < fuel)%nat →
  wp (list_for_each_entry_safe hp off fuel head body) (λ _ s', I l [] s') s.
Proof.
  intros Hnd Hpath Hbody HI Hdl Hf. apply wp_bind.
  eapply wp_list_first_entry; [by eapply dlist_head_nxt|]. apply wp_bind.
  destruct (Hpath _ _ _ HI) as [Hp Hl]. destruct (path_hd_nxt _ _ Hp Hl) as (v & Hv & Hvn).
  eapply wp_list_next_entry; [by replace (hd_or head l - off + off) with (hd_or head l) by lia|].
  by eapply (wp_entry_safe_loop l I Hnd Hpath Hbody fuel [] l).
Qed.
End loops.
End iteration_specs.
