(* ===== verification/ListSpec.v ===== *)
(** * list.h against lists

    The circular lists of list.h implement sequences: a run of operations and
    queries on the heap of nodes follows the run of the corresponding functions
    on lists, with the same answers, no operation allocates or frees a node,
    and cutting a prefix off and splicing it back restores the list. *)

From S2P Require Import Prelude DList.
Local Open Scope Z_scope.

(** ** The other operations on one list *)

Section more_operations.
Implicit Types h : lheap.
Lemma wp_list_move h head l1 e l2 :
  dlist h head (l1 ++ e :: l2) →
  wp (list_move e head)
     (λ _ h', dlist h' head (e :: l1 ++ l2) ∧ same_outside (head :: l1 ++ e :: l2) h h') h.
Proof.
  intros Hd. unfold list_move. apply wp_bind.
  pose proof Hd as [[_ He]%NoDup_mid _].
  eapply wp_mono; [by apply wp_list_del_entry|]. intros [] h1 [Hd1 Hs1].
  assert (is_Some (h1 !! e)) as Hlive.
  { rewrite Hs1 by done. eapply dlist_live; [done|set_solver]. }
  eapply wp_mono; [by apply wp_list_add|]. intros [] h2 [Hd2 Hs2]. split; [done|].
  eapply same_outside_mono; [|by eapply same_outside_trans]. set_solver.
Qed.

(** A node that is made a list of its own. *)
Lemma wp_init_alone h1 head l e :
  dlist h1 head l → is_Some (h1 !! e) → e ∉ head :: l →
  wp (INIT_LIST_HEAD e) (λ _ h', dlist h' head l ∧ dlist h' e [] ∧ same_outside [e] h1 h') h1.
Proof.
  intros Hd Hl He. eapply wp_mono; [by apply wp_INIT_LIST_HEAD|]. intros [] h' ->. split_and!.
  - eapply dlist_same_outside; [|dl_same|exact Hd]. instantiate (1 := [e]). set_solver.
  - by apply dlist_init.
  - dl_same.
Qed.

Lemma wp_list_del_init h head l1 e l2 :
  dlist h head (l1 ++ e :: l2) →
  wp (list_del_init e)
     (λ _ h', dlist h' head (l1 ++ l2) ∧ dlist h' e [] ∧ same_outside (head :: l1 ++ e :: l2) h h') h.
Proof.
  intros Hd. unfold list_del_init. apply wp_bind.
  pose proof Hd as [[_ He]%NoDup_mid _].
  eapply wp_mono; [by apply wp_list_del_entry|]. intros [] h1 [Hd1 Hs1].
  assert (is_Some (h1 !! e)) as Hlive.
  { rewrite Hs1 by done. eapply dlist_live; [done|set_solver]. }
  eapply wp_mono; [by apply (wp_init_alone h1 head (l1 ++ l2) e)|]. intros [] h2 (? & ? & Hs2). split_and!; [done|done|].
  eapply same_outside_mono; [|by eapply same_outside_trans]. set_solver.
Qed.

Lemma wp_list_replace_init h head l1 old l2 new :
  dlist h head (l1 ++ old :: l2) → is_Some (h !! new) → new ∉ head :: l1 ++ old :: l2 →
  wp (list_replace_init old new)
     (λ _ h', dlist h' head (l1 ++ new :: l2) ∧ dlist h' old [] ∧ same_outside (new :: head :: l1 ++ old :: l2) h h') h.
Proof.
  intros Hd Hlive Hnew. unfold list_replace_init. apply wp_bind. pose proof Hd as [[_ Ho]%NoDup_mid _].
  eapply wp_mono; [by apply wp_list_replace|]. intros [] h1 (Hd1 & Hold & Hs1).
  eapply wp_mono; [apply (wp_init_alone h1 head (l1 ++ new :: l2) old); [done| |]|].
  - rewrite Hold. eapply dlist_live; [exact Hd|set_solver].
  - clear -Ho Hnew. set_solver.
  - intros [] h2 (? & ? & Hs2). split_and!; [done|done|]. eapply same_outside_mono; [|by eapply same_outside_trans]. set_solver.
Qed.

(** The end of [list_bulk_move_tail]: a chain of nodes is put at the end. *)
Lemma wp_append_chain h head l x k :
  dlist h head l → path h (x :: k) → is_Some (h !! x) → is_Some (h !! last_or x k) → NoDup (x :: k) →
  (∀ y, y ∈ x :: k → y ∉ head :: l) →
  wp (hp ← get_prev head; set_next hp x ;; hp' ← get_prev head; set_prev x hp' ;;
      set_next (last_or x k) head ;; set_prev head (last_or x k))
     (λ _ h', dlist h' head (l ++ x :: k) ∧ same_outside (head :: l ++ x :: k) h h') h.
Proof.
  intros Hd PK Lx Ll Hk Hdis. pose proof (dlist_head_prv _ _ _ Hd) as Hp. pose proof Hd as [Hnd _].
  assert (path h (head :: l) ∧ nxt h (last_or head l) = Some head) as [Q1 Qf].
  { rewrite <-(app_nil_r l) in Hd. by apply dlist_cut in Hd as (_ & ? & [? _] & _). }
  pose proof (last_or_in head l) as Il. pose proof (last_or_in x k) as IL. assert (x ∈ x :: k) as IX by left.
  pose proof (NoDup_last_or x k Hk) as E5. pose proof (NoDup_last_or head l Hnd) as E6.
  assert (last_or head l ∉ x :: k) as D3 by (intros Hin; by apply (Hdis _ Hin)).
  assert (head ∉ x :: k) as Hhk by (intros Hin; apply (Hdis _ Hin); left).
  assert (head ≠ x ∧ x ≠ last_or head l ∧ last_or x k ≠ last_or head l ∧ last_or x k ≠ head) as (M1 & M2 & M3 & M4).
  { split_and!; intros E; [apply Hhk; rewrite E; left|apply D3; rewrite <-E; left|apply D3; by rewrite <-E|apply Hhk; by rewrite <-E]. }
  destruct (live_nxt h _ Lx) as [xn Hxn], (live_prv h _ Lx) as [xp Hxp], (live_nxt h _ Ll) as [ln Hln], (live_prv h _ Ll) as [lp Hlp].
  pose proof Hnd as [F1 F4]%NoDup_cons. assert (last_or x k ∉ head :: l) as F2 by (by apply Hdis).
  assert (x ∉ l) as F3 by (intros Hin; apply (Hdis x); [left|by right]).
  repeat dl_step. split.
  - apply dlist_cut. split; [apply NoDup_cons; split; [|apply NoDup_app; split_and!]|].
    { rewrite elem_of_app. tauto. } { done. } { intros y Hy Hy'. apply (Hdis y Hy'). by right. } { done. }
    split; [|split; [change (hd_or head (x :: k)) with x; split; dl_lookup; congruence|]].
    { apply path_upd_prev; [done|]. apply path_upd_next; [by intros ?%elem_of_removelast|].
      apply path_upd_prev; [done|]. by apply path_upd_next. }
    change ((x :: k) ++ [head]) with (x :: (k ++ [head])). rewrite path_glue. split_and!; [| |done].
    { apply path_upd_prev; [by intros ?%elem_of_tail|]. apply path_upd_next; [done|].
      apply path_upd_prev; [by apply NoDup_cons in Hk as [? _]|]. apply path_upd_next; [by intros ?%elem_of_removelast|done]. }
    split; dl_lookup; congruence.
  - eapply (same_outside_mono [last_or head l; x; last_or x k; head]); [|dl_same].
    clear -Il IL. intros y. rewrite !elem_of_cons, elem_of_nil. set_solver.
Qed.

(** The nodes [x :: k] of the middle, moved to the end. *)
Lemma wp_list_bulk_move_tail h head l1 x k l2 :
  dlist h head (l1 ++ (x :: k) ++ l2) →
  wp (list_bulk_move_tail head x (last_or x k))
     (λ _ h', dlist h' head ((l1 ++ l2) ++ x :: k) ∧ same_outside (head :: l1 ++ (x :: k) ++ l2) h h') h.
Proof.
  intros Hd. pose proof Hd as (Hnd & P1 & [Lf Lb] & P2)%dlist_cut. change (hd_or head ((x :: k) ++ l2)) with x in Lf, Lb.
  rewrite <-(assoc_L (++)) in P2. change ((x :: k) ++ l2 ++ [head]) with (x :: (k ++ (l2 ++ [head]))) in P2.
  rewrite snoc_hd, path_glue, <-snoc_hd in P2. destruct P2 as (PK & [Ln Lp] & P2).
  assert (NoDup (head :: l1 ++ l2) ∧ NoDup (x :: k) ∧ ∀ y, y ∈ x :: k → y ∉ head :: l1 ++ l2) as (Hnd' & Hk & Hdis).
  { rewrite NoDup_cons, !NoDup_app in Hnd. destruct Hnd as (Hh & N1 & N2 & N3 & N4 & N5).
    split_and!; [apply NoDup_cut; split_and!; set_solver|done|set_solver]. }
  destruct (cut_ends head l1 l2 Hnd') as (E1 & E2 & E3 & E4). destruct (cut_ends_in head l1 l2) as [I1 I2].
  pose proof (last_or_in x k) as IL. assert (x ∈ x :: k) as IX by left.
  destruct (cut_ends_ne head l1 l2 _ (Hdis _ IL)) as [N1 N2]. destruct (cut_ends_ne head l1 l2 _ (Hdis _ IX)) as [N3 N4].
  assert ((last_or head l1 ∉ x :: k) ∧ (hd_or head l2 ∉ x :: k)) as [D1 D2] by (split; intros Hin; by apply (Hdis _ Hin)).
  unfold list_bulk_move_tail. do 12 dl_step. set (h1 := upd_prev _ _ _).
  assert (dlist h1 head (l1 ++ l2)) as Hd1.
  { apply dlist_cut. split; [done|]. subst h1. split; [dl_path|]. split; [|dl_path]. split; dl_lookup. }
  assert (same_outside [last_or head l1; hd_or head l2] h h1) as Hs1 by (subst h1; dl_same).
  eapply wp_mono; [apply (wp_append_chain h1 head (l1 ++ l2) x k); [done|subst h1; dl_path|subst h1; dl_live..|done|done]|].
  intros [] h' [Hd' Hs']. split; [done|]. eapply same_outside_mono; [|by eapply same_outside_trans].
  clear -I1 I2. intros y. rewrite !elem_of_app, !elem_of_cons, elem_of_nil. set_solver.
Qed.

(** The queries. *)
Lemma wp_list_empty_careful h head l :
  dlist h head l → wp (list_empty_careful head) (λ b h', b = bool_decide (l = []) ∧ h' = h) h.
Proof.
  intros Hd. unfold list_empty_careful. apply wp_bind. eapply wp_get_next; [by apply dlist_head_nxt|].
  pose proof Hd as [[Hh _]%NoDup_cons _]. destruct l as [|x l].
  - change (hd_or head []) with head. rewrite Z.eqb_refl. apply wp_bind. eapply wp_get_prev; [by apply dlist_head_prv|].
    apply wp_ret. split; [|done]. apply Z.eqb_refl.
  - replace (hd_or head (x :: l) =? head) with false by (symmetry; apply Z.eqb_neq; set_solver). by apply wp_ret.
Qed.

Lemma wp_list_is_singular h head l :
  dlist h head l → wp (list_is_singular head) (λ b h', b = (length l =? 1)%nat ∧ h' = h) h.
Proof.
  intros Hd. unfold list_is_singular. apply wp_bind. eapply wp_mono; [by apply wp_list_empty|]. intros b h' [-> ->].
  destruct l as [|x l]; [by apply wp_ret|]. rewrite bool_decide_false by done. simpl negb. cbv iota.
  apply wp_bind. eapply wp_get_next; [by apply dlist_head_nxt|]. apply wp_bind. eapply wp_get_prev; [by apply dlist_head_prv|].
  apply wp_ret. split; [|done]. change (hd_or head (x :: l)) with x. rewrite last_or_cons. destruct l as [|y l]; [apply Z.eqb_refl|].
  simpl. apply Z.eqb_neq. rewrite last_or_cons. intros E. destruct Hd as [[_ [Hx _]%NoDup_cons]%NoDup_cons _].
  apply Hx. rewrite E. apply last_or_in.
Qed.

Lemma wp_list_is_last h head l e :
  dlist h head l → e ∈ l → wp (list_is_last e head) (λ b h', b = bool_decide (last l = Some e) ∧ h' = h) h.
Proof.
  intros Hd (l1 & l2 & ->)%list_elem_of_split. unfold list_is_last. apply wp_bind. eapply wp_get_next; [by eapply dlist_nxt|].
  apply wp_ret. split; [|done]. pose proof Hd as [[Hh _]%NoDup_cons _]. destruct l2 as [|x l2].
  - rewrite last_snoc, bool_decide_true by done. apply Z.eqb_refl.
  - rewrite last_app_cons, last_cons_cons, bool_decide_false.
    + apply Z.eqb_neq. change (hd_or head (x :: l2)) with x. intros ->. apply Hh. set_solver.
    + intros E%last_Some_elem_of. destruct Hd as [[_ Hx]%NoDup_mid _]. clear -E Hx. set_solver.
Qed.

Lemma wp_list_splice_init h list k head l :
  dlist h list k → dlist h head l → (∀ y, y ∈ list :: k → y ∉ head :: l) →
  wp (list_splice_init list head)
     (λ _ h', dlist h' head (k ++ l) ∧ dlist h' list [] ∧ same_outside (list :: head :: k ++ l) h h') h.
Proof.
  intros Hk Hd Hdisj. unfold list_splice_init. apply wp_bind.
  eapply wp_mono; [by apply wp_list_empty|]. intros b h' [-> ->].
  case_bool_decide as E; simpl; [by subst|]. destruct k as [|x k]; [done|].
  assert (list ∉ head :: (x :: k) ++ l) as Hnl.
  { destruct Hk as [[? _]%NoDup_cons _]. specialize (Hdisj list). set_solver. }
  apply wp_bind. eapply wp_get_next; [by apply dlist_head_nxt|]. apply wp_bind.
  eapply wp_mono; [exact (wp_list_splice_between h list x k head [] l Hk Hd Hdisj)|]. intros [] h3 [H1 H2].
  eapply wp_mono; [apply (wp_init_alone h3 head ((x :: k) ++ l) list); [done| |done]|].
  - rewrite H2 by done. eapply dlist_live; [exact Hk|left].
  - intros [] h4 (? & ? & Hs). split_and!; [done|done|]. eapply same_outside_mono; [|by eapply same_outside_trans]. set_solver.
Qed.

(** The part before [e] of the list below [head], moved below [list]. *)
Lemma wp_list_cut_before h list head k e l :
  dlist h head (k ++ e :: l) → is_Some (h !! list) → list ∉ head :: k ++ e :: l →
  wp (list_cut_before list head e)
     (λ _ h', dlist h' list k ∧ dlist h' head (e :: l) ∧ same_outside (list :: head :: k ++ e :: l) h h') h.
Proof.
  intros Hd Hlive Hnl. unfold list_cut_before. pose proof (dlist_head_nxt _ _ _ Hd) as Hn.
  apply wp_bind. eapply wp_get_next; [done|]. destruct k as [|x k].
  { change (hd_or head ([] ++ e :: l)) with e. rewrite Z.eqb_refl.
    eapply wp_mono; [by apply (wp_init_alone h head (e :: l) list)|]. intros [] h' (? & ? & Hs). split_and!; [done|done|].
    eapply same_outside_mono; [|done]. set_solver. }
  change (hd_or head ((x :: k) ++ e :: l)) with x in *.
  pose proof Hd as (Hnd & P1 & [Lf Lb] & P2)%(dlist_cut h head (x :: k) (e :: l)). change (hd_or head (e :: l)) with e in Lf, Lb.
  rewrite path_cons2 in P1. destruct P1 as [[_ Lx] PK]. rewrite last_or_cons in Lf, Lb.
  pose proof Hnd as (H1 & H2 & Hn1 & Hn2 & Hdis)%(NoDup_cut head (x :: k) (e :: l)).
  pose proof (NoDup_last_or x k Hn1) as E3. pose proof (last_or_in x k) as I1.
  assert (x ≠ e ∧ list ≠ head ∧ list ≠ x ∧ list ≠ e ∧ list ≠ last_or x k ∧ last_or x k ≠ e ∧ last_or x k ≠ head ∧ head ≠ e ∧ head ≠ x)
    as (N1 & N2 & N3 & N4 & N5 & N6 & N7 & N8 & N9).
  { clear -Hnl H1 H2 Hdis I1. split_and!; intros E; subst; try set_solver; try (rewrite E in *; set_solver). }
  replace (x =? e) with false by (symmetry; by apply Z.eqb_neq).
  destruct (live_nxt h list Hlive) as [nn Hnn]. destruct (live_prv h list Hlive) as [np Hnp].
  pose proof Hn1 as [Hxk _]%NoDup_cons. pose proof Hn2 as [Hel _]%NoDup_cons.
  assert ((list ∉ x :: k) ∧ (list ∉ (e :: l) ++ [head]) ∧ (x ∉ (e :: l) ++ [head]) ∧ (last_or x k ∉ (e :: l) ++ [head]) ∧
    (e ∉ x :: k) ∧ (e ∉ l ++ [head]) ∧ (list ∉ k)) as (F1 & F2 & F3 & F4 & F5 & F6 & F7).
  { clear -Hnl Hdis I1 N7 N8 N9 N2 Hel. split_and!; set_solver. }
  repeat dl_step. split_and!.
  - split; [by apply NoDup_cons|]. change ((x :: k) ++ [list]) with (x :: (k ++ [list])). rewrite path_cons2, path_glue.
    split; [split; dl_lookup; congruence|]. split; [|split; [split; dl_lookup; congruence|done]].
    apply path_upd_prev; [by intros ?%elem_of_tail|]. apply path_upd_next; [by intros ?%elem_of_removelast|].
    apply path_upd_next; [done|]. apply path_upd_prev; [done|]. apply path_upd_prev; [done|].
    apply path_upd_next; [by intros ?%elem_of_removelast|done].
  - apply (dlist_cut _ head [] (e :: l)). split; [by apply NoDup_cons|]. split; [done|]. rewrite last_or_nil.
    split; [change (hd_or head (e :: l)) with e; split; dl_lookup; congruence|].
    apply path_upd_prev; [done|]. apply path_upd_next; [by rewrite removelast_snoc|].
    apply path_upd_next; [by intros ?%elem_of_removelast|]. apply path_upd_prev; [by intros ?%elem_of_tail|].
    apply path_upd_prev; [by intros ?%elem_of_tail|]. apply path_upd_next; [by intros ?%elem_of_removelast|done].
  - eapply (same_outside_mono [list; x; last_or x k; head; e]); [|dl_same].
    clear -I1. intros y. rewrite !elem_of_cons, elem_of_nil. set_solver.
Qed.
End more_operations.

(** ** Abstract lists *)

Inductive lop :=
| LAdd (x : Z)
| LAddTail (x : Z)
| LDel (x : Z)
| LDelInit (x : Z)
| LReplace (old new : Z)
| LReplaceInit (old new : Z)
| LMove (x : Z)
| LMoveTail (x : Z)
| LBulkMoveTail (first last : Z)
| LRotateLeft
| LEmpty
| LEmptyCareful
| LIsSingular
| LIsLast (x : Z).

Definition remove_elem (x : Z) (l : list Z) : list Z := filter (.≠ x) l.
Definition subst_elem (old new : Z) (l : list Z) : list Z := (λ y, if decide (y = old) then new else y) <$> l.

(** The segment of [l] from [first] to [last], moved to the end. *)
Definition bulk_move (first last : Z) (l : list Z) : option (list Z) :=
  '(i, _) ← list_find (first =.) l;
  '(j, _) ← list_find (last =.) l;
  if decide (i ≤ j)%nat then Some ((take i l ++ drop (S j) l) ++ drop i (take (S j) l)) else None.

(** What an operation on the list at [head] makes of the sequence [l], and the
    answer of a query; [None] outside the operation's contract (an element
    added twice, an element removed that is not there). *)
Definition spec_lop (head : Z) (o : lop) (l : list Z) : option (list Z * option bool) :=
  match o with
  | LAdd x => if decide (x ∈ head :: l) then None else Some (x :: l, None)
  | LAddTail x => if decide (x ∈ head :: l) then None else Some (l ++ [x], None)
  | LDel x | LDelInit x => if decide (x ∈ l) then Some (remove_elem x l, None) else None
  | LReplace old new | LReplaceInit old new =>
      if decide (old ∈ l ∧ new ∉ head :: l) then Some (subst_elem old new l, None) else None
  | LMove x => if decide (x ∈ l) then Some (x :: remove_elem x l, None) else None
  | LMoveTail x => if decide (x ∈ l) then Some (remove_elem x l ++ [x], None) else None
  | LBulkMoveTail first last => l' ← bulk_move first last l; Some (l', None)
  | LRotateLeft => Some (tail l ++ take 1 l, None)
  | LEmpty | LEmptyCareful => Some (l, Some (bool_decide (l = [])))
  | LIsSingular => Some (l, Some (length l =? 1)%nat)
  | LIsLast x => if decide (x ∈ l) then Some (l, Some (bool_decide (last l = Some x))) else None
  end.

Fixpoint spec_lops (head : Z) (os : list lop) (l : list Z) : option (list Z * list (option bool)) :=
  match os with
  | [] => Some (l, [])
  | o :: os => '(l1, a) ← spec_lop head o l; '(l2, rs) ← spec_lops head os l1; Some (l2, a :: rs)
  end.

Definition without_answer (m : M lheap unit) : M lheap (option bool) := m ;; mret None.
Definition with_answer (m : M lheap bool) : M lheap (option bool) := b ← m; mret (Some b).

(** The code an operation stands for. *)
Definition run_lop (head : Z) (o : lop) : M lheap (option bool) :=
  match o with
  | LAdd x => without_answer (list_add x head)
  | LAddTail x => without_answer (list_add_tail x head)
  | LDel x => without_answer (list_del x)
  | LDelInit x => without_answer (list_del_init x)
  | LReplace old new => without_answer (list_replace old new)
  | LReplaceInit old new => without_answer (list_replace_init old new)
  | LMove x => without_answer (list_move x head)
  | LMoveTail x => without_answer (list_move_tail x head)
  | LBulkMoveTail first last => without_answer (list_bulk_move_tail head first last)
  | LRotateLeft => without_answer (list_rotate_left head)
  | LEmpty => with_answer (list_empty head)
  | LEmptyCareful => with_answer (list_empty_careful head)
  | LIsSingular => with_answer (list_is_singular head)
  | LIsLast x => with_answer (list_is_last x head)
  end.

Fixpoint run_lops (head : Z) (os : list lop) : M lheap (list (option bool)) :=
  match os with
  | [] => mret []
  | o :: os => a ← run_lop head o; rs ← run_lops head os; mret (a :: rs)
  end.

(** The nodes an operation brings into the list. *)
Definition new_nodes (o : lop) : list Z :=
  match o with LAdd x | LAddTail x | LReplace _ x | LReplaceInit _ x => [x] | _ => [] end.

(** ** No operation allocates or frees a node *)

Definition same_nodes (h h' : lheap) : Prop := ∀ q, is_Some (h' !! q) ↔ is_Some (h !! q).

#[export] Instance same_nodes_preorder : PreOrder same_nodes.
Proof. split; [by intros h q|]. intros h1 h2 h3 H12 H23 q. by rewrite (H23 q), (H12 q). Qed.

Lemma keeps_get_next p : keeps same_nodes (get_next p).
Proof. intros h a h'. unfold get_next. destruct (h !! p); by intros [= _ <-]. Qed.

Lemma keeps_get_prev p : keeps same_nodes (get_prev p).
Proof. intros h a h'. unfold get_prev. destruct (h !! p); by intros [= _ <-]. Qed.

Lemma keeps_set_next p v : keeps same_nodes (set_next p v).
Proof.
  intros h a h'. unfold set_next. destruct (h !! p); intros [= _ <-]. intros q. apply is_Some_upd_next.
Qed.

Lemma keeps_set_prev p v : keeps same_nodes (set_prev p v).
Proof.
  intros h a h'. unfold set_prev. destruct (h !! p); intros [= _ <-]. intros q. apply is_Some_upd_prev.
Qed.

#[export] Hint Resolve keeps_get_next keeps_get_prev keeps_set_next keeps_set_prev : tr.

Lemma keeps_list_add_between new p n : keeps same_nodes (__list_add new p n).
Proof. unfold __list_add, __list_add_valid. keeps. Qed.

Lemma keeps_list_del_entry e : keeps same_nodes (__list_del_entry e).
Proof. unfold __list_del_entry, __list_del, __list_del_entry_valid. keeps. Qed.

#[export] Hint Resolve keeps_list_add_between keeps_list_del_entry : tr.

Lemma keeps_move_tail x head : keeps same_nodes (list_move_tail x head).
Proof. unfold list_move_tail, list_add_tail. keeps. Qed.

Lemma keeps_list_replace old new : keeps same_nodes (list_replace old new).
Proof. unfold list_replace. keeps. Qed.

Lemma keeps_list_empty head : keeps same_nodes (list_empty head).
Proof. unfold list_empty. keeps. Qed.

Lemma keeps_init_head p : keeps same_nodes (INIT_LIST_HEAD p).
Proof. unfold INIT_LIST_HEAD. keeps. Qed.

#[export] Hint Resolve keeps_move_tail keeps_list_replace keeps_list_empty keeps_init_head : tr.

Lemma keeps_run_lop head o : keeps same_nodes (run_lop head o).
Proof.
  destruct o; simpl; unfold without_answer, with_answer, list_move, list_add, list_add_tail, list_del, list_del_init, list_replace_init,
    list_bulk_move_tail, list_rotate_left, list_empty_careful, list_is_singular, list_is_last; keeps.
Qed.

#[export] Hint Resolve keeps_run_lop : tr.

Lemma keeps_run_lops head os : keeps same_nodes (run_lops head os).
Proof. induction os; simpl; keeps. Qed.

(** ** Refinement *)

Lemma remove_elem_not_in x l : x ∉ l → remove_elem x l = l.
Proof.
  unfold remove_elem. induction l as [|y l IH]; [done|]. intros [H1 H2]%not_elem_of_cons.
  rewrite filter_cons_True by done. by rewrite IH.
Qed.

Lemma remove_elem_mid x l1 l2 : x ∉ l1 ++ l2 → remove_elem x (l1 ++ x :: l2) = l1 ++ l2.
Proof.
  intros [H1 H2]%not_elem_of_app. unfold remove_elem.
  rewrite filter_app, filter_cons_False by (intros H; by apply H).
  fold (remove_elem x l1). fold (remove_elem x l2). by rewrite !remove_elem_not_in.
Qed.

Lemma subst_elem_not_in old new l : old ∉ l → subst_elem old new l = l.
Proof.
  intros H. unfold subst_elem. rewrite <-(list_fmap_id l) at 2. apply list_fmap_ext.
  intros i y Hy. simpl. case_decide; [|done]. subst. destruct H. by eapply list_elem_of_lookup_2.
Qed.

Lemma subst_elem_mid old new l1 l2 :
  old ∉ l1 ++ l2 → subst_elem old new (l1 ++ old :: l2) = l1 ++ new :: l2.
Proof.
  intros [H1 H2]%not_elem_of_app. unfold subst_elem. rewrite fmap_app. fold (subst_elem old new l1).
  rewrite fmap_cons. fold (subst_elem old new l2). rewrite !subst_elem_not_in by done.
  by destruct (decide (old = old)).
Qed.

(** The segment a bulk move takes. *)
Lemma bulk_move_segment first last l l' :
  bulk_move first last l = Some l' →
  ∃ l1 k l2, l = l1 ++ (first :: k) ++ l2 ∧ last = last_or first k ∧ l' = (l1 ++ l2) ++ first :: k.
Proof.
  unfold bulk_move. destruct (list_find (first =.) l) as [[i x]|] eqn:Ei; simpl; [|done].
  destruct (list_find (last =.) l) as [[j y]|] eqn:Ej; simpl; [|done]. case_decide as Hij; [|done]. intros [= <-].
  apply list_find_Some in Ei as (Hi & <- & _), Ej as (Hj & <- & _).
  assert (take i (take (S j) l) ++ drop i (take (S j) l) = take (S j) l) as Esplit by apply take_drop.
  rewrite take_take, Nat.min_l in Esplit by lia.
  assert (drop i (take (S j) l) !! 0%nat = Some first) as Hf.
  { rewrite lookup_drop, Nat.add_0_r, lookup_take_lt by lia. done. }
  destruct (drop i (take (S j) l)) as [|z k] eqn:Ek; [done|]. injection Hf as ->.
  exists (take i l), k, (drop (S j) l). split_and!; [|..|done].
  - transitivity (take (S j) l ++ drop (S j) l); [by rewrite take_drop|]. by rewrite <-Esplit, <-(assoc_L (++)).
  - rewrite <-(last_or_cons first first k), <-Ek. unfold last_or.
    rewrite (take_S_r _ _ _ Hj) in Ek |- *. rewrite drop_app_le by (rewrite length_take; apply lookup_lt_Some in Hj; lia).
    by rewrite last_snoc.
Qed.

Lemma wp_without_answer m (P : lheap → Prop) h : wp m (λ _ h', P h') h → wp (without_answer m) (λ r h', r = None ∧ P h') h.
Proof. intros H. apply wp_bind. eapply wp_mono; [exact H|]. intros [] h' ?. by apply wp_ret. Qed.

Lemma wp_with_answer m b (P : lheap → Prop) h :
  wp m (λ r h', r = b ∧ h' = h) h → P h → wp (with_answer m) (λ r h', r = Some b ∧ P h') h.
Proof. intros H HP. apply wp_bind. eapply wp_mono; [exact H|]. intros r h' [-> ->]. by apply wp_ret. Qed.

(** One operation: the heap after it holds the list the specification gives,
    the answer is the specification's, and only nodes of the list and new ones
    are written. *)
Lemma wp_run_lop head o h l l' a :
  dlist h head l → (∀ x, x ∈ new_nodes o → is_Some (h !! x)) → spec_lop head o l = Some (l', a) →
  wp (run_lop head o) (λ r h', r = a ∧ dlist h' head l' ∧ same_outside (head :: l ++ new_nodes o) h h') h.
Proof.
  intros Hd Hlive Hs.
  assert (∀ x, x ∈ l → ∃ l1 l2, l = l1 ++ x :: l2 ∧ x ∉ l1 ++ l2) as Hsplit.
  { intros x (l1 & l2 & ->)%list_elem_of_split. exists l1, l2. split; [done|].
    pose proof Hd as [[_ Hx]%NoDup_mid _]. clear -Hx. set_solver. }
  assert (∀ x, new_nodes o = [x] → is_Some (h !! x)) as Hnew by (intros x E; apply Hlive; rewrite E; left).
  destruct o as [x|x|x|x|old new|old new|x|x|fi la| | | | |x]; simpl in *; repeat case_decide; simplify_eq; rewrite ?app_nil_r.
  - apply wp_without_answer. eapply wp_mono; [apply wp_list_add; eauto|]. intros [] h' [? ?].
    split; [done|]. eapply same_outside_mono; [|done]. clear. set_solver.
  - apply wp_without_answer. eapply wp_mono; [apply wp_list_add_tail; eauto|]. intros [] h' [? ?].
    split; [done|]. eapply same_outside_mono; [|done]. clear. set_solver.
  - destruct (Hsplit x H) as (l1 & l2 & -> & Hx). rewrite remove_elem_mid by done.
    apply wp_without_answer. eapply wp_mono; [by apply wp_list_del|]. by intros [] h' (? & _ & ?).
  - destruct (Hsplit x H) as (l1 & l2 & -> & Hx). rewrite remove_elem_mid by done.
    apply wp_without_answer. eapply wp_mono; [by apply wp_list_del_init|]. by intros [] h' (? & _ & ?).
  - destruct H as [Ho Hn]. destruct (Hsplit old Ho) as (l1 & l2 & -> & Hx). rewrite subst_elem_mid by done.
    apply wp_without_answer. eapply wp_mono; [apply wp_list_replace; eauto|]. intros [] h' (? & _ & ?).
    split; [done|]. eapply same_outside_mono; [|done]. clear. set_solver.
  - destruct H as [Ho Hn]. destruct (Hsplit old Ho) as (l1 & l2 & -> & Hx). rewrite subst_elem_mid by done.
    apply wp_without_answer. eapply wp_mono; [apply wp_list_replace_init; eauto|]. intros [] h' (? & _ & ?).
    split; [done|]. eapply same_outside_mono; [|done]. clear. set_solver.
  - destruct (Hsplit x H) as (l1 & l2 & -> & Hx). rewrite remove_elem_mid by done.
    apply wp_without_answer. eapply wp_mono; [by apply wp_list_move|]. by intros [] h' [? ?].
  - destruct (Hsplit x H) as (l1 & l2 & -> & Hx). rewrite remove_elem_mid, <-(assoc_L (++)) by done.
    apply wp_without_answer. eapply wp_mono; [by apply wp_list_move_tail|]. by intros [] h' [? ?].
  - destruct (bulk_move fi la l) as [l0|] eqn:E; simplify_eq/=. apply bulk_move_segment in E as (l1 & k & l2 & -> & -> & ->).
    apply wp_without_answer. eapply wp_mono; [by apply wp_list_bulk_move_tail|]. by intros [] h' [? ?].
  - apply wp_without_answer. eapply wp_mono; [by apply wp_list_rotate_left|]. by intros [] h' [? ?].
  - apply wp_with_answer; [by apply wp_list_empty|done].
  - apply wp_with_answer; [by apply wp_list_empty_careful|done].
  - apply wp_with_answer; [by apply wp_list_is_singular|done].
  - apply wp_with_answer; [|done]. eapply wp_mono; [by apply wp_list_is_last|]. intros r h' [-> ->]. split; [by apply bool_decide_ext|done].
  - apply wp_with_answer; [|done]. eapply wp_mono; [by apply wp_list_is_last|]. intros r h' [-> ->]. split; [by apply bool_decide_ext|done].
Qed.

(** The members of the list after an operation. *)
Lemma spec_lop_members head o l l' a :
  spec_lop head o l = Some (l', a) → ∀ x, x ∈ l' → x ∈ l ++ new_nodes o.
Proof.
  intros Hs x. destruct o; simpl in *; repeat case_decide; simplify_eq; rewrite ?app_nil_r; try done.
  - set_solver.
  - intros [_ ?]%list_elem_of_filter. done.
  - intros [_ ?]%list_elem_of_filter. done.
  - intros (y & -> & ?)%list_elem_of_fmap. case_decide; set_solver.
  - intros (y & -> & ?)%list_elem_of_fmap. case_decide; set_solver.
  - intros [->|[_ ?]%list_elem_of_filter]%elem_of_cons; done.
  - intros [[_ ?]%list_elem_of_filter| ->%list_elem_of_singleton]%elem_of_app; done.
  - destruct (bulk_move _ _ l) as [l0|] eqn:E; simplify_eq/=. apply bulk_move_segment in E as (l1 & k & l2 & -> & _ & ->).
    rewrite !elem_of_app. tauto.
  - intros [?%elem_of_tail|?%elem_of_take]%elem_of_app; [done|]. destruct H as (i & ? & ?).
    by eapply list_elem_of_lookup_2.
Qed.

(** C24 The lists of list.h refine sequences: from a heap that holds the list
    [l] at [head], every sequence of the operations on one list ([list_add],
    [list_add_tail], [list_del], [list_del_init], [list_replace],
    [list_replace_init], [list_move], [list_move_tail],
    [list_bulk_move_tail], [list_rotate_left]) and of the queries
    ([list_empty], [list_empty_careful], [list_is_singular],
    [list_is_last]) that keeps to the contract runs without a fault, the
    queries answer what they answer for the sequence, and it ends in a heap
    that holds, at the same head, what the same operations make of the
    sequence; no node is created or lost, and no node other than the head, the
    list's and the added ones is written. *)
Theorem list_ops_refine head os h l l' rs :
  dlist h head l → (∀ x, x ∈ os ≫= new_nodes → is_Some (h !! x)) → spec_lops head os l = Some (l', rs) →
  ∃ h', run_lops head os h = Ok rs h' ∧ dlist h' head l' ∧
        (∀ q, is_Some (h' !! q) ↔ is_Some (h !! q)) ∧
        same_outside (head :: l ++ (os ≫= new_nodes)) h h'.
Proof.
  intros Hd Hlive Hs.
  cut (wp (run_lops head os) (λ r h', r = rs ∧ dlist h' head l' ∧ same_outside (head :: l ++ (os ≫= new_nodes)) h h') h).
  { intros (r & h' & Hr & -> & Hd' & Ho)%wp_run. exists h'. split_and!; [done|done| |done]. by eapply keeps_run_lops. }
  revert h l rs Hd Hlive Hs. induction os as [|o os IH]; intros h l rs Hd Hlive Hs; simpl in *.
  { simplify_eq. by apply wp_ret. }
  destruct (spec_lop head o l) as [[l1 a]|] eqn:E; simpl in Hs; [|done].
  destruct (spec_lops head os l1) as [[l2 rs1]|] eqn:E1; simpl in Hs; [|done]. injection Hs as -> <-. apply wp_bind.
  pose proof (wp_run_lop head o h l l1 a Hd) as H1.
  assert (∀ x, x ∈ new_nodes o → is_Some (h !! x)) as Hn by (intros; apply Hlive; set_solver).
  apply (λ H, H1 H E) in Hn as (r & h1 & Hr & -> & Hd1 & Ho1)%wp_run. apply wp_run. exists a, h1.
  split; [done|]. apply wp_bind. eapply wp_mono; [apply (IH h1 l1 rs1); [done| |done]|].
  - intros x Hx. rewrite (keeps_run_lop _ _ _ _ _ Hr x). apply Hlive. set_solver.
  - intros r h' (-> & Hd' & Ho'). apply wp_ret. split_and!; [done|done|]. intros q Hq. rewrite Ho', Ho1; [done|..]; [set_solver|].
    pose proof (spec_lop_members _ _ _ _ _ E q). set_solver.
Qed.

(** Two lists that were one: their nodes are different. *)
Lemma cut_apart (p head : Z) k l : NoDup (head :: k ++ l) → p ∉ head :: k ++ l → ∀ y, y ∈ p :: k → y ∉ head :: l.
Proof.
  intros (Hh1 & Hh2 & _ & _ & Hd)%NoDup_cut Hn y [->|Hy]%elem_of_cons; [clear -Hn; set_solver|].
  intros [->|Hyl]%elem_of_cons; [done|by eapply Hd].
Qed.

(** C25 Cutting and splicing are inverse: [list_cut_position] moves the prefix
    up to and with an entry, [list_cut_before] the prefix before an entry (it
    may be empty), below another head, and leaves the two parts; [list_splice]
    and [list_splice_init] restore the list, and the latter leaves the other
    head empty. *)
Theorem cut_splice_roundtrip h list head x k l :
  dlist h head (x :: k ++ l) → is_Some (h !! list) → list ∉ head :: x :: k ++ l →
  (∃ h1 h2, list_cut_position list head (last_or x k) h = Ok tt h1 ∧
    dlist h1 list (x :: k) ∧ dlist h1 head l ∧
    list_splice list head h1 = Ok tt h2 ∧ dlist h2 head (x :: k ++ l) ∧
    same_outside (list :: head :: x :: k ++ l) h h2) ∧
  (∀ l1 e l2, x :: k ++ l = l1 ++ e :: l2 → ∃ h1 h2, list_cut_before list head e h = Ok tt h1 ∧
    dlist h1 list l1 ∧ dlist h1 head (e :: l2) ∧
    list_splice_init list head h1 = Ok tt h2 ∧ dlist h2 head (x :: k ++ l) ∧ dlist h2 list [] ∧
    same_outside (list :: head :: x :: k ++ l) h h2).
Proof.
  intros Hd Hlive Hn. split.
  - pose proof (wp_list_cut_position h list head x k l Hd Hlive Hn) as ([] & h1 & Hr1 & Hk & Hl & Ho1)%wp_run.
    pose proof (wp_list_splice h1 list (x :: k) head l Hk Hl (cut_apart list head (x :: k) l (proj1 Hd) Hn)) as ([] & h2 & Hr2 & Hd2 & Ho2)%wp_run.
    exists h1, h2. split_and!; try done.
    eapply same_outside_mono; [|eapply same_outside_trans; [exact Ho1|exact Ho2]]. set_solver.
  - intros l1 e l2 E. change (head :: x :: k ++ l) with (head :: (x :: k ++ l)) in *. rewrite E in *.
    pose proof (wp_list_cut_before h list head l1 e l2 Hd Hlive Hn) as ([] & h1 & Hr1 & Hk & Hl & Ho1)%wp_run.
    pose proof (wp_list_splice_init h1 list l1 head (e :: l2) Hk Hl (cut_apart list head l1 (e :: l2) (proj1 Hd) Hn))
      as ([] & h2 & Hr2 & Hd2 & He2 & Ho2)%wp_run.
    exists h1, h2. split_and!; try done.
    eapply same_outside_mono; [|eapply same_outside_trans; [exact Ho1|exact Ho2]]. set_solver.
Qed.

(** ** Concrete lists *)

(** A head at 100 with the elements 1 and 2, and two nodes beside it. *)
Definition ex_heap : lheap :=
  {[100 := ListHead 1 2; 1 := ListHead 2 100; 2 := ListHead 100 1; 3 := ListHead 0 0; 200 := ListHead 0 0]}.

Ltac concrete_dlist :=
  split; [apply (bool_decide_unpack _); vm_compute; exact I|vm_compute; repeat split].

(** Every operation and every query once. *)
Definition ex_ops : list lop :=
  [LEmpty; LAddTail 3; LIsLast 3; LDel 1; LRotateLeft; LReplace 2 1; LMoveTail 3; LAdd 2; LMove 3; LBulkMoveTail 3 2;
   LDelInit 3; LEmptyCareful; LIsSingular; LReplaceInit 2 3; LDel 1; LIsSingular].

Lemma list_ops_refine_witness :
  ∃ h', run_lops 100 ex_ops ex_heap =
          Ok [Some false; None; Some true; None; None; None; None; None; None; None; None; Some false; Some false; None; None; Some true] h' ∧
        dlist h' 100 [3] ∧ (∀ q, is_Some (h' !! q) ↔ is_Some (ex_heap !! q)) ∧
        same_outside [100; 1; 2; 3; 1; 2; 3] ex_heap h'.
Proof.
  apply (list_ops_refine 100 ex_ops ex_heap [1; 2]).
  - concrete_dlist.
  - intros x Hx. change (x ∈ [3; 1; 2; 3]) in Hx. rewrite !elem_of_cons, elem_of_nil in Hx.
    destruct Hx as [->|[->|[->|[->|[]]]]]; vm_compute; eauto.
  - vm_compute. reflexivity.
Defined.

Lemma cut_splice_roundtrip_witness :
  (∃ h1 h2, list_cut_position 200 100 1 ex_heap = Ok tt h1 ∧
    dlist h1 200 [1] ∧ dlist h1 100 [2] ∧
    list_splice 200 100 h1 = Ok tt h2 ∧ dlist h2 100 [1; 2] ∧ same_outside [200; 100; 1; 2] ex_heap h2) ∧
  (∃ h1 h2, list_cut_before 200 100 2 ex_heap = Ok tt h1 ∧
    dlist h1 200 [1] ∧ dlist h1 100 [2] ∧
    list_splice_init 200 100 h1 = Ok tt h2 ∧ dlist h2 100 [1; 2] ∧ dlist h2 200 [] ∧ same_outside [200; 100; 1; 2] ex_heap h2).
Proof.
  destruct (cut_splice_roundtrip ex_heap 200 100 1 [] [2]) as [H1 H2].
  - concrete_dlist.
  - vm_compute; eauto.
  - apply (bool_decide_unpack _); vm_compute; exact I.
  - split; [exact H1|exact (H2 [1] 2 [] eq_refl)].
Defined.
