(* ===== verification/ListIter.v ===== *)
(** * The iteration macros of list.h

    The loops over plain nodes, the loops over entries that start at a given
    entry or behind it, forwards and backwards, and their variants that are
    safe against the removal of the visited entry.  They are related to one
    reference definition: [visit], which runs the body on the elements of a
    sequence. *)

From S2P Require Import Prelude DList ListSpec.
Local Open Scope Z_scope.

(** [LIST_HEAD_INIT(name)], the initialiser of a head at the address [name]. *)
Definition LIST_HEAD_INIT (name : Z) : list_head := ListHead name name.

(** [LIST_HEAD(name)] defines a new head there. *)
Definition LIST_HEAD (name : Z) (h : lheap) : lheap := <[name := LIST_HEAD_INIT name]> h.

(** ** The macros *)

Section macros.
Context {S : Type} (hp : S → lheap).

(** [for (; pos != (head); pos = step(pos)) body] *)
Fixpoint node_loop (step : Z → M S Z) (fuel : nat) (pos head : Z) (body : Z → M S unit) : M S unit :=
  match fuel with
  | O => λ _, NoFuel
  | Datatypes.S fuel =>
      if pos =? head then mret tt else
      body pos ;;
      pos' ← step pos;
      node_loop step fuel pos' head body
  end.

(** [for (; pos != (head); pos = n, n = step(pos)) body] *)
Fixpoint node_safe_loop (step : Z → M S Z) (fuel : nat) (pos n head : Z) (body : Z → M S unit) : M S unit :=
  match fuel with
  | O => λ _, NoFuel
  | Datatypes.S fuel =>
      if pos =? head then mret tt else
      body pos ;;
      n' ← step n;
      node_safe_loop step fuel n n' head body
  end.

Definition list_for_each (fuel : nat) (head : Z) (body : Z → M S unit) : M S unit :=
  pos ← rd_next hp head;
  node_loop (rd_next hp) fuel pos head body.

Definition list_for_each_prev (fuel : nat) (head : Z) (body : Z → M S unit) : M S unit :=
  pos ← rd_prev hp head;
  node_loop (rd_prev hp) fuel pos head body.

Definition list_for_each_safe (fuel : nat) (head : Z) (body : Z → M S unit) : M S unit :=
  pos ← rd_next hp head;
  n ← rd_next hp pos;
  node_safe_loop (rd_next hp) fuel pos n head body.

Definition list_for_each_prev_safe (fuel : nat) (head : Z) (body : Z → M S unit) : M S unit :=
  pos ← rd_prev hp head;
  n ← rd_prev hp pos;
  node_safe_loop (rd_prev hp) fuel pos n head body.

Context (off : Z).

Definition list_prepare_entry (pos head : Z) : Z :=
  if negb (pos =? NULL) then pos else list_entry head off.

Definition list_for_each_entry_continue (fuel : nat) (pos head : Z) (body : Z → M S unit) : M S unit :=
  pos' ← list_next_entry hp off pos;
  entry_loop off (list_next_entry hp off) fuel pos' head body.

Definition list_for_each_entry_continue_reverse (fuel : nat) (pos head : Z) (body : Z → M S unit) : M S unit :=
  pos' ← list_prev_entry hp off pos;
  entry_loop off (list_prev_entry hp off) fuel pos' head body.

Definition list_for_each_entry_from (fuel : nat) (pos head : Z) (body : Z → M S unit) : M S unit :=
  entry_loop off (list_next_entry hp off) fuel pos head body.

Definition list_for_each_entry_from_reverse (fuel : nat) (pos head : Z) (body : Z → M S unit) : M S unit :=
  entry_loop off (list_prev_entry hp off) fuel pos head body.

Definition list_for_each_entry_safe_continue (fuel : nat) (pos head : Z) (body : Z → M S unit) : M S unit :=
  pos' ← list_next_entry hp off pos;
  n ← list_next_entry hp off pos';
  entry_safe_loop off (list_next_entry hp off) fuel pos' n head body.

Definition list_for_each_entry_safe_from (fuel : nat) (pos head : Z) (body : Z → M S unit) : M S unit :=
  n ← list_next_entry hp off pos;
  entry_safe_loop off (list_next_entry hp off) fuel pos n head body.

(** The new value of the loop's [n]. *)
Definition list_safe_reset_next (pos : Z) : M S Z := list_next_entry hp off pos.
End macros.

(** ** Entries and nodes

    The loops over entries are the loops over nodes with [list_entry] in front
    of the body. *)

Section entries.
Context {S : Type} (off : Z).
Implicit Types (s : S) (body : Z → M S unit).

Lemma entry_loop_nodes (rd : Z → M S Z) fuel pos head body s :
  entry_loop off (λ p, n ← rd (p + off); mret (list_entry n off)) fuel (list_entry pos off) head body s
  = node_loop rd fuel pos head (λ n, body (list_entry n off)) s.
Proof.
  revert pos s. induction fuel as [|fuel IH]; intros pos s; [done|]. simpl.
  unfold list_entry, container_of in *. replace (pos - off + off) with pos by lia.
  destruct (pos =? head); [done|]. apply bind_ext. intros [] s' _.
  unfold mbind, M_bind. destruct (rd pos s') as [n s''| |]; [|done..]. simpl. apply IH.
Qed.

Lemma entry_safe_loop_nodes (rd : Z → M S Z) fuel pos n head body s :
  entry_safe_loop off (λ p, n ← rd (p + off); mret (list_entry n off)) fuel
    (list_entry pos off) (list_entry n off) head body s
  = node_safe_loop rd fuel pos n head (λ n, body (list_entry n off)) s.
Proof.
  revert pos n s. induction fuel as [|fuel IH]; intros pos n s; [done|]. simpl.
  unfold list_entry, container_of in *. replace (pos - off + off) with pos by lia.
  destruct (pos =? head); [done|]. apply bind_ext. intros [] s' _.
  unfold mbind, M_bind. replace (n - off + off) with n by lia.
  destruct (rd n s') as [n' s''| |]; [|done..]. simpl. apply IH.
Qed.

Lemma entry_nodes (rd : Z → M S Z) p q s (f g : Z → M S unit) :
  (∀ n s', f (list_entry n off) s' = g n s') → q + off = p →
  ((n ← rd (q + off); mret (list_entry n off)) ≫= f) s = (rd p ≫= g) s.
Proof.
  intros Hfg ->. unfold mbind, M_bind. destruct (rd p s) as [n s'| |]; [|done..]. simpl. apply Hfg.
Qed.
End entries.

(** ** The loops visit the elements in order *)

Section chains.
Context {S : Type} (rd : Z → M S Z) (head : Z) (body : Z → M S unit) (Inv : S → Prop).
Implicit Types s : S.

(** While [Inv] holds, reading from an element of [ks] gives the next one, and
    [head] at the end; the body keeps [Inv]. *)
Record chain (ks : list Z) : Prop := {
  ch_head : head ∉ ks;
  ch_step ks1 x ks2 s : ks = ks1 ++ x :: ks2 → Inv s → rd x s = Ok (hd_or head ks2) s;
  ch_end s : Inv s → ∃ v, rd head s = Ok v s;
  ch_body x s s' : x ∈ ks → Inv s → body x s = Ok tt s' → Inv s'
}.

Lemma chain_tail x ks : chain (x :: ks) → chain ks.
Proof.
  intros [Hh Hs He Hb]. split; [set_solver| |done|].
  - intros ks1 y ks2 s ->. by apply (Hs (x :: ks1)).
  - intros y s s' Hy. apply Hb. set_solver.
Qed.

Lemma node_loop_visit ks fuel s :
  chain ks → Inv s → (length ks < fuel)%nat →
  node_loop rd fuel (hd_or head ks) head body s = visit body ks s.
Proof.
  revert ks s. induction fuel as [|fuel IH]; intros ks s Hc HI Hf; [lia|]. simpl.
  destruct ks as [|x ks]; [change (hd_or head []) with head; by rewrite Z.eqb_refl|].
  change (hd_or head (x :: ks)) with x. destruct (Z.eqb_spec x head) as [->|Hne].
  { destruct (ch_head _ Hc). set_solver. }
  apply bind_ext. intros [] s' E. pose proof (ch_body _ Hc x s s' ltac:(set_solver) HI E) as HI'.
  unfold mbind, M_bind. rewrite (ch_step _ Hc [] x ks s') by done.
  apply IH; [by eapply chain_tail|done|simpl in Hf; lia].
Qed.

(** For the loops that are safe against removal the list may change under the
    loop: [P ks] says that [ks] is still to visit.  Only what is left behind
    the visited element has to survive the body. *)
Record safe_chain (P : list Z → S → Prop) : Prop := {
  sc_head x ks s : P (x :: ks) s → x ≠ head;
  sc_step x ks s : P (x :: ks) s → rd x s = Ok (hd_or head ks) s;
  sc_end s : P [] s → ∃ v, rd head s = Ok v s;
  sc_body x ks s s' : P (x :: ks) s → body x s = Ok tt s' → P ks s'
}.

Lemma safe_chain_read P ks s : safe_chain P → P ks s → ∃ n, rd (hd_or head ks) s = Ok n s.
Proof. intros Hc HP. destruct ks as [|x ks]; [by apply (sc_end _ Hc)|]. eexists. by apply (sc_step _ Hc). Qed.

Lemma node_safe_loop_visit P ks fuel n s :
  safe_chain P → P ks s → (length ks < fuel)%nat → rd (hd_or head ks) s = Ok n s →
  node_safe_loop rd fuel (hd_or head ks) n head body s = visit body ks s.
Proof.
  intros Hc. revert ks n s. induction fuel as [|fuel IH]; intros ks n s HP Hf Hn; [lia|]. simpl.
  destruct ks as [|x ks]; [change (hd_or head []) with head; by rewrite Z.eqb_refl|].
  change (hd_or head (x :: ks)) with x in *. rewrite (proj2 (Z.eqb_neq x head)) by (by eapply (sc_head _ Hc)).
  rewrite (sc_step _ Hc _ _ _ HP) in Hn. simplify_eq.
  apply bind_ext. intros [] s' E. pose proof (sc_body _ Hc _ _ _ _ HP E) as HP'.
  destruct (safe_chain_read _ _ _ Hc HP') as [n' Hn']. unfold mbind, M_bind. rewrite Hn'.
  apply IH; [done|simpl in Hf; lia|done].
Qed.
End chains.

(** What the loops ask of their bodies.  The plain loops: the list is as it was
    after the body.  The safe loops: the body at [y] leaves [y] in the list or
    takes it out, after which nothing is said of the node [y], which may be
    reused or freed; the members beside it stay.  The list then is any part of
    the original [l]. *)
Section bodies.
Context {S : Type} (hp : S → lheap) (off : Z) (head : Z) (l : list Z) (body : Z → M S unit).

Definition keeps_list : Prop :=
  ∀ y s s', y ∈ l → dlist (hp s) head l → body (list_entry y off) s = Ok tt s' → dlist (hp s') head l.

Definition may_remove : Prop :=
  ∀ l1 y l2 s s', l1 ++ y :: l2 `sublist_of` l → dlist (hp s) head (l1 ++ y :: l2) →
    body (list_entry y off) s = Ok tt s' → dlist (hp s') head (l1 ++ y :: l2) ∨ dlist (hp s') head (l1 ++ l2).
End bodies.

Section visits.
Context {S : Type} (hp : S → lheap) (off : Z) (head : Z) (l : list Z) (body : Z → M S unit).
Implicit Types s : S.

Abbreviation entry := (λ n, list_entry n off).
Abbreviation nbody := (λ n, body (list_entry n off)).
Abbreviation inv := (λ s, dlist (hp s) head l).

Lemma rd_next_Ok s p v : nxt (hp s) p = Some v → rd_next hp p s = Ok v s.
Proof. unfold nxt, rd_next. by destruct (hp s !! p); intros [= <-]. Qed.

Lemma rd_prev_Ok s p v : prv (hp s) p = Some v → rd_prev hp p s = Ok v s.
Proof. unfold prv, rd_prev. by destruct (hp s !! p); intros [= <-]. Qed.

Lemma last_or_reverse (d : Z) k : last_or d (reverse k) = hd_or d k.
Proof. destruct k as [|x k]; [done|]. rewrite reverse_cons. apply last_or_snoc. Qed.

Lemma dlist_head_notin s (k : list Z) : inv s → (∀ x, x ∈ k → x ∈ l) → head ∉ k.
Proof. intros [[Hh _]%NoDup_cons _] Hk Hin. by apply Hh, Hk. Qed.

Lemma chain_next s l1 l2 :
  keeps_list hp off head l body → inv s → l = l1 ++ l2 → chain (rd_next hp) head nbody inv l2.
Proof.
  intros keep Hd El. split.
  - apply (dlist_head_notin s); [done|]. rewrite El. set_solver.
  - intros ks1 x ks2 t -> Ht. apply rd_next_Ok. eapply (dlist_nxt _ head (l1 ++ ks1)).
    by rewrite <-(assoc_L (++)), <-El.
  - intros t Ht. eexists. by apply rd_next_Ok, dlist_head_nxt.
  - intros x t t' Hx Ht E. eapply keep; [|exact Ht|exact E]. rewrite El. set_solver.
Qed.

Lemma chain_prev s l1 l2 :
  keeps_list hp off head l body → inv s → l = l1 ++ l2 → chain (rd_prev hp) head nbody inv (reverse l1).
Proof.
  intros keep Hd El. split.
  - apply (dlist_head_notin s); [done|]. intros x. rewrite El, elem_of_reverse. set_solver.
  - intros ks1 x ks2 t E Ht. apply rd_prev_Ok. rewrite <-(last_or_reverse head ks2).
    eapply (dlist_prv _ head _ x (reverse ks1 ++ l2)). apply (f_equal reverse) in E.
    rewrite reverse_involutive, reverse_app, reverse_cons in E.
    replace (reverse ks2 ++ x :: reverse ks1 ++ l2) with l; [done|].
    by rewrite El, E, <-!(assoc_L (++)).
  - intros t Ht. eexists. by apply rd_prev_Ok, dlist_head_prv.
  - intros x t t' Hx%elem_of_reverse Ht E. eapply keep; [|exact Ht|exact E]. rewrite El. set_solver.
Qed.

(** What a safe loop still has to visit, forwards and backwards. *)
Definition next_rest (ks : list Z) s : Prop := ∃ l0, l0 ++ ks `sublist_of` l ∧ dlist (hp s) head (l0 ++ ks).
Definition prev_rest (ks : list Z) s : Prop :=
  ∃ l0, reverse ks ++ l0 `sublist_of` l ∧ dlist (hp s) head (reverse ks ++ l0).

Lemma safe_chain_next : may_remove hp off head l body → safe_chain (rd_next hp) head nbody next_rest.
Proof.
  intros Hr. split.
  - intros x ks s (l0 & _ & [[Hh _]%NoDup_cons _]) ->. apply Hh. set_solver.
  - intros x ks s (l0 & _ & Hd). by eapply rd_next_Ok, dlist_nxt.
  - intros s (l0 & _ & Hd). eexists. by eapply rd_next_Ok, dlist_head_nxt.
  - intros x ks s s' (l0 & Hs & Hd) E. destruct (Hr _ _ _ _ _ Hs Hd E) as [H|H].
    + exists (l0 ++ [x]). by rewrite <-(assoc_L (++)).
    + exists l0. split; [|done]. etrans; [|exact Hs]. apply sublist_app; [done|]. by constructor.
Qed.

Lemma safe_chain_prev : may_remove hp off head l body → safe_chain (rd_prev hp) head nbody prev_rest.
Proof.
  intros Hr. assert (∀ (x : Z) ks l0, reverse (x :: ks) ++ l0 = reverse ks ++ x :: l0) as Er.
  { intros x ks l0. by rewrite reverse_cons, <-(assoc_L (++)). }
  split; unfold prev_rest.
  - intros x ks s (l0 & _ & Hd) ->. rewrite Er in Hd. destruct Hd as [[Hh _]%NoDup_cons _]. apply Hh. set_solver.
  - intros x ks s (l0 & _ & Hd). rewrite Er in Hd. rewrite <-(last_or_reverse head ks). by eapply rd_prev_Ok, dlist_prv.
  - intros s (l0 & _ & Hd). eexists. by eapply rd_prev_Ok, dlist_head_prv.
  - intros x ks s s' (l0 & Hs & Hd) E. rewrite Er in Hs, Hd. destruct (Hr _ _ _ _ _ Hs Hd E) as [H|H].
    + by exists (x :: l0).
    + exists l0. split; [|done]. etrans; [|exact Hs]. apply sublist_app; [done|]. by constructor.
Qed.

(** The loop macros over the rest [l2] of the list, from where they start. *)
Lemma next_loop s l1 l2 fuel :
  keeps_list hp off head l body → inv s → l = l1 ++ l2 → (length l2 < fuel)%nat →
  node_loop (rd_next hp) fuel (hd_or head l2) head nbody s = visit nbody l2 s.
Proof. intros Hk Hd El Hf. apply (node_loop_visit _ _ _ inv); [exact (chain_next s l1 l2 Hk Hd El)|done..]. Qed.

Lemma prev_loop s l1 l2 fuel :
  keeps_list hp off head l body → inv s → l = l1 ++ l2 → (length l1 < fuel)%nat →
  node_loop (rd_prev hp) fuel (last_or head l1) head nbody s = visit nbody (reverse l1) s.
Proof.
  intros Hk Hd El Hf. rewrite <-(reverse_involutive l1), last_or_reverse, reverse_involutive.
  rewrite <-length_reverse in Hf. apply (node_loop_visit _ _ _ inv); [exact (chain_prev s l1 l2 Hk Hd El)|done..].
Qed.

Lemma next_safe_loop s l1 l2 fuel n :
  may_remove hp off head l body → inv s → l = l1 ++ l2 → (length l2 < fuel)%nat →
  rd_next hp (hd_or head l2) s = Ok n s →
  node_safe_loop (rd_next hp) fuel (hd_or head l2) n head nbody s = visit nbody l2 s.
Proof.
  intros Hr Hd El Hf En. apply (node_safe_loop_visit _ _ _ next_rest); [by apply safe_chain_next| |done..].
  exists l1. by rewrite <-El.
Qed.

Lemma prev_safe_loop s l1 l2 fuel n :
  may_remove hp off head l body → inv s → l = l1 ++ l2 → (length l1 < fuel)%nat →
  rd_prev hp (last_or head l1) s = Ok n s →
  node_safe_loop (rd_prev hp) fuel (last_or head l1) n head nbody s = visit nbody (reverse l1) s.
Proof.
  intros Hr Hd El Hf. rewrite <-(reverse_involutive l1), last_or_reverse, reverse_involutive. intros En.
  rewrite <-length_reverse in Hf.
  apply (node_safe_loop_visit _ _ _ prev_rest); [by apply safe_chain_prev| |done..].
  exists l2. by rewrite reverse_involutive, <-El.
Qed.

Lemma rd_next_hd s l1 l2 : inv s → l = l1 ++ l2 → ∃ n, rd_next hp (hd_or head l2) s = Ok n s.
Proof.
  intros Hd El. destruct l2 as [|x l2]; eexists; apply rd_next_Ok;
    [exact (dlist_head_nxt _ _ _ Hd)|].
  eapply (dlist_nxt _ head l1 x l2). by rewrite <-El.
Qed.

Lemma rd_prev_last s l1 l2 : inv s → l = l1 ++ l2 → ∃ n, rd_prev hp (last_or head l1) s = Ok n s.
Proof.
  intros Hd El. destruct l1 as [|x l1 _] using rev_ind; eexists; apply rd_prev_Ok;
    [exact (dlist_head_prv _ _ _ Hd)|].
  rewrite last_or_snoc. eapply (dlist_prv _ head l1 x l2). by rewrite cons_middle, (assoc_L (++)), <-El.
Qed.
End visits.

Section loop_theorem.
Context {S : Type} (hp : S → lheap) (off : Z).
Implicit Types (s : S) (body : Z → M S unit).

Abbreviation entry := (λ n, list_entry n off).

(** The macros over nodes, for a body on entries. *)
Lemma node_macros_visit head l body s fuel :
  dlist (hp s) head l → (length l < fuel)%nat →
  let nb := λ n, body (list_entry n off) in
  (keeps_list hp off head l body →
   list_for_each hp fuel head nb s = visit body (entry <$> l) s ∧
   list_for_each_prev hp fuel head nb s = visit body (entry <$> reverse l) s) ∧
  (may_remove hp off head l body →
   list_for_each_safe hp fuel head nb s = visit body (entry <$> l) s ∧
   list_for_each_prev_safe hp fuel head nb s = visit body (entry <$> reverse l) s).
Proof.
  intros Hd Hf nb. rewrite !visit_fmap. pose proof (eq_sym (app_nil_r l)) as El.
  pose proof (rd_next_Ok hp s _ _ (dlist_head_nxt _ _ _ Hd)) as En.
  pose proof (rd_prev_Ok hp s _ _ (dlist_head_prv _ _ _ Hd)) as Ep.
  destruct (rd_next_hd hp head l s [] l Hd eq_refl) as [n Hn].
  destruct (rd_prev_last hp head l s l [] Hd El) as [p Hp].
  unfold list_for_each, list_for_each_safe, list_for_each_prev, list_for_each_prev_safe, mbind, M_bind.
  rewrite En, Ep, Hn, Hp. split; intros Hb; split.
  - exact (next_loop hp off head l body s [] l fuel Hb Hd eq_refl Hf).
  - exact (prev_loop hp off head l body s l [] fuel Hb Hd El Hf).
  - exact (next_safe_loop hp off head l body s [] l fuel n Hb Hd eq_refl Hf Hn).
  - exact (prev_safe_loop hp off head l body s l [] fuel p Hb Hd El Hf Hp).
Qed.

(** A step from an entry is the step from its node. *)
Lemma list_next_entry_run s x :
  list_next_entry hp off (list_entry x off) s = (n ← rd_next hp x; mret (list_entry n off)) s.
Proof. unfold list_next_entry, list_entry, container_of. by replace (x - off + off) with x by lia. Qed.

Lemma list_prev_entry_run s x :
  list_prev_entry hp off (list_entry x off) s = (n ← rd_prev hp x; mret (list_entry n off)) s.
Proof. unfold list_prev_entry, list_entry, container_of. by replace (x - off + off) with x by lia. Qed.

Lemma list_next_entry_Ok s x v :
  rd_next hp x s = Ok v s → list_next_entry hp off (list_entry x off) s = Ok (list_entry v off) s.
Proof. intros E. by rewrite list_next_entry_run, (bind_Ok _ _ _ _ _ E). Qed.

Lemma list_prev_entry_Ok s x v :
  rd_prev hp x s = Ok v s → list_prev_entry hp off (list_entry x off) s = Ok (list_entry v off) s.
Proof. intros E. by rewrite list_prev_entry_run, (bind_Ok _ _ _ _ _ E). Qed.

(** Each macro over entries is a macro over nodes. *)
Lemma entry_macros_nodes head body s fuel :
  let nb := λ n, body (list_entry n off) in
  list_for_each_entry hp off fuel head body s = list_for_each hp fuel head nb s ∧
  list_for_each_entry_reverse hp off fuel head body s = list_for_each_prev hp fuel head nb s ∧
  list_for_each_entry_safe hp off fuel head body s = list_for_each_safe hp fuel head nb s ∧
  list_for_each_entry_safe_reverse hp off fuel head body s = list_for_each_prev_safe hp fuel head nb s.
Proof.
  unfold list_for_each_entry, list_for_each_entry_reverse, list_for_each_entry_safe,
    list_for_each_entry_safe_reverse, list_for_each, list_for_each_prev, list_for_each_safe,
    list_for_each_prev_safe, list_first_entry, list_last_entry, mbind, M_bind.
  split_and!.
  - destruct (rd_next hp head s) as [n s'| |]; [|done..]. apply (entry_loop_nodes off (rd_next hp)).
  - destruct (rd_prev hp head s) as [n s'| |]; [|done..]. apply (entry_loop_nodes off (rd_prev hp)).
  - destruct (rd_next hp head s) as [n s'| |]; [|done..].
    cbv beta iota delta [mret M_ret]. rewrite list_next_entry_run. unfold mbind, M_bind. destruct (rd_next hp n s') as [n' s''| |]; [|done..].
    apply (entry_safe_loop_nodes off (rd_next hp)).
  - destruct (rd_prev hp head s) as [n s'| |]; [|done..].
    cbv beta iota delta [mret M_ret]. rewrite list_prev_entry_run. unfold mbind, M_bind. destruct (rd_prev hp n s') as [n' s''| |]; [|done..].
    apply (entry_safe_loop_nodes off (rd_prev hp)).
Qed.

(** The macros that start at an entry [x] of the list, or behind it. *)
Lemma partial_macros_visit head l1 x l2 body s fuel :
  let l := l1 ++ x :: l2 in
  keeps_list hp off head l body → dlist (hp s) head l → (length l < fuel)%nat →
  list_for_each_entry_from hp off fuel (list_entry x off) head body s = visit body (entry <$> x :: l2) s ∧
  list_for_each_entry_from_reverse hp off fuel (list_entry x off) head body s
    = visit body (entry <$> x :: reverse l1) s ∧
  list_for_each_entry_continue hp off fuel (list_entry x off) head body s = visit body (entry <$> l2) s ∧
  list_for_each_entry_continue_reverse hp off fuel (list_entry x off) head body s
    = visit body (entry <$> reverse l1) s.
Proof.
  intros l Hk Hd Hf. unfold l in Hf. rewrite length_app in Hf. simpl in Hf. rewrite !visit_fmap.
  assert (l = (l1 ++ [x]) ++ l2) as El by (unfold l; by rewrite cons_middle, (assoc_L (++))).
  pose proof (next_loop hp off head l body s l1 (x :: l2) fuel Hk Hd eq_refl ltac:(simpl; lia)) as N1.
  pose proof (next_loop hp off head l body s (l1 ++ [x]) l2 fuel Hk Hd El ltac:(lia)) as N3.
  pose proof (prev_loop hp off head l body s l1 (x :: l2) fuel Hk Hd eq_refl ltac:(lia)) as P1.
  pose proof (prev_loop hp off head l body s (l1 ++ [x]) l2 fuel Hk Hd El) as P2.
  rewrite length_app, last_or_snoc, reverse_app in P2. simpl in P2. specialize (P2 ltac:(lia)).
  pose proof (list_next_entry_Ok _ _ _ (rd_next_Ok hp s _ _ (dlist_nxt _ _ _ _ _ Hd))) as Ene.
  pose proof (list_prev_entry_Ok _ _ _ (rd_prev_Ok hp s _ _ (dlist_prv _ _ _ _ _ Hd))) as Epe.
  unfold list_for_each_entry_continue, list_for_each_entry_continue_reverse. split_and!.
  - etrans; [apply (entry_loop_nodes off (rd_next hp))|exact N1].
  - etrans; [apply (entry_loop_nodes off (rd_prev hp))|exact P2].
  - rewrite (bind_Ok _ _ _ _ _ Ene). etrans; [apply (entry_loop_nodes off (rd_next hp))|exact N3].
  - rewrite (bind_Ok _ _ _ _ _ Epe). etrans; [apply (entry_loop_nodes off (rd_prev hp))|exact P1].
Qed.

Lemma partial_safe_macros_visit head l1 x l2 body s fuel :
  let l := l1 ++ x :: l2 in
  may_remove hp off head l body → dlist (hp s) head l → (length l < fuel)%nat →
  list_for_each_entry_safe_from hp off fuel (list_entry x off) head body s = visit body (entry <$> x :: l2) s ∧
  list_for_each_entry_safe_continue hp off fuel (list_entry x off) head body s = visit body (entry <$> l2) s.
Proof.
  intros l Hr Hd Hf. unfold l in Hf. rewrite length_app in Hf. simpl in Hf. rewrite !visit_fmap.
  assert (l = (l1 ++ [x]) ++ l2) as El by (unfold l; by rewrite cons_middle, (assoc_L (++))).
  pose proof (rd_next_Ok hp s _ _ (dlist_nxt _ _ _ _ _ Hd)) as En.
  destruct (rd_next_hd hp head l s (l1 ++ [x]) l2 Hd El) as [n Hn].
  pose proof (list_next_entry_Ok _ _ _ En) as Ene. pose proof (list_next_entry_Ok _ _ _ Hn) as Enn.
  unfold list_for_each_entry_safe_from, list_for_each_entry_safe_continue. rewrite !(bind_Ok _ _ _ _ _ Ene). split.
  - etrans; [apply (entry_safe_loop_nodes off (rd_next hp))|].
    exact (next_safe_loop hp off head l body s l1 (x :: l2) fuel _ Hr Hd eq_refl ltac:(simpl; lia) En).
  - rewrite (bind_Ok _ _ _ _ _ Enn). etrans; [apply (entry_safe_loop_nodes off (rd_next hp))|].
    exact (next_safe_loop hp off head l body s (l1 ++ [x]) l2 fuel _ Hr Hd El ltac:(lia) Hn).
Qed.

(** C27 Every iteration macro of list.h is equivalent to running its body on
    the sequence it should visit: all entries, in order or backwards, for the
    macros over nodes and over entries; and for an entry [x] with [l1] before
    and [l2] behind it, [x] and [l2] (from), [l2] (continue), [x] and [l1]
    backwards (from, reverse) or [l1] backwards (continue, reverse).  The plain
    macros need a body that leaves the list as it is ([keeps_list]); the safe
    ones only a body that leaves the other members in the list ([may_remove]):
    it may take the visited entry out and free it, and the loop still visits
    every entry of the list it started on.  The two sides agree on every
    outcome, so the loops end, and fault only where the body faults. *)
Theorem list_loops_visit head l body s fuel :
  dlist (hp s) head l → (length l < fuel)%nat →
  let nb := λ n, body (list_entry n off) in
  let fwd := visit body (entry <$> l) s in
  let bwd := visit body (entry <$> reverse l) s in
  (keeps_list hp off head l body →
   (list_for_each hp fuel head nb s = fwd ∧ list_for_each_entry hp off fuel head body s = fwd) ∧
   (list_for_each_prev hp fuel head nb s = bwd ∧ list_for_each_entry_reverse hp off fuel head body s = bwd) ∧
   ∀ l1 x l2, l = l1 ++ x :: l2 →
     list_for_each_entry_from hp off fuel (list_entry x off) head body s = visit body (entry <$> x :: l2) s ∧
     list_for_each_entry_from_reverse hp off fuel (list_entry x off) head body s
       = visit body (entry <$> x :: reverse l1) s ∧
     list_for_each_entry_continue hp off fuel (list_entry x off) head body s = visit body (entry <$> l2) s ∧
     list_for_each_entry_continue_reverse hp off fuel (list_entry x off) head body s
       = visit body (entry <$> reverse l1) s) ∧
  (may_remove hp off head l body →
   (list_for_each_safe hp fuel head nb s = fwd ∧ list_for_each_entry_safe hp off fuel head body s = fwd) ∧
   (list_for_each_prev_safe hp fuel head nb s = bwd ∧
    list_for_each_entry_safe_reverse hp off fuel head body s = bwd) ∧
   ∀ l1 x l2, l = l1 ++ x :: l2 →
     list_for_each_entry_safe_from hp off fuel (list_entry x off) head body s = visit body (entry <$> x :: l2) s ∧
     list_for_each_entry_safe_continue hp off fuel (list_entry x off) head body s = visit body (entry <$> l2) s).
Proof.
  intros Hd Hf nb fwd bwd.
  destruct (node_macros_visit head l body s fuel Hd Hf) as [Hp Hs].
  destruct (entry_macros_nodes head body s fuel) as (E1 & E2 & E3 & E4).
  split; intros Hb.
  - destruct (Hp Hb) as [N1 N2]. rewrite E1, E2. split_and!; [done..|].
    intros l1 x l2 ->. exact (partial_macros_visit head l1 x l2 body s fuel Hb Hd Hf).
  - destruct (Hs Hb) as [N1 N2]. rewrite E3, E4. split_and!; [done..|].
    intros l1 x l2 ->. exact (partial_safe_macros_visit head l1 x l2 body s fuel Hb Hd Hf).
Qed.

(** [list_for_each_entry_continue] behind a prepared entry: without a position
    it visits the whole list. *)
Lemma prepare_entry_continue head body s fuel :
  list_for_each_entry_continue hp off fuel (list_prepare_entry off NULL head) head body s
  = list_for_each_entry hp off fuel head body s.
Proof.
  unfold list_for_each_entry_continue, list_prepare_entry, list_for_each_entry.
  change (negb (NULL =? NULL)) with false. cbv iota.
  unfold mbind at 1, M_bind at 1. by rewrite list_next_entry_run.
Qed.
End loop_theorem.

(** ** Concrete loops

    The state is a heap and the entries visited so far; the nodes are at
    offset 16 of their structs.  One body notes the entry, the other also takes
    it out of the list and frees its node. *)

Definition ex_note (e : Z) : M (lheap * list Z) unit := λ s, Ok tt (s.1, s.2 ++ [e]).

Definition ex_free_node (e : Z) : M (lheap * list Z) unit := λ s,
  match list_del (e + 16) s.1 with
  | Ok _ h => Ok tt (delete (e + 16) h, s.2 ++ [e])
  | Fault => Fault
  | NoFuel => NoFuel
  end.

Lemma ex_note_keeps head l : keeps_list fst 16 head l ex_note.
Proof. intros y s s' _ Hd [= <-]. exact Hd. Qed.

Lemma ex_free_node_removes head l : may_remove fst 16 head l ex_free_node.
Proof.
  intros l1 y l2 [h seen] s' _ Hd. simpl in Hd. unfold ex_free_node, list_entry, container_of. simpl.
  replace (y - 16 + 16) with y by lia. pose proof (wp_list_del h head l1 y l2 Hd) as Hw. unfold wp in Hw.
  pose proof Hd as [[_ Hy]%NoDup_mid _].
  destruct (list_del y h) as [? h'| |]; [|done..]. intros [= <-]. right. simpl. destruct Hw as [Hd' _].
  eapply (dlist_same_outside _ _ [y]); [set_solver| |exact Hd'].
  intros q Hq. apply lookup_delete_ne. set_solver.
Qed.

Lemma list_loops_visit_witness :
  list_for_each_entry_reverse fst 16 3 100 ex_note (ex_heap, []) = Ok tt (ex_heap, [-14; -15]) ∧
  (list_for_each_entry_safe fst 16 3 100 ex_free_node (ex_heap, [])
     = visit ex_free_node [-15; -14] (ex_heap, []) ∧
   ∃ h, visit ex_free_node [-15; -14] (ex_heap, []) = Ok tt (h, [-15; -14]) ∧
        h !! 1 = None ∧ h !! 2 = None ∧ h !! 100 = Some (ListHead 100 100)).
Proof.
  destruct (list_loops_visit fst 16 100 [1; 2] ex_note (ex_heap, []) 3) as [H1 _]; [concrete_dlist|simpl; lia|].
  destruct (list_loops_visit fst 16 100 [1; 2] ex_free_node (ex_heap, []) 3) as [_ H2]; [concrete_dlist|simpl; lia|].
  split; [|split].
  - destruct (H1 (ex_note_keeps 100 [1; 2])) as (_ & (_ & H) & _). exact H.
  - destruct (H2 (ex_free_node_removes 100 [1; 2])) as ((_ & H) & _). exact H.
  - eexists. vm_compute. auto.
Defined.
