(* ===== verification/HList.v ===== *)
(** * The hash list of list.h

    Lists with a single-pointer head: a node knows its successor and, through
    [pprev], the pointer that points to it, which is the member [first] of the
    head or the member [next] of the node before.  Such a pointer variable, a
    cell, is the first member of its struct, so [&h->first] and [&n->next] are
    the addresses of the structs.  [hlist h head l] says that the heap [h]
    holds the list [l] below [head]; the theorems show that every operation
    does on heaps what it should on sequences, that a node knows whether it is
    in a list, and that the loops visit the members in order and end. *)

From S2P Require Import Prelude DList ListSpec.
Local Open Scope Z_scope.

(** ** Data *)

(** The live objects: a [struct hlist_head] at [p] is the cell [p]; a
    [struct hlist_node] at [p] is the cell [p] (its member [next]) together
    with its member [pprev]. *)
Record hheap := HHeap { cells : gmap Z Z; pprevs : gmap Z Z }.

(** [&h->first] and [&n->next]. *)
Definition first_cell (h : Z) : Z := h.
Definition next_cell (n : Z) : Z := n.

Definition upd_cell (c v : Z) (h : hheap) : hheap := HHeap (<[c := v]> (cells h)) (pprevs h).
Definition upd_pprev (n v : Z) (h : hheap) : hheap := HHeap (cells h) (<[n := v]> (pprevs h)).

(** Loads and stores; a dereference of an address without a live object faults. *)
Definition get_cell (c : Z) : M hheap Z := λ h,
  match cells h !! c with Some v => Ok v h | None => Fault end.
Definition set_cell (c v : Z) : M hheap unit := λ h,
  match cells h !! c with Some _ => Ok tt (upd_cell c v h) | None => Fault end.
Definition get_pprev (n : Z) : M hheap Z := λ h,
  match pprevs h !! n with Some v => Ok v h | None => Fault end.
Definition set_pprev (n v : Z) : M hheap unit := λ h,
  match pprevs h !! n with Some _ => Ok tt (upd_pprev n v h) | None => Fault end.

(** ** Operations *)

Definition HLIST_HEAD_INIT : Z := NULL.

(** The definition of a variable [name]. *)
Definition HLIST_HEAD (name : Z) (h : hheap) : hheap := upd_cell (first_cell name) HLIST_HEAD_INIT h.

Definition INIT_HLIST_HEAD (p : Z) : M hheap unit := set_cell (first_cell p) NULL.

Definition INIT_HLIST_NODE (h : Z) : M hheap unit :=
  set_cell (next_cell h) NULL ;;
  set_pprev h NULL.

Definition hlist_unhashed (h : Z) : M hheap bool :=
  pp ← get_pprev h;
  mret (pp =? NULL).

Definition hlist_empty (h : Z) : M hheap bool :=
  f ← get_cell (first_cell h);
  mret (f =? NULL).

Definition __hlist_del (n : Z) : M hheap unit :=
  next ← get_cell (next_cell n);
  pprev ← get_pprev n;
  set_cell pprev next ;;
  if negb (next =? NULL) then set_pprev next pprev else mret tt.

Definition hlist_del (n : Z) : M hheap unit :=
  __hlist_del n ;;
  set_cell (next_cell n) LIST_POISON1 ;;
  set_pprev n LIST_POISON2.

Definition hlist_del_init (n : Z) : M hheap unit :=
  u ← hlist_unhashed n;
  if negb u then
    __hlist_del n ;;
    INIT_HLIST_NODE n
  else mret tt.

Definition hlist_add_head (n h : Z) : M hheap unit :=
  first ← get_cell (first_cell h);
  set_cell (next_cell n) first ;;
  (if negb (first =? NULL) then set_pprev first (next_cell n) else mret tt) ;;
  set_cell (first_cell h) n ;;
  set_pprev n (first_cell h).

Definition hlist_add_before (n next : Z) : M hheap unit :=
  pp ← get_pprev next;
  set_pprev n pp ;;
  set_cell (next_cell n) next ;;
  set_pprev next (next_cell n) ;;
  pp' ← get_pprev n;
  set_cell pp' n.

Definition hlist_add_behind (n prev : Z) : M hheap unit :=
  pn ← get_cell (next_cell prev);
  set_cell (next_cell n) pn ;;
  set_cell (next_cell prev) n ;;
  set_pprev n (next_cell prev) ;;
  nn ← get_cell (next_cell n);
  if negb (nn =? NULL) then
    nn' ← get_cell (next_cell n);
    set_pprev nn' (next_cell n)
  else mret tt.

Definition hlist_add_fake (n : Z) : M hheap unit := set_pprev n (next_cell n).

Definition hlist_fake (h : Z) : M hheap bool :=
  pp ← get_pprev h;
  mret (pp =? next_cell h).

Definition hlist_is_singular_node (n h : Z) : M hheap bool :=
  nn ← get_cell (next_cell n);
  if nn =? NULL then
    pp ← get_pprev n;
    mret (pp =? first_cell h)
  else mret false.

Definition hlist_move_list (old new : Z) : M hheap unit :=
  f ← get_cell (first_cell old);
  set_cell (first_cell new) f ;;
  nf ← get_cell (first_cell new);
  (if negb (nf =? NULL) then
     nf' ← get_cell (first_cell new);
     set_pprev nf' (first_cell new)
   else mret tt) ;;
  set_cell (first_cell old) NULL.

(** ** Entries and iteration

    As for the circular lists: [off] is the offset of the node in its struct,
    the state [S] contains the heap of nodes ([hp]), [fuel] bounds the number
    of condition tests. *)

Definition hlist_entry (p off : Z) : Z := container_of p off.
Definition hlist_entry_safe (p off : Z) : Z := if negb (p =? NULL) then hlist_entry p off else NULL.

Section hlist_iteration.
Context {S : Type} (hp : S → hheap) (off : Z).

Definition rd_cell (c : Z) : M S Z := λ s,
  match cells (hp s) !! c with Some v => Ok v s | None => Fault end.

(** [for (; pos; pos = pos->next) body] *)
Fixpoint hlist_loop (fuel : nat) (pos : Z) (body : Z → M S unit) : M S unit :=
  match fuel with
  | O => λ _, NoFuel
  | Datatypes.S fuel =>
      if pos =? NULL then mret tt else
      body pos ;;
      pos' ← rd_cell (next_cell pos);
      hlist_loop fuel pos' body
  end.

(** [for (; pos && ({ n = pos->next; 1; }); pos = n) body] *)
Fixpoint hlist_safe_loop (fuel : nat) (pos : Z) (body : Z → M S unit) : M S unit :=
  match fuel with
  | O => λ _, NoFuel
  | Datatypes.S fuel =>
      if pos =? NULL then mret tt else
      n ← rd_cell (next_cell pos);
      body pos ;;
      hlist_safe_loop fuel n body
  end.

Definition hlist_for_each (fuel : nat) (head : Z) (body : Z → M S unit) : M S unit :=
  pos ← rd_cell (first_cell head);
  hlist_loop fuel pos body.

Definition hlist_for_each_safe (fuel : nat) (head : Z) (body : Z → M S unit) : M S unit :=
  pos ← rd_cell (first_cell head);
  hlist_safe_loop fuel pos body.

(** [pos = hlist_entry_safe((pos)->member.next, ...)] *)
Definition hlist_next_entry (pos : Z) : M S Z :=
  n ← rd_cell (next_cell (pos + off));
  mret (hlist_entry_safe n off).

(** [for (; pos; pos = hlist_entry_safe((pos)->member.next, ...)) body] *)
Fixpoint hlist_for_each_entry_from (fuel : nat) (pos : Z) (body : Z → M S unit) : M S unit :=
  match fuel with
  | O => λ _, NoFuel
  | Datatypes.S fuel =>
      if pos =? NULL then mret tt else
      body pos ;;
      pos' ← hlist_next_entry pos;
      hlist_for_each_entry_from fuel pos' body
  end.

Definition hlist_for_each_entry (fuel : nat) (head : Z) (body : Z → M S unit) : M S unit :=
  f ← rd_cell (first_cell head);
  hlist_for_each_entry_from fuel (hlist_entry_safe f off) body.

Definition hlist_for_each_entry_continue (fuel : nat) (pos : Z) (body : Z → M S unit) : M S unit :=
  pos' ← hlist_next_entry pos;
  hlist_for_each_entry_from fuel pos' body.

(** [for (; pos && ({ n = pos->member.next; 1; }); pos = hlist_entry_safe(n, ...)) body] *)
Fixpoint hlist_entry_safe_loop (fuel : nat) (pos : Z) (body : Z → M S unit) : M S unit :=
  match fuel with
  | O => λ _, NoFuel
  | Datatypes.S fuel =>
      if pos =? NULL then mret tt else
      n ← rd_cell (next_cell (pos + off));
      body pos ;;
      hlist_entry_safe_loop fuel (hlist_entry_safe n off) body
  end.

Definition hlist_for_each_entry_safe (fuel : nat) (head : Z) (body : Z → M S unit) : M S unit :=
  f ← rd_cell (first_cell head);
  hlist_entry_safe_loop fuel (hlist_entry_safe f off) body.
End hlist_iteration.

(** ** Representation *)

(** The members of [l] hang one after the other on the cell [c]. *)
Fixpoint hlinks (h : hheap) (c : Z) (l : list Z) : Prop :=
  match l with
  | [] => True
  | x :: l => cells h !! c = Some x ∧ pprevs h !! x = Some c ∧ hlinks h x l
  end.

Definition hlist (h : hheap) (head : Z) (l : list Z) : Prop :=
  NoDup (head :: l) ∧ (NULL ∉ head :: l) ∧ hlinks h head l ∧ cells h !! last_or head l = Some NULL.

(** Objects outside [ns] are untouched. *)
Definition hsame_outside (ns : list Z) (h h' : hheap) : Prop :=
  ∀ q, q ∉ ns → cells h' !! q = cells h !! q ∧ pprevs h' !! q = pprevs h !! q.

(** [n] is a live node. *)
Definition hnode_live (h : hheap) (n : Z) : Prop := is_Some (cells h !! n) ∧ is_Some (pprevs h !! n).

Section hlist_structure.
Implicit Types h : hheap.

Lemma hlinks_app h c l1 l2 : hlinks h c (l1 ++ l2) ↔ hlinks h c l1 ∧ hlinks h (last_or c l1) l2.
Proof.
  revert c. induction l1 as [|x l1 IH]; intros c; [simpl; rewrite last_or_nil; naive_solver|].
  simpl. rewrite IH, last_or_cons. naive_solver.
Qed.

(** The links of a list depend on its cells and its nodes only. *)
Lemma hlinks_frame h h' c l :
  NoDup (c :: l) →
  (∀ q, q ∈ c :: l → q ≠ last_or c l → cells h' !! q = cells h !! q) →
  (∀ q, q ∈ l → pprevs h' !! q = pprevs h !! q) →
  hlinks h c l → hlinks h' c l.
Proof.
  revert c. induction l as [|x l IH]; intros c Hnd Hc Hp Hl; [done|]. simpl in *.
  destruct Hl as (E1 & E2 & Hl). pose proof Hnd as [Hcx Hnd']%NoDup_cons.
  split_and!.
  - rewrite Hc; [done|set_solver|]. rewrite last_or_cons. pose proof (last_or_in x l). intros ->. done.
  - rewrite Hp by set_solver. done.
  - apply IH; [done| |set_solver|done]. intros q Hq Hne. apply Hc; [set_solver|by rewrite last_or_cons].
Qed.

Lemma hlist_frame h h' ns head l :
  (∀ x, x ∈ head :: l → x ∉ ns) → hsame_outside ns h h' → hlist h head l → hlist h' head l.
Proof.
  intros Hx Hs (Hnd & Hnull & Hl & He). split_and!; [done|done|..].
  - eapply hlinks_frame; [done|..|exact Hl]; intros q Hq; intros; apply Hs, Hx; set_solver.
  - pose proof (last_or_in head l) as Hin. destruct (Hs (last_or head l)) as [-> _]; [by apply Hx|done].
Qed.

(** The cell behind the first part of a list. *)
Lemma hlist_cell h head l1 l2 : hlist h head (l1 ++ l2) → cells h !! last_or head l1 = Some (hd_or NULL l2).
Proof.
  intros (_ & _ & Hl & He). apply hlinks_app in Hl as [_ Hl]. destruct l2 as [|x l2].
  - by rewrite app_nil_r in He.
  - apply Hl.
Qed.

Lemma hlist_pprev h head l1 x l2 : hlist h head (l1 ++ x :: l2) → pprevs h !! x = Some (last_or head l1).
Proof. intros (_ & _ & Hl & _). apply hlinks_app in Hl as [_ (_ & Hx & _)]. done. Qed.

Lemma hlist_next h head l1 x l2 : hlist h head (l1 ++ x :: l2) → cells h !! x = Some (hd_or NULL l2).
Proof.
  intros H. pose proof (hlist_cell h head (l1 ++ [x]) l2) as Hc.
  rewrite <-(assoc_L (++)), last_or_snoc in Hc. by apply Hc.
Qed.

Lemma hlist_node_live h head l x : hlist h head l → x ∈ l → hnode_live h x.
Proof.
  intros H (l1 & l2 & ->)%list_elem_of_split. split; [by erewrite hlist_next|by erewrite hlist_pprev].
Qed.

Lemma hd_or_null l : NULL ∉ l → hd_or NULL l = NULL ↔ l = [].
Proof. destruct l as [|x l]; [done|]. simpl. set_solver. Qed.

(** The node of [x] linked in between [l1] and [l2]: which cells and back
    pointers differ from [h]. *)
Definition hlinked_in (head : Z) (l1 : list Z) (x : Z) (l2 : list Z) (h h' : hheap) : Prop :=
  (∀ q, cells h' !! q = if decide (q = last_or head l1) then Some x
                        else if decide (q = x) then Some (hd_or NULL l2) else cells h !! q) ∧
  (∀ q, pprevs h' !! q = if decide (q = x) then Some (last_or head l1)
                         else if decide (Some q = list.head l2) then Some x else pprevs h !! q).

(** The neighbours of [x] linked to each other; the node of [x] itself may hold
    anything. *)
Definition hlinked_out (head : Z) (l1 : list Z) (x : Z) (l2 : list Z) (h h' : hheap) : Prop :=
  (∀ q, q ≠ x → cells h' !! q = if decide (q = last_or head l1) then Some (hd_or NULL l2) else cells h !! q) ∧
  (∀ q, q ≠ x → pprevs h' !! q = if decide (Some q = list.head l2) then Some (last_or head l1) else pprevs h !! q).

Lemma head_elem (q : Z) l : Some q = list.head l → q ∈ l.
Proof. destruct l; simpl; [done|]. intros [= ->]. constructor. Qed.

(** A chain keeps its links when only the cell at its end changes. *)
Lemma hlinked_in_hlist head l1 x l2 h h' :
  hlist h head (l1 ++ l2) → x ∉ head :: l1 ++ l2 → x ≠ NULL → hlinked_in head l1 x l2 h h' →
  hlist h' head (l1 ++ x :: l2) ∧ hsame_outside (x :: head :: l1 ++ l2) h h'.
Proof.
  intros (Hnd & Hnull & Hl & He) Hx Hxn [HC HP].
  pose proof Hnd as (H1 & H2 & Hn1 & Hn2 & Hdis)%NoDup_cut.
  apply hlinks_app in Hl as [L1 L2]. destruct (cut_ends head l1 l2 Hnd) as (E1 & _).
  pose proof (last_or_in head l1) as Hlast.
  assert ((x ∉ l1) ∧ (x ∉ l2) ∧ x ≠ head ∧ x ≠ last_or head l1) as (X1 & X2 & X3 & X4).
  { split_and!; try (clear - Hx; set_solver). intros E. rewrite <-E in Hlast. clear - Hx Hlast. set_solver. }
  split; [split_and!|].
  - apply NoDup_cut. split_and!; try done; [clear - H2 X3; set_solver|by constructor|].
    intros y Hy [->|Hy']%elem_of_cons; [done|by eapply Hdis].
  - clear - Hnull Hxn. set_solver.
  - apply hlinks_app. split.
    { eapply hlinks_frame; [by constructor| |..|exact L1].
      - intros q Hq Hne. rewrite HC, decide_False, decide_False; [done| |done]. clear - Hq X1 X3. set_solver.
      - intros q Hq. rewrite HP, decide_False, decide_False; [done|..]; [|clear - Hq X1; set_solver].
        intros Hh%head_elem. by eapply Hdis. }
    simpl. rewrite HC, decide_True by done. rewrite HP, decide_True by done. split_and!; [done|done|].
    destruct l2 as [|y l2]; [done|]. simpl. rewrite HC, decide_False, decide_True by done.
    rewrite HP, decide_False, decide_True by (try done; clear - X2; set_solver). split_and!; [done..|].
    eapply hlinks_frame; [done| | |apply L2].
    + intros q Hq _. rewrite HC, !decide_False; [done|clear - Hq X2; set_solver|]. intros ->. done.
    + intros q Hq. apply NoDup_cons in Hn2 as [Hy _]. rewrite HP, !decide_False; [done|..].
      * intros [= ->]. done.
      * clear - Hq X2. set_solver.
  - rewrite last_or_app, last_or_cons, HC. destruct (decide _) as [E|E].
    { exfalso. pose proof (last_or_in x l2) as Hin. rewrite E in Hin.
      apply elem_of_cons in Hin as [?|?]; [congruence|done]. }
    destruct l2 as [|y l2]; [by rewrite decide_True|]. rewrite last_or_cons, decide_False.
    + by rewrite last_or_app, last_or_cons in He.
    + pose proof (last_or_in y l2) as Hin. intros Ex. rewrite Ex in Hin. done.
  - intros q Hq. rewrite HC, HP, !decide_False; [done|..].
    + intros Hh%head_elem. clear - Hq Hh. set_solver.
    + clear - Hq. set_solver.
    + clear - Hq. set_solver.
    + intros ->. clear - Hq Hlast. set_solver.
Qed.

Lemma hlinked_out_hlist head l1 x l2 h h' :
  hlist h head (l1 ++ x :: l2) → hlinked_out head l1 x l2 h h' →
  hlist h' head (l1 ++ l2) ∧ hsame_outside (head :: l1 ++ x :: l2) h h'.
Proof.
  intros (Hnd & Hnull & Hl & He) [HC HP].
  destruct (NoDup_mid _ _ _ _ Hnd) as [Hnd' Hx].
  pose proof Hnd' as (H1 & H2 & Hn1 & Hn2 & Hdis)%NoDup_cut.
  apply hlinks_app in Hl as [L1 (_ & _ & L2)]. destruct (cut_ends head l1 l2 Hnd') as (E1 & _).
  pose proof (last_or_in head l1) as Hlast.
  assert ((x ∉ l1) ∧ (x ∉ l2) ∧ x ≠ head ∧ x ≠ last_or head l1) as (X1 & X2 & X3 & X4).
  { split_and!; try (clear - Hx; set_solver). intros E. rewrite <-E in Hlast. clear - Hx Hlast. set_solver. }
  split; [split_and!|].
  - done.
  - clear - Hnull. set_solver.
  - apply hlinks_app. split.
    { eapply hlinks_frame; [by constructor| |..|exact L1].
      - intros q Hq Hne. rewrite HC, decide_False by (try done; intros ->; set_solver). done.
      - intros q Hq. rewrite HP, decide_False; [done|..]; [|intros ->; done].
        intros Hh%head_elem. by eapply Hdis. }
    destruct l2 as [|y l2]; [done|]. simpl. rewrite HC, decide_True by done.
    rewrite HP, decide_True by (try done; clear - X2; set_solver). split_and!; [done..|].
    eapply hlinks_frame; [done| | |apply L2].
    + intros q Hq _. rewrite HC, decide_False; [done|intros ->; done|intros ->; done].
    + intros q Hq. apply NoDup_cons in Hn2 as [Hy _]. rewrite HP, decide_False; [done|..].
      * intros [= ->]. done.
      * clear - Hq X2. set_solver.
  - rewrite last_or_app, HC.
    + destruct l2 as [|y l2]; [by rewrite decide_True|]. rewrite last_or_cons, decide_False.
      * by rewrite last_or_app, !last_or_cons in He.
      * pose proof (last_or_in y l2) as Hin. intros Ex. by rewrite Ex in Hin.
    + destruct l2 as [|y l2]; [done|]. rewrite last_or_cons. pose proof (last_or_in y l2). by intros <-.
  - intros q Hq. rewrite HC, HP, !decide_False; [done|..].
    + intros Hh%head_elem. clear - Hq Hh. set_solver.
    + intros ->. clear - Hq Hlast. set_solver.
    + clear - Hq. set_solver.
    + clear - Hq. set_solver.
Qed.
End hlist_structure.

(** ** Operations on represented lists *)

Section hlist_rules.
Implicit Types h : hheap.

Lemma wp_get_cell h c v (Q : Z → hheap → Prop) : cells h !! c = Some v → Q v h → wp (get_cell c) Q h.
Proof. intros E HQ. unfold wp, get_cell. by rewrite E. Qed.

Lemma wp_get_pprev h n v (Q : Z → hheap → Prop) : pprevs h !! n = Some v → Q v h → wp (get_pprev n) Q h.
Proof. intros E HQ. unfold wp, get_pprev. by rewrite E. Qed.

Lemma wp_set_cell h c v (Q : unit → hheap → Prop) :
  is_Some (cells h !! c) → Q tt (upd_cell c v h) → wp (set_cell c v) Q h.
Proof. intros [w E] HQ. unfold wp, set_cell. by rewrite E. Qed.

Lemma wp_set_pprev h n v (Q : unit → hheap → Prop) :
  is_Some (pprevs h !! n) → Q tt (upd_pprev n v h) → wp (set_pprev n v) Q h.
Proof. intros [w E] HQ. unfold wp, set_pprev. by rewrite E. Qed.
End hlist_rules.

(** Lookups in a heap after stores. *)
Ltac hl_lookup :=
  cbn [upd_cell upd_pprev cells pprevs] in *; rewrite ?last_or_nil;
  repeat first [ rewrite lookup_insert_eq | rewrite lookup_insert_ne by congruence ]; eauto.

Ltac hl_step :=
  first
    [ apply wp_bind
    | eapply wp_get_cell; [by hl_lookup|]
    | eapply wp_get_pprev; [by hl_lookup|]
    | apply wp_set_cell; [by hl_lookup|]
    | apply wp_set_pprev; [by hl_lookup|]
    | apply wp_ret ].

Section hlist_operations.
Implicit Types h : hheap.

Lemma hlist_cell_live h head l1 l2 : hlist h head (l1 ++ l2) → is_Some (cells h !! last_or head l1).
Proof. intros H. erewrite hlist_cell by done. eauto. Qed.

Lemma wp_hlist_del h head l1 x l2 :
  hlist h head (l1 ++ x :: l2) →
  wp (__hlist_del x) (λ _ h', hlinked_out head l1 x l2 h h' ∧
        cells h' !! x = cells h !! x ∧ pprevs h' !! x = pprevs h !! x) h.
Proof.
  intros H. pose proof (hlist_next _ _ _ _ _ H) as En. pose proof (hlist_pprev _ _ _ _ _ H) as Ep.
  pose proof (hlist_cell_live _ _ _ _ H) as El.
  destruct H as (Hnd & Hnull & Hl & _). destruct (NoDup_mid _ _ _ _ Hnd) as [_ Hx].
  pose proof (last_or_in head l1) as Hlast.
  assert (x ≠ last_or head l1) as Hne by (intros E; rewrite <-E in Hlast; clear - Hx Hlast; set_solver).
  unfold __hlist_del, next_cell, hlinked_out. repeat hl_step. destruct l2 as [|y l2]; simpl.
  - hl_step. hl_lookup. split_and!; intros; rewrite ?lookup_insert; repeat case_decide; congruence.
  - assert (x ≠ y ∧ y ≠ NULL) as [Hxy Hy] by (clear - Hx Hnull; set_solver).
    apply hlinks_app in Hl as [_ (_ & _ & _ & Epy & _)]. change (hd_or NULL (y :: l2)) with y in *.
    replace (y =? NULL) with false by (symmetry; by apply Z.eqb_neq). simpl. repeat hl_step.
    hl_lookup. split_and!; intros; rewrite ?lookup_insert; repeat case_decide; congruence.
Qed.

(** [hlist_del]: the node leaves the list and is poisoned. *)
Lemma wp_hlist_del_poison h head l1 x l2 :
  hlist h head (l1 ++ x :: l2) →
  wp (hlist_del x) (λ _ h', hlist h' head (l1 ++ l2) ∧ hsame_outside (head :: l1 ++ x :: l2) h h' ∧
        cells h' !! x = Some LIST_POISON1 ∧ pprevs h' !! x = Some LIST_POISON2) h.
Proof.
  intros H. pose proof (hlist_node_live _ _ _ x H) as [Hc Hp]; [set_solver|].
  unfold hlist_del. apply wp_bind. eapply wp_mono; [by apply wp_hlist_del|].
  intros [] h1 ([HC HP] & Ec & Ep). rewrite <-Ec in Hc. rewrite <-Ep in Hp.
  unfold next_cell. repeat hl_step. hl_lookup.
  assert (hlinked_out head l1 x l2 h (upd_pprev x LIST_POISON2 (upd_cell x LIST_POISON1 h1))) as Ho.
  { split; intros q Hq; hl_lookup. }
  destruct (hlinked_out_hlist _ _ _ _ _ _ H Ho). done.
Qed.

(** [hlist_del_init] on a member: the node leaves the list and is unhashed. *)
Lemma wp_hlist_del_init h head l1 x l2 :
  hlist h head (l1 ++ x :: l2) →
  wp (hlist_del_init x) (λ _ h', hlist h' head (l1 ++ l2) ∧ hsame_outside (head :: l1 ++ x :: l2) h h' ∧
        cells h' !! x = Some NULL ∧ pprevs h' !! x = Some NULL) h.
Proof.
  intros H. pose proof (hlist_node_live _ _ _ x H) as [Hc Hp]; [set_solver|].
  pose proof (hlist_pprev _ _ _ _ _ H) as Epp. pose proof H as (_ & Hnull & _).
  pose proof (last_or_in head l1) as Hlast.
  unfold hlist_del_init, hlist_unhashed. repeat hl_step.
  replace (last_or head l1 =? NULL) with false
    by (symmetry; apply Z.eqb_neq; intros E; rewrite E in Hlast; clear - Hnull Hlast; set_solver).
  simpl. apply wp_bind. eapply wp_mono; [by apply wp_hlist_del|].
  intros [] h1 ([HC HP] & Ec & Ep). rewrite <-Ec in Hc. rewrite <-Ep in Hp.
  unfold INIT_HLIST_NODE, next_cell. repeat hl_step. hl_lookup.
  assert (hlinked_out head l1 x l2 h (upd_pprev x NULL (upd_cell x NULL h1))) as Ho.
  { split; intros q Hq; hl_lookup. }
  destruct (hlinked_out_hlist _ _ _ _ _ _ H Ho). done.
Qed.

(** Side facts shared by the three insertions. *)
Lemma hlist_fresh h head l1 l2 x :
  hlist h head (l1 ++ l2) → x ∉ head :: l1 ++ l2 →
  x ≠ last_or head l1 ∧ (∀ y, Some y = list.head l2 →
    y ≠ NULL ∧ x ≠ y ∧ pprevs h !! y = Some (last_or head l1)).
Proof.
  intros H Hx. pose proof (last_or_in head l1) as Hlast. split.
  - intros E. rewrite <-E in Hlast. clear - Hx Hlast. set_solver.
  - intros y Hy. destruct l2 as [|z l2]; simplify_eq/=. pose proof (hlist_pprev _ _ _ _ _ H) as Ep.
    destruct H as (_ & Hnull & _). clear - Hx Hnull Ep. set_solver.
Qed.

Ltac hl_linked :=
  split; intros; hl_lookup; rewrite ?lookup_insert; repeat case_decide; simplify_eq/=; try congruence.

Lemma wp_hlist_add_head h head l x :
  hlist h head l → hnode_live h x → x ∉ head :: l →
  wp (hlist_add_head x head) (λ _ h', hlinked_in head [] x l h h') h.
Proof.
  intros H [Hxc Hxp] Hx. pose proof (hlist_cell h head [] l H) as Ec.
  destruct (hlist_fresh h head [] l x H Hx) as [N1 N2]. change (last_or head []) with head in *.
  unfold hlist_add_head, next_cell, first_cell, hlinked_in. change (last_or head []) with head.
  repeat hl_step. destruct l as [|y l].
  - simpl. repeat hl_step. hl_linked.
  - change (hd_or NULL (y :: l)) with y in *. destruct (N2 y) as (Ny & Nx & Ey); [done|].
    replace (y =? NULL) with false by (symmetry; by apply Z.eqb_neq). simpl. repeat hl_step.
    hl_linked.
Qed.

Lemma wp_hlist_add_before h head l1 y l2 x :
  hlist h head (l1 ++ y :: l2) → hnode_live h x → x ∉ head :: l1 ++ y :: l2 →
  wp (hlist_add_before x y) (λ _ h', hlinked_in head l1 x (y :: l2) h h') h.
Proof.
  intros H [Hxc Hxp] Hx. pose proof (hlist_cell_live _ _ _ _ H) as El.
  destruct (hlist_fresh _ _ _ _ _ H Hx) as [N1 N2]. destruct (N2 y) as (Ny & Nx & Ey); [done|].
  unfold hlist_add_before, next_cell, hlinked_in. change (hd_or NULL (y :: l2)) with y.
  repeat hl_step. hl_linked.
Qed.

Lemma wp_hlist_add_behind h head l1 y l2 x :
  hlist h head (l1 ++ y :: l2) → hnode_live h x → x ∉ head :: l1 ++ y :: l2 →
  wp (hlist_add_behind x y) (λ _ h', hlinked_in head (l1 ++ [y]) x l2 h h') h.
Proof.
  intros H [Hxc Hxp] Hx. pose proof (hlist_next _ _ _ _ _ H) as En.
  rewrite cons_middle, (assoc_L (++)) in H, Hx.
  destruct (hlist_fresh _ _ _ _ _ H Hx) as [N1 N2]. rewrite last_or_snoc in N1, N2.
  unfold hlist_add_behind, next_cell, hlinked_in. rewrite last_or_snoc. repeat hl_step.
  destruct l2 as [|z l2].
  - simpl. repeat hl_step. hl_linked.
  - change (hd_or NULL (z :: l2)) with z in *. destruct (N2 z) as (Nz & Nx & Ez); [done|].
    replace (z =? NULL) with false by (symmetry; by apply Z.eqb_neq). simpl. repeat hl_step.
    hl_linked.
Qed.

(** ** Moving a whole list, and nodes without a list *)

(** [hlist_move_list] moves the list to the new head and leaves the old one
    empty. *)
Lemma wp_hlist_move_list h old new l :
  hlist h old l → is_Some (cells h !! new) → new ∉ NULL :: old :: l →
  wp (hlist_move_list old new) (λ _ h', hlist h' new l ∧ hlist h' old [] ∧
        hsame_outside (new :: old :: l) h h') h.
Proof.
  intros H Hnew Hn. pose proof (hlist_cell h old [] l H) as Ef. change (last_or old []) with old in Ef.
  destruct H as (Hnd & Hnull & Hl & He). pose proof Hnd as [Ho Hndl]%NoDup_cons.
  unfold hlist_move_list, first_cell. repeat hl_step.
  assert (new ≠ old) as Hne by (clear - Hn; set_solver).
  destruct l as [|y l].
  - simpl. repeat hl_step. hl_lookup. split_and!.
    + split_and!; [apply NoDup_singleton|clear - Hn; set_solver|done|]. hl_lookup.
    + split_and!; [apply NoDup_singleton|clear - Hnull; set_solver|done|]. hl_lookup.
    + intros q Hq. hl_lookup. rewrite !lookup_insert_ne by (clear - Hq; set_solver). done.
  - change (hd_or NULL (y :: l)) with y in *. destruct Hl as (_ & Ey & Hl).
    replace (y =? NULL) with false by (symmetry; apply Z.eqb_neq; clear - Hnull; set_solver).
    simpl. repeat hl_step. split_and!.
    + split_and!; [constructor; [clear - Hn; set_solver|done]|clear - Hn Hnull; set_solver|..].
      * simpl. hl_lookup. split_and!; [done..|].
        eapply hlinks_frame; [done|..|exact Hl]; intros q Hq; hl_lookup; intros;
          rewrite ?lookup_insert_ne; try done; try (clear - Hn Ho Hq; set_solver).
        apply NoDup_cons in Hndl as [Hy _]. intros ->. done.
      * rewrite last_or_cons in *. pose proof (last_or_in y l) as Hin. hl_lookup.
        rewrite lookup_insert_ne; [done|]. intros E. rewrite <-E in Hin. clear - Hn Hin. set_solver.
    + split_and!; [apply NoDup_singleton|clear - Hnull; set_solver|done|]. hl_lookup.
    + intros q Hq. hl_lookup. rewrite !lookup_insert_ne by (clear - Hq; set_solver). done.
Qed.
End hlist_operations.

(** ** Refinement of sequences

    The abstract state: the members of the list at [head], and the nodes that
    were initialised and are in no list. *)

Inductive hop :=
| HInitNode (x : Z)
| HAddHead (x : Z)
| HAddBefore (x y : Z)
| HAddBehind (x y : Z)
| HDel (x : Z)
| HDelInit (x : Z).

Fixpoint insert_before (x y : Z) (l : list Z) : list Z :=
  match l with
  | [] => []
  | z :: l => if decide (z = y) then x :: z :: l else z :: insert_before x y l
  end.

Fixpoint insert_behind (x y : Z) (l : list Z) : list Z :=
  match l with
  | [] => []
  | z :: l => if decide (z = y) then z :: x :: l else z :: insert_behind x y l
  end.

(** [None] outside an operation's contract. *)
Definition spec_hop (head : Z) (o : hop) (t : list Z * gset Z) : option (list Z * gset Z) :=
  let '(l, u) := t in
  match o with
  | HInitNode x => if decide (x ∈ NULL :: head :: l) then None else Some (l, {[x]} ∪ u)
  | HAddHead x => if decide (x ∈ NULL :: head :: l) then None else Some (x :: l, u ∖ {[x]})
  | HAddBefore x y =>
      if decide ((x ∉ NULL :: head :: l) ∧ y ∈ l) then Some (insert_before x y l, u ∖ {[x]}) else None
  | HAddBehind x y =>
      if decide ((x ∉ NULL :: head :: l) ∧ y ∈ l) then Some (insert_behind x y l, u ∖ {[x]}) else None
  | HDel x => if decide (x ∈ l) then Some (remove_elem x l, u) else None
  | HDelInit x =>
      if decide (x ∈ l) then Some (remove_elem x l, {[x]} ∪ u)
      else if decide (x ∈ u) then Some (l, u) else None
  end.

Definition run_hop (head : Z) (o : hop) : M hheap unit :=
  match o with
  | HInitNode x => INIT_HLIST_NODE x
  | HAddHead x => hlist_add_head x head
  | HAddBefore x y => hlist_add_before x y
  | HAddBehind x y => hlist_add_behind x y
  | HDel x => hlist_del x
  | HDelInit x => hlist_del_init x
  end.

Fixpoint spec_hops (head : Z) (os : list hop) (t : list Z * gset Z) : option (list Z * gset Z) :=
  match os with
  | [] => Some t
  | o :: os => spec_hop head o t ≫= spec_hops head os
  end.

Fixpoint run_hops (head : Z) (os : list hop) : M hheap unit :=
  match os with
  | [] => mret tt
  | o :: os => run_hop head o ;; run_hops head os
  end.

Definition hop_node (o : hop) : Z :=
  match o with
  | HInitNode x | HAddHead x | HAddBefore x _ | HAddBehind x _ | HDel x | HDelInit x => x
  end.

(** The heap [h] holds the abstract state [t] at [head]. *)
Definition hrep (h : hheap) (head : Z) (t : list Z * gset Z) : Prop :=
  hlist h head t.1 ∧
  ∀ x, x ∈ t.2 → (x ∉ NULL :: head :: t.1) ∧ cells h !! x = Some NULL ∧ pprevs h !! x = Some NULL.

Lemma insert_before_mid x y l1 l2 : y ∉ l1 → insert_before x y (l1 ++ y :: l2) = l1 ++ x :: y :: l2.
Proof.
  induction l1 as [|z l1 IH]; simpl; [by rewrite decide_True|]. intros H.
  rewrite decide_False by set_solver. rewrite IH by set_solver. done.
Qed.

Lemma insert_behind_mid x y l1 l2 : y ∉ l1 → insert_behind x y (l1 ++ y :: l2) = l1 ++ y :: x :: l2.
Proof.
  induction l1 as [|z l1 IH]; simpl; [by rewrite decide_True|]. intros H.
  rewrite decide_False by set_solver. rewrite IH by set_solver. done.
Qed.

Section hlist_refinement.
Implicit Types h : hheap.

(** The unhashed nodes stay as they are when only other nodes change. *)
Lemma hrep_frame h h' head l l' u u' ns :
  hrep h head (l, u) → hlist h' head l' → hsame_outside ns h h' →
  (∀ x, x ∈ u' → x ∈ u ∧ (x ∉ ns) ∧ (x ∉ NULL :: head :: l')
        ∨ (x ∉ NULL :: head :: l') ∧ cells h' !! x = Some NULL ∧ pprevs h' !! x = Some NULL) →
  hrep h' head (l', u').
Proof.
  intros [_ Hu] Hl Hs Hu'. split; [done|]. intros x Hx. destruct (Hu' x Hx) as [(Hxu & Hn & Hl')|?]; [|done].
  simpl in *. destruct (Hs x Hn) as [-> ->]. split; [done|]. by apply Hu.
Qed.

(** An insertion, whatever order its stores are in. *)
Lemma hrep_insert h h' head l1 x l2 u :
  hrep h head (l1 ++ l2, u) → x ∉ NULL :: head :: l1 ++ l2 → hlinked_in head l1 x l2 h h' →
  hrep h' head (l1 ++ x :: l2, u ∖ {[x]}) ∧ hsame_outside (x :: head :: l1 ++ l2) h h'.
Proof.
  intros Hr Hx Hi. pose proof Hr as [Hl Hu].
  destruct (hlinked_in_hlist head l1 x l2 h h' Hl) as [Hl' Hs]; [clear - Hx; set_solver..|done|].
  split; [|done].
  eapply hrep_frame; [done|done|exact Hs|]. intros y [Hy Hne]%elem_of_difference. left.
  destruct (Hu y Hy) as [Hn _]. simpl in Hn. split; [done|]. clear - Hn Hne. set_solver.
Qed.

(** A removal. *)
Lemma hrep_remove h h' head l1 x l2 u u' :
  hrep h head (l1 ++ x :: l2, u) → hlist h' head (l1 ++ l2) → hsame_outside (head :: l1 ++ x :: l2) h h' →
  (u' = u ∨ u' = {[x]} ∪ u ∧ cells h' !! x = Some NULL ∧ pprevs h' !! x = Some NULL) →
  hrep h' head (l1 ++ l2, u').
Proof.
  intros Hr Hl Hs Hu'. eapply hrep_frame; [exact Hr|done|exact Hs|]. intros y Hy.
  pose proof Hr as [(Hnd & Hnull & _) Hu]. simpl in *.
  assert (y ∈ u → (y ∉ head :: l1 ++ x :: l2) ∧ (y ∉ NULL :: head :: l1 ++ l2)) as Hin.
  { intros Hyu. destruct (Hu y Hyu) as [Hn _]. clear - Hn. set_solver. }
  destruct Hu' as [->|(-> & E1 & E2)]; [left; naive_solver|].
  apply elem_of_union in Hy as [->%elem_of_singleton|Hy]; [|left; naive_solver]. right.
  split; [|done]. apply NoDup_mid in Hnd as [_ Hx]. clear - Hx Hnull. set_solver.
Qed.

(** No operation creates or frees an object. *)
Definition hsame_objects (h h' : hheap) : Prop :=
  (∀ q, is_Some (cells h' !! q) ↔ is_Some (cells h !! q)) ∧
  (∀ q, is_Some (pprevs h' !! q) ↔ is_Some (pprevs h !! q)).

#[local] Instance hsame_objects_preorder : PreOrder hsame_objects.
Proof.
  split; [by intros h|]. intros h1 h2 h3 [C1 P1] [C2 P2].
  split; intros q; [by rewrite C2, C1|by rewrite P2, P1].
Qed.

Lemma keeps_get_cell c : keeps hsame_objects (get_cell c).
Proof. intros h a h'. unfold get_cell. case_match; by intros [= _ <-]. Qed.

Lemma keeps_get_pprev c : keeps hsame_objects (get_pprev c).
Proof. intros h a h'. unfold get_pprev. case_match; by intros [= _ <-]. Qed.

Lemma keeps_set_cell c v : keeps hsame_objects (set_cell c v).
Proof.
  intros h a h'. unfold set_cell. case_match eqn:E; intros [= _ <-]. split; [|done].
  intros q. by eapply insert_live.
Qed.

Lemma keeps_set_pprev c v : keeps hsame_objects (set_pprev c v).
Proof.
  intros h a h'. unfold set_pprev. case_match eqn:E; intros [= _ <-]. split; [done|].
  intros q. by eapply insert_live.
Qed.

#[local] Hint Resolve keeps_get_cell keeps_get_pprev keeps_set_cell keeps_set_pprev : tr.

Lemma keeps_run_hops head os : keeps hsame_objects (run_hops head os).
Proof.
  induction os as [|[] os IH]; simpl; unfold hlist_del_init, hlist_del, hlist_unhashed, __hlist_del,
    INIT_HLIST_NODE, hlist_add_head, hlist_add_before, hlist_add_behind; keeps.
Qed.

(** One operation. *)
Lemma wp_run_hop head o h t t' :
  hrep h head t → hnode_live h (hop_node o) → spec_hop head o t = Some t' →
  wp (run_hop head o) (λ _ h', hrep h' head t' ∧ hsame_outside (hop_node o :: head :: t.1) h h') h.
Proof.
  intros Hr Hlive Hs. destruct t as [l u]. pose proof Hr as [Hl Hu].
  destruct o as [x|x|x y|x y|x|x]; simpl in *; repeat case_decide; simplify_eq.
  - destruct Hlive as [Hc Hp]. unfold INIT_HLIST_NODE, next_cell. repeat hl_step.
    assert (hsame_outside [x] h (upd_pprev x NULL (upd_cell x NULL h))) as Hso.
    { intros q Hq. hl_lookup. rewrite !lookup_insert_ne by set_solver. done. }
    split; [|intros q Hq; apply Hso; set_solver].
    eapply hrep_frame; [exact Hr|eapply hlist_frame; [|exact Hso|done]; set_solver|exact Hso|].
    intros y Hy. destruct (decide (y = x)) as [->|Hne]; [right; hl_lookup|left].
    destruct (Hu y) as [? _]; set_solver.
  - eapply wp_mono; [apply wp_hlist_add_head; [done|done|set_solver]|]. intros [] h' Hi.
    by apply (hrep_insert h h' head [] x l u).
  - destruct H as [Hx (l1 & l2 & ->)%list_elem_of_split]. pose proof Hl as [[_ Hy]%NoDup_mid _].
    rewrite insert_before_mid by set_solver.
    eapply wp_mono; [apply wp_hlist_add_before; [done|done|set_solver]|]. intros [] h' Hi.
    by apply (hrep_insert h h' head l1 x (y :: l2) u).
  - destruct H as [Hx (l1 & l2 & ->)%list_elem_of_split]. pose proof Hl as [[_ Hy]%NoDup_mid _].
    rewrite insert_behind_mid by set_solver.
    eapply wp_mono; [apply wp_hlist_add_behind; [done|done|set_solver]|]. intros [] h' Hi.
    rewrite (cons_middle y l1 l2), (assoc_L (++)) in *. rewrite (cons_middle y l1 (x :: l2)), (assoc_L (++)).
    by apply (hrep_insert h h' head (l1 ++ [y]) x l2 u).
  - apply list_elem_of_split in H as (l1 & l2 & ->). pose proof Hl as [[_ Hx]%NoDup_mid _].
    rewrite remove_elem_mid by set_solver.
    eapply wp_mono; [by apply wp_hlist_del_poison|]. intros [] h' (Hl' & Hs & _).
    split; [eapply hrep_remove; eauto|intros q Hq; apply Hs; set_solver].
  - apply list_elem_of_split in H as (l1 & l2 & ->). pose proof Hl as [[_ Hx]%NoDup_mid _].
    rewrite remove_elem_mid by set_solver.
    eapply wp_mono; [by apply wp_hlist_del_init|]. intros [] h' (Hl' & Hs & Ec & Ep).
    split; [eapply hrep_remove; eauto|intros q Hq; apply Hs; set_solver].
  - destruct (Hu x) as (_ & _ & Ep); [done|]. unfold hlist_del_init, hlist_unhashed. repeat hl_step.
    simpl. by hl_step.
Qed.

Lemma spec_hop_members head o l u l' u' :
  spec_hop head o (l, u) = Some (l', u') → ∀ x, x ∈ l' → x ∈ hop_node o :: l.
Proof.
  intros Hs x. destruct o as [y|y|y z|y z|y|y]; simpl in *; repeat case_decide; simplify_eq; try set_solver.
  - destruct H as [_ (l1 & l2 & ->)%list_elem_of_split]. clear. induction l1; simpl; case_decide; set_solver.
  - destruct H as [_ (l1 & l2 & ->)%list_elem_of_split]. clear. induction l1; simpl; case_decide; set_solver.
  - intros [_ ?]%list_elem_of_filter. set_solver.
  - intros [_ ?]%list_elem_of_filter. set_solver.
Qed.

(** C26 The hash lists of list.h refine sequences: from a heap that holds the
    list [l] at [head] and the unhashed nodes [u], every sequence of
    [INIT_HLIST_NODE], [hlist_add_head], [hlist_add_before],
    [hlist_add_behind], [hlist_del] and [hlist_del_init] on live nodes that
    keeps to the contract runs without a fault and ends in a heap that holds
    what the same operations make of the sequence and of the set of unhashed
    nodes; a second [hlist_del_init] of a node does nothing; no object is
    created or lost, and none is written but the head, the list's nodes and
    the nodes the operations name. *)
Theorem hlist_ops_refine head os h t t' :
  hrep h head t → (∀ o, o ∈ os → hnode_live h (hop_node o)) → spec_hops head os t = Some t' →
  ∃ h', run_hops head os h = Ok tt h' ∧ hrep h' head t' ∧ hsame_objects h h' ∧
        hsame_outside (head :: t.1 ++ (hop_node <$> os)) h h'.
Proof.
  intros Hr Hlive Hs.
  cut (wp (run_hops head os) (λ _ h', hrep h' head t' ∧ hsame_outside (head :: t.1 ++ (hop_node <$> os)) h h') h).
  { intros ([] & h' & E & Hr' & Ho)%wp_run. exists h'. split_and!; [done|done| |done]. by eapply keeps_run_hops. }
  revert h t Hr Hlive Hs. induction os as [|o os IH]; intros h t Hr Hlive Hs; simpl in *.
  { simplify_eq. by apply wp_ret. }
  destruct (spec_hop head o t) as [t1|] eqn:E; [|done]. simpl in Hs. apply wp_bind.
  pose proof (wp_run_hop head o h t t1 Hr (Hlive o (list_elem_of_here _ _)) E) as ([] & h1 & E1 & Hr1 & Ho1)%wp_run.
  apply wp_run. exists tt, h1. split; [done|].
  assert (hsame_objects h h1) as [Oc Op].
  { apply (keeps_run_hops head [o] h tt h1). simpl. unfold mbind, M_bind. by rewrite E1. }
  eapply wp_mono; [apply (IH h1 t1); [done| |done]|].
  - intros o' Ho'. destruct (Hlive o') as [Lc Lp]; [by constructor|]. split; [by apply Oc|by apply Op].
  - intros [] h' [Hr' Ho']. split; [done|]. intros q Hq. destruct t as [l u], t1 as [l1 u1].
    pose proof (spec_hop_members _ _ _ _ _ _ E q). simpl in *.
    destruct (Ho' q) as [-> ->]; [set_solver|]. apply Ho1. set_solver.
Qed.
End hlist_refinement.

(** ** What a node and a head know *)

Section hlist_queries.
Implicit Types h : hheap.

Lemma last_or_head_iff (head : Z) l : head ∉ l → last_or head l = head ↔ l = [].
Proof.
  intros Hh. destruct l as [|x l]; [done|]. rewrite last_or_cons. pose proof (last_or_in x l) as Hin.
  split; [|done]. intros E. by rewrite E in Hin.
Qed.

Lemma hlist_is_singular_node_run h head l1 x l2 :
  hlist h head (l1 ++ x :: l2) →
  hlist_is_singular_node x head h = Ok (bool_decide (l1 = [] ∧ l2 = [])) h.
Proof.
  intros H. pose proof (hlist_next _ _ _ _ _ H) as En. pose proof (hlist_pprev _ _ _ _ _ H) as Ep.
  destruct H as (Hnd & Hnull & _). apply wp_val_eq. unfold hlist_is_singular_node, next_cell, first_cell.
  repeat hl_step.
  assert (hd_or NULL l2 = NULL ↔ l2 = []) as E2 by (apply hd_or_null; clear - Hnull; set_solver).
  assert (last_or head l1 = head ↔ l1 = []) as E1 by (apply last_or_head_iff; clear - Hnd; apply NoDup_cons in Hnd; set_solver).
  destruct (Z.eqb_spec (hd_or NULL l2) NULL); repeat hl_step; (split; [|done]).
  - destruct (Z.eqb_spec (last_or head l1) head); case_bool_decide; naive_solver.
  - case_bool_decide; naive_solver.
Qed.

(** The queries answer what the representation says: [hlist_empty] whether
    the list is empty, [hlist_is_singular_node] whether a member is the only
    one, and [hlist_unhashed] is false for members and true for initialised
    nodes in no list.  [hlist_add_fake] makes such a node look like a member
    of a list ([hlist_fake]), so that [hlist_del_init] works on it: it makes
    the node unhashed again and changes nothing else. *)
Theorem hlist_queries h head l u :
  hrep h head (l, u) →
  hlist_empty head h = Ok (bool_decide (l = [])) h ∧
  (∀ x, x ∈ l → hlist_unhashed x h = Ok false h ∧
     hlist_is_singular_node x head h = Ok (bool_decide (l = [x])) h) ∧
  (∀ x, x ∈ u → hlist_unhashed x h = Ok true h ∧
     ∃ h', hlist_add_fake x h = Ok tt h' ∧ hlist_fake x h' = Ok true h' ∧ hlist_unhashed x h' = Ok false h' ∧
           hlist_del_init x h' = Ok tt h).
Proof.
  intros [H Hu]. simpl in *. pose proof H as (Hnd & Hnull & _). split; [|split].
  - apply wp_val_eq. unfold hlist_empty, first_cell. pose proof (hlist_cell h head [] l H) as E.
    change (last_or head []) with head in E. repeat hl_step. split; [|done].
    pose proof (hd_or_null l) as Hn. destruct (Z.eqb_spec (hd_or NULL l) NULL); case_bool_decide; set_solver.
  - intros x (l1 & l2 & ->)%list_elem_of_split. pose proof (hlist_pprev _ _ _ _ _ H) as Ep. split.
    + apply wp_val_eq. unfold hlist_unhashed. repeat hl_step. split; [|done]. apply Z.eqb_neq. intros E.
      pose proof (last_or_in head l1) as Hin. rewrite E in Hin. clear - Hin Hnull. set_solver.
    + rewrite (hlist_is_singular_node_run _ _ _ _ _ H). f_equal. apply bool_decide_ext.
      split; [by intros [-> ->]|]. destruct l1 as [|y l1]; [by intros [= ->]|]. intros [= -> E]. by destruct l1.
  - intros x Hx. destruct (Hu x Hx) as (Hn & Ec & Ep).
    assert (x ≠ NULL) as Hx0 by (clear - Hn; set_solver). split.
    { apply wp_val_eq. unfold hlist_unhashed. repeat hl_step. done. }
    exists (upd_pprev x x h). split_and!; [apply wp_tt_eq|apply wp_val_eq|apply wp_val_eq|apply wp_tt_eq].
    + unfold hlist_add_fake, next_cell. by hl_step.
    + unfold hlist_fake, next_cell. repeat hl_step. by rewrite Z.eqb_refl.
    + unfold hlist_unhashed. repeat hl_step. split; [|done]. by apply Z.eqb_neq.
    + unfold hlist_del_init, hlist_unhashed, __hlist_del, INIT_HLIST_NODE, next_cell. repeat hl_step.
      replace (x =? NULL) with false by (symmetry; by apply Z.eqb_neq). simpl. repeat hl_step. simpl. repeat hl_step.
      destruct h as [hc hpp]. unfold upd_cell, upd_pprev. simpl in *.
      by rewrite !insert_insert_eq, !insert_id.
Qed.
End hlist_queries.

(** ** Loops *)

(** What the loops ask of their bodies, as for the lists of list.h: the plain
    loops that the list is kept; the safe ones that the other members are kept
    where the visited one may leave the list and be freed. *)
Section hlist_bodies.
Context {S : Type} (hp : S → hheap) (off head : Z) (l : list Z) (body : Z → M S unit).

Definition hkeeps_list : Prop :=
  ∀ y s s', y ∈ l → hlist (hp s) head l → body (hlist_entry y off) s = Ok tt s' → hlist (hp s') head l.

Definition hmay_remove : Prop :=
  ∀ l1 y l2 s s', l1 ++ y :: l2 `sublist_of` l → hlist (hp s) head (l1 ++ y :: l2) →
    body (hlist_entry y off) s = Ok tt s' → hlist (hp s') head (l1 ++ y :: l2) ∨ hlist (hp s') head (l1 ++ l2).
End hlist_bodies.

Section hlist_loops.
Context {S : Type} (hp : S → hheap) (off head : Z) (l : list Z) (body : Z → M S unit).
Implicit Types s : S.

Lemma rd_cell_Ok s c v : cells (hp s) !! c = Some v → rd_cell hp c s = Ok v s.
Proof. intros E. unfold rd_cell. by rewrite E. Qed.

(** A member of the list in memory and what is behind it. *)
Lemma rest_step s l1 x l2 :
  hlist (hp s) head (l1 ++ x :: l2) → rd_cell hp (next_cell x) s = Ok (hd_or NULL l2) s ∧ x ≠ NULL.
Proof.
  intros H. split; [by eapply rd_cell_Ok, hlist_next|]. destruct H as (_ & Hnull & _). set_solver.
Qed.

Abbreviation nb := (λ n, body (hlist_entry n off)).

Lemma hlist_entry_safe_live x : x ≠ NULL → hlist_entry_safe x off = hlist_entry x off.
Proof. intros Hx. unfold hlist_entry_safe. by rewrite (proj2 (Z.eqb_neq x NULL)). Qed.

Lemma hlist_entry_node x : hlist_entry x off + off = x.
Proof. unfold hlist_entry, container_of. lia. Qed.

(** What is left of the list, as a part of [l], after the body at [x]. *)
Definition hrest (ks : list Z) s : Prop := ∃ l0, l0 ++ ks `sublist_of` l ∧ hlist (hp s) head (l0 ++ ks).

Lemma hrest_body x ks s s' :
  hmay_remove hp off head l body → hrest (x :: ks) s → body (hlist_entry x off) s = Ok tt s' → hrest ks s'.
Proof.
  intros Hr (l0 & Hs & H) E. destruct (Hr _ _ _ _ _ Hs H E) as [H'|H'].
  - exists (l0 ++ [x]). by rewrite <-(assoc_L (++)).
  - exists l0. split; [|done]. etrans; [|exact Hs]. apply sublist_app; [done|]. by constructor.
Qed.

Lemma hrest_in x ks s : hrest (x :: ks) s → x ∈ l.
Proof. intros (l0 & Hs & _). eapply elem_of_sublist, Hs. set_solver. Qed.

Lemma hlist_node_loop fuel l1 l2 s :
  hkeeps_list hp off head l body → hlist (hp s) head l → l = l1 ++ l2 → (length l2 < fuel)%nat →
  hlist_loop hp fuel (hd_or NULL l2) nb s = visit nb l2 s.
Proof.
  intros Hk. revert l1 l2 s. induction fuel as [|fuel IH]; intros l1 l2 s H El Hf; [lia|].
  destruct l2 as [|x l2]; [done|]. change (hd_or NULL (x :: l2)) with x. cbn [hlist_loop visit].
  destruct (rest_step s l1 x l2) as (_ & Hx); [by rewrite <-El|]. rewrite (proj2 (Z.eqb_neq x NULL)) by done.
  apply bind_ext. intros [] s' E. assert (hlist (hp s') head l) as H' by (eapply Hk, E; [rewrite El; set_solver|done]).
  destruct (rest_step s' l1 x l2) as (En & _); [by rewrite <-El|]. rewrite (bind_Ok _ _ _ _ _ En).
  apply (IH (l1 ++ [x])); [done|by rewrite El, <-(assoc_L (++))|simpl in Hf; lia].
Qed.

Lemma hlist_node_safe_loop fuel ks s :
  hmay_remove hp off head l body → hrest ks s → (length ks < fuel)%nat →
  hlist_safe_loop hp fuel (hd_or NULL ks) nb s = visit nb ks s.
Proof.
  intros Hr. revert ks s. induction fuel as [|fuel IH]; intros ks s H Hf; [lia|].
  destruct ks as [|x ks]; [done|]. change (hd_or NULL (x :: ks)) with x. cbn [hlist_safe_loop visit].
  pose proof H as (l0 & _ & Hl). destruct (rest_step s l0 x ks Hl) as (En & Hx).
  rewrite (proj2 (Z.eqb_neq x NULL)) by done. rewrite (bind_Ok _ _ _ _ _ En).
  apply bind_ext. intros [] s' E. apply IH; [by eapply hrest_body|simpl in Hf; lia].
Qed.

Section entries.
Context (not_at_null : ∀ y, y ∈ l → hlist_entry y off ≠ NULL).

Lemma hlist_entry_loop fuel l1 l2 s :
  hkeeps_list hp off head l body → hlist (hp s) head l → l = l1 ++ l2 → (length l2 < fuel)%nat →
  hlist_for_each_entry_from hp off fuel (hlist_entry_safe (hd_or NULL l2) off) body s = visit nb l2 s.
Proof.
  intros Hk. revert l1 l2 s. induction fuel as [|fuel IH]; intros l1 l2 s H El Hf; [lia|].
  destruct l2 as [|x l2]; [done|]. change (hd_or NULL (x :: l2)) with x.
  destruct (rest_step s l1 x l2) as (_ & Hx); [by rewrite <-El|].
  cbn [hlist_for_each_entry_from visit]. rewrite hlist_entry_safe_live by done.
  assert (x ∈ l) as Hin by (rewrite El; set_solver).
  rewrite (proj2 (Z.eqb_neq (hlist_entry x off) NULL)) by (by apply not_at_null).
  apply bind_ext. intros [] s' E. pose proof (Hk x s s' Hin H E) as H'.
  destruct (rest_step s' l1 x l2) as (En & _); [by rewrite <-El|]. unfold hlist_next_entry. rewrite hlist_entry_node.
  unfold mbind, M_bind. rewrite En.
  apply (IH (l1 ++ [x])); [done|by rewrite El, <-(assoc_L (++))|simpl in Hf; lia].
Qed.

Lemma hlist_entry_safe_loop_visit fuel ks s :
  hmay_remove hp off head l body → hrest ks s → (length ks < fuel)%nat →
  hlist_entry_safe_loop hp off fuel (hlist_entry_safe (hd_or NULL ks) off) body s = visit nb ks s.
Proof.
  intros Hr. revert ks s. induction fuel as [|fuel IH]; intros ks s H Hf; [lia|].
  destruct ks as [|x ks]; [done|]. change (hd_or NULL (x :: ks)) with x. cbn [hlist_entry_safe_loop visit].
  pose proof H as (l0 & _ & Hl). destruct (rest_step s l0 x ks Hl) as (En & Hx). rewrite hlist_entry_safe_live by done.
  rewrite (proj2 (Z.eqb_neq (hlist_entry x off) NULL)) by (by eapply not_at_null, hrest_in).
  rewrite hlist_entry_node, (bind_Ok _ _ _ _ _ En).
  apply bind_ext. intros [] s' E. apply IH; [by eapply hrest_body|simpl in Hf; lia].
Qed.
End entries.

(** C28 Every loop macro over a hash list is equivalent to running its body on
    the members it should visit, if no member's struct is at NULL: all of them,
    and for a member [x] with [l2] behind it, [x] and [l2] (from) or [l2]
    (continue).  The plain macros need a body that leaves the list as it is
    ([hkeeps_list]), the safe ones only a body that leaves the other members in
    the list ([hmay_remove]): it may take the visited one out and free it.  The
    two sides agree on every outcome, so the loops end. *)
Theorem hlist_loops_visit s fuel :
  (∀ y, y ∈ l → hlist_entry y off ≠ NULL) → hlist (hp s) head l → (length l < fuel)%nat →
  let all := visit nb l s in
  (hkeeps_list hp off head l body →
   hlist_for_each hp fuel head nb s = all ∧ hlist_for_each_entry hp off fuel head body s = all ∧
   ∀ l1 x l2, l = l1 ++ x :: l2 →
     hlist_for_each_entry_from hp off fuel (hlist_entry x off) body s = visit nb (x :: l2) s ∧
     hlist_for_each_entry_continue hp off fuel (hlist_entry x off) body s = visit nb l2 s) ∧
  (hmay_remove hp off head l body →
   hlist_for_each_safe hp fuel head nb s = all ∧ hlist_for_each_entry_safe hp off fuel head body s = all).
Proof.
  intros Hnn H Hf all. pose proof (rd_cell_Ok s _ _ (hlist_cell (hp s) head [] l H)) as Eh.
  change (last_or head []) with head in Eh.
  unfold hlist_for_each, hlist_for_each_safe, hlist_for_each_entry, hlist_for_each_entry_safe, first_cell.
  rewrite !(bind_Ok _ _ _ _ _ Eh). split; intros Hb; split_and!.
  - by apply (hlist_node_loop fuel []).
  - by apply (hlist_entry_loop Hnn fuel []).
  - intros l1 x l2 El. destruct (rest_step s l1 x l2) as (En & Hx); [by rewrite <-El|].
    assert (length l = length l1 + Datatypes.S (length l2))%nat as Hlen by (by rewrite El, length_app).
    pose proof (hlist_entry_loop Hnn fuel l1 (x :: l2) s Hb H El ltac:(simpl; lia)) as E3.
    change (hd_or NULL (x :: l2)) with x in E3. rewrite hlist_entry_safe_live in E3 by done. split; [done|].
    unfold hlist_for_each_entry_continue, hlist_next_entry. rewrite hlist_entry_node.
    unfold mbind at 1 2, M_bind. rewrite En.
    apply (hlist_entry_loop Hnn fuel (l1 ++ [x])); [done|done|by rewrite El, <-(assoc_L (++))|lia].
  - apply hlist_node_safe_loop; [done|by exists []|done].
  - apply hlist_entry_safe_loop_visit; [done|done|by exists []|done].
Qed.
End hlist_loops.

(** The safe loop with [hlist_del] as its body empties the list: it visits
    every member although each leaves the list under the loop, and ends. *)
Lemma hlist_drain_loop fuel h head l :
  hlist h head l → (length l < fuel)%nat →
  wp (hlist_safe_loop id fuel (hd_or NULL l) hlist_del)
     (λ _ h', hlist h' head [] ∧ hsame_outside (head :: l) h h' ∧
              ∀ x, x ∈ l → pprevs h' !! x = Some LIST_POISON2) h.
Proof.
  revert h l. induction fuel as [|fuel IH]; intros h l H Hf; [lia|].
  destruct l as [|x l]; [apply wp_ret; split_and!; [done|done|set_solver]|].
  change (hd_or NULL (x :: l)) with x. cbn [hlist_safe_loop].
  pose proof H as (Hnd & Hnull & _). rewrite (proj2 (Z.eqb_neq x NULL)) by (clear - Hnull; set_solver).
  apply wp_bind. eapply wp_Ok_run; [by apply rd_cell_Ok, (hlist_next h head [] x l)|]. apply wp_bind.
  eapply wp_mono; [by apply (wp_hlist_del_poison h head [] x l)|]. intros [] h1 (H1 & Hs1 & _ & Ep1).
  eapply wp_mono; [apply (IH h1 l); [done|simpl in Hf; lia]|]. intros [] h2 (H2 & Hs2 & Hp2).
  pose proof (NoDup_mid head [] x l Hnd) as [_ Hx]. split_and!; [done|..].
  - intros q Hq. destruct (Hs2 q) as [-> ->]; [clear - Hq; set_solver|]. by apply Hs1.
  - intros y [->|Hy]%elem_of_cons; [|by apply Hp2]. by destruct (Hs2 x) as [_ ->].
Qed.

Theorem hlist_drain fuel h head l :
  hlist h head l → (length l < fuel)%nat →
  ∃ h', hlist_for_each_safe id fuel head hlist_del h = Ok tt h' ∧ hlist h' head [] ∧
        hsame_outside (head :: l) h h' ∧ ∀ x, x ∈ l → pprevs h' !! x = Some LIST_POISON2.
Proof.
  intros H Hf. apply wp_tt. apply wp_bind. eapply wp_Ok_run; [|by apply hlist_drain_loop].
  apply rd_cell_Ok. apply (hlist_cell h head [] l H).
Qed.

(** ** Concrete hash lists *)

(** A head at 100 with the members 1 and 2, and two nodes beside it. *)
Definition ex_hheap : hheap :=
  HHeap {[100 := 1; 1 := 2; 2 := 0; 3 := 0; 4 := 0]} {[1 := 100; 2 := 1; 3 := 0; 4 := 0]}.

Ltac concrete_hlist :=
  split_and!; [apply (bool_decide_unpack _); vm_compute; exact I
              |apply (bool_decide_unpack _); vm_compute; exact I
              |vm_compute; repeat split|reflexivity].

Lemma ex_hrep : hrep ex_hheap 100 ([1; 2], {[3]}).
Proof.
  split; [concrete_hlist|]. cbn [snd]. intros x ->%elem_of_singleton. split_and!; [|reflexivity..].
  apply (bool_decide_unpack _); vm_compute; exact I.
Qed.

Lemma hlist_ops_refine_witness :
  ∃ h', run_hops 100 [HAddHead 3; HDelInit 1; HDelInit 1; HInitNode 4; HAddBefore 4 2; HAddBehind 1 4; HDel 2] ex_hheap = Ok tt h' ∧
    hrep h' 100 ([3; 4; 1], ∅) ∧ hsame_objects ex_hheap h' ∧
    hsame_outside [100; 1; 2; 3; 1; 1; 4; 4; 1; 2] ex_hheap h'.
Proof.
  apply (hlist_ops_refine 100 [HAddHead 3; HDelInit 1; HDelInit 1; HInitNode 4; HAddBefore 4 2; HAddBehind 1 4; HDel 2]
           ex_hheap ([1; 2], {[3]})).
  - apply ex_hrep.
  - intros o Ho. repeat (apply elem_of_cons in Ho as [->|Ho]); [split; vm_compute; eauto..|]. by apply not_elem_of_nil in Ho.
  - vm_compute. reflexivity.
Defined.

Lemma hlist_queries_witness :
  hlist_empty 100 ex_hheap = Ok false ex_hheap ∧ hlist_unhashed 3 ex_hheap = Ok true ex_hheap.
Proof.
  destruct (hlist_queries ex_hheap 100 [1; 2] {[3]} ex_hrep) as (H1 & _ & H3).
  split; [exact H1|]. destruct (H3 3) as [H _]; [set_solver|]. exact H.
Defined.

(** A body that notes the visited entry, unhooks its node with [hlist_del] and
    frees it. *)
Definition ex_free_hnode (e : Z) : M (hheap * list Z) unit := λ s,
  match hlist_del (e + 16) s.1 with
  | Ok _ h => Ok tt (HHeap (delete (e + 16) (cells h)) (delete (e + 16) (pprevs h)), s.2 ++ [e])
  | Fault => Fault
  | NoFuel => NoFuel
  end.

Lemma ex_free_hnode_removes head l : hmay_remove fst 16 head l ex_free_hnode.
Proof.
  intros l1 y l2 [h seen] s' _ H. simpl in H. unfold ex_free_hnode. rewrite hlist_entry_node. simpl.
  pose proof (wp_hlist_del_poison h head l1 y l2 H) as Hw. unfold wp in Hw.
  pose proof H as [[_ Hy]%NoDup_mid _].
  destruct (hlist_del y h) as [? h'| |]; [|done..]. intros [= <-]. right. simpl. destruct Hw as [H' _].
  eapply (hlist_frame _ _ [y]); [set_solver| |exact H'].
  intros q Hq. simpl. rewrite !lookup_delete_ne by set_solver. done.
Qed.

Lemma hlist_loops_visit_witness :
  hlist_for_each_entry fst 16 3 100 (λ e s, Ok tt (s.1, s.2 ++ [e])) (ex_hheap, []) = Ok tt (ex_hheap, [-15; -14]) ∧
  ∃ h, hlist_for_each_entry_safe fst 16 3 100 ex_free_hnode (ex_hheap, []) = Ok tt (h, [-15; -14]) ∧
       cells h !! 100 = Some NULL ∧ pprevs h !! 1 = None ∧ pprevs h !! 2 = None.
Proof.
  assert (∀ y, y ∈ [1; 2] → hlist_entry y 16 ≠ NULL) as Hn.
  { intros y Hy E. apply elem_of_cons in Hy as [->| ->%list_elem_of_singleton]; discriminate E. }
  pose proof (hlist_loops_visit (S:=hheap * list Z) fst 16 100 [1; 2] (λ e s, Ok tt (s.1, s.2 ++ [e]))
    (ex_hheap, []) 3 Hn (proj1 ex_hrep) ltac:(simpl; lia)) as [H1 _].
  pose proof (hlist_loops_visit (S:=hheap * list Z) fst 16 100 [1; 2] ex_free_hnode
    (ex_hheap, []) 3 Hn (proj1 ex_hrep) ltac:(simpl; lia)) as [_ H2].
  split.
  - destruct H1 as (_ & H & _); [|exact H]. intros y s s' _ Hd [= <-]. exact Hd.
  - destruct (H2 (ex_free_hnode_removes 100 [1; 2])) as [_ H]. rewrite H. eexists. vm_compute. auto.
Defined.
