(* ===== verification/Structs.v ===== *)
(** * The program's data

    The structs and enums of context.h and splicepump.h, the socket address
    layout the code reads through casts, and the constants of the platform
    (Linux on x86_64, libevent 2) that the code uses.  A field that the code
    leaves uninitialised after [tr_malloc] has an [option] type: [None] until
    it is written. *)

From S2P Require Import Prelude DList.
Local Open Scope Z_scope.

(** ** Platform constants *)

Definition AF_INET : Z := 2.
Definition AF_INET6 : Z := 10.
Definition SOCK_STREAM : Z := 1.
Definition SHUT_RD : Z := 0.
Definition SHUT_WR : Z := 1.
Definition SHUT_RDWR : Z := 2.
Definition SOL_SOCKET : Z := 1.
Definition SO_REUSEADDR : Z := 2.
Definition SO_KEEPALIVE : Z := 9.
Definition SO_REUSEPORT : Z := 15.
Definition SOL_IP : Z := 0.
Definition SOL_IPV6 : Z := 41.
Definition SO_ORIGINAL_DST : Z := 80.
Definition IP6T_SO_ORIGINAL_DST : Z := 80.
Definition IPPROTO_TCP : Z := 6.
Definition IPPROTO_IPV6 : Z := 41.
Definition TCP_NODELAY : Z := 1.
Definition TCP_KEEPIDLE : Z := 4.
Definition TCP_KEEPINTVL : Z := 5.
Definition TCP_KEEPCNT : Z := 6.
Definition IPV6_V6ONLY : Z := 26.
Definition SOMAXCONN : Z := 4096.
Definition O_NONBLOCK : Z := 2048.
Definition SPLICE_F_MOVE : Z := 1.
Definition SPLICE_F_NONBLOCK : Z := 2.
Definition EINTR : Z := 4.
Definition EBADF : Z := 9.
Definition EAGAIN : Z := 11.
Definition EWOULDBLOCK : Z := 11.
Definition ECONNRESET : Z := 104.
Definition ENOTCONN : Z := 107.
Definition SIGHUP : Z := 1.
Definition SIGINT : Z := 2.
Definition SIGUSR1 : Z := 10.
Definition SIGTERM : Z := 15.

Definition EV_READ : Z := 2.
Definition EV_WRITE : Z := 4.
Definition EV_SIGNAL : Z := 8.
Definition EV_PERSIST : Z := 16.
Definition BEV_EVENT_READING : Z := 1.
Definition BEV_EVENT_WRITING : Z := 2.
Definition BEV_EVENT_EOF : Z := 16.
Definition BEV_EVENT_ERROR : Z := 32.
Definition BEV_EVENT_CONNECTED : Z := 128.
Definition BEV_OPT_CLOSE_ON_FREE : Z := 1.

(** ** Socket addresses

    A [struct sockaddr_storage] is its 128 bytes.  [ss_family] is a host-order
    (little-endian) 16-bit integer, the port is in network byte order. *)

Definition sockaddr_storage : Type := list Z.

Definition byte_at (ss : sockaddr_storage) (i : nat) : Z := nth i ss 0.
Definition slice (i n : nat) (ss : sockaddr_storage) : list Z := take n (drop i ss).

Definition ss_family (ss : sockaddr_storage) : Z := byte_at ss 0 + 256 * byte_at ss 1.
(** [sin_port] and [sin6_port] are both the two bytes at offset 2. *)
Definition sin_port (ss : sockaddr_storage) : list Z := slice 2 2 ss.
Definition sin_addr (ss : sockaddr_storage) : list Z := slice 4 4 ss.
Definition sin6_port (ss : sockaddr_storage) : list Z := slice 2 2 ss.
Definition sin6_addr (ss : sockaddr_storage) : list Z := slice 8 16 ss.

Definition sizeof_sockaddr_in : Z := 16.
Definition sizeof_sockaddr_in6 : Z := 28.
Definition sizeof_sockaddr_storage : Z := 128.

(** ** The program's structs *)

Inductive transocks_client_state :=
| client_NEW
| client_relay_connected
| client_socks5_finish_handshake
| client_pumping_data
| client_DESTROYING
| client_DESTROYED.

#[global] Instance transocks_client_state_eq_dec : EqDecision transocks_client_state.
Proof. solve_decision. Defined.

(** [struct transocks_client_t]; its first member, the list node
    [single_client_dlinklist_entry], lives in the node heap at the client's
    own address. *)
Record transocks_client := TransocksClient {
  global_env : Z;
  client_addr : Z;
  dest_addr : Z;
  client_fd : Z;
  relay_fd : Z;
  client_addr_len : option Z;
  dest_addr_len : option Z;
  client_bev : Z;
  relay_bev : Z;
  timeout_ev : Z;
  user_arg : Z;
  client_state : transocks_client_state;
  client_shutdown_read : bool;
  client_shutdown_write : bool;
  relay_shutdown_read : bool;
  relay_shutdown_write : bool
}.

Definition offsetof_single_client_dlinklist_entry : Z := 0.
Definition sizeof_transocks_client : Z := 96.

(** [struct transocks_global_env_t]; its list head
    [current_clients_dlinklist] lives in the node heap at offset 80. *)
Record transocks_global_env := TransocksGlobalEnv {
  pump_method_name : Z;
  bind_addr : Z;
  relay_addr : Z;
  bind_addr_len : Z;
  relay_addr_len : Z;
  eventBaseLoop : Z;
  listener : Z;
  sigterm_ev : Z;
  sigint_ev : Z;
  sighup_ev : Z;
  sigusr1_ev : Z
}.

Definition offsetof_current_clients_dlinklist : Z := 80.
Definition sizeof_transocks_global_env : Z := 96.

Record transocks_listener := TransocksListener {
  listener_fd : option Z;
  listener_ev : option Z
}.
Definition sizeof_transocks_listener : Z := 16.

Record transocks_splicepipe := TransocksSplicepipe {
  pipe_readfd : Z;
  pipe_writefd : Z;
  data_in_pipe : Z;
  capacity : option Z
}.
Definition sizeof_transocks_splicepipe : Z := 32.

Record transocks_splicepump := TransocksSplicepump {
  client_read_ev : Z;
  client_write_ev : Z;
  relay_read_ev : Z;
  relay_write_ev : Z;
  inbound_pipe : Z;
  outbound_pipe : Z
}.
Definition sizeof_transocks_splicepump : Z := 48.

Inductive transocks_splicepump_data_direction := inbound | outbound.

Inductive transocks_splicepump_splice_result :=
| normal_transfer
| can_retry
| fatal_failure
| read_eof.

(** Which of the two pump implementations a [transocks_pump *] points to. *)
Inductive pump_ref := transocks_splicepump_ops_ref | transocks_bufferpump_ops_ref.

(** The functions the program registers with libevent. *)
Inductive fn :=
| fn_listener_cb
| fn_terminate_signal_cb
| fn_dump_client_info_signal_cb
| fn_drop_all_clients_signal_cb
| fn_socks5_timeout_cb
| fn_relay_onconnect_eventcb
| fn_socks_handshake_stage_errcb
| fn_socks_on_server_selected_method_readcb
| fn_socks_on_server_connect_reply_readcb
| fn_transocks_client_readcb
| fn_transocks_client_writecb
| fn_transocks_client_eventcb
| fn_transocks_relay_readcb
| fn_transocks_relay_writecb
| fn_transocks_relay_eventcb
| fn_splicepump_client_readcb
| fn_splicepump_client_writecb
| fn_splicepump_relay_readcb
| fn_splicepump_relay_writecb.

#[global] Instance fn_eq_dec : EqDecision fn.
Proof. solve_decision. Defined.

(** What the program has asked of libevent for a live [bufferevent] or
    [event]: descriptor, callbacks, their argument, and whether it is enabled
    or added. *)
Record bufferevent := Bufferevent {
  bev_fd : Z;
  bev_options : Z;
  bev_readcb : option fn;
  bev_writecb : option fn;
  bev_eventcb : option fn;
  bev_cbarg : Z;
  bev_enabled : Z;
  bev_read_low : Z;
  bev_read_high : Z
}.

Record event := Event {
  ev_fd : Z;
  ev_events : Z;
  ev_cb : fn;
  ev_arg : Z;
  ev_added : bool
}.

(** ** Field updates *)

Definition set_global_env (v : Z) (c : transocks_client) : transocks_client :=
  TransocksClient v (client_addr c) (dest_addr c) (client_fd c) (relay_fd c) (client_addr_len c)
    (dest_addr_len c) (client_bev c) (relay_bev c) (timeout_ev c) (user_arg c) (client_state c)
    (client_shutdown_read c) (client_shutdown_write c) (relay_shutdown_read c) (relay_shutdown_write c).
Definition set_client_addr (v : Z) (c : transocks_client) : transocks_client :=
  TransocksClient (global_env c) v (dest_addr c) (client_fd c) (relay_fd c) (client_addr_len c)
    (dest_addr_len c) (client_bev c) (relay_bev c) (timeout_ev c) (user_arg c) (client_state c)
    (client_shutdown_read c) (client_shutdown_write c) (relay_shutdown_read c) (relay_shutdown_write c).
Definition set_dest_addr (v : Z) (c : transocks_client) : transocks_client :=
  TransocksClient (global_env c) (client_addr c) v (client_fd c) (relay_fd c) (client_addr_len c)
    (dest_addr_len c) (client_bev c) (relay_bev c) (timeout_ev c) (user_arg c) (client_state c)
    (client_shutdown_read c) (client_shutdown_write c) (relay_shutdown_read c) (relay_shutdown_write c).
Definition set_client_fd (v : Z) (c : transocks_client) : transocks_client :=
  TransocksClient (global_env c) (client_addr c) (dest_addr c) v (relay_fd c) (client_addr_len c)
    (dest_addr_len c) (client_bev c) (relay_bev c) (timeout_ev c) (user_arg c) (client_state c)
    (client_shutdown_read c) (client_shutdown_write c) (relay_shutdown_read c) (relay_shutdown_write c).
Definition set_relay_fd (v : Z) (c : transocks_client) : transocks_client :=
  TransocksClient (global_env c) (client_addr c) (dest_addr c) (client_fd c) v (client_addr_len c)
    (dest_addr_len c) (client_bev c) (relay_bev c) (timeout_ev c) (user_arg c) (client_state c)
    (client_shutdown_read c) (client_shutdown_write c) (relay_shutdown_read c) (relay_shutdown_write c).
Definition set_client_addr_len (v : option Z) (c : transocks_client) : transocks_client :=
  TransocksClient (global_env c) (client_addr c) (dest_addr c) (client_fd c) (relay_fd c) v (dest_addr_len c)
    (client_bev c) (relay_bev c) (timeout_ev c) (user_arg c) (client_state c) (client_shutdown_read c)
    (client_shutdown_write c) (relay_shutdown_read c) (relay_shutdown_write c).
Definition set_dest_addr_len (v : option Z) (c : transocks_client) : transocks_client :=
  TransocksClient (global_env c) (client_addr c) (dest_addr c) (client_fd c) (relay_fd c) (client_addr_len c)
v (client_bev c) (relay_bev c) (timeout_ev c) (user_arg c) (client_state c) (client_shutdown_read c)
    (client_shutdown_write c) (relay_shutdown_read c) (relay_shutdown_write c).
Definition set_client_bev (v : Z) (c : transocks_client) : transocks_client :=
  TransocksClient (global_env c) (client_addr c) (dest_addr c) (client_fd c) (relay_fd c) (client_addr_len c)
    (dest_addr_len c) v (relay_bev c) (timeout_ev c) (user_arg c) (client_state c) (client_shutdown_read c)
    (client_shutdown_write c) (relay_shutdown_read c) (relay_shutdown_write c).
Definition set_relay_bev (v : Z) (c : transocks_client) : transocks_client :=
  TransocksClient (global_env c) (client_addr c) (dest_addr c) (client_fd c) (relay_fd c) (client_addr_len c)
    (dest_addr_len c) (client_bev c) v (timeout_ev c) (user_arg c) (client_state c) (client_shutdown_read c)
    (client_shutdown_write c) (relay_shutdown_read c) (relay_shutdown_write c).
Definition set_timeout_ev (v : Z) (c : transocks_client) : transocks_client :=
  TransocksClient (global_env c) (client_addr c) (dest_addr c) (client_fd c) (relay_fd c) (client_addr_len c)
    (dest_addr_len c) (client_bev c) (relay_bev c) v (user_arg c) (client_state c) (client_shutdown_read c)
    (client_shutdown_write c) (relay_shutdown_read c) (relay_shutdown_write c).
Definition set_user_arg (v : Z) (c : transocks_client) : transocks_client :=
  TransocksClient (global_env c) (client_addr c) (dest_addr c) (client_fd c) (relay_fd c) (client_addr_len c)
    (dest_addr_len c) (client_bev c) (relay_bev c) (timeout_ev c) v (client_state c) (client_shutdown_read c)
    (client_shutdown_write c) (relay_shutdown_read c) (relay_shutdown_write c).
Definition set_client_state (v : transocks_client_state) (c : transocks_client) : transocks_client :=
  TransocksClient (global_env c) (client_addr c) (dest_addr c) (client_fd c) (relay_fd c) (client_addr_len c)
    (dest_addr_len c) (client_bev c) (relay_bev c) (timeout_ev c) (user_arg c) v (client_shutdown_read c)
    (client_shutdown_write c) (relay_shutdown_read c) (relay_shutdown_write c).
Definition set_client_shutdown_read (v : bool) (c : transocks_client) : transocks_client :=
  TransocksClient (global_env c) (client_addr c) (dest_addr c) (client_fd c) (relay_fd c) (client_addr_len c)
    (dest_addr_len c) (client_bev c) (relay_bev c) (timeout_ev c) (user_arg c) (client_state c) v
    (client_shutdown_write c) (relay_shutdown_read c) (relay_shutdown_write c).
Definition set_client_shutdown_write (v : bool) (c : transocks_client) : transocks_client :=
  TransocksClient (global_env c) (client_addr c) (dest_addr c) (client_fd c) (relay_fd c) (client_addr_len c)
    (dest_addr_len c) (client_bev c) (relay_bev c) (timeout_ev c) (user_arg c) (client_state c)
    (client_shutdown_read c) v (relay_shutdown_read c) (relay_shutdown_write c).
Definition set_relay_shutdown_read (v : bool) (c : transocks_client) : transocks_client :=
  TransocksClient (global_env c) (client_addr c) (dest_addr c) (client_fd c) (relay_fd c) (client_addr_len c)
    (dest_addr_len c) (client_bev c) (relay_bev c) (timeout_ev c) (user_arg c) (client_state c)
    (client_shutdown_read c) (client_shutdown_write c) v (relay_shutdown_write c).
Definition set_relay_shutdown_write (v : bool) (c : transocks_client) : transocks_client :=
  TransocksClient (global_env c) (client_addr c) (dest_addr c) (client_fd c) (relay_fd c) (client_addr_len c)
    (dest_addr_len c) (client_bev c) (relay_bev c) (timeout_ev c) (user_arg c) (client_state c)
    (client_shutdown_read c) (client_shutdown_write c) (relay_shutdown_read c) v.

Definition set_pump_method_name (v : Z) (c : transocks_global_env) : transocks_global_env :=
  TransocksGlobalEnv v (bind_addr c) (relay_addr c) (bind_addr_len c) (relay_addr_len c) (eventBaseLoop c)
    (listener c) (sigterm_ev c) (sigint_ev c) (sighup_ev c) (sigusr1_ev c).
Definition set_bind_addr (v : Z) (c : transocks_global_env) : transocks_global_env :=
  TransocksGlobalEnv (pump_method_name c) v (relay_addr c) (bind_addr_len c) (relay_addr_len c)
    (eventBaseLoop c) (listener c) (sigterm_ev c) (sigint_ev c) (sighup_ev c) (sigusr1_ev c).
Definition set_relay_addr (v : Z) (c : transocks_global_env) : transocks_global_env :=
  TransocksGlobalEnv (pump_method_name c) (bind_addr c) v (bind_addr_len c) (relay_addr_len c) (eventBaseLoop
c) (listener c) (sigterm_ev c) (sigint_ev c) (sighup_ev c) (sigusr1_ev c).
Definition set_bind_addr_len (v : Z) (c : transocks_global_env) : transocks_global_env :=
  TransocksGlobalEnv (pump_method_name c) (bind_addr c) (relay_addr c) v (relay_addr_len c) (eventBaseLoop c)
    (listener c) (sigterm_ev c) (sigint_ev c) (sighup_ev c) (sigusr1_ev c).
Definition set_relay_addr_len (v : Z) (c : transocks_global_env) : transocks_global_env :=
  TransocksGlobalEnv (pump_method_name c) (bind_addr c) (relay_addr c) (bind_addr_len c) v (eventBaseLoop c)
    (listener c) (sigterm_ev c) (sigint_ev c) (sighup_ev c) (sigusr1_ev c).
Definition set_eventBaseLoop (v : Z) (c : transocks_global_env) : transocks_global_env :=
  TransocksGlobalEnv (pump_method_name c) (bind_addr c) (relay_addr c) (bind_addr_len c) (relay_addr_len c) v
    (listener c) (sigterm_ev c) (sigint_ev c) (sighup_ev c) (sigusr1_ev c).
Definition set_listener (v : Z) (c : transocks_global_env) : transocks_global_env :=
  TransocksGlobalEnv (pump_method_name c) (bind_addr c) (relay_addr c) (bind_addr_len c) (relay_addr_len c)
    (eventBaseLoop c) v (sigterm_ev c) (sigint_ev c) (sighup_ev c) (sigusr1_ev c).
Definition set_sigterm_ev (v : Z) (c : transocks_global_env) : transocks_global_env :=
  TransocksGlobalEnv (pump_method_name c) (bind_addr c) (relay_addr c) (bind_addr_len c) (relay_addr_len c)
    (eventBaseLoop c) (listener c) v (sigint_ev c) (sighup_ev c) (sigusr1_ev c).
Definition set_sigint_ev (v : Z) (c : transocks_global_env) : transocks_global_env :=
  TransocksGlobalEnv (pump_method_name c) (bind_addr c) (relay_addr c) (bind_addr_len c) (relay_addr_len c)
    (eventBaseLoop c) (listener c) (sigterm_ev c) v (sighup_ev c) (sigusr1_ev c).
Definition set_sighup_ev (v : Z) (c : transocks_global_env) : transocks_global_env :=
  TransocksGlobalEnv (pump_method_name c) (bind_addr c) (relay_addr c) (bind_addr_len c) (relay_addr_len c)
    (eventBaseLoop c) (listener c) (sigterm_ev c) (sigint_ev c) v (sigusr1_ev c).
Definition set_sigusr1_ev (v : Z) (c : transocks_global_env) : transocks_global_env :=
  TransocksGlobalEnv (pump_method_name c) (bind_addr c) (relay_addr c) (bind_addr_len c) (relay_addr_len c)
    (eventBaseLoop c) (listener c) (sigterm_ev c) (sigint_ev c) (sighup_ev c) v.

Definition set_listener_fd (v : option Z) (c : transocks_listener) : transocks_listener :=
  TransocksListener v (listener_ev c).
Definition set_listener_ev (v : option Z) (c : transocks_listener) : transocks_listener :=
  TransocksListener (listener_fd c) v.

Definition set_pipe_readfd (v : Z) (c : transocks_splicepipe) : transocks_splicepipe :=
  TransocksSplicepipe v (pipe_writefd c) (data_in_pipe c) (capacity c).
Definition set_pipe_writefd (v : Z) (c : transocks_splicepipe) : transocks_splicepipe :=
  TransocksSplicepipe (pipe_readfd c) v (data_in_pipe c) (capacity c).
Definition set_data_in_pipe (v : Z) (c : transocks_splicepipe) : transocks_splicepipe :=
  TransocksSplicepipe (pipe_readfd c) (pipe_writefd c) v (capacity c).
Definition set_capacity (v : option Z) (c : transocks_splicepipe) : transocks_splicepipe :=
  TransocksSplicepipe (pipe_readfd c) (pipe_writefd c) (data_in_pipe c) v.

Definition set_client_read_ev (v : Z) (c : transocks_splicepump) : transocks_splicepump :=
  TransocksSplicepump v (client_write_ev c) (relay_read_ev c) (relay_write_ev c) (inbound_pipe c)
    (outbound_pipe c).
Definition set_client_write_ev (v : Z) (c : transocks_splicepump) : transocks_splicepump :=
  TransocksSplicepump (client_read_ev c) v (relay_read_ev c) (relay_write_ev c) (inbound_pipe c)
    (outbound_pipe c).
Definition set_relay_read_ev (v : Z) (c : transocks_splicepump) : transocks_splicepump :=
  TransocksSplicepump (client_read_ev c) (client_write_ev c) v (relay_write_ev c) (inbound_pipe c)
    (outbound_pipe c).
Definition set_relay_write_ev (v : Z) (c : transocks_splicepump) : transocks_splicepump :=
  TransocksSplicepump (client_read_ev c) (client_write_ev c) (relay_read_ev c) v (inbound_pipe c)
    (outbound_pipe c).
Definition set_inbound_pipe (v : Z) (c : transocks_splicepump) : transocks_splicepump :=
  TransocksSplicepump (client_read_ev c) (client_write_ev c) (relay_read_ev c) (relay_write_ev c) v
    (outbound_pipe c).
Definition set_outbound_pipe (v : Z) (c : transocks_splicepump) : transocks_splicepump :=
  TransocksSplicepump (client_read_ev c) (client_write_ev c) (relay_read_ev c) (relay_write_ev c)
    (inbound_pipe c) v.

Definition set_bev_fd (v : Z) (c : bufferevent) : bufferevent :=
  Bufferevent v (bev_options c) (bev_readcb c) (bev_writecb c) (bev_eventcb c) (bev_cbarg c) (bev_enabled c)
    (bev_read_low c) (bev_read_high c).
Definition set_bev_options (v : Z) (c : bufferevent) : bufferevent :=
  Bufferevent (bev_fd c) v (bev_readcb c) (bev_writecb c) (bev_eventcb c) (bev_cbarg c) (bev_enabled c)
    (bev_read_low c) (bev_read_high c).
Definition set_bev_readcb (v : option fn) (c : bufferevent) : bufferevent :=
  Bufferevent (bev_fd c) (bev_options c) v (bev_writecb c) (bev_eventcb c) (bev_cbarg c) (bev_enabled c)
    (bev_read_low c) (bev_read_high c).
Definition set_bev_writecb (v : option fn) (c : bufferevent) : bufferevent :=
  Bufferevent (bev_fd c) (bev_options c) (bev_readcb c) v (bev_eventcb c) (bev_cbarg c) (bev_enabled c)
    (bev_read_low c) (bev_read_high c).
Definition set_bev_eventcb (v : option fn) (c : bufferevent) : bufferevent :=
  Bufferevent (bev_fd c) (bev_options c) (bev_readcb c) (bev_writecb c) v (bev_cbarg c) (bev_enabled c)
    (bev_read_low c) (bev_read_high c).
Definition set_bev_cbarg (v : Z) (c : bufferevent) : bufferevent :=
  Bufferevent (bev_fd c) (bev_options c) (bev_readcb c) (bev_writecb c) (bev_eventcb c) v (bev_enabled c)
    (bev_read_low c) (bev_read_high c).
Definition set_bev_enabled (v : Z) (c : bufferevent) : bufferevent :=
  Bufferevent (bev_fd c) (bev_options c) (bev_readcb c) (bev_writecb c) (bev_eventcb c) (bev_cbarg c) v
    (bev_read_low c) (bev_read_high c).
Definition set_bev_read_low (v : Z) (c : bufferevent) : bufferevent :=
  Bufferevent (bev_fd c) (bev_options c) (bev_readcb c) (bev_writecb c) (bev_eventcb c) (bev_cbarg c)
    (bev_enabled c) v (bev_read_high c).
Definition set_bev_read_high (v : Z) (c : bufferevent) : bufferevent :=
  Bufferevent (bev_fd c) (bev_options c) (bev_readcb c) (bev_writecb c) (bev_eventcb c) (bev_cbarg c)
    (bev_enabled c) (bev_read_low c) v.

Definition set_ev_fd (v : Z) (c : event) : event :=
  Event v (ev_events c) (ev_cb c) (ev_arg c) (ev_added c).
Definition set_ev_events (v : Z) (c : event) : event :=
  Event (ev_fd c) v (ev_cb c) (ev_arg c) (ev_added c).
Definition set_ev_cb (v : fn) (c : event) : event :=
  Event (ev_fd c) (ev_events c) v (ev_arg c) (ev_added c).
Definition set_ev_arg (v : Z) (c : event) : event :=
  Event (ev_fd c) (ev_events c) (ev_cb c) v (ev_added c).
Definition set_ev_added (v : bool) (c : event) : event :=
  Event (ev_fd c) (ev_events c) (ev_cb c) (ev_arg c) v.

