(* ===== verification/World.v ===== *)
(** * The program's world

    The state a C function runs in: the program's heap, one map per struct
    type from addresses to live objects; the list nodes embedded in them; what
    the program registered with libevent; the global [pumpMethodImpl]; and the
    history of calls that left the program and of callbacks that entered it.

    Everything outside the program (the kernel, libc, libevent) answers
    through the parameter [ext]: the reply to a call is a function of the whole
    history, so a theorem for every [ext] covers every behaviour of the outside
    world.  What the code relies on is stated by the theorems as hypotheses on
    [ext]. *)

From S2P Require Import Prelude DList Structs.
Local Open Scope Z_scope.

(** ** Calls to the outside *)

(** [bufferevent_get_input(bev)] and [bufferevent_get_output(bev)]. *)
Inductive evbuffer := Input (bev : Z) | Output (bev : Z).

#[global] Instance evbuffer_eq_dec : EqDecision evbuffer.
Proof. solve_decision. Defined.

Inductive call :=
(* libc and the allocator *)
| c_malloc (size : Z)
| c_calloc (count size : Z)
| c_free (p : Z)
| c_strdup (s : string)
(* sockets, pipes, descriptors *)
| c_socket (family type protocol : Z)
| c_close (fd : Z)
| c_shutdown (fd how : Z)
| c_setsockopt (fd level optname val : Z)
| c_getsockopt_addr (fd level optname len : Z)
| c_fcntl_getfl (fd : Z)
| c_fcntl_setfl (fd flags : Z)
| c_fcntl_getpipe_sz (fd : Z)
| c_pipe
| c_accept (fd len : Z)
| c_bind (fd : Z) (addr : sockaddr_storage) (len : Z)
| c_listen (fd backlog : Z)
| c_splice (from_fd to_fd len flags : Z)
| c_inet_ntop (family : Z) (addr : list Z) (len : Z)
(* libevent: base, events *)
| c_event_base_new
| c_event_base_free (base : Z)
| c_event_base_dispatch (base : Z)
| c_event_base_loopbreak (base : Z)
| c_event_base_got_exit (base : Z)
| c_event_base_got_break (base : Z)
| c_event_new (base fd events : Z) (cb : fn) (arg : Z)
| c_event_assign (ev base fd events : Z) (cb : fn) (arg : Z)
| c_event_add (ev : Z) (timeout : option Z)
| c_event_del (ev : Z)
| c_event_free (ev : Z)
| c_event_pending (ev events : Z)
| c_event_active (ev events : Z)
(* libevent: bufferevents and evbuffers *)
| c_bufferevent_socket_new (base fd options : Z)
| c_bufferevent_free (bev : Z)
| c_bufferevent_setcb (bev : Z) (readcb writecb eventcb : option fn) (arg : Z)
| c_bufferevent_enable (bev events : Z)
| c_bufferevent_disable (bev events : Z)
| c_bufferevent_setwatermark (bev events low high : Z)
| c_bufferevent_setfd (bev fd : Z)
| c_bufferevent_socket_connect (bev : Z) (addr : sockaddr_storage) (len : Z)
| c_bufferevent_write (bev : Z) (data : list Z)
| c_evbuffer_get_length (buf : evbuffer)
| c_evbuffer_pullup (buf : evbuffer) (size : Z)
| c_evbuffer_drain (buf : evbuffer) (len : Z)
| c_evbuffer_remove_buffer (src dst : evbuffer) (len : Z)
| c_evutil_parse_sockaddr_port (s : string) (len : Z)
(* what main and the dumps use *)
| c_getopt_long
| c_signal_ignore (signum : Z)
| c_printf (line : string).

(** The type of a call's reply.  An [int] reply is its value; a call whose
    [errno] the code reads replies with the pair; an output buffer is part of
    the reply; an allocation replies whether it succeeded. *)
Definition ret (c : call) : Type :=
  match c with
  | c_malloc _ | c_calloc _ _ | c_strdup _ | c_event_base_new
  | c_event_new _ _ _ _ _ | c_bufferevent_socket_new _ _ _
  | c_event_pending _ _ | c_event_base_got_exit _ | c_event_base_got_break _ => bool
  | c_free _ | c_close _ | c_event_base_free _ | c_event_free _ | c_event_active _ _
  | c_bufferevent_free _ | c_bufferevent_setcb _ _ _ _ _
  | c_bufferevent_setwatermark _ _ _ _ | c_printf _ | c_signal_ignore _ => unit
  | c_getsockopt_addr _ _ _ _ | c_evutil_parse_sockaddr_port _ _ =>
      (Z * sockaddr_storage * Z)%type                       (* result, address, length *)
  | c_accept _ _ => (Z * Z * sockaddr_storage * Z)%type     (* fd, errno, address, length *)
  | c_pipe => (Z * Z * Z)%type                              (* result, read end, write end *)
  | c_splice _ _ _ _ => (Z * Z)%type                        (* result, errno *)
  | c_inet_ntop _ _ _ => option string
  | c_evbuffer_pullup _ _ => list Z
  | c_getopt_long => (Z * option string)%type                      (* result, optarg *)
  | _ => Z
  end.

(** ** Callbacks from libevent *)

Inductive loop_event :=
| le_event (ev what : Z)                       (* an event fired: its callback runs *)
| le_bev_read (bev : Z)
| le_bev_write (bev : Z)
| le_bev_event (bev what errno : Z).

Inductive item := ICall (c : call) | IEvent (e : loop_event).

(** The outside world. *)
Class Env := ext : list item → ∀ c : call, ret c.

(** ** State *)

Record state := State {
  brk : Z;
  clients : gmap Z transocks_client;
  addrs : gmap Z (option sockaddr_storage);
  pumps : gmap Z transocks_splicepump;
  pipes : gmap Z transocks_splicepipe;
  envs : gmap Z transocks_global_env;
  listeners : gmap Z transocks_listener;
  strs : gmap Z string;
  blocks : gmap Z (list Z);
  bases : gmap Z unit;
  nodes : gmap Z list_head;
  bevs : gmap Z bufferevent;
  evs : gmap Z event;
  pumpMethodImpl : option pump_ref;
  trace : list item
}.

Definition set_brk (v : Z) (c : state) : state :=
  State v (clients c) (addrs c) (pumps c) (pipes c) (envs c) (listeners c) (strs c) (blocks c) (bases c)
    (nodes c) (bevs c) (evs c) (pumpMethodImpl c) (trace c).
Definition set_clients (v : gmap Z transocks_client) (c : state) : state :=
  State (brk c) v (addrs c) (pumps c) (pipes c) (envs c) (listeners c) (strs c) (blocks c) (bases c) (nodes
c) (bevs c) (evs c) (pumpMethodImpl c) (trace c).
Definition set_addrs (v : gmap Z (option sockaddr_storage)) (c : state) : state :=
  State (brk c) (clients c) v (pumps c) (pipes c) (envs c) (listeners c) (strs c) (blocks c) (bases c) (nodes
c) (bevs c) (evs c) (pumpMethodImpl c) (trace c).
Definition set_pumps (v : gmap Z transocks_splicepump) (c : state) : state :=
  State (brk c) (clients c) (addrs c) v (pipes c) (envs c) (listeners c) (strs c) (blocks c) (bases c) (nodes
c) (bevs c) (evs c) (pumpMethodImpl c) (trace c).
Definition set_pipes (v : gmap Z transocks_splicepipe) (c : state) : state :=
  State (brk c) (clients c) (addrs c) (pumps c) v (envs c) (listeners c) (strs c) (blocks c) (bases c) (nodes
c) (bevs c) (evs c) (pumpMethodImpl c) (trace c).
Definition set_envs (v : gmap Z transocks_global_env) (c : state) : state :=
  State (brk c) (clients c) (addrs c) (pumps c) (pipes c) v (listeners c) (strs c) (blocks c) (bases c)
    (nodes c) (bevs c) (evs c) (pumpMethodImpl c) (trace c).
Definition set_listeners (v : gmap Z transocks_listener) (c : state) : state :=
  State (brk c) (clients c) (addrs c) (pumps c) (pipes c) (envs c) v (strs c) (blocks c) (bases c) (nodes c)
    (bevs c) (evs c) (pumpMethodImpl c) (trace c).
Definition set_strs (v : gmap Z string) (c : state) : state :=
  State (brk c) (clients c) (addrs c) (pumps c) (pipes c) (envs c) (listeners c) v (blocks c) (bases c)
    (nodes c) (bevs c) (evs c) (pumpMethodImpl c) (trace c).
Definition set_blocks (v : gmap Z (list Z)) (c : state) : state :=
  State (brk c) (clients c) (addrs c) (pumps c) (pipes c) (envs c) (listeners c) (strs c) v (bases c) (nodes
c) (bevs c) (evs c) (pumpMethodImpl c) (trace c).
Definition set_bases (v : gmap Z unit) (c : state) : state :=
  State (brk c) (clients c) (addrs c) (pumps c) (pipes c) (envs c) (listeners c) (strs c) (blocks c) v (nodes
c) (bevs c) (evs c) (pumpMethodImpl c) (trace c).
Definition set_nodes (v : gmap Z list_head) (c : state) : state :=
  State (brk c) (clients c) (addrs c) (pumps c) (pipes c) (envs c) (listeners c) (strs c) (blocks c) (bases
c) v (bevs c) (evs c) (pumpMethodImpl c) (trace c).
Definition set_bevs (v : gmap Z bufferevent) (c : state) : state :=
  State (brk c) (clients c) (addrs c) (pumps c) (pipes c) (envs c) (listeners c) (strs c) (blocks c) (bases
c) (nodes c) v (evs c) (pumpMethodImpl c) (trace c).
Definition set_evs (v : gmap Z event) (c : state) : state :=
  State (brk c) (clients c) (addrs c) (pumps c) (pipes c) (envs c) (listeners c) (strs c) (blocks c) (bases
c) (nodes c) (bevs c) v (pumpMethodImpl c) (trace c).
Definition set_pumpMethodImpl (v : option pump_ref) (c : state) : state :=
  State (brk c) (clients c) (addrs c) (pumps c) (pipes c) (envs c) (listeners c) (strs c) (blocks c) (bases
c) (nodes c) (bevs c) (evs c) v (trace c).
Definition set_trace (v : list item) (c : state) : state :=
  State (brk c) (clients c) (addrs c) (pumps c) (pipes c) (envs c) (listeners c) (strs c) (blocks c) (bases
c) (nodes c) (bevs c) (evs c) (pumpMethodImpl c) v.

Definition push (i : item) (s : state) : state := set_trace (i :: trace s) s.

(** The calls [cs], in this order, added to the history (later items first). *)
Definition did (cs : list call) (s : state) : state := set_trace (reverse (ICall <$> cs) ++ trace s) s.

Definition state0 : state :=
  State 4096 ∅ ∅ ∅ ∅ ∅ ∅ ∅ ∅ ∅ ∅ ∅ ∅ None [].


(** ** Typed heaps

    The objects of one struct type: where they are kept, the struct's size and
    the offset of the list node it embeds, if any.  Addresses are never reused,
    so an access to a freed object is an access to a missing one, and faults. *)

Class HeapOf (T : Type) := {
  hget : state → gmap Z T;
  hset : gmap Z T → state → state;
  hsize : Z;
  hnode : option Z
}.
Arguments hsize T {_}.
Arguments hnode T {_}.

#[global] Instance heap_client : HeapOf transocks_client :=
  {| hget := clients; hset := set_clients; hsize := sizeof_transocks_client;
     hnode := Some offsetof_single_client_dlinklist_entry |}.
#[global] Instance heap_addr : HeapOf (option sockaddr_storage) :=
  {| hget := addrs; hset := set_addrs; hsize := sizeof_sockaddr_storage; hnode := None |}.
#[global] Instance heap_pump : HeapOf transocks_splicepump :=
  {| hget := pumps; hset := set_pumps; hsize := sizeof_transocks_splicepump; hnode := None |}.
#[global] Instance heap_pipe : HeapOf transocks_splicepipe :=
  {| hget := pipes; hset := set_pipes; hsize := sizeof_transocks_splicepipe; hnode := None |}.
#[global] Instance heap_env : HeapOf transocks_global_env :=
  {| hget := envs; hset := set_envs; hsize := sizeof_transocks_global_env;
     hnode := Some offsetof_current_clients_dlinklist |}.
#[global] Instance heap_listener : HeapOf transocks_listener :=
  {| hget := listeners; hset := set_listeners; hsize := sizeof_transocks_listener; hnode := None |}.
#[global] Instance heap_str : HeapOf string :=
  {| hget := strs; hset := set_strs; hsize := 1; hnode := None |}.
(** Plain byte blocks: the request structs of socks5.c. *)
#[global] Instance heap_block : HeapOf (list Z) :=
  {| hget := blocks; hset := set_blocks; hsize := 32; hnode := None |}.
#[global] Instance heap_base : HeapOf unit :=
  {| hget := bases; hset := set_bases; hsize := 1; hnode := None |}.
#[global] Instance heap_bev : HeapOf bufferevent :=
  {| hget := bevs; hset := set_bevs; hsize := 1; hnode := None |}.
#[global] Instance heap_ev : HeapOf event :=
  {| hget := evs; hset := set_evs; hsize := 1; hnode := None |}.

Abbreviation C A := (M state A).

Section heap.
Context {T : Type} `{!HeapOf T}.

Definition load (p : Z) : C T := λ s,
  match hget s !! p with Some v => Ok v s | None => Fault end.

Definition modify (p : Z) (f : T → T) : C unit := λ s,
  match hget s !! p with
  | Some v => Ok tt (hset (<[p := f v]> (hget s)) s)
  | None => Fault
  end.

Definition put_node (o : option Z) (p : Z) (s : state) : state :=
  match o with
  | Some off => set_nodes (<[p + off := ListHead NULL NULL]> (nodes s)) s
  | None => s
  end.

Definition drop_node (o : option Z) (p : Z) (s : state) : state :=
  match o with
  | Some off => set_nodes (delete (p + off) (nodes s)) s
  | None => s
  end.

Definition alloc (v : T) : C Z := λ s,
  let p := brk s in
  Ok p (put_node (hnode T) p (hset (<[p := v]> (hget s)) (set_brk (p + hsize T) s))).

Definition dealloc (p : Z) : C unit := λ s,
  match hget s !! p with
  | Some _ => Ok tt (drop_node (hnode T) p (hset (delete p (hget s)) s))
  | None => Fault
  end.
End heap.

(** [p->f] for an [int] or pointer field. *)
Definition fld {T A} `{!HeapOf T} (p : Z) (f : T → A) : C A := v ← load p; mret (f v).

(** Read a field that may be uninitialised. *)
Definition rd {A} (o : option A) : C A := match o with Some v => mret v | None => fault end.

(** ** External operations *)

Section externals.
Context {EXT : Env}.

Definition sys (c : call) : C (ret c) := λ s, Ok (ext (trace s) c) (push (ICall c) s).

(** Allocation and release of the program's own structs. *)
Definition tr_malloc {T} `{!HeapOf T} (v : T) : C Z :=
  ok ← sys (c_malloc (hsize T));
  if (ok : bool) then alloc v else mret NULL.

Definition tr_malloc_block (size : Z) : C Z :=
  ok ← sys (c_malloc size);
  if (ok : bool) then alloc ([] : list Z) else mret NULL.

Definition tr_calloc {T} `{!HeapOf T} (v : T) : C Z :=
  ok ← sys (c_calloc 1 (hsize T));
  if (ok : bool) then alloc v else mret NULL.

(** Give a live object back: to the allocator or to the library it is from. *)
Definition release T `{!HeapOf T} (free_call : Z → call) (p : Z) : C unit :=
  _ ← load (T:=T) p;
  sys (free_call p) ;;
  dealloc (T:=T) p.

Definition tr_free T `{!HeapOf T} : Z → C unit := release T c_free.

Definition strdup (s : string) : C Z :=
  ok ← sys (c_strdup s);
  if (ok : bool) then alloc s else mret NULL.

Definition list_op {A} (m : M lheap A) : C A := zoom nodes set_nodes m.

(** libevent: the registration tables follow the documented effect of the
    calls; a handle that is not live (freed, or never created) faults. *)
Definition event_base_new : C Z :=
  ok ← sys c_event_base_new;
  if (ok : bool) then alloc tt else mret NULL.

Definition event_base_free : Z → C unit := release unit c_event_base_free.

Definition event_new (base fd events : Z) (cb : fn) (arg : Z) : C Z :=
  _ ← load (T:=unit) base;
  ok ← sys (c_event_new base fd events cb arg);
  if (ok : bool) then alloc (Event fd events cb arg false) else mret NULL.

Definition event_assign (ev base fd events : Z) (cb : fn) (arg : Z) : C Z :=
  _ ← load (T:=event) ev;
  r ← sys (c_event_assign ev base fd events cb arg);
  modify ev (λ e, if r =? 0 then Event fd events cb arg false else e) ;;
  mret r.

Definition event_add (ev : Z) (timeout : option Z) : C Z :=
  _ ← load (T:=event) ev;
  r ← sys (c_event_add ev timeout);
  modify ev (λ e, if r =? 0 then set_ev_added true e else e) ;;
  mret r.

Definition event_del (ev : Z) : C Z :=
  _ ← load (T:=event) ev;
  r ← sys (c_event_del ev);
  modify ev (set_ev_added false) ;;
  mret r.

Definition event_free : Z → C unit := release event c_event_free.

Definition event_pending (ev events : Z) : C bool :=
  _ ← load (T:=event) ev;
  sys (c_event_pending ev events).

Definition event_active (ev events : Z) : C unit :=
  _ ← load (T:=event) ev;
  sys (c_event_active ev events).

(** The timer and signal macros of event2/event.h. *)
Definition evtimer_new (base : Z) (cb : fn) (arg : Z) : C Z := event_new base (-1) 0 cb arg.
Definition evtimer_assign (ev base : Z) (cb : fn) (arg : Z) : C Z := event_assign ev base (-1) 0 cb arg.
Definition evtimer_add (ev tv : Z) : C Z := event_add ev (Some tv).
Definition evtimer_del (ev : Z) : C Z := event_del ev.
Definition evsignal_new (base signum : Z) (cb : fn) (arg : Z) : C Z :=
  event_new base signum (Z.lor EV_SIGNAL EV_PERSIST) cb arg.
Definition evsignal_add (ev : Z) : C Z := event_add ev None.
Definition evsignal_del (ev : Z) : C Z := event_del ev.

Definition bufferevent_socket_new (base fd options : Z) : C Z :=
  _ ← load (T:=unit) base;
  ok ← sys (c_bufferevent_socket_new base fd options);
  if (ok : bool) then alloc (Bufferevent fd options None None None NULL EV_WRITE 0 0) else mret NULL.

Definition bufferevent_free : Z → C unit := release bufferevent c_bufferevent_free.

Definition bufferevent_setcb (bev : Z) (r w e : option fn) (arg : Z) : C unit :=
  _ ← load (T:=bufferevent) bev;
  sys (c_bufferevent_setcb bev r w e arg) ;;
  modify bev (λ b, set_bev_readcb r (set_bev_writecb w (set_bev_eventcb e (set_bev_cbarg arg b)))).

Definition bufferevent_enable (bev events : Z) : C Z :=
  _ ← load (T:=bufferevent) bev;
  r ← sys (c_bufferevent_enable bev events);
  modify bev (λ b, if r =? 0 then set_bev_enabled (Z.lor (bev_enabled b) events) b else b) ;;
  mret r.

Definition bufferevent_disable (bev events : Z) : C Z :=
  _ ← load (T:=bufferevent) bev;
  r ← sys (c_bufferevent_disable bev events);
  modify bev (λ b, if r =? 0 then set_bev_enabled (Z.ldiff (bev_enabled b) events) b else b) ;;
  mret r.

Definition bufferevent_setwatermark (bev events low high : Z) : C unit :=
  _ ← load (T:=bufferevent) bev;
  sys (c_bufferevent_setwatermark bev events low high) ;;
  modify bev (λ b, if Z.land events EV_READ =? EV_READ
                   then set_bev_read_low low (set_bev_read_high high b) else b).

Definition bufferevent_setfd (bev fd : Z) : C Z :=
  _ ← load (T:=bufferevent) bev;
  r ← sys (c_bufferevent_setfd bev fd);
  modify bev (λ b, if r =? 0 then set_bev_fd fd b else b) ;;
  mret r.

Definition bufferevent_socket_connect (bev : Z) (addr : sockaddr_storage) (len : Z) : C Z :=
  _ ← load (T:=bufferevent) bev;
  sys (c_bufferevent_socket_connect bev addr len).

Definition bufferevent_write (bev : Z) (data : list Z) : C Z :=
  _ ← load (T:=bufferevent) bev;
  sys (c_bufferevent_write bev data).

Definition buf_bev (b : evbuffer) : Z := match b with Input bev | Output bev => bev end.

Definition evbuffer_get_length (b : evbuffer) : C Z :=
  _ ← load (T:=bufferevent) (buf_bev b);
  sys (c_evbuffer_get_length b).

Definition evbuffer_pullup (b : evbuffer) (size : Z) : C (list Z) :=
  _ ← load (T:=bufferevent) (buf_bev b);
  sys (c_evbuffer_pullup b size).

Definition evbuffer_drain (b : evbuffer) (len : Z) : C Z :=
  _ ← load (T:=bufferevent) (buf_bev b);
  sys (c_evbuffer_drain b len).

Definition evbuffer_remove_buffer (src dst : evbuffer) (len : Z) : C Z :=
  _ ← load (T:=bufferevent) (buf_bev src);
  _ ← load (T:=bufferevent) (buf_bev dst);
  sys (c_evbuffer_remove_buffer src dst len).
End externals.

(** ** Reasoning rules *)

Section rules.
Context {EXT : Env}.
Implicit Types s : state.

Lemma wp_sys c (Q : ret c → state → Prop) s :
  Q (ext (trace s) c) (push (ICall c) s) → wp (sys c) Q s.
Proof. done. Qed.

Lemma wp_list_op {A} (m : M lheap A) (Q : A → state → Prop) s :
  wp m (λ a h, Q a (set_nodes h s)) (nodes s) → wp (list_op m) Q s.
Proof. apply wp_zoom. Qed.

Lemma did_nil s : did [] s = s.
Proof. by destruct s. Qed.

Lemma did_did cs ds s : did cs (did ds s) = did (ds ++ cs) s.
Proof. unfold did. simpl. by rewrite fmap_app, reverse_app, (assoc_L (++)). Qed.

Lemma set_clients_id s : set_clients (clients s) s = s.
Proof. by destruct s. Qed.

Section heap_rules.
Context {T : Type} `{!HeapOf T}.

Lemma wp_load p (v : T) (Q : T → state → Prop) s :
  hget s !! p = Some v → Q v s → wp (load p) Q s.
Proof. intros Hp HQ. unfold wp, load. by rewrite Hp. Qed.

Lemma wp_modify p (f : T → T) (v : T) (Q : unit → state → Prop) s :
  hget s !! p = Some v → Q tt (hset (<[p := f v]> (hget s)) s) → wp (modify p f) Q s.
Proof. intros Hp HQ. unfold wp, modify. by rewrite Hp. Qed.

Lemma wp_alloc (v : T) (Q : Z → state → Prop) s :
  Q (brk s) (put_node (hnode T) (brk s)
               (hset (<[brk s := v]> (hget s)) (set_brk (brk s + hsize T) s))) →
  wp (alloc v) Q s.
Proof. done. Qed.

Lemma wp_dealloc p (v : T) (Q : unit → state → Prop) s :
  hget s !! p = Some v → Q tt (drop_node (hnode T) p (hset (delete p (hget s)) s)) →
  wp (dealloc (T:=T) p) Q s.
Proof. intros Hp HQ. unfold wp, dealloc. by rewrite Hp. Qed.
End heap_rules.

Lemma wp_fld {T A} `{!HeapOf T} p (f : T → A) v (Q : A → state → Prop) s :
  hget s !! p = Some v → Q (f v) s → wp (fld p f) Q s.
Proof. intros Hp HQ. apply wp_bind. by eapply wp_load. Qed.

Lemma wp_rd {A} (o : option A) v (Q : A → state → Prop) s : o = Some v → Q v s → wp (rd o) Q s.
Proof. intros ->. done. Qed.

(** The object behind a handle that the program uses after it was released. *)
Lemma load_dead {T} `{!HeapOf T} p s : hget (T:=T) s !! p = None → load (T:=T) p s = Fault.
Proof. intros H. unfold load. by rewrite H. Qed.
End rules.

(** ** Laws of the heaps

    A heap is a part of the state that no call changes by itself. *)

Class Framed (T : Type) `{!HeapOf T} : Prop := {
  fr_get_did cs s : hget (T:=T) (did cs s) = hget s;
  fr_set_did cs m s : hset (T:=T) m (did cs s) = did cs (hset m s);
  fr_set_id s : hset (T:=T) (hget s) s = s
}.

(** What the rules for a field of an [O] that points to a [T] need: the two
    heaps are different parts of the state. *)
Class Beside (O T : Type) `{!HeapOf O, !HeapOf T} : Prop := {
  bs_node : hnode T = None;
  bs_get m s : hget (T:=O) (hset (T:=T) m s) = hget s;
  bs_comm n m s : hset (T:=O) n (hset (T:=T) m s) = hset (T:=T) m (hset (T:=O) n s)
}.

Ltac heap_laws := split; first [done | by intros []].

#[global] Instance framed_client : Framed transocks_client.
Proof. heap_laws. Qed.
#[global] Instance framed_addr : Framed (option sockaddr_storage).
Proof. heap_laws. Qed.
#[global] Instance framed_pump : Framed transocks_splicepump.
Proof. heap_laws. Qed.
#[global] Instance framed_pipe : Framed transocks_splicepipe.
Proof. heap_laws. Qed.
#[global] Instance framed_env : Framed transocks_global_env.
Proof. heap_laws. Qed.
#[global] Instance framed_listener : Framed transocks_listener.
Proof. heap_laws. Qed.
#[global] Instance framed_str : Framed string.
Proof. heap_laws. Qed.
#[global] Instance framed_base : Framed unit.
Proof. heap_laws. Qed.
#[global] Instance framed_bev : Framed bufferevent.
Proof. heap_laws. Qed.
#[global] Instance framed_ev : Framed event.
Proof. heap_laws. Qed.

#[global] Instance beside_client_addr : Beside transocks_client (option sockaddr_storage).
Proof. heap_laws. Qed.
#[global] Instance beside_client_bev : Beside transocks_client bufferevent.
Proof. heap_laws. Qed.
#[global] Instance beside_client_ev : Beside transocks_client event.
Proof. heap_laws. Qed.
#[global] Instance beside_pump_pipe : Beside transocks_splicepump transocks_splicepipe.
Proof. heap_laws. Qed.
#[global] Instance beside_pump_ev : Beside transocks_splicepump event.
Proof. heap_laws. Qed.
#[global] Instance beside_env_str : Beside transocks_global_env string.
Proof. heap_laws. Qed.
#[global] Instance beside_env_addr : Beside transocks_global_env (option sockaddr_storage).
Proof. heap_laws. Qed.
#[global] Instance beside_env_base : Beside transocks_global_env unit.
Proof. heap_laws. Qed.
#[global] Instance beside_env_ev : Beside transocks_global_env event.
Proof. heap_laws. Qed.
#[global] Instance beside_listener_ev : Beside transocks_listener event.
Proof. heap_laws. Qed.

(** A handle field is NULL or refers to a live object. *)
Definition handle_ok {T} (m : gmap Z T) (p : Z) : Prop := p = NULL ∨ is_Some (m !! p).

Lemma handle_ok_alter {T} (f : T → T) i (m : gmap Z T) p : handle_ok m p → handle_ok (alter f i m) p.
Proof. unfold handle_ok. by rewrite alter_is_Some. Qed.

Lemma handle_ok_delete {T} i (m : gmap Z T) p :
  (p = i → p = NULL) → handle_ok m p → handle_ok (delete i m) p.
Proof.
  intros Hne [?|Hp]; [by left|]. destruct (decide (p = i)) as [->|]; [left; auto|right].
  by rewrite lookup_delete_ne.
Qed.

Lemma handle_ok_mono {T} (m m' : gmap Z T) p :
  (∀ q, is_Some (m !! q) → is_Some (m' !! q)) → handle_ok m p → handle_ok m' p.
Proof. intros H [?|?]; [by left|right; auto]. Qed.

Lemma handle_live {T} (m : gmap Z T) p : handle_ok m p → p ≠ NULL → is_Some (m !! p).
Proof. by intros [?|?]. Qed.

#[export] Hint Resolve handle_ok_alter handle_ok_delete : tr.

(** A call that is made or not. *)
Definition opt (b : bool) (c : call) : list call := if b then [c] else [].

(** ** Automation *)

(** Compute the fields of a state (and of a struct) built by updates. *)
Ltac st_norm :=
  cbn [
    global_env client_addr dest_addr client_fd relay_fd client_addr_len dest_addr_len client_bev
    relay_bev timeout_ev user_arg client_state client_shutdown_read client_shutdown_write
    relay_shutdown_read relay_shutdown_write set_global_env set_client_addr set_dest_addr
    set_client_fd set_relay_fd set_client_addr_len set_dest_addr_len set_client_bev set_relay_bev
    set_timeout_ev set_user_arg set_client_state set_client_shutdown_read set_client_shutdown_write
    set_relay_shutdown_read set_relay_shutdown_write pump_method_name bind_addr relay_addr
    bind_addr_len relay_addr_len eventBaseLoop listener sigterm_ev sigint_ev sighup_ev sigusr1_ev
    set_pump_method_name set_bind_addr set_relay_addr set_bind_addr_len set_relay_addr_len
    set_eventBaseLoop set_listener set_sigterm_ev set_sigint_ev set_sighup_ev set_sigusr1_ev
    listener_fd listener_ev set_listener_fd set_listener_ev pipe_readfd pipe_writefd data_in_pipe
    capacity set_pipe_readfd set_pipe_writefd set_data_in_pipe set_capacity client_read_ev
    client_write_ev relay_read_ev relay_write_ev inbound_pipe outbound_pipe set_client_read_ev
    set_client_write_ev set_relay_read_ev set_relay_write_ev set_inbound_pipe set_outbound_pipe
    bev_fd bev_options bev_readcb bev_writecb bev_eventcb bev_cbarg bev_enabled bev_read_low
    bev_read_high set_bev_fd set_bev_options set_bev_readcb set_bev_writecb set_bev_eventcb
    set_bev_cbarg set_bev_enabled set_bev_read_low set_bev_read_high ev_fd ev_events ev_cb ev_arg
    ev_added set_ev_fd set_ev_events set_ev_cb set_ev_arg set_ev_added brk clients addrs pumps pipes
    envs listeners strs blocks bases nodes bevs evs pumpMethodImpl trace set_brk set_clients
    set_addrs set_pumps set_pipes set_envs set_listeners set_strs set_blocks set_bases set_nodes
    set_bevs set_evs set_pumpMethodImpl set_trace push did hget hset hsize hnode put_node drop_node
    heap_client heap_addr heap_pump heap_pipe heap_env heap_listener heap_str heap_block heap_base
    heap_bev heap_ev negb
  ].

(** Arithmetic on addresses. *)
Ltac addr_lia :=
  unfold NULL, sizeof_transocks_client, sizeof_transocks_global_env, sizeof_transocks_listener,
    sizeof_transocks_splicepipe, sizeof_transocks_splicepump, sizeof_sockaddr_storage,
    offsetof_single_client_dlinklist_entry, offsetof_current_clients_dlinklist in *; lia.

(** Solve a lookup in a heap after updates: in [clients], [evs], ... of a
    state built by field updates. *)
Ltac st_lookup :=
  st_norm;
  first
    [ solve [simplify_map_eq; first [eassumption | done | eauto]]
    | solve [repeat first [rewrite lookup_insert_eq | rewrite lookup_insert_ne by addr_lia
                          | rewrite lookup_delete_ne by addr_lia]; first [eassumption | done | eauto]] ].

(** One step of a C function: sequencing, a load, a store, a call. *)
Ltac st_step :=
  lazymatch goal with
  | |- wp (mbind _ _) _ _ => apply wp_bind
  | |- wp (mret _) _ _ => apply wp_ret
  | |- wp (sys ?c) _ _ => refine (wp_sys c _ _ _)
  | |- wp (load _) _ _ => eapply wp_load; [st_lookup|]
  | |- wp (fld _ _) _ _ => eapply wp_fld; [st_lookup|]
  | |- wp (modify _ _) _ _ => eapply wp_modify; [st_lookup|]
  | |- wp (alloc _) _ _ => apply wp_alloc
  | |- wp (dealloc _) _ _ => eapply wp_dealloc; [st_lookup|]
  | |- wp (rd _) _ _ => eapply wp_rd; [st_lookup|]
  | |- wp (list_op _) _ _ => apply wp_list_op
  | |- wp (zoom _ _ _) _ _ => apply wp_zoom
  | |- wp (when _ _) _ _ => apply wp_when; intros ?
  | |- wp (puts _) _ _ => apply wp_puts
  | |- wp (gets _) _ _ => apply wp_gets
  end.

Ltac st_steps := repeat (st_step; st_norm; cbn beta).

(** The same in an equation between a computation and what it leads to. *)
Ltac st_run := repeat (lazymatch goal with |- mbind _ _ _ = _ => apply bind_runs end; st_step; st_norm; cbn beta).

(** libevent handles: each operation is its check, its call and its effect on
    the registration tables. *)
Ltac st_ev :=
  unfold evtimer_new, evtimer_assign, evtimer_add, evtimer_del,
    evsignal_new, evsignal_add, evsignal_del,
    event_base_free, event_new, event_assign, event_add, event_del, event_free,
    event_pending, event_active, bufferevent_socket_new, bufferevent_free,
    bufferevent_setcb, bufferevent_enable, bufferevent_disable,
    bufferevent_setwatermark, bufferevent_setfd, bufferevent_socket_connect,
    bufferevent_write, evbuffer_get_length, evbuffer_pullup, evbuffer_drain,
    evbuffer_remove_buffer, tr_free, release in *.

(** Two states are equal when their fields are. *)
Lemma state_eq (s t : state) :
  brk s = brk t → clients s = clients t → addrs s = addrs t → pumps s = pumps t → pipes s = pipes t →
  envs s = envs t → listeners s = listeners t → strs s = strs t → blocks s = blocks t →
  bases s = bases t → nodes s = nodes t → bevs s = bevs t → evs s = evs t →
  pumpMethodImpl s = pumpMethodImpl t → trace s = trace t → s = t.
Proof. destruct s, t; simpl; intros; by subst. Qed.

Ltac st_eq :=
  apply state_eq; st_norm; rewrite ?fmap_app, ?reverse_app, <-?(assoc_L (++)); try done.

(** Tests of an address against NULL. *)
Ltac not_null :=
  rewrite ?(Z.eqb_refl NULL);
  repeat match goal with
  | |- context [?p =? NULL] => replace (p =? NULL) with false by (symmetry; apply Z.eqb_neq; addr_lia)
  end; cbn [negb orb andb].

(** ** Well-formed states

    No object lives at NULL or above the allocation frontier [brk]. *)

Definition below {T} (n : Z) (m : gmap Z T) : Prop := ∀ q, is_Some (m !! q) → 0 < q < n.

Record wf (s : state) : Prop := {
  wf_brk : 0 < brk s;
  wf_clients : below (brk s) (clients s);
  wf_addrs : below (brk s) (addrs s);
  wf_pumps : below (brk s) (pumps s);
  wf_pipes : below (brk s) (pipes s);
  wf_envs : below (brk s) (envs s);
  wf_listeners : below (brk s) (listeners s);
  wf_strs : below (brk s) (strs s);
  wf_blocks : below (brk s) (blocks s);
  wf_bases : below (brk s) (bases s);
  wf_nodes : below (brk s) (nodes s);
  wf_bevs : below (brk s) (bevs s);
  wf_evs : below (brk s) (evs s)
}.

Lemma below_None {T} n (m : gmap Z T) q : below n m → ¬ (0 < q < n) → m !! q = None.
Proof. intros H Hq. apply eq_None_not_Some. intros Hs. by apply Hq, H. Qed.

(** The allocation frontier is fresh. *)
Lemma alloc_fresh {T} n (m : gmap Z T) q : below n m → n ≤ q → m !! q = None.
Proof. intros H Hq. eapply below_None; [done|lia]. Qed.

Lemma below_empty {T} n : below n (∅ : gmap Z T).
Proof. intros q [x Hx]. by rewrite lookup_empty in Hx. Qed.

Lemma wf_state0 : wf state0.
Proof. split; [done|..]; apply below_empty. Qed.

(** ** A quiet outside world, for concrete runs

    Every allocation and every call succeeds; buffers are empty. *)
Definition quiet_reply (c : call) : ret c :=
  match c with
  | c_malloc _ | c_calloc _ _ | c_strdup _ | c_event_base_new | c_event_new _ _ _ _ _
  | c_bufferevent_socket_new _ _ _ => true
  | c_event_pending _ _ | c_event_base_got_exit _ | c_event_base_got_break _ => false
  | c_free _ | c_close _ | c_event_base_free _ | c_event_free _ | c_event_active _ _
  | c_bufferevent_free _ | c_bufferevent_setcb _ _ _ _ _
  | c_bufferevent_setwatermark _ _ _ _ | c_printf _ | c_signal_ignore _ => tt
  | c_getsockopt_addr _ _ _ _ | c_evutil_parse_sockaddr_port _ _ =>
      (0, [2; 0; 31; 144; 10; 0; 0; 1] ++ replicate 120 0, 16)
  | c_accept _ _ => (8, 0, [2; 0; 19; 136; 10; 0; 0; 2] ++ replicate 120 0, 16)
  | c_pipe => (0, 20, 21)
  | c_splice _ _ _ _ => (5, 0)
  | c_inet_ntop _ _ _ => Some "10.0.0.1"
  | c_evbuffer_pullup _ _ => []
  | c_getopt_long => (-1, None)
  | c_socket _ _ _ => 7
  | c_fcntl_getfl _ => 2
  | c_fcntl_getpipe_sz _ => 65536
  | _ => 0
  end.

Definition quiet : Env := λ _ c, quiet_reply c.

(** The same, but the allocation made after [k] calls fails. *)
Definition oom (k : nat) : Env := λ tr c,
  match c with
  | c_malloc _ | c_calloc _ _ => negb (Nat.eqb (length tr) k)
  | c => quiet_reply c
  end.

(** ** Buffers of libevent

    What the code relies on of the evbuffer functions, for an observation
    [buf] of the contents of every buffer after a history. *)

(** The calls that may change the contents of a buffer. *)
Definition touches_buf (c : call) : bool :=
  match c with
  | c_evbuffer_drain _ _ | c_evbuffer_remove_buffer _ _ _ | c_bufferevent_write _ _
  | c_bufferevent_socket_new _ _ _ | c_bufferevent_free _ => true
  | _ => false
  end.

Abbreviation quiet_calls cs := (forallb (λ c, negb (touches_buf c)) cs = true).

(** Sequences of calls that close nothing. *)
Definition is_close_call (c : call) : bool := match c with c_close _ => true | _ => false end.

Abbreviation no_closes cs := (forallb (λ c, negb (is_close_call c)) cs = true).

(** Those by which the program itself moves bytes. *)
Definition moves_bytes (c : call) : bool :=
  match c with
  | c_evbuffer_drain _ _ | c_evbuffer_remove_buffer _ _ _ | c_bufferevent_write _ _ => true
  | _ => false
  end.

Class EvbufferLaws (EXT : Env) (buf : list item → evbuffer → list Z) : Prop := {
  eb_length tr b : ext tr (c_evbuffer_get_length b) = Z.of_nat (length (buf tr b));
  eb_pullup tr b n : 0 ≤ n ≤ Z.of_nat (length (buf tr b)) →
    ext tr (c_evbuffer_pullup b n) = take (Z.to_nat n) (buf tr b);
  eb_drain tr b n : ext tr (c_evbuffer_drain b n) = 0;
  eb_drain_buf tr b n : buf (ICall (c_evbuffer_drain b n) :: tr) b = drop (Z.to_nat n) (buf tr b);
  eb_drain_keeps tr b n q : q ≠ b → buf (ICall (c_evbuffer_drain b n) :: tr) q = buf tr q;
  eb_remove_src tr a b n : a ≠ b →
    buf (ICall (c_evbuffer_remove_buffer a b n) :: tr) a = drop (Z.to_nat n) (buf tr a);
  eb_remove_dst tr a b n : a ≠ b →
    buf (ICall (c_evbuffer_remove_buffer a b n) :: tr) b = buf tr b ++ take (Z.to_nat n) (buf tr a);
  eb_remove_keeps tr a b n q : q ≠ a → q ≠ b →
    buf (ICall (c_evbuffer_remove_buffer a b n) :: tr) q = buf tr q;
  eb_keeps tr c q : touches_buf c = false → buf (ICall c :: tr) q = buf tr q
}.

Lemma eb_keeps_did {EXT buf} `{!EvbufferLaws EXT buf} cs s q :
  forallb (λ c, negb (touches_buf c)) cs = true → buf (trace (did cs s)) q = buf (trace s) q.
Proof.
  revert s. induction cs as [|c cs IH]; intros s Hcs; [by rewrite did_nil|]. simpl in Hcs.
  apply andb_true_iff in Hcs as [H1 H2]. change (c :: cs) with ([c] ++ cs).
  rewrite <-did_did, IH by done. simpl. apply eb_keeps. by apply negb_true_iff.
Qed.

(** A world that keeps the contents of its buffers: [init], changed by the
    calls of the history. *)
Fixpoint sim_buf (init : evbuffer → list Z) (tr : list item) (q : evbuffer) : list Z :=
  match tr with
  | [] => init q
  | ICall (c_evbuffer_drain b n) :: tr =>
      if decide (q = b) then drop (Z.to_nat n) (sim_buf init tr q) else sim_buf init tr q
  | ICall (c_evbuffer_remove_buffer a b n) :: tr =>
      if decide (q = a) then drop (Z.to_nat n) (sim_buf init tr a)
      else if decide (q = b) then sim_buf init tr b ++ take (Z.to_nat n) (sim_buf init tr a)
      else sim_buf init tr q
  | ICall (c_bufferevent_write bev data) :: tr =>
      if decide (q = Output bev) then sim_buf init tr q ++ data else sim_buf init tr q
  | _ :: tr => sim_buf init tr q
  end.

Definition buffered (init : evbuffer → list Z) : Env := λ tr c,
  match c with
  | c_evbuffer_get_length b => Z.of_nat (length (sim_buf init tr b))
  | c_evbuffer_pullup b n => take (Z.to_nat n) (sim_buf init tr b)
  | c => quiet_reply c
  end.

Lemma buffered_laws init : EvbufferLaws (buffered init) (sim_buf init).
Proof.
  split; intros; simpl; try done; try (repeat case_decide; by subst). by destruct c.
Qed.
