(* ===== verification/Util.v ===== *)
(** * util.h and util.c

    The bit, free and close macros, the socket option helpers, pipes, the
    original destination, address parsing, validation and printing. *)

From stdpp Require Import pretty.
From S2P Require Import Prelude DList Structs World.
Local Open Scope Z_scope.

(** ** Macros *)

Definition TRANSOCKS_CHKBIT (val flag : Z) : bool := Z.land val flag =? flag.
Definition TRANSOCKS_SETBIT (val flag : Z) : Z := Z.lor val flag.
Definition TRANSOCKS_CLRBIT (val flag : Z) : Z := Z.land val (Z.lnot flag).
Definition TRANSOCKS_TOGGLEBIT (val flag : Z) : Z := Z.lxor val flag.
Definition TRANSOCKS_BUFSIZE : Z := 4096.
Definition TRANSOCKS_IS_RETRIABLE (err : Z) : bool :=
  (err =? EAGAIN) || (err =? EWOULDBLOCK) || (err =? EINTR).
Definition TRANSOCKS_IS_INVALID_FD (fd : Z) : bool := fd =? -1.

Definition INET_ADDRSTRLEN : Z := 16.
Definition INET6_ADDRSTRLEN : Z := 46.
Definition TRANSOCKS_INET_PORTSTRLEN : Z := 5 + 1.
Definition TRANSOCKS_INET_ADDRPORTSTRLEN : Z :=
  1 + INET6_ADDRSTRLEN + 1 + 1 + TRANSOCKS_INET_PORTSTRLEN + 1.

Section util.
Context {EXT : Env}.

(** [TRANSOCKS_FREE(free_fn, ptr)] on a local variable, whose new value the
    code does not use. *)
Definition TRANSOCKS_FREE (free_fn : Z → C unit) (p : Z) : C unit :=
  if negb (p =? NULL) then free_fn p else mret tt.

(** [TRANSOCKS_FREE(free_fn, obj->f)]: [get] reads the field, [clr] stores NULL. *)
Definition TRANSOCKS_FREE_at (free_fn : Z → C unit) (get : C Z) (clr : C unit) : C unit :=
  p ← get;
  if negb (p =? NULL) then free_fn p ;; clr else mret tt.

Definition TRANSOCKS_CLOSE (fd : Z) : C unit :=
  if 0 <=? fd then sys (c_close fd) else mret tt.

(** [TRANSOCKS_CLOSE(obj->f)]: [clr] stores -1. *)
Definition TRANSOCKS_CLOSE_at (get : C Z) (clr : C unit) : C unit :=
  fd ← get;
  if 0 <=? fd then sys (c_close fd) ;; clr else mret tt.

Definition TRANSOCKS_SHUTDOWN (fd how : Z) : C Z := sys (c_shutdown fd how).

(** ** Socket options *)

Definition setsockopt (fd level optname val : Z) : C Z := sys (c_setsockopt fd level optname val).

Definition apply_tcp_keepalive (fd : Z) : C Z :=
  if fd <? 0 then mret (-1) else
  r ← setsockopt fd SOL_SOCKET SO_KEEPALIVE 1;
  if r <? 0 then mret (-1) else
  r ← setsockopt fd IPPROTO_TCP TCP_KEEPIDLE 40;
  if r <? 0 then mret (-1) else
  r ← setsockopt fd IPPROTO_TCP TCP_KEEPINTVL 20;
  if r <? 0 then mret (-1) else
  r ← setsockopt fd IPPROTO_TCP TCP_KEEPCNT 5;
  if r <? 0 then mret (-1) else
  mret 0.

Definition apply_ipv6only (fd on : Z) : C Z :=
  if fd <? 0 then mret (-1) else
  r ← setsockopt fd IPPROTO_IPV6 IPV6_V6ONLY on;
  if r <? 0 then mret (-1) else
  mret 0.

Definition apply_tcp_nodelay (fd : Z) : C Z :=
  if fd <? 0 then mret (-1) else
  r ← setsockopt fd IPPROTO_TCP TCP_NODELAY 1;
  if r <? 0 then mret (-1) else
  mret 0.

Definition setnonblocking (fd : Z) (isenable : bool) : C Z :=
  if fd <? 0 then mret (-1) else
  flags ← sys (c_fcntl_getfl fd);
  if flags =? -1 then mret (-1) else
  let flags := if isenable then TRANSOCKS_SETBIT flags O_NONBLOCK
               else TRANSOCKS_CLRBIT flags O_NONBLOCK in
  r ← sys (c_fcntl_setfl fd flags);
  if negb (r =? 0) then mret (-1) else
  mret 0.

(** Returns the result and, when it is 0, the two ends. *)
Definition createpipe : C (Z * (Z * Z)) :=
  p ← sys c_pipe;
  let '(ret, r, w) := p in
  if ret =? -1 then mret (-1, (-1, -1)) else
  e ← setnonblocking r true;
  if negb (e =? 0) then mret (-1, (-1, -1)) else
  e ← setnonblocking w true;
  if negb (e =? 0) then mret (-1, (-1, -1)) else
  mret (0, (r, w)).

(** [getorigdst(fd, destaddr, addrlen)]: writes the address through
    [destaddr] and returns the result and the new length.  A failed
    [getsockopt] leaves the buffer as it was. *)
Definition getorigdst (fd destaddr : Z) : C (Z * Z) :=
  r6 ← sys (c_getsockopt_addr fd SOL_IPV6 IP6T_SO_ORIGINAL_DST sizeof_sockaddr_in6);
  let '(err, addr, v6_len) := r6 in
  if negb (err =? 0) then
    r4 ← sys (c_getsockopt_addr fd SOL_IP SO_ORIGINAL_DST sizeof_sockaddr_in);
    let '(err, addr, v4_len) := r4 in
    if negb (err =? 0) then mret (-1, 0) else
    modify destaddr (λ _ : option sockaddr_storage, Some addr) ;;
    mret (0, v4_len)
  else
    modify destaddr (λ _ : option sockaddr_storage, Some addr) ;;
    mret (0, v6_len).

(** ** Addresses *)

(** [IN6_IS_ADDR_V4MAPPED]: ten zero bytes, then two 0xff bytes. *)
Definition IN6_IS_ADDR_V4MAPPED (a : list Z) : bool :=
  bool_decide (take 12 a = replicate 10 0 ++ [255; 255]).

Definition port_is_zero (p : list Z) : bool := bool_decide (p = [0; 0]).

Definition validateAddrPort (ss : sockaddr_storage) : bool :=
  if ss_family ss =? AF_INET then
    if port_is_zero (sin_port ss) then false else true
  else if ss_family ss =? AF_INET6 then
    if port_is_zero (sin6_port ss) then false
    else if IN6_IS_ADDR_V4MAPPED (sin6_addr ss) then false
    else true
  else false.

(** Returns the result, the address written and its length. *)
Definition transocks_parse_sockaddr_port (str : string) : C (Z * (sockaddr_storage * Z)) :=
  r6 ← sys (c_evutil_parse_sockaddr_port str sizeof_sockaddr_in6);
  let '(err, sa, v6len) := r6 in
  if negb (err =? 0) then
    r4 ← sys (c_evutil_parse_sockaddr_port str sizeof_sockaddr_in);
    let '(err, sa, v4len) := r4 in
    if negb (err =? 0) then mret (-1, ([], 0)) else
    mret (0, (sa, v4len))
  else
    mret (0, (sa, v6len)).

Definition ntohs (p : list Z) : Z := match p with [a; b] => a * 256 + b | _ => 0 end.

(** [snprintf(buf, size, ...)] writes at most [size - 1] characters and NUL. *)
Definition snprintf (size : Z) (out : string) : string :=
  String.substring 0 (Z.to_nat (size - 1)) out.

(** The decimal digits of [%d]. *)
Definition format_d (z : Z) : string := pretty z.

(** Returns the string written to [outstrbuf]; [None] when nothing is
    written.  A failed [inet_ntop] leaves [ipstr] uninitialised, and the code
    goes on to print it. *)
Definition generate_sockaddr_port_str (strbufsize : Z) (sa : sockaddr_storage) (socklen : Z)
    : C (option string) :=
  if (socklen =? sizeof_sockaddr_in) || (ss_family sa =? AF_INET) then
    ip ← sys (c_inet_ntop AF_INET (sin_addr sa) INET_ADDRSTRLEN);
    ipstr ← rd ip;
    let port := ntohs (sin_port sa) in
    mret (Some (snprintf strbufsize (ipstr +:+ ":" +:+ format_d port)))
  else if (socklen =? sizeof_sockaddr_in6) || (ss_family sa =? AF_INET6) then
    ip ← sys (c_inet_ntop AF_INET6 (sin6_addr sa) INET6_ADDRSTRLEN);
    ipstr ← rd ip;
    let port := ntohs (sin6_port sa) in
    mret (Some (snprintf strbufsize ("[" +:+ ipstr +:+ "]:" +:+ format_d port)))
  else
    mret None.
End util.

(** ** Rules for the macros

    [TRANSOCKS_CLOSE] and [TRANSOCKS_FREE] on a field [get]/[set] of the object
    at [p]. *)

Section field.
Context {EXT : Env} {O : Type} `{!HeapOf O, !Framed O} (get : O → Z) (set : Z → O → O).
Context (set_get : ∀ c, set (get c) c = c).
Implicit Types s : state.

Lemma wp_close_at p c (Q : unit → state → Prop) s :
  hget s !! p = Some c →
  Q tt (did (opt (0 <=? get c) (c_close (get c)))
          (hset (<[p := set (if 0 <=? get c then -1 else get c) c]> (hget s)) s)) →
  wp (TRANSOCKS_CLOSE_at (fld p get) (modify p (set (-1)))) Q s.
Proof.
  intros Hp HQ. unfold TRANSOCKS_CLOSE_at. apply wp_bind. eapply wp_fld; [done|].
  destruct (0 <=? get c) eqn:E; unfold opt in HQ.
  - apply wp_bind, wp_sys. change (push (ICall ?k) s) with (did [k] s).
    eapply wp_modify; [by rewrite fr_get_did|]. by rewrite fr_get_did, fr_set_did.
  - apply wp_ret. by rewrite set_get, insert_id, fr_set_id, did_nil in HQ.
Qed.

Lemma wp_free_at {T} `{!HeapOf T, !Framed T, !Beside O T} mk p c (Q : unit → state → Prop) s :
  hget s !! p = Some c → hget (T:=T) s !! NULL = None → handle_ok (hget (T:=T) s) (get c) →
  Q tt (did (opt (negb (get c =? NULL)) (mk (get c)))
          (hset (T:=T) (delete (get c) (hget s)) (hset (<[p := set NULL c]> (hget s)) s))) →
  wp (TRANSOCKS_FREE_at (release T mk) (fld p get) (modify p (set NULL))) Q s.
Proof.
  intros Hp Hnull Hh HQ. unfold TRANSOCKS_FREE_at. apply wp_bind. eapply wp_fld; [done|].
  destruct (get c =? NULL) eqn:E; simpl in *.
  - apply Z.eqb_eq in E. apply wp_ret. rewrite E, delete_id in HQ by done.
    rewrite <-E, set_get, insert_id, fr_set_id, did_nil in HQ by done. by rewrite fr_set_id in HQ.
  - apply Z.eqb_neq in E. destruct Hh as [?|[v Hv]]; [done|]. unfold release. apply wp_bind, wp_bind.
    eapply wp_load; [done|]. apply wp_bind, wp_sys.
    change (push (ICall (mk (get c))) s) with (did [mk (get c)] s).
    eapply wp_dealloc; [by rewrite fr_get_did|]. rewrite (bs_node (O:=O)). simpl.
    eapply wp_modify; [rewrite bs_get, fr_get_did; exact Hp|].
    by rewrite bs_get, !fr_get_did, bs_comm, !fr_set_did.
Qed.
End field.

(** The next [TRANSOCKS_FREE] or [TRANSOCKS_CLOSE] of a field; what remains is
    that the field's handle is NULL or live, when automation does not see it. *)
Ltac free_field get set :=
  apply wp_bind; eapply (wp_free_at get set);
    [by intros []|apply _|apply _|st_lookup|st_norm; solve [eauto 12 with tr]|st_norm; eauto 12 with tr|].
Ltac close_field get set :=
  apply wp_bind; eapply (wp_close_at get set); [by intros []|st_lookup|].

Lemma TRANSOCKS_FREE_live (f : Z → C unit) p : p ≠ NULL → TRANSOCKS_FREE f p = f p.
Proof. intros Hp%Z.eqb_neq. unfold TRANSOCKS_FREE. by rewrite Hp. Qed.

(** ** Socket addresses as the code builds and reads them *)

Definition be16 (port : Z) : list Z := [port / 256; port mod 256].

(** A [struct sockaddr_in] and a [struct sockaddr_in6] in a
    [struct sockaddr_storage]: [addr] is the address in network order. *)
Definition mk_sockaddr_in (port : Z) (addr : list Z) : sockaddr_storage :=
  [2; 0] ++ be16 port ++ addr ++ replicate 120 0.
Definition mk_sockaddr_in6 (port : Z) (addr : list Z) : sockaddr_storage :=
  [10; 0] ++ be16 port ++ replicate 4 0 ++ addr ++ replicate 104 0.

Lemma ntohs_be16 port : ntohs (be16 port) = port.
Proof. simpl. rewrite (Z.div_mod port 256) at 3 by lia. lia. Qed.

Lemma port_is_zero_be16 port : 0 ≤ port → port_is_zero (be16 port) = (port =? 0).
Proof.
  intros Hp. unfold port_is_zero, be16. pose proof (ntohs_be16 port) as H. simpl in H.
  destruct (Z.eqb_spec port 0) as [->|]; [done|]. apply bool_decide_eq_false. intros [= E1 E2].
  rewrite E1, E2 in H. lia.
Qed.

Lemma mk_in_fields port addr :
  length addr = 4%nat →
  ss_family (mk_sockaddr_in port addr) = AF_INET ∧ sin_port (mk_sockaddr_in port addr) = be16 port ∧
  sin_addr (mk_sockaddr_in port addr) = addr.
Proof. intros H. split_and!; [done|done|]. by apply (take_app_length' addr). Qed.

Lemma mk_in6_fields port addr :
  length addr = 16%nat →
  ss_family (mk_sockaddr_in6 port addr) = AF_INET6 ∧ sin6_port (mk_sockaddr_in6 port addr) = be16 port ∧
  sin6_addr (mk_sockaddr_in6 port addr) = addr.
Proof. intros H. split_and!; [done|done|]. by apply (take_app_length' addr). Qed.

(** ** Decimal numbers *)

Lemma pretty_N_go_length k x t :
  (x < 10 ^ N.of_nat k)%N → (String.length (pretty_N_go x t) ≤ k + String.length t)%nat.
Proof.
  revert x t. induction k as [|k IH]; intros x t Hx.
  - replace x with 0%N by (simpl in Hx; lia). by rewrite pretty_N_go_0.
  - destruct (decide (x = 0)%N) as [->|Hx0]; [rewrite pretty_N_go_0; lia|].
    rewrite pretty_N_go_step by lia. etrans; [apply IH|simpl; lia].
    apply N.Div0.div_lt_upper_bound. rewrite Nat2N.inj_succ, N.pow_succ_r' in Hx. lia.
Qed.

Lemma format_d_length z : 0 ≤ z < 65536 → (String.length (format_d z) ≤ 5)%nat.
Proof.
  intros Hz. unfold format_d, pretty, pretty_Z. destruct z as [|q|q]; [simpl; lia| |lia].
  unfold pretty, pretty_positive, pretty, pretty_N. case_decide; [done|].
  etrans; [apply (pretty_N_go_length 5); simpl; lia|]. simpl. lia.
Qed.

Lemma string_length_app (a b : string) :
  String.length (a +:+ b) = (String.length a + String.length b)%nat.
Proof. induction a; simpl; auto. Qed.

Lemma snprintf_fits size out :
  (Z.of_nat (String.length out) < size) → snprintf size out = out.
Proof.
  intros H. unfold snprintf. assert (String.length out ≤ Z.to_nat (size - 1))%nat as Hl by lia.
  revert Hl. generalize (Z.to_nat (size - 1)). clear H. induction out as [|a out IH]; intros n Hl; simpl in *.
  - by destruct n.
  - destruct n as [|n]; [lia|]. simpl. f_equal. apply IH. lia.
Qed.

(** ** Theorems *)

Section util_theorems.
Context {EXT : Env}.
Implicit Types s : state.

(** [setnonblocking] on a valid descriptor reads the flags and writes them
    back with [O_NONBLOCK] set or cleared and every other flag as it was; it
    returns 0 exactly when both calls succeed, and -1 otherwise. *)
Theorem setnonblocking_flags s fd isenable flags :
  0 ≤ fd → ext (trace s) (c_fcntl_getfl fd) = flags →
  (flags = -1 → setnonblocking fd isenable s = Ok (-1) (did [c_fcntl_getfl fd] s)) ∧
  (flags ≠ -1 → ∃ flags',
     setnonblocking fd isenable s
     = Ok (if ext (ICall (c_fcntl_getfl fd) :: trace s) (c_fcntl_setfl fd flags') =? 0 then 0 else -1)
          (did [c_fcntl_getfl fd; c_fcntl_setfl fd flags'] s) ∧
     ∀ i, Z.testbit flags' i = if i =? 11 then isenable else Z.testbit flags i).
Proof.
  intros Hfd E. unfold setnonblocking, mbind, M_bind, sys.
  replace (fd <? 0) with false by (symmetry; apply Z.ltb_ge; lia). rewrite E.
  split; [by intros ->|]. intros Hf%Z.eqb_neq. rewrite Hf.
  exists (if isenable then TRANSOCKS_SETBIT flags O_NONBLOCK else TRANSOCKS_CLRBIT flags O_NONBLOCK). split.
  - change (trace (push ?i s)) with (i :: trace s). by destruct (_ =? 0).
  - intros i. assert (∀ j, Z.testbit O_NONBLOCK j = (j =? 11)) as Hbit.
    { intros j. change O_NONBLOCK with (2 ^ 11). destruct (Z.eqb_spec j 11) as [->|]; [done|].
      by apply Z.pow2_bits_false. }
    destruct isenable; unfold TRANSOCKS_SETBIT, TRANSOCKS_CLRBIT.
    + rewrite Z.lor_spec, Hbit. destruct (i =? 11); [by rewrite orb_true_r|by rewrite orb_false_r].
    + destruct (decide (0 ≤ i)).
      * rewrite Z.land_spec, Z.lnot_spec, Hbit by done. destruct (i =? 11); by rewrite ?andb_false_r, ?andb_true_r.
      * rewrite !Z.testbit_neg_r by lia. by case_match.
Qed.

(** C39 Exactly the addresses with a nonzero port are accepted, of IPv4 and of
    IPv6 addresses that do not stand for an IPv4 address. *)
Theorem validateAddrPort_addresses port addr :
  0 ≤ port < 65536 →
  (length addr = 4%nat → validateAddrPort (mk_sockaddr_in port addr) = (0 <? port)) ∧
  (length addr = 16%nat →
     validateAddrPort (mk_sockaddr_in6 port addr) = (0 <? port) && negb (IN6_IS_ADDR_V4MAPPED addr)) ∧
  (∀ ss, ss_family ss ≠ AF_INET → ss_family ss ≠ AF_INET6 → validateAddrPort ss = false).
Proof.
  intros Hp. assert ((0 <? port) = negb (port =? 0)) as Hz.
  { destruct (Z.eqb_spec port 0); [by subst|]. apply Z.ltb_lt. lia. }
  unfold validateAddrPort. split_and!.
  - intros (-> & -> & _)%(mk_in_fields port). simpl. rewrite port_is_zero_be16 by lia. rewrite Hz.
    by destruct (port =? 0).
  - intros (-> & -> & ->)%(mk_in6_fields port). simpl. rewrite port_is_zero_be16 by lia. rewrite Hz.
    by destruct (port =? 0), (IN6_IS_ADDR_V4MAPPED addr).
  - intros ss H1%Z.eqb_neq H2%Z.eqb_neq. by rewrite H1, H2.
Qed.

(** C40 The text of an address fits its buffer: when [inet_ntop] keeps to its
    bounds, [generate_sockaddr_port_str] with a buffer of
    [TRANSOCKS_INET_ADDRPORTSTRLEN] bytes prints the address and the port in
    full, for IPv4 and for IPv6. *)
Theorem sockaddr_port_str_fits s port addr ip :
  0 ≤ port < 65536 →
  (length addr = 4%nat → ext (trace s) (c_inet_ntop AF_INET addr INET_ADDRSTRLEN) = Some ip →
   Z.of_nat (String.length ip) < INET_ADDRSTRLEN →
   generate_sockaddr_port_str TRANSOCKS_INET_ADDRPORTSTRLEN (mk_sockaddr_in port addr) sizeof_sockaddr_in s
   = Ok (Some (ip +:+ ":" +:+ format_d port)) (did [c_inet_ntop AF_INET addr INET_ADDRSTRLEN] s)) ∧
  (length addr = 16%nat → ext (trace s) (c_inet_ntop AF_INET6 addr INET6_ADDRSTRLEN) = Some ip →
   Z.of_nat (String.length ip) < INET6_ADDRSTRLEN →
   generate_sockaddr_port_str TRANSOCKS_INET_ADDRPORTSTRLEN (mk_sockaddr_in6 port addr) sizeof_sockaddr_in6 s
   = Ok (Some ("[" +:+ ip +:+ "]:" +:+ format_d port)) (did [c_inet_ntop AF_INET6 addr INET6_ADDRSTRLEN] s)).
Proof.
  intros Hp. pose proof (format_d_length port Hp).
  unfold generate_sockaddr_port_str, mbind, M_bind, sys.
  split; intros Hl E Hip; [destruct (mk_in_fields port addr Hl) as (-> & -> & ->)
                          |destruct (mk_in6_fields port addr Hl) as (-> & -> & ->)];
    cbn [Z.eqb orb sizeof_sockaddr_in sizeof_sockaddr_in6 AF_INET AF_INET6 Pos.eqb];
    rewrite E, ntohs_be16; unfold rd; cbn [mret M_ret]; rewrite snprintf_fits; try done;
    rewrite !string_length_app;
    unfold TRANSOCKS_INET_ADDRPORTSTRLEN, INET_ADDRSTRLEN, INET6_ADDRSTRLEN, TRANSOCKS_INET_PORTSTRLEN in *;
    cbn [String.length]; lia.
Qed.

Definition is_fcntl (c : call) : bool :=
  match c with c_fcntl_getfl _ | c_fcntl_setfl _ _ => true | _ => false end.

Lemma setnonblocking_calls s fd isenable :
  ∃ r cs, setnonblocking fd isenable s = Ok r (did cs s) ∧ (r = 0 ∨ r = -1) ∧ forallb is_fcntl cs.
Proof.
  unfold setnonblocking, mbind, M_bind, sys.
  destruct (fd <? 0); [exists (-1), []; rewrite did_nil; auto|].
  destruct (_ =? -1); [exists (-1), [c_fcntl_getfl fd]; auto|].
  match goal with |- context [c_fcntl_setfl fd ?f] =>
    destruct (ext _ (c_fcntl_setfl fd f) =? 0);
      [exists 0, [c_fcntl_getfl fd; c_fcntl_setfl fd f]|exists (-1), [c_fcntl_getfl fd; c_fcntl_setfl fd f]]
  end; auto.
Qed.

(** [createpipe] returns both ends of a new pipe or -1.  Once the pipe
    exists, a failure to make an end non-blocking returns -1 with neither end
    closed: after [pipe] the function makes only [fcntl] calls, so the two
    descriptors, which the caller never sees, stay open. *)
Theorem createpipe_result s ret r w :
  ext (trace s) c_pipe = (ret, r, w) →
  (ret = -1 → createpipe s = Ok (-1, (-1, -1)) (did [c_pipe] s)) ∧
  (ret ≠ -1 → ∃ e cs, createpipe s = Ok e (did (c_pipe :: cs) s) ∧
     (e = (0, (r, w)) ∨ e = (-1, (-1, -1))) ∧ forallb is_fcntl cs).
Proof.
  intros E. unfold createpipe, mbind, M_bind, sys. rewrite E. split; [by intros ->|].
  intros Hr%Z.eqb_neq. rewrite Hr. change (push (ICall c_pipe) s) with (did [c_pipe] s).
  destruct (setnonblocking_calls (did [c_pipe] s) r true) as (e1 & c1 & -> & He1 & Hc1).
  destruct (e1 =? 0); simpl; [|exists (-1, (-1, -1)), c1; rewrite did_did; auto].
  destruct (setnonblocking_calls (did c1 (did [c_pipe] s)) w true) as (e2 & c2 & -> & He2 & Hc2).
  exists (if e2 =? 0 then (0, (r, w)) else (-1, (-1, -1))), (c1 ++ c2).
  rewrite !did_did. split_and!.
  - by destruct (e2 =? 0).
  - destruct (e2 =? 0); auto.
  - rewrite forallb_app. by destruct (forallb is_fcntl c1), (forallb is_fcntl c2).
Qed.

(** The original destination: the IPv6 answer of the kernel when there is
    one, else the IPv4 answer, written to the caller's buffer with its length;
    -1 and an untouched buffer when there is neither. *)
Lemma getorigdst_result s fd destaddr old :
  addrs s !! destaddr = Some old →
  let q6 := c_getsockopt_addr fd SOL_IPV6 IP6T_SO_ORIGINAL_DST sizeof_sockaddr_in6 in
  let q4 := c_getsockopt_addr fd SOL_IP SO_ORIGINAL_DST sizeof_sockaddr_in in
  let put a := set_addrs (<[destaddr := Some a]> (addrs s)) in
  ∀ err6 addr6 len6 err4 addr4 len4,
    ext (trace s) q6 = (err6, addr6, len6) → ext (ICall q6 :: trace s) q4 = (err4, addr4, len4) →
    getorigdst fd destaddr s =
      if err6 =? 0 then Ok (0, len6) (put addr6 (did [q6] s))
      else if err4 =? 0 then Ok (0, len4) (put addr4 (did [q6; q4] s))
      else Ok (-1, 0) (did [q6; q4] s).
Proof.
  intros Hd q6 q4 put err6 addr6 len6 err4 addr4 len4 E6 E4.
  unfold getorigdst, mbind, M_bind, sys, modify. fold q6 q4. rewrite E6.
  destruct (err6 =? 0); simpl; [by rewrite Hd|]. rewrite E4. destruct (err4 =? 0); simpl; [by rewrite Hd|done].
Qed.
End util_theorems.

Section util_witnesses.
#[local] Existing Instance quiet.

Lemma setnonblocking_flags_witness :
  (2 = -1 → setnonblocking 7 true state0 = Ok (-1) (did [c_fcntl_getfl 7] state0)) ∧
  (2 ≠ -1 → ∃ flags',
     setnonblocking 7 true state0
     = Ok (if ext [ICall (c_fcntl_getfl 7)] (c_fcntl_setfl 7 flags') =? 0 then 0 else -1)
          (did [c_fcntl_getfl 7; c_fcntl_setfl 7 flags'] state0) ∧
     ∀ i, Z.testbit flags' i = if i =? 11 then true else Z.testbit 2 i).
Proof. apply (setnonblocking_flags state0 7 true 2); [lia|reflexivity]. Defined.

Lemma validateAddrPort_addresses_witness :
  (length [10; 0; 0; 1] = 4%nat → validateAddrPort (mk_sockaddr_in 8080 [10; 0; 0; 1]) = (0 <? 8080)) ∧
  (length [10; 0; 0; 1] = 16%nat →
     validateAddrPort (mk_sockaddr_in6 8080 [10; 0; 0; 1])
     = (0 <? 8080) && negb (IN6_IS_ADDR_V4MAPPED [10; 0; 0; 1])) ∧
  (∀ ss, ss_family ss ≠ AF_INET → ss_family ss ≠ AF_INET6 → validateAddrPort ss = false).
Proof. apply (validateAddrPort_addresses 8080 [10; 0; 0; 1]). lia. Defined.

Lemma sockaddr_port_str_fits_witness :
  generate_sockaddr_port_str TRANSOCKS_INET_ADDRPORTSTRLEN (mk_sockaddr_in 8080 [10; 0; 0; 1])
    sizeof_sockaddr_in state0
  = Ok (Some "10.0.0.1:8080") (did [c_inet_ntop AF_INET [10; 0; 0; 1] INET_ADDRSTRLEN] state0).
Proof. apply (sockaddr_port_str_fits state0 8080 [10; 0; 0; 1] "10.0.0.1"); [lia|reflexivity..]. Defined.

Lemma createpipe_result_witness :
  (0 = -1 → createpipe state0 = Ok (-1, (-1, -1)) (did [c_pipe] state0)) ∧
  (0 ≠ -1 → ∃ e cs, createpipe state0 = Ok e (did (c_pipe :: cs) state0) ∧
     (e = (0, (20, 21)) ∨ e = (-1, (-1, -1))) ∧ forallb is_fcntl cs).
Proof. apply (createpipe_result state0 0 20 21). reflexivity. Defined.

End util_witnesses.
