(* ===== verification/Context.v ===== *)
(** * context.c: the global environment and the client objects

    Creation, release, timeout and dump of a client; creation of the global
    environment.  The two functions of context.c that go through the pump
    table, [transocks_drop_all_clients] and [transocks_dump_all_client_info],
    and [transocks_global_env_free], which calls the listener's and the
    signals' [deinit], are in the files of the components they call. *)

From stdpp Require Import pretty.
From S2P Require Import Prelude DList ListSpec Structs World Util.
Local Open Scope Z_scope.

Definition uninit_client : transocks_client :=
  TransocksClient NULL NULL NULL 0 0 None None NULL NULL NULL NULL client_NEW false false false false.

Definition transocks_client_state_str (st : transocks_client_state) : string :=
  match st with
  | client_NEW => "client_NEW"
  | client_relay_connected => "client_relay_connected"
  | client_socks5_finish_handshake => "client_socks5_finish_handshake"
  | client_pumping_data => "client_pumping_data"
  | client_DESTROYING => "client_DESTROYING"
  | client_DESTROYED => "client_DESTROYED"
  end.

(** Addresses of the embedded list nodes. *)
Definition client_node (pclient : Z) : Z := pclient + offsetof_single_client_dlinklist_entry.
Definition clients_head (env : Z) : Z := env + offsetof_current_clients_dlinklist.

(** The control characters of the [fprintf] formats. *)
Definition LF : string := String (Ascii.ascii_of_nat 10) EmptyString.
Definition TAB : string := String (Ascii.ascii_of_nat 9) EmptyString.
Definition LFTAB : string := LF +:+ TAB.

Section context.
Context {EXT : Env}.

Definition transocks_global_env_new : C Z :=
  env ← tr_calloc (TransocksGlobalEnv NULL NULL NULL 0 0 NULL NULL NULL NULL NULL NULL);
  let fail : C Z :=
    TRANSOCKS_FREE_at (tr_free (option sockaddr_storage)) (fld env bind_addr) (modify env (set_bind_addr NULL)) ;;
    TRANSOCKS_FREE_at (tr_free (option sockaddr_storage)) (fld env relay_addr) (modify env (set_relay_addr NULL)) ;;
    TRANSOCKS_FREE_at event_base_free (fld env eventBaseLoop) (modify env (set_eventBaseLoop NULL)) ;;
    TRANSOCKS_FREE (tr_free transocks_global_env) env ;;
    mret NULL in
  if env =? NULL then fail else
  bind_a ← tr_calloc (Some (replicate 128 0));
  modify env (set_bind_addr bind_a) ;;
  relay_a ← tr_calloc (Some (replicate 128 0));
  modify env (set_relay_addr relay_a) ;;
  b ← fld env bind_addr;
  r ← fld env relay_addr;
  if (b =? NULL) || (r =? NULL) then fail else
  base ← event_base_new;
  modify env (set_eventBaseLoop base) ;;
  if base =? NULL then fail else
  list_op (INIT_LIST_HEAD (clients_head env)) ;;
  mret env.

Definition transocks_client_new (env : Z) : C Z :=
  client ← tr_malloc uninit_client;
  let fail : C Z :=
    TRANSOCKS_FREE_at (tr_free (option sockaddr_storage)) (fld client client_addr) (modify client (set_client_addr NULL)) ;;
    TRANSOCKS_FREE_at (tr_free (option sockaddr_storage)) (fld client dest_addr) (modify client (set_dest_addr NULL)) ;;
    TRANSOCKS_FREE (tr_free transocks_client) client ;;
    mret NULL in
  if client =? NULL then fail else
  list_op (INIT_LIST_HEAD (client_node client)) ;;
  modify client (λ c, TransocksClient NULL NULL NULL (-1) (-1) (client_addr_len c) (dest_addr_len c)
                        NULL NULL NULL NULL client_NEW false false false false) ;;
  ca ← tr_malloc (None : option sockaddr_storage);
  modify client (set_client_addr ca) ;;
  da ← tr_malloc (None : option sockaddr_storage);
  modify client (set_dest_addr da) ;;
  ca ← fld client client_addr;
  da ← fld client dest_addr;
  if (ca =? NULL) || (da =? NULL) then fail else
  modify client (set_global_env env) ;;
  mret client.

Definition is_destroyed (st : transocks_client_state) : bool :=
  match st with client_DESTROYED | client_DESTROYING => true | _ => false end.

Definition transocks_client_free (pClient : Z) : C unit :=
  if pClient =? NULL then mret tt else
  st ← fld pClient client_state;
  if is_destroyed st then mret tt else
  modify pClient (set_client_state client_DESTROYING) ;;
  cfd ← fld pClient client_fd;
  (if 0 <=? cfd then TRANSOCKS_SHUTDOWN cfd SHUT_RDWR ;; mret tt else mret tt) ;;
  rfd ← fld pClient relay_fd;
  (if 0 <=? rfd then TRANSOCKS_SHUTDOWN rfd SHUT_RDWR ;; mret tt else mret tt) ;;
  TRANSOCKS_CLOSE_at (fld pClient client_fd) (modify pClient (set_client_fd (-1))) ;;
  TRANSOCKS_CLOSE_at (fld pClient relay_fd) (modify pClient (set_relay_fd (-1))) ;;
  tev ← fld pClient timeout_ev;
  (if negb (tev =? NULL) then evtimer_del tev ;; mret tt else mret tt) ;;
  TRANSOCKS_FREE_at event_free (fld pClient timeout_ev) (modify pClient (set_timeout_ev NULL)) ;;
  rbev ← fld pClient relay_bev;
  (if negb (rbev =? NULL) then bufferevent_disable rbev (Z.lor EV_READ EV_WRITE) ;; mret tt else mret tt) ;;
  cbev ← fld pClient client_bev;
  (if negb (cbev =? NULL) then bufferevent_disable cbev (Z.lor EV_READ EV_WRITE) ;; mret tt else mret tt) ;;
  TRANSOCKS_FREE_at bufferevent_free (fld pClient relay_bev) (modify pClient (set_relay_bev NULL)) ;;
  TRANSOCKS_FREE_at bufferevent_free (fld pClient client_bev) (modify pClient (set_client_bev NULL)) ;;
  TRANSOCKS_FREE_at (tr_free (option sockaddr_storage)) (fld pClient client_addr) (modify pClient (set_client_addr NULL)) ;;
  TRANSOCKS_FREE_at (tr_free (option sockaddr_storage)) (fld pClient dest_addr) (modify pClient (set_dest_addr NULL)) ;;
  list_op (list_del (client_node pClient)) ;;
  modify pClient (set_client_state client_DESTROYED) ;;
  TRANSOCKS_FREE (tr_free transocks_client) pClient.

Definition transocks_client_set_timeout (pclient timeout : Z) (ev_fn : fn) (arg : Z) : C Z :=
  tev ← fld pclient timeout_ev;
  env ← fld pclient global_env;
  if tev =? NULL then
    base ← fld env eventBaseLoop;
    ev ← evtimer_new base ev_fn arg;
    modify pclient (set_timeout_ev ev) ;;
    if ev =? NULL then mret (-1) else
    evtimer_add ev timeout
  else
    evtimer_del tev ;;
    base ← fld env eventBaseLoop;
    ret ← evtimer_assign tev base ev_fn arg;
    if negb (ret =? 0) then mret ret else
    evtimer_add tev timeout.

Definition print_line (l : string) : C unit := sys (c_printf l).

Definition bool_d (b : bool) : string := if b then "1" else "0".

Definition transocks_client_dump_info (pclient : Z) : C unit :=
  c ← load (T:=transocks_client) pclient;
  calen ← rd (client_addr_len c);
  ca ← load (T:=option sockaddr_storage) (client_addr c);
  ca ← rd ca;
  src ← generate_sockaddr_port_str TRANSOCKS_INET_ADDRPORTSTRLEN ca calen;
  dalen ← rd (dest_addr_len c);
  da ← load (T:=option sockaddr_storage) (dest_addr c);
  da ← rd da;
  dst ← generate_sockaddr_port_str TRANSOCKS_INET_ADDRPORTSTRLEN da dalen;
  srcaddrstr ← rd src;
  destaddrstr ← rd dst;
  print_line (LFTAB +:+ srcaddrstr +:+ " -> " +:+ destaddrstr) ;;
  print_line (LFTAB +:+ "fd: client " +:+ format_d (client_fd c) +:+ " relay " +:+ format_d (relay_fd c)) ;;
  print_line (LFTAB +:+ "client shut R " +:+ bool_d (client_shutdown_read c) +:+ " W " +:+ bool_d (client_shutdown_write c)) ;;
  print_line (LFTAB +:+ "relay shut R " +:+ bool_d (relay_shutdown_read c) +:+ " W " +:+ bool_d (relay_shutdown_write c)) ;;
  print_line (LFTAB +:+ "client state: " +:+ transocks_client_state_str (client_state c)) ;;
  print_line (LF +:+ "----------" +:+ LF).
End context.

(** ** Release of a client *)

(** The calls [transocks_client_free] makes, in order. *)
Definition client_free_calls (p : Z) (c : transocks_client) : list call :=
  opt (0 <=? client_fd c) (c_shutdown (client_fd c) SHUT_RDWR) ++
  opt (0 <=? relay_fd c) (c_shutdown (relay_fd c) SHUT_RDWR) ++
  opt (0 <=? client_fd c) (c_close (client_fd c)) ++
  opt (0 <=? relay_fd c) (c_close (relay_fd c)) ++
  opt (negb (timeout_ev c =? NULL)) (c_event_del (timeout_ev c)) ++
  opt (negb (timeout_ev c =? NULL)) (c_event_free (timeout_ev c)) ++
  opt (negb (relay_bev c =? NULL)) (c_bufferevent_disable (relay_bev c) (Z.lor EV_READ EV_WRITE)) ++
  opt (negb (client_bev c =? NULL)) (c_bufferevent_disable (client_bev c) (Z.lor EV_READ EV_WRITE)) ++
  opt (negb (relay_bev c =? NULL)) (c_bufferevent_free (relay_bev c)) ++
  opt (negb (client_bev c =? NULL)) (c_bufferevent_free (client_bev c)) ++
  opt (negb (client_addr c =? NULL)) (c_free (client_addr c)) ++
  opt (negb (dest_addr c =? NULL)) (c_free (dest_addr c)) ++
  [c_free p].

(** The state after the release: the client, its addresses, timer and
    bufferevents are gone, and the node heap is [h] without the client's node. *)
Definition client_freed (p : Z) (c : transocks_client) (h : lheap) (s : state) : state :=
  did (client_free_calls p c)
    (set_clients (delete p (clients s))
    (set_addrs (delete (dest_addr c) (delete (client_addr c) (addrs s)))
    (set_bevs (delete (client_bev c) (delete (relay_bev c) (bevs s)))
    (set_evs (delete (timeout_ev c) (evs s))
    (set_nodes (delete (client_node p) h) s))))).

(** NULL is not a live object. *)
Record null_ok (s : state) : Prop := {
  null_clients : clients s !! NULL = None;
  null_addrs : addrs s !! NULL = None;
  null_bevs : bevs s !! NULL = None;
  null_evs : evs s !! NULL = None
}.

(** What the release of the client [c] at [p] needs: its handles are NULL or
    live, and two live handles of one kind are different. *)
Record client_ok (s : state) (p : Z) (c : transocks_client) : Prop := {
  co_live : clients s !! p = Some c;
  co_timer : handle_ok (evs s) (timeout_ev c);
  co_rbev : handle_ok (bevs s) (relay_bev c);
  co_cbev : handle_ok (bevs s) (client_bev c);
  co_bevs_ne : client_bev c = relay_bev c → client_bev c = NULL;
  co_caddr : handle_ok (addrs s) (client_addr c);
  co_daddr : handle_ok (addrs s) (dest_addr c);
  co_addrs_ne : client_addr c = dest_addr c → client_addr c = NULL
}.

Section blocks.
Context {EXT : Env}.
Implicit Types s : state.

Lemma opt_shutdown fd how (Q : unit → state → Prop) s :
  Q tt (did (opt (0 <=? fd) (c_shutdown fd how)) s) →
  wp (if 0 <=? fd then TRANSOCKS_SHUTDOWN fd how ;; mret tt else mret tt) Q s.
Proof. unfold opt. destruct (0 <=? fd); [done|]. by rewrite did_nil. Qed.

Lemma wp_opt_del ev (Q : unit → state → Prop) s :
  evs s !! NULL = None → handle_ok (evs s) ev →
  Q tt (did (opt (negb (ev =? NULL)) (c_event_del ev))
          (set_evs (alter (set_ev_added false) ev (evs s)) s)) →
  wp (if negb (ev =? NULL) then event_del ev ;; mret tt else mret tt) Q s.
Proof.
  intros Hn Hh HQ. destruct (ev =? NULL) eqn:E; simpl in *.
  - apply Z.eqb_eq in E as ->. apply wp_ret. rewrite alter_not_in in HQ by done.
    by rewrite did_nil in HQ; destruct s.
  - apply Z.eqb_neq in E. destruct Hh as [?|[e He]]; [done|]. unfold event_del. st_steps.
    by rewrite (alter_insert_Some _ _ _ _ He) in HQ.
Qed.

(** Whether libevent accepts the request or not does not matter to the callers. *)
Lemma wp_opt_disable bev events (Q : unit → state → Prop) s :
  bevs s !! NULL = None → handle_ok (bevs s) bev →
  (∀ f, Q tt (did (opt (negb (bev =? NULL)) (c_bufferevent_disable bev events))
                (set_bevs (alter f bev (bevs s)) s))) →
  wp (if negb (bev =? NULL) then bufferevent_disable bev events ;; mret tt else mret tt) Q s.
Proof.
  intros Hn Hh HQ. destruct (bev =? NULL) eqn:E; simpl in *.
  - apply Z.eqb_eq in E as ->. apply wp_ret. specialize (HQ id). rewrite alter_not_in in HQ by done.
    by rewrite did_nil in HQ; destruct s.
  - apply Z.eqb_neq in E. destruct Hh as [?|[e He]]; [done|]. unfold bufferevent_disable. st_steps.
    specialize (HQ (λ b, if ext (trace s) (c_bufferevent_disable bev events) =? 0
                         then set_bev_enabled (Z.ldiff (bev_enabled b) events) b else b)).
    by rewrite (alter_insert_Some _ _ _ _ He) in HQ.
Qed.

Lemma wp_transocks_client_free p c (N : lheap → Prop) (Q : unit → state → Prop) s :
  null_ok s → client_ok s p c → is_destroyed (client_state c) = false →
  wp (list_del (client_node p)) (λ _ h, N h) (nodes s) →
  (∀ h, N h → Q tt (client_freed p c h s)) →
  wp (transocks_client_free p) Q s.
Proof.
  intros [] [] Hst Hdel HQ. unfold transocks_client_free.
  assert (p ≠ NULL) as Hp by (intros ->; congruence).
  replace (p =? NULL) with false by (symmetry; by apply Z.eqb_neq).
  unfold event_free, bufferevent_free, tr_free, evtimer_del.
  st_steps. rewrite Hst. st_steps. apply opt_shutdown. st_steps. apply opt_shutdown.
  close_field client_fd set_client_fd. st_norm. close_field relay_fd set_relay_fd. st_steps.
  apply wp_opt_del; [done|done|]. st_norm. free_field timeout_ev set_timeout_ev. st_steps.
  apply wp_opt_disable; [done|done|]. intros f1. st_steps.
  apply wp_opt_disable; [st_norm; eauto with tr|st_norm; eauto with tr|]. intros f2. st_norm.
  free_field relay_bev set_relay_bev. st_norm. free_field client_bev set_client_bev. st_norm.
  free_field client_addr set_client_addr. st_norm. free_field dest_addr set_dest_addr.
  { apply handle_ok_delete; [|done]. intros E. rewrite E in *. auto. } st_steps.
  eapply wp_mono; [exact Hdel|]. intros [] h Hh. st_steps. unfold TRANSOCKS_FREE.
  replace (p =? NULL) with false by (symmetry; by apply Z.eqb_neq). unfold release. cbn [negb].
  st_steps. eapply eq_ind; [exact (HQ h Hh)|].
  unfold client_freed, client_free_calls.
  st_eq; by rewrite ?insert_insert_eq, ?delete_insert_eq, ?delete_alter, ?delete2_alter2.
Qed.
End blocks.

Lemma wf_null_ok s : wf s → null_ok s.
Proof. intros []. split; (eapply below_None; [eassumption|unfold NULL; lia]). Qed.

(** A client keeps what its release needs while its handles stay as they are
    and no object goes away. *)
Definition same_handles (c c' : transocks_client) : Prop :=
  client_addr c' = client_addr c ∧ dest_addr c' = dest_addr c ∧ client_bev c' = client_bev c ∧
  relay_bev c' = relay_bev c ∧ timeout_ev c' = timeout_ev c.

Lemma client_ok_mono s s' p c c' :
  client_ok s p c → clients s' !! p = Some c' → same_handles c c' →
  (∀ q, is_Some (evs s !! q) → is_Some (evs s' !! q)) →
  (∀ q, is_Some (bevs s !! q) → is_Some (bevs s' !! q)) →
  (∀ q, is_Some (addrs s !! q) → is_Some (addrs s' !! q)) → client_ok s' p c'.
Proof.
  intros [] Hc (E1 & E2 & E3 & E4 & E5) He Hb Ha.
  split; rewrite ?E1, ?E2, ?E3, ?E4, ?E5; eauto using handle_ok_mono.
Qed.

Lemma client_not_null s p c : null_ok s → clients s !! p = Some c → p ≠ NULL.
Proof. intros [] Hc ->. congruence. Qed.

Section client_theorems.
Context {EXT : Env}.
Implicit Types s : state.

(** The release of a client of the list at [head]. *)
Lemma wp_client_free_listed s p c head l1 l2 :
  null_ok s → client_ok s p c → is_destroyed (client_state c) = false →
  dlist (nodes s) head (l1 ++ client_node p :: l2) →
  wp (transocks_client_free p) (λ _ s', ∃ h, s' = client_freed p c h s ∧
       dlist (nodes s') head (l1 ++ l2) ∧ nodes s' !! client_node p = None ∧
       same_outside (head :: l1 ++ client_node p :: l2) (nodes s) (nodes s')) s.
Proof.
  intros Hn Hc Hst Hd. pose proof Hd as [[_ Hp]%NoDup_mid _].
  eapply wp_transocks_client_free; [done..| |].
  - eapply wp_mono; [by apply wp_list_del|].
    intros [] h (Hd' & _ & Ho). exact (conj Hd' Ho).
  - intros h [Hd' Ho]. exists h. split_and!; [done|..]; simpl.
    + apply dlist_delete; [|done]. clear - Hp. set_solver.
    + apply lookup_delete_eq.
    + intros q Hq. rewrite lookup_delete_ne by (clear - Hq; set_solver). by apply Ho.
Qed.

(** C10 Releasing a client of the connection list returns, makes exactly the
    calls of [client_free_calls] in this order (both sockets shut down and
    closed, the timer deleted and freed, the bufferevents disabled and freed,
    the two addresses and the client freed, each only if it is there), removes
    exactly these objects from the heaps, and leaves the list without the
    client and every node outside it untouched. *)
Theorem client_free_releases s p c head l1 l2 :
  null_ok s → client_ok s p c → is_destroyed (client_state c) = false →
  dlist (nodes s) head (l1 ++ client_node p :: l2) →
  ∃ h, transocks_client_free p s = Ok tt (client_freed p c h s) ∧
       dlist (nodes (client_freed p c h s)) head (l1 ++ l2) ∧
       nodes (client_freed p c h s) !! client_node p = None ∧
       same_outside (head :: l1 ++ client_node p :: l2) (nodes s) (nodes (client_freed p c h s)).
Proof.
  intros Hn Hc Hst Hd.
  pose proof (wp_client_free_listed s p c head l1 l2 Hn Hc Hst Hd) as ([] & s' & Hr & h & -> & H)%wp_run.
  by exists h.
Qed.

(** A client that was never put into the connection list (its node is
    linked to itself only) is released in the same way, and no other node
    changes. *)
Theorem client_free_unlisted s p c :
  null_ok s → client_ok s p c → is_destroyed (client_state c) = false →
  dlist (nodes s) (client_node p) [] →
  ∃ h, transocks_client_free p s = Ok tt (client_freed p c h s) ∧
       nodes (client_freed p c h s) = delete (client_node p) (nodes s).
Proof.
  intros Hn Hc Hst Hd.
  cut (wp (transocks_client_free p) (λ _ s', ∃ h, s' = client_freed p c h s ∧
         same_outside [client_node p] (nodes s) h) s).
  { intros ([] & s' & Hr & h & -> & Ho)%wp_run. exists h. split; [done|]. simpl.
    apply map_eq. intros q. rewrite !lookup_delete. case_decide; [done|].
    apply Ho. intros ->%list_elem_of_singleton. done. }
  eapply wp_transocks_client_free; [done..| |].
  - eapply wp_mono; [by apply wp_list_del_self|]. intros [] h Ho. exact Ho.
  - intros h Ho. by exists h.
Qed.

(** A NULL pointer and a client whose release is under way or done are left
    alone: no call, no change. *)
Lemma client_free_guard s p :
  p = NULL ∨ (∃ c, clients s !! p = Some c ∧ is_destroyed (client_state c) = true) →
  transocks_client_free p s = Ok tt s.
Proof.
  intros [->|(c & Hc & Hd)]; [done|]. unfold transocks_client_free.
  case_match; [done|]. unfold fld, mbind, M_bind, load. simpl. rewrite Hc. simpl. by rewrite Hd.
Qed.

(** ** Creation of a client *)

(** A new client, with its two address blocks. *)
Definition new_client (env ca da : Z) : transocks_client :=
  TransocksClient env ca da (-1) (-1) None None NULL NULL NULL NULL client_NEW false false false false.

Definition malloc_trace (n : nat) s : list item :=
  replicate n (ICall (c_malloc sizeof_sockaddr_storage)) ++
  ICall (c_malloc sizeof_transocks_client) :: trace s.

(** The heaps of the pumps. *)
Definition pump_heaps s := (pumps s, pipes s, blocks s).

(** The objects of a connection are as before. *)
Definition same_objects s s' : Prop :=
  clients s' = clients s ∧ addrs s' = addrs s ∧ bevs s' = bevs s ∧ evs s' = evs s ∧ nodes s' = nodes s ∧
  pump_heaps s' = pump_heaps s.

Lemma same_objects_did s s' cs : same_objects s s' → same_objects s (did cs s').
Proof. done. Qed.

(** When its three allocations succeed, [transocks_client_new] returns a
    fresh client in state [client_NEW] without descriptors, bufferevents or
    timer, with two fresh address blocks and a list node linked to itself; it
    meets what its release needs, and no other object changes. *)
Theorem client_new_ok s env :
  wf s → ext (trace s) (c_malloc sizeof_transocks_client) = true →
  ext (malloc_trace 0 s) (c_malloc sizeof_sockaddr_storage) = true →
  ext (malloc_trace 1 s) (c_malloc sizeof_sockaddr_storage) = true →
  ∃ s', transocks_client_new env s = Ok (brk s) s' ∧
    let ca := brk s + sizeof_transocks_client in
    let da := ca + sizeof_sockaddr_storage in
    let c := new_client env ca da in
    clients s' = <[brk s := c]> (clients s) ∧
    addrs s' = <[da := None]> (<[ca := None]> (addrs s)) ∧
    evs s' = evs s ∧ bevs s' = bevs s ∧
    dlist (nodes s') (client_node (brk s)) [] ∧
    same_outside [client_node (brk s)] (nodes s) (nodes s') ∧
    client_ok s' (brk s) c ∧ trace s' = malloc_trace 2 s.
Proof.
  intros Hwf E1 E2 E3. pose proof (wf_brk _ Hwf) as Hb.
  unfold malloc_trace in E2, E3. simpl in E2, E3.
  eapply wp_Ok; [|intros p s' H; exact H].
  unfold transocks_client_new, tr_malloc. st_steps. rewrite E1. st_steps.
  not_null. st_steps.
  eapply wp_mono; [apply wp_INIT_LIST_HEAD; simplify_map_eq; eauto|]. intros [] h ->. st_steps.
  rewrite E2. st_steps. rewrite E3. st_steps. not_null. st_steps.
  split; [done|]. split_and!; [|done..| | |split|done].
  - by rewrite !insert_insert_eq.
  - apply dlist_init. simplify_map_eq; eauto.
  - apply same_upd_prev, same_upd_next, same_insert, same_refl; set_solver.
  - st_lookup.
  - by left.
  - by left.
  - by left.
  - done.
  - right. st_norm. rewrite lookup_insert_ne, lookup_insert_eq by (simpl; addr_lia). eauto.
  - right. st_norm. rewrite lookup_insert_eq. eauto.
  - simpl. addr_lia.
Qed.

(** When the client is allocated but one of its address blocks is not,
    [transocks_client_new] returns NULL and gives back all it allocated: the
    clients, addresses and list nodes are those of before. *)
Lemma client_new_nomem s env :
  wf s → ext (trace s) (c_malloc sizeof_transocks_client) = true →
  ext (malloc_trace 0 s) (c_malloc sizeof_sockaddr_storage)
    && ext (malloc_trace 1 s) (c_malloc sizeof_sockaddr_storage) = false →
  ∃ s', transocks_client_new env s = Ok NULL s' ∧ same_objects s s'.
Proof.
  intros Hwf E1 E23. pose proof (wf_brk _ Hwf) as Hb.
  pose proof (λ q, below_None _ _ q (wf_clients _ Hwf)) as Fc.
  pose proof (λ q, below_None _ _ q (wf_addrs _ Hwf)) as Fa.
  pose proof (λ q, below_None _ _ q (wf_nodes _ Hwf)) as Fn.
  unfold malloc_trace in E23. simpl in E23.
  eapply wp_Ok; [|intros p s' H; exact H].
  unfold transocks_client_new, tr_malloc. st_steps. rewrite E1. st_steps. not_null. st_steps.
  eapply wp_mono; [apply wp_INIT_LIST_HEAD; simplify_map_eq; eauto|]. intros [] h ->. st_steps.
  unfold upd_next, upd_prev, client_node, TRANSOCKS_FREE, TRANSOCKS_FREE_at, tr_free, release in *.
  destruct (ext (_ :: trace s) _) eqn:E2; st_steps;
    [|destruct (ext (_ :: _ :: trace s) _) eqn:E3]; simpl in E23; rewrite ?E23; st_steps;
    not_null; st_steps; not_null; st_steps; not_null; st_steps.
  all: split_and!; [done|..]; st_norm; rewrite ?insert_insert_eq, ?delete_alter, ?alter_alter_eq, ?delete_insert_id;
    try done; eapply alloc_fresh; eauto using wf_clients, wf_addrs, wf_nodes; addr_lia.
Qed.

(** Both outcomes, for a client that could be allocated. *)
Lemma wp_client_new s env (Q : Z → state → Prop) :
  wf s → ext (trace s) (c_malloc sizeof_transocks_client) = true →
  (∀ s' tr, ext tr (c_malloc sizeof_sockaddr_storage) = false → same_objects s s' → Q NULL s') →
  (let p := brk s in let ca := p + sizeof_transocks_client in let da := ca + sizeof_sockaddr_storage in
   ∀ cs, no_closes cs → Q p (did cs
     (set_brk (da + sizeof_sockaddr_storage)
     (set_clients (<[p := new_client env ca da]> (clients s))
     (set_addrs (<[da := None]> (<[ca := None]> (addrs s)))
     (set_nodes (upd_prev (client_node p) (client_node p) (upd_next (client_node p) (client_node p)
        (<[client_node p := ListHead NULL NULL]> (nodes s)))) s)))))) →
  wp (transocks_client_new env) Q s.
Proof.
  intros Hwf E1 HN HQ. pose proof (wf_brk _ Hwf) as Hb.
  destruct (ext (malloc_trace 0 s) (c_malloc sizeof_sockaddr_storage)
    && ext (malloc_trace 1 s) (c_malloc sizeof_sockaddr_storage)) eqn:E23.
  2:{ destruct (client_new_nomem s env Hwf E1 E23) as (s' & Hrun & Hs). eapply wp_Ok_run; [exact Hrun|].
      apply andb_false_iff in E23 as [E|E]; by eapply HN. }
  apply andb_true_iff in E23 as [E2 E3]. unfold malloc_trace in E2, E3. simpl in E2, E3.
  unfold transocks_client_new, tr_malloc. st_steps. rewrite E1. st_steps. not_null. st_steps.
  eapply wp_mono; [apply wp_INIT_LIST_HEAD; simplify_map_eq; eauto|]. intros [] h ->. st_steps.
  rewrite E2. st_steps. rewrite E3. st_steps. not_null. st_steps.
  eapply eq_ind; [exact (HQ [c_malloc sizeof_transocks_client; c_malloc sizeof_sockaddr_storage; c_malloc sizeof_sockaddr_storage] eq_refl)|]. st_eq. by rewrite !insert_insert_eq.
Qed.

(** When the allocation of the client itself fails, the cleanup code reads
    through the NULL pointer: [transocks_client_new] has undefined behaviour
    instead of returning NULL. *)
Lemma client_new_null_deref s env :
  wf s → ext (trace s) (c_malloc sizeof_transocks_client) = false →
  transocks_client_new env s = Fault.
Proof.
  intros Hwf E. unfold transocks_client_new, tr_malloc, mbind, M_bind, sys. simpl. rewrite E. simpl.
  unfold TRANSOCKS_FREE_at, fld, mbind, M_bind. rewrite load_dead; [done|].
  simpl. eapply below_None; [by apply wf_clients|unfold NULL; lia].
Qed.

(** ** Timeouts *)

(** Calls on timers. *)
Definition is_timer_call (c : call) : bool :=
  match c with
  | c_event_new _ _ _ _ _ | c_event_assign _ _ _ _ _ _ | c_event_add _ _ | c_event_del _ => true
  | _ => false
  end.

(** Only clients and events changed, by calls on timers. *)
Record timer_frame s s' : Prop := {
  tf_brk : brk s ≤ brk s';
  tf_addrs : addrs s' = addrs s;
  tf_bevs : bevs s' = bevs s;
  tf_nodes : nodes s' = nodes s;
  tf_envs : envs s' = envs s;
  tf_bases : bases s' = bases s;
  tf_heaps : (pumps s', pipes s', blocks s') = (pumps s, pipes s, blocks s);
  tf_pump : pumpMethodImpl s' = pumpMethodImpl s;
  tf_trace : ∃ cs, trace s' = trace (did cs s) ∧ forallb is_timer_call cs = true
}.

Ltac timer_tac :=
  split; st_norm; try done; try (simpl; lia);
  first [ refine (ex_intro _ [_; _; _] (conj eq_refl eq_refl))
        | refine (ex_intro _ [_; _] (conj eq_refl eq_refl))
        | refine (ex_intro _ [_] (conj eq_refl eq_refl)) ].

Lemma wp_set_timeout s p c e timeout cb arg :
  0 < brk s → evs s !! NULL = None → clients s !! p = Some c → envs s !! global_env c = Some e →
  is_Some (bases s !! eventBaseLoop e) → handle_ok (evs s) (timeout_ev c) →
  wp (transocks_client_set_timeout p timeout cb arg) (λ r s', ∃ ev, timer_frame s s' ∧
    clients s' = <[p := set_timeout_ev ev c]> (clients s) ∧
    (timeout_ev c ≠ NULL → ev = timeout_ev c) ∧
    delete ev (evs s') = delete ev (evs s) ∧
    (r = 0 → evs s' !! ev = Some (Event (-1) 0 cb arg true)) ∧
    (r ≠ 0 → ∀ t, evs s' !! ev = Some t → ev_added t = false) ∧
    (∀ t, evs s !! ev = Some t → ∃ t', evs s' !! ev = Some t' ∧
       (ev_cb t' = cb ∧ ev_arg t' = arg ∨ ev_cb t' = ev_cb t ∧ ev_arg t' = ev_arg t)) ∧
    (r = 0 → ∃ tr, trace s' = ICall (c_event_add ev (Some timeout)) :: tr) ∧
    (timeout_ev c ≠ NULL → (∀ tr base, ext tr (c_event_assign ev base (-1) 0 cb arg) = 0) →
       (∀ tr, ext tr (c_event_add ev (Some timeout)) = 0) → r = 0)) s.
Proof.
  intros Hbrk Fe Hc He [b Hb] Ht.
  unfold transocks_client_set_timeout. st_ev. st_steps.
  destruct (timeout_ev c =? NULL) eqn:E; [apply Z.eqb_eq in E|apply Z.eqb_neq in E]; st_steps.
  - destruct (ext _ _); st_steps; not_null; st_steps.
    + exists (brk s). split; [timer_tac|]. rewrite !insert_insert_eq, !delete_insert_eq, lookup_insert_eq.
      split_and!; [done|done|done|..].
      * intros ->. done.
      * intros Hr t [= <-]. z_case; done.
      * intros t _. eexists. split; [done|]. z_case; by left.
      * intros _. by eexists.
      * done.
    + exists NULL. split; [timer_tac|]. split_and!; [done|done|done|done|..]; intros; by simplify_map_eq.
  - destruct Ht as [?|[t0 Ht]]; [done|]. st_steps. z_case; st_steps; exists (timeout_ev c);
      (split; [timer_tac|]); rewrite !insert_insert_eq, !delete_insert_eq, lookup_insert_eq, (insert_id (clients s))
        by (by destruct c); split_and!; try done.
    + intros ->. done.
    + intros Hr t [= <-]. z_case; done.
    + intros t _. eexists. split; [done|]. z_case; by left.
    + intros _. by eexists.
    + intros Hr t [= <-]. done.
    + intros t Ht'. eexists. split; [done|]. right. by simplify_eq.
    + intros _ H _. exfalso. eauto.
Qed.

(** [transocks_client_set_timeout] always returns, with 0 exactly when the
    client's timer, created on first use and replaced afterwards, now waits
    for the given callback and argument; otherwise it is not pending (it does
    not exist, or is not added).  Nothing but the timer changes. *)
Theorem client_set_timeout_ok s p c e timeout cb arg :
  wf s → clients s !! p = Some c → envs s !! global_env c = Some e →
  is_Some (bases s !! eventBaseLoop e) → handle_ok (evs s) (timeout_ev c) →
  ∃ r s' ev, transocks_client_set_timeout p timeout cb arg s = Ok r s' ∧
    clients s' = <[p := set_timeout_ev ev c]> (clients s) ∧
    (timeout_ev c ≠ NULL → ev = timeout_ev c) ∧
    delete ev (evs s') = delete ev (evs s) ∧
    (r = 0 → evs s' !! ev = Some (Event (-1) 0 cb arg true)) ∧
    (r ≠ 0 → ∀ t, evs s' !! ev = Some t → ev_added t = false).
Proof.
  intros Hwf **. apply wp_ex. eapply wp_mono.
  { eapply wp_set_timeout; eauto using wf_brk. by apply (null_evs _ (wf_null_ok _ Hwf)). }
  intros r s' (ev & _ & ? & ? & ? & ? & ? & _). by exists ev.
Qed.

(** ** Creation of the environment *)

Definition new_env (ba ra base : Z) : transocks_global_env :=
  TransocksGlobalEnv NULL ba ra 0 0 base NULL NULL NULL NULL NULL.

Definition calloc_trace (n : nat) s : list item :=
  replicate n (ICall (c_calloc 1 sizeof_sockaddr_storage)) ++
  ICall (c_calloc 1 sizeof_transocks_global_env) :: trace s.

(** When its allocations succeed, [transocks_global_env_new] returns a
    fresh environment with two zeroed address blocks, an event base, no
    listener and no signal events, and an empty connection list. *)
Lemma global_env_new_ok s :
  wf s → ext (trace s) (c_calloc 1 sizeof_transocks_global_env) = true →
  ext (calloc_trace 0 s) (c_calloc 1 sizeof_sockaddr_storage) = true →
  ext (calloc_trace 1 s) (c_calloc 1 sizeof_sockaddr_storage) = true →
  ext (calloc_trace 2 s) c_event_base_new = true →
  ∃ s', transocks_global_env_new s = Ok (brk s) s' ∧
    let ba := brk s + sizeof_transocks_global_env in
    let ra := ba + sizeof_sockaddr_storage in
    let base := ra + sizeof_sockaddr_storage in
    envs s' = <[brk s := new_env ba ra base]> (envs s) ∧
    addrs s' = <[ra := Some (replicate 128 0)]> (<[ba := Some (replicate 128 0)]> (addrs s)) ∧
    bases s' = <[base := tt]> (bases s) ∧
    dlist (nodes s') (clients_head (brk s)) [].
Proof.
  intros Hwf E1 E2 E3 E4. pose proof (wf_brk _ Hwf) as Hb.
  unfold calloc_trace in E2, E3, E4. simpl in E2, E3, E4.
  eapply wp_Ok; [|intros p s' H; exact H].
  unfold transocks_global_env_new, tr_calloc, event_base_new. st_steps. rewrite E1. st_steps. not_null.
  st_steps. rewrite E2. st_steps. rewrite E3. st_steps. not_null. st_steps. rewrite E4. st_steps. not_null.
  st_steps. eapply wp_mono; [apply wp_INIT_LIST_HEAD; simplify_map_eq; eauto|]. intros [] h ->. st_steps.
  split; [done|]. split_and!; [|done..|].
  - by rewrite !insert_insert_eq.
  - apply dlist_init. simplify_map_eq; eauto.
Qed.

(** When a later allocation fails, [transocks_global_env_new] returns NULL
    and gives back all it allocated. *)
Lemma global_env_new_nomem s :
  wf s → ext (trace s) (c_calloc 1 sizeof_transocks_global_env) = true →
  ext (calloc_trace 0 s) (c_calloc 1 sizeof_sockaddr_storage)
    && ext (calloc_trace 1 s) (c_calloc 1 sizeof_sockaddr_storage)
    && ext (calloc_trace 2 s) c_event_base_new = false →
  ∃ s', transocks_global_env_new s = Ok NULL s' ∧
    envs s' = envs s ∧ addrs s' = addrs s ∧ bases s' = bases s ∧ nodes s' = nodes s.
Proof.
  intros Hwf E1 E. pose proof (wf_brk _ Hwf) as Hb.
  unfold calloc_trace in E. simpl in E.
  eapply wp_Ok; [|intros p s' H; exact H].
  unfold transocks_global_env_new, tr_calloc, event_base_new. st_steps. rewrite E1. st_steps. not_null.
  st_steps. unfold TRANSOCKS_FREE, TRANSOCKS_FREE_at, event_base_free, tr_free, release.
  destruct (ext (_ :: trace s) _) eqn:E2; st_steps;
    destruct (ext (_ :: _ :: trace s) _) eqn:E3; simpl in E; st_steps; not_null;
    st_steps; [rewrite E|..]; repeat (st_steps; not_null).
  all: split_and!; [done|..]; rewrite ?insert_insert_eq, ?delete_insert_id, ?delete2_insert2;
    try done; eapply alloc_fresh; eauto using wf_envs, wf_addrs, wf_nodes; addr_lia.
Qed.

(** When the allocation of the environment itself fails, the cleanup code
    reads through the NULL pointer. *)
Lemma global_env_new_null_deref s :
  wf s → ext (trace s) (c_calloc 1 sizeof_transocks_global_env) = false →
  transocks_global_env_new s = Fault.
Proof.
  intros Hwf E. unfold transocks_global_env_new, tr_calloc, mbind, M_bind, sys. simpl. rewrite E. simpl.
  unfold TRANSOCKS_FREE_at, fld, mbind, M_bind. rewrite load_dead; [done|].
  simpl. eapply below_None; [by apply wf_envs|unfold NULL; lia].
Qed.

(** C32 When a later allocation of the two constructors fails, they return NULL
    and give back all they allocated: the heaps are those of before. *)
Theorem allocation_failure_cleanup s env :
  wf s →
  (ext (trace s) (c_malloc sizeof_transocks_client) = true →
   ext (malloc_trace 0 s) (c_malloc sizeof_sockaddr_storage)
     && ext (malloc_trace 1 s) (c_malloc sizeof_sockaddr_storage) = false →
   ∃ s', transocks_client_new env s = Ok NULL s' ∧
     clients s' = clients s ∧ addrs s' = addrs s ∧ nodes s' = nodes s) ∧
  (ext (trace s) (c_calloc 1 sizeof_transocks_global_env) = true →
   ext (calloc_trace 0 s) (c_calloc 1 sizeof_sockaddr_storage)
     && ext (calloc_trace 1 s) (c_calloc 1 sizeof_sockaddr_storage)
     && ext (calloc_trace 2 s) c_event_base_new = false →
   ∃ s', transocks_global_env_new s = Ok NULL s' ∧
     envs s' = envs s ∧ addrs s' = addrs s ∧ bases s' = bases s ∧ nodes s' = nodes s).
Proof.
  intros Hwf. split; [|by apply global_env_new_nomem]. intros E1 E2.
  destruct (client_new_nomem s env Hwf E1 E2) as (s' & ? & ? & ? & _ & _ & ? & _). by exists s'.
Qed.

(** When the first allocation of a constructor fails, for the client or the
    environment itself, the cleanup code reads through the NULL pointer: both
    constructors have undefined behaviour instead of returning NULL. *)
Theorem first_allocation_null_deref s env :
  wf s →
  (ext (trace s) (c_malloc sizeof_transocks_client) = false → transocks_client_new env s = Fault) ∧
  (ext (trace s) (c_calloc 1 sizeof_transocks_global_env) = false → transocks_global_env_new s = Fault).
Proof. intros Hwf. split; [by apply client_new_null_deref|by apply global_env_new_null_deref]. Qed.
End client_theorems.

(** ** A concrete connection

    The environment at 4096 with one client at 5000 in its list: both sockets,
    both bufferevents, the timer and the two addresses are there. *)

Definition ex_addr : sockaddr_storage := [2; 0; 31; 144; 10; 0; 0; 1] ++ replicate 120 0.

Definition ex_client : transocks_client :=
  TransocksClient 4096 5200 5400 8 7 (Some 16) (Some 16) 5600 5700 5800 NULL
    client_NEW false false false false.

Definition ex_state : state :=
  State 9000 {[5000 := ex_client]} {[5200 := Some ex_addr; 5400 := Some ex_addr; 4200 := Some ex_addr]}
    ∅ ∅ {[4096 := TransocksGlobalEnv NULL 4200 4200 16 16 4900 NULL NULL NULL NULL NULL]} ∅ ∅ ∅
    {[4900 := tt]}
    {[4176 := ListHead 5000 5000; 5000 := ListHead 4176 4176]}
    {[5600 := Bufferevent 8 BEV_OPT_CLOSE_ON_FREE None None None NULL EV_WRITE 0 0;
      5700 := Bufferevent 7 BEV_OPT_CLOSE_ON_FREE None None None NULL EV_WRITE 0 0]}
    {[5800 := Event (-1) 0 fn_socks5_timeout_cb 5000 true]} None [].

(** A client beside the list, before it has descriptors or bufferevents. *)
Definition ex_unlisted : state :=
  set_clients {[5000 := new_client 4096 5200 5400]} (set_nodes {[5000 := ListHead 5000 5000]} ex_state).

Ltac concrete_handle := first [left; reflexivity | right; vm_compute; eexists; reflexivity].
Ltac concrete_below :=
  let q := fresh in let H := fresh in
  intros q [? H]; revert H; 
  repeat (first [rewrite lookup_empty; discriminate
                |rewrite lookup_insert; case_decide; [intros _; subst; lia|]
                |rewrite lookup_singleton; case_decide; [intros _; subst; lia|discriminate]]).
Lemma wf_ex_state : wf ex_state.
Proof. split; [done|..]; simpl; concrete_below. Qed.

Lemma ex_client_ok : client_ok ex_state 5000 ex_client.
Proof. split; first [reflexivity | concrete_handle | discriminate]. Qed.

Section context_witnesses.
#[local] Existing Instance quiet.

Lemma client_free_releases_witness :
  ∃ h, transocks_client_free 5000 ex_state = Ok tt (client_freed 5000 ex_client h ex_state) ∧
       dlist (nodes (client_freed 5000 ex_client h ex_state)) 4176 [] ∧
       nodes (client_freed 5000 ex_client h ex_state) !! 5000 = None ∧
       same_outside [4176; 5000] (nodes ex_state) (nodes (client_freed 5000 ex_client h ex_state)).
Proof.
  apply (client_free_releases ex_state 5000 ex_client 4176 [] []).
  - apply wf_null_ok, wf_ex_state.
  - apply ex_client_ok.
  - reflexivity.
  - concrete_dlist.
Defined.

Lemma client_free_unlisted_witness :
  ∃ h, transocks_client_free 5000 ex_unlisted
         = Ok tt (client_freed 5000 (new_client 4096 5200 5400) h ex_unlisted) ∧
       nodes (client_freed 5000 (new_client 4096 5200 5400) h ex_unlisted) = delete 5000 (nodes ex_unlisted).
Proof.
  apply (client_free_unlisted ex_unlisted 5000 (new_client 4096 5200 5400)).
  - split; reflexivity.
  - split; first [reflexivity | concrete_handle | discriminate].
  - reflexivity.
  - concrete_dlist.
Defined.

Lemma client_new_ok_witness :
  ∃ s', transocks_client_new 4096 ex_state = Ok 9000 s' ∧
    clients s' = <[9000 := new_client 4096 9096 9224]> (clients ex_state) ∧
    addrs s' = <[9224 := None]> (<[9096 := None]> (addrs ex_state)) ∧
    evs s' = evs ex_state ∧ bevs s' = bevs ex_state ∧
    dlist (nodes s') 9000 [] ∧ same_outside [9000] (nodes ex_state) (nodes s') ∧
    client_ok s' 9000 (new_client 4096 9096 9224) ∧ trace s' = malloc_trace 2 ex_state.
Proof. apply (client_new_ok ex_state 4096); [apply wf_ex_state|reflexivity..]. Defined.

Lemma client_set_timeout_ok_witness :
  ∃ r s' ev, transocks_client_set_timeout 5000 60 fn_socks5_timeout_cb 5000 ex_state = Ok r s' ∧
    clients s' = <[5000 := set_timeout_ev ev ex_client]> (clients ex_state) ∧
    (timeout_ev ex_client ≠ NULL → ev = timeout_ev ex_client) ∧
    delete ev (evs s') = delete ev (evs ex_state) ∧
    (r = 0 → evs s' !! ev = Some (Event (-1) 0 fn_socks5_timeout_cb 5000 true)) ∧
    (r ≠ 0 → ∀ t, evs s' !! ev = Some t → ev_added t = false).
Proof.
  eapply (client_set_timeout_ok ex_state 5000 ex_client); [apply wf_ex_state|reflexivity|reflexivity| |].
  - exists tt. reflexivity.
  - concrete_handle.
Defined.

End context_witnesses.

Lemma allocation_failure_cleanup_witness :
  let EXT := oom 2 in
  (true = true → true && false = false →
   ∃ s', transocks_client_new 4096 state0 = Ok NULL s' ∧ clients s' = ∅ ∧ addrs s' = ∅ ∧ nodes s' = ∅) ∧
  (true = true → true && false && true = false →
   ∃ s', transocks_global_env_new state0 = Ok NULL s' ∧ envs s' = ∅ ∧ addrs s' = ∅ ∧ bases s' = ∅ ∧ nodes s' = ∅).
Proof. intros EXT. apply (allocation_failure_cleanup (EXT:=oom 2) state0 4096). apply wf_state0. Defined.

Lemma first_allocation_null_deref_witness :
  let EXT := oom 0 in
  (false = false → transocks_client_new 4096 state0 = Fault) ∧
  (false = false → transocks_global_env_new state0 = Fault).
Proof. intros EXT. apply (first_allocation_null_deref (EXT:=oom 0) state0 4096). apply wf_state0. Defined.
