(* ===== verification/BufferPump.v ===== *)
(** * bufferpump.c: relaying through libevent's buffers

    Whatever arrives in the input buffer of one side is moved to the output
    buffer of the other; an end of file is passed on once the output buffer
    of the other side is empty; the client is released when all four
    directions are shut down. *)

From S2P Require Import Prelude DList ListSpec Structs World Util Context.
Local Open Scope Z_scope.

Section bufferpump.
Context {EXT : Env}.

Definition transocks_bufferpump_dump_info (pclient : Z) : C unit :=
  transocks_client_dump_info pclient.

Definition transocks_bufferpump_free (pclient : Z) : C unit :=
  cb ← fld pclient client_bev;
  bufferevent_disable cb (Z.lor EV_READ EV_WRITE) ;;
  rb ← fld pclient relay_bev;
  bufferevent_disable rb (Z.lor EV_READ EV_WRITE) ;;
  TRANSOCKS_FREE transocks_client_free pclient.

Definition transocks_check_close (c : transocks_client) : bool :=
  client_shutdown_read c && client_shutdown_write c && relay_shutdown_read c && relay_shutdown_write c.

(** The test at the end of the write and event callbacks. *)
Definition check_close_free (pclient : Z) : C unit :=
  closed ← fld pclient transocks_check_close;
  if (closed : bool) then TRANSOCKS_FREE transocks_bufferpump_free pclient else mret tt.

Definition transocks_client_readcb (pclient : Z) : C unit :=
  cb ← fld pclient client_bev;
  rb ← fld pclient relay_bev;
  srclen ← evbuffer_get_length (Input cb);
  evbuffer_remove_buffer (Input cb) (Output rb) srclen ;;
  mret tt.

Definition transocks_relay_writecb (pclient : Z) : C unit :=
  rb ← fld pclient relay_bev;
  len ← evbuffer_get_length (Output rb);
  csr ← fld pclient client_shutdown_read;
  (if (0 =? len) && csr then
     modify pclient (set_relay_shutdown_write true) ;;
     rfd ← fld pclient relay_fd;
     TRANSOCKS_SHUTDOWN rfd SHUT_WR ;; mret tt
   else mret tt) ;;
  check_close_free pclient.

Definition transocks_relay_readcb (pclient : Z) : C unit :=
  rb ← fld pclient relay_bev;
  cb ← fld pclient client_bev;
  srclen ← evbuffer_get_length (Input rb);
  evbuffer_remove_buffer (Input rb) (Output cb) srclen ;;
  mret tt.

Definition transocks_client_writecb (pclient : Z) : C unit :=
  cb ← fld pclient client_bev;
  len ← evbuffer_get_length (Output cb);
  rsr ← fld pclient relay_shutdown_read;
  (if (0 =? len) && rsr then
     modify pclient (set_client_shutdown_write true) ;;
     cfd ← fld pclient client_fd;
     TRANSOCKS_SHUTDOWN cfd SHUT_WR ;; mret tt
   else mret tt) ;;
  check_close_free pclient.

(** [bevs] is the event mask, [errno] the value of [errno] in the callback. *)
Definition transocks_client_eventcb (bevs errno : Z) (pclient : Z) : C unit :=
  if TRANSOCKS_CHKBIT bevs BEV_EVENT_READING && TRANSOCKS_CHKBIT bevs BEV_EVENT_EOF then
    modify pclient (set_client_shutdown_read true) ;;
    cb ← fld pclient client_bev;
    bufferevent_disable cb EV_READ ;;
    cfd ← fld pclient client_fd;
    TRANSOCKS_SHUTDOWN cfd SHUT_RD ;;
    rb ← fld pclient relay_bev;
    len ← evbuffer_get_length (Output rb);
    csr ← fld pclient client_shutdown_read;
    (if (0 =? len) && csr then
       modify pclient (set_relay_shutdown_write true) ;;
       rfd ← fld pclient relay_fd;
       TRANSOCKS_SHUTDOWN rfd SHUT_WR ;; mret tt
     else mret tt) ;;
    check_close_free pclient
  else if TRANSOCKS_CHKBIT bevs BEV_EVENT_WRITING
          && ((TRANSOCKS_CHKBIT bevs BEV_EVENT_ERROR && (errno =? ECONNRESET))
              || TRANSOCKS_CHKBIT bevs BEV_EVENT_EOF) then
    modify pclient (set_client_shutdown_write true) ;;
    cb ← fld pclient client_bev;
    bufferevent_disable cb EV_WRITE ;;
    cfd ← fld pclient client_fd;
    TRANSOCKS_SHUTDOWN cfd SHUT_WR ;;
    check_close_free pclient
  else if TRANSOCKS_CHKBIT bevs BEV_EVENT_ERROR then
    TRANSOCKS_FREE transocks_bufferpump_free pclient
  else check_close_free pclient.

Definition transocks_relay_eventcb (bevs errno : Z) (pclient : Z) : C unit :=
  if TRANSOCKS_CHKBIT bevs BEV_EVENT_READING && TRANSOCKS_CHKBIT bevs BEV_EVENT_EOF then
    modify pclient (set_relay_shutdown_read true) ;;
    rb ← fld pclient relay_bev;
    bufferevent_disable rb EV_READ ;;
    rfd ← fld pclient relay_fd;
    TRANSOCKS_SHUTDOWN rfd SHUT_RD ;;
    cb ← fld pclient client_bev;
    len ← evbuffer_get_length (Output cb);
    rsr ← fld pclient relay_shutdown_read;
    (if (0 =? len) && rsr then
       modify pclient (set_client_shutdown_write true) ;;
       cfd ← fld pclient client_fd;
       TRANSOCKS_SHUTDOWN cfd SHUT_WR ;; mret tt
     else mret tt) ;;
    check_close_free pclient
  else if TRANSOCKS_CHKBIT bevs BEV_EVENT_WRITING
          && ((TRANSOCKS_CHKBIT bevs BEV_EVENT_ERROR && (errno =? ECONNRESET))
              || TRANSOCKS_CHKBIT bevs BEV_EVENT_EOF) then
    modify pclient (set_relay_shutdown_write true) ;;
    rb ← fld pclient relay_bev;
    bufferevent_disable rb EV_WRITE ;;
    rfd ← fld pclient relay_fd;
    TRANSOCKS_SHUTDOWN rfd SHUT_WR ;;
    check_close_free pclient
  else if TRANSOCKS_CHKBIT bevs BEV_EVENT_ERROR then
    TRANSOCKS_FREE transocks_bufferpump_free pclient
  else check_close_free pclient.

Definition transocks_bufferpump_start_pump (pclient : Z) : C Z :=
  cb ← fld pclient client_bev;
  rb ← fld pclient relay_bev;
  bufferevent_setwatermark cb (Z.lor EV_READ EV_WRITE) 0 TRANSOCKS_BUFSIZE ;;
  bufferevent_setwatermark rb (Z.lor EV_READ EV_WRITE) 0 TRANSOCKS_BUFSIZE ;;
  bufferevent_setcb cb (Some fn_transocks_client_readcb) (Some fn_transocks_client_writecb)
    (Some fn_transocks_client_eventcb) pclient ;;
  bufferevent_setcb rb (Some fn_transocks_relay_readcb) (Some fn_transocks_relay_writecb)
    (Some fn_transocks_relay_eventcb) pclient ;;
  err ← bufferevent_enable cb (Z.lor EV_READ EV_WRITE);
  if negb (err =? 0) then mret (-1) else
  err ← bufferevent_enable rb (Z.lor EV_READ EV_WRITE);
  if negb (err =? 0) then mret (-1) else
  mret 0.
End bufferpump.

(** ** Outcomes of a pump callback *)

(** The client at [p], member of the list at [head] between [l1] and [l2],
    with both of its bufferevents. *)
Record pumping (s : state) (p : Z) (c : transocks_client) (head : Z) (l1 l2 : list Z) : Prop := {
  pu_null : null_ok s;
  pu_ok : client_ok s p c;
  pu_alive : is_destroyed (client_state c) = false;
  pu_cbev : client_bev c ≠ NULL;
  pu_rbev : relay_bev c ≠ NULL;
  pu_list : dlist (nodes s) head (l1 ++ client_node p :: l2)
}.

(** The callbacks of a bufferevent and their argument. *)
Definition handlers (b : bufferevent) := (bev_readcb b, bev_writecb b, bev_eventcb b, bev_cbarg b).

(** The client is now [c'], the calls [cs] were made, and only its own
    bufferevents may have changed, and not in their callbacks. *)
Definition continues (p : Z) (c' : transocks_client) (cs : list call) (s s' : state) : Prop :=
  ∃ m, s' = did cs (set_clients (<[p := c']> (clients s)) (set_bevs m s)) ∧
    (∀ q, handlers <$> m !! q = handlers <$> bevs s !! q) ∧
    delete (client_bev c') (delete (relay_bev c') m)
    = delete (client_bev c') (delete (relay_bev c') (bevs s)).

(** The client was released, after the calls [cs], and left the list; no node
    outside the list changed. *)
Definition released (p : Z) (c : transocks_client) (cs : list call) (head : Z) (l1 l2 : list Z)
    (s s' : state) : Prop :=
  ∃ h, s' = client_freed p c h (did cs s) ∧ dlist (nodes s') head (l1 ++ l2) ∧
    same_outside (head :: l1 ++ client_node p :: l2) (nodes s) (nodes s').

(** The two requests [transocks_bufferpump_free] makes before the release. *)
Definition disable_calls (c : transocks_client) : list call :=
  [c_bufferevent_disable (client_bev c) (Z.lor EV_READ EV_WRITE);
   c_bufferevent_disable (relay_bev c) (Z.lor EV_READ EV_WRITE)].

(** What a callback that made the calls [cs] and leaves the client in [c']
    does in the end: the client is released when all four directions are shut
    down. *)
Definition pump_outcome p (c c' : transocks_client) (cs : list call) head l1 l2 s s' : Prop :=
  if transocks_check_close c' then released p c (cs ++ disable_calls c) head l1 l2 s s'
  else continues p c' cs s s'.

(** [c'] differs from [c] in its flags only. *)
Definition flags_only (c c' : transocks_client) : Prop :=
  same_handles c c' ∧ client_fd c' = client_fd c ∧ relay_fd c' = relay_fd c ∧
  client_state c' = client_state c ∧ global_env c' = global_env c ∧
  client_addr_len c' = client_addr_len c ∧ dest_addr_len c' = dest_addr_len c ∧ user_arg c' = user_arg c.

Lemma continues_refl p c s : clients s !! p = Some c → continues p c [] s s.
Proof.
  intros Hc. exists (bevs s). split_and!; [|done|done].
  rewrite did_nil, insert_id by done. by destruct s.
Qed.

Lemma continues_did p c ds s s' cs : continues p c ds s s' → continues p c (ds ++ cs) s (did cs s').
Proof. intros (m & -> & H1 & H2). exists m. by rewrite did_did. Qed.

Lemma continues_push p c ds s s' k : continues p c ds s s' → continues p c (ds ++ [k]) s (push (ICall k) s').
Proof. apply (continues_did p c ds s s' [k]). Qed.

Lemma continues_set p c c' cs s s' :
  continues p c cs s s' → client_bev c' = client_bev c → relay_bev c' = relay_bev c →
  continues p c' cs s (set_clients (<[p := c']> (clients s)) s').
Proof. intros (m & -> & H1 & H2) Eb Er. exists m. by rewrite Eb, Er. Qed.

Lemma handlers_live {A B} (f : A → B) (m m' : gmap Z A) q :
  f <$> m !! q = f <$> m' !! q → is_Some (m !! q) ↔ is_Some (m' !! q).
Proof. intros E. by rewrite <-(fmap_is_Some f (m !! q)), <-(fmap_is_Some f (m' !! q)), E. Qed.

Lemma handlers_alter f b (m : gmap Z bufferevent) q :
  (∀ x, handlers (f x) = handlers x) → handlers <$> alter f b m !! q = handlers <$> m !! q.
Proof. intros Hf. rewrite lookup_alter. case_decide; [|done]. subst. destruct (m !! q); simpl; by rewrite ?Hf. Qed.

Lemma continues_bevs p c cs s s' f b :
  continues p c cs s s' → b = client_bev c ∨ b = relay_bev c → (∀ x, handlers (f x) = handlers x) →
  continues p c cs s (set_bevs (alter f b (bevs s)) s').
Proof.
  intros (m & -> & H1 & H2) Hb Hf. exists (alter f b (bevs s)). split_and!; [done|..].
  - intros q. by apply handlers_alter.
  - apply map_eq. intros k. rewrite !lookup_delete, lookup_alter.
    destruct Hb as [->| ->]; by repeat case_decide.
Qed.

Lemma continues_eq p c cs cs' s s' : continues p c cs' s s' → cs' = cs → continues p c cs s s'.
Proof. by intros ? <-. Qed.

(** Collect the updates and calls of a callback into [continues]. *)
Ltac continues_step :=
  rewrite ?insert_insert_eq;
  lazymatch goal with
  | |- continues _ _ _ _ (push _ _) => apply continues_push; continues_step
  | |- continues _ _ _ _ (did _ _) => apply continues_did; continues_step
  | |- continues _ _ _ _ (set_bevs _ _) => apply continues_bevs; [continues_step|simpl; auto|assumption]
  | |- continues _ _ _ _ (set_clients _ _) => eapply continues_set; [continues_step|done|done]
  | |- _ => by apply continues_refl
  end.
Ltac continues_tac := eapply continues_eq; [continues_step|reflexivity].

(** Releasing the client after [continues] is releasing it before. *)
Lemma client_freed_continues p c c' cs h s s' :
  flags_only c c' → continues p c' cs s s' → client_freed p c' h s' = client_freed p c h (did cs s).
Proof.
  intros ((E1 & E2 & E3 & E4 & E5) & E6 & E7 & _) (m & -> & _ & Hm).
  unfold client_freed, client_free_calls. rewrite E1, E2, E3, E4, E5, E6, E7 in *. st_eq.
  by rewrite delete_insert_eq.
Qed.

Lemma continues_ok p c c' cs s s' :
  null_ok s → client_ok s p c → flags_only c c' → continues p c' cs s s' →
  null_ok s' ∧ client_ok s' p c' ∧ nodes s' = nodes s.
Proof.
  intros [Nc Na Nb Ne] Hc [Hh _] (m & -> & Hm' & _).
  assert (∀ q, is_Some (m !! q) ↔ is_Some (bevs s !! q)) as Hm by (intros q; by eapply handlers_live).
  split_and!; [split; st_norm; [| |apply eq_None_not_Some; rewrite Hm, Nb; by intros []|]; try done| |done].
  - rewrite lookup_insert_ne; [done|]. intros ->. destruct Hc. congruence.
  - eapply client_ok_mono; [done| |done|done|intros q; st_norm; apply Hm|done]. st_lookup.
Qed.

Section bufferpump_rules.
Context {EXT : Env}.
Implicit Types s : state.

Lemma wp_bev_disable bev events (Q : Z → state → Prop) s :
  is_Some (bevs s !! bev) →
  (∀ f r, (∀ x, handlers (f x) = handlers x) →
     Q r (did [c_bufferevent_disable bev events] (set_bevs (alter f bev (bevs s)) s))) →
  wp (bufferevent_disable bev events) Q s.
Proof.
  intros [b Hb] HQ. unfold bufferevent_disable. st_steps.
  rewrite <-(alter_insert_Some (λ b, if ext (trace s) (c_bufferevent_disable bev events) =? 0
    then set_bev_enabled (Z.ldiff (bev_enabled b) events) b else b) _ _ _ Hb). apply HQ. intros x. by case_match.
Qed.

Lemma wp_bufferpump_free s p c head l1 l2 :
  pumping s p c head l1 l2 →
  wp (transocks_bufferpump_free p) (λ _ s', released p c (disable_calls c) head l1 l2 s s') s.
Proof.
  intros [Hn Hc Ha Hcb Hrb Hl]. pose proof Hc as [Hp _ Hr Hb _ _ _ _].
  unfold transocks_bufferpump_free. st_steps.
  apply wp_bev_disable; [by apply handle_live|]. intros f1 _ Hf1. st_steps.
  apply wp_bev_disable; [st_norm; apply alter_is_Some; by apply handle_live|]. intros f2 _ Hf2.
  rewrite TRANSOCKS_FREE_live by (by eapply client_not_null).
  match goal with |- wp _ _ ?t => set (s1 := t) end.
  assert (continues p c (disable_calls c) s s1) as Hcont.
  { exists (bevs s1). split_and!.
    - subst s1. unfold disable_calls. st_eq. by rewrite insert_id.
    - intros q. subst s1. st_norm. by rewrite !handlers_alter.
    - subst s1. st_norm. apply delete2_alter2'. }
  assert (flags_only c c) as Hf by done.
  destruct (continues_ok _ _ _ _ _ _ Hn Hc Hf Hcont) as (Hn1 & Hc1 & Hnodes).
  eapply wp_mono; [apply (wp_client_free_listed s1 p c head l1 l2); by rewrite ?Hnodes|].
  intros [] s' (h & -> & Hd & _ & Ho). exists h. rewrite <-(client_freed_continues _ _ _ _ h _ _ Hf Hcont).
  by rewrite Hnodes in Ho.
Qed.

(** A callback that changed the client to [c'] and then tests for the end. *)
Lemma wp_check_close_free s s1 p c c' cs head l1 l2 :
  pumping s p c head l1 l2 → flags_only c c' → continues p c' cs s s1 →
  wp (check_close_free p) (λ _ s', pump_outcome p c c' cs head l1 l2 s s') s1.
Proof.
  intros [Hn Hc Ha Hcb Hrb Hl] Hf Hcont.
  destruct (continues_ok _ _ _ _ _ _ Hn Hc Hf Hcont) as (Hn1 & Hc1 & Hnodes).
  pose proof Hc1 as [Hp1 _ _ _ _ _ _ _]. unfold check_close_free, pump_outcome. st_steps.
  destruct (transocks_check_close c') eqn:E; [|by st_steps].
  rewrite TRANSOCKS_FREE_live by (by eapply client_not_null).
  pose proof Hf as ((_ & _ & E3 & E4 & _) & _ & _ & E8 & _).
  eapply wp_mono; [apply (wp_bufferpump_free s1 p c' head l1 l2); split; by rewrite ?E3, ?E4, ?E8, ?Hnodes|].
  intros [] s' (h & -> & Hd & Ho). exists h. rewrite Hnodes in Ho. split; [|done].
  assert (disable_calls c' = disable_calls c) as -> by (unfold disable_calls; by rewrite E3, E4).
  apply client_freed_continues; [done|by apply continues_did].
Qed.
End bufferpump_rules.

(** ** The callbacks *)

(** The half-close protocol: what an event of the client's bufferevent makes
    of the client, when the output buffer of the relay is empty or not, and
    the calls it makes; [None] when the connection ends at once. *)
Definition client_event_spec (events errno : Z) (relay_out_empty : bool) (c : transocks_client)
    : option (transocks_client * list call) :=
  if TRANSOCKS_CHKBIT events BEV_EVENT_READING && TRANSOCKS_CHKBIT events BEV_EVENT_EOF then
    let c1 := set_client_shutdown_read true c in
    Some (if relay_out_empty then set_relay_shutdown_write true c1 else c1,
          [c_bufferevent_disable (client_bev c) EV_READ; c_shutdown (client_fd c) SHUT_RD;
           c_evbuffer_get_length (Output (relay_bev c))] ++ opt relay_out_empty (c_shutdown (relay_fd c) SHUT_WR))
  else if TRANSOCKS_CHKBIT events BEV_EVENT_WRITING
          && ((TRANSOCKS_CHKBIT events BEV_EVENT_ERROR && (errno =? ECONNRESET))
              || TRANSOCKS_CHKBIT events BEV_EVENT_EOF) then
    Some (set_client_shutdown_write true c,
          [c_bufferevent_disable (client_bev c) EV_WRITE; c_shutdown (client_fd c) SHUT_WR])
  else if TRANSOCKS_CHKBIT events BEV_EVENT_ERROR then None
  else Some (c, []).

Definition relay_event_spec (events errno : Z) (client_out_empty : bool) (c : transocks_client)
    : option (transocks_client * list call) :=
  if TRANSOCKS_CHKBIT events BEV_EVENT_READING && TRANSOCKS_CHKBIT events BEV_EVENT_EOF then
    let c1 := set_relay_shutdown_read true c in
    Some (if client_out_empty then set_client_shutdown_write true c1 else c1,
          [c_bufferevent_disable (relay_bev c) EV_READ; c_shutdown (relay_fd c) SHUT_RD;
           c_evbuffer_get_length (Output (client_bev c))] ++ opt client_out_empty (c_shutdown (client_fd c) SHUT_WR))
  else if TRANSOCKS_CHKBIT events BEV_EVENT_WRITING
          && ((TRANSOCKS_CHKBIT events BEV_EVENT_ERROR && (errno =? ECONNRESET))
              || TRANSOCKS_CHKBIT events BEV_EVENT_EOF) then
    Some (set_relay_shutdown_write true c,
          [c_bufferevent_disable (relay_bev c) EV_WRITE; c_shutdown (relay_fd c) SHUT_WR])
  else if TRANSOCKS_CHKBIT events BEV_EVENT_ERROR then None
  else Some (c, []).

(** What a callback does to a client it leaves in the state [o], or ends. *)
Definition event_outcome p c (o : option (transocks_client * list call)) head l1 l2 s s' : Prop :=
  match o with
  | Some (c', cs) => pump_outcome p c c' cs head l1 l2 s s'
  | None => released p c (disable_calls c) head l1 l2 s s'
  end.

Definition is_nil {A} (l : list A) : bool := match l with [] => true | _ => false end.

Section bufferpump_theorems.
Context {EXT : Env} (buf : list item → evbuffer → list Z) {LAWS : EvbufferLaws EXT buf}.
Implicit Types s : state.

Lemma wp_get_length b (Q : Z → state → Prop) s :
  is_Some (bevs s !! buf_bev b) →
  Q (Z.of_nat (length (buf (trace s) b))) (did [c_evbuffer_get_length b] s) →
  wp (evbuffer_get_length b) Q s.
Proof. intros [v Hb] HQ. unfold evbuffer_get_length. st_steps. by rewrite eb_length. Qed.

Lemma length_eqb_nil {A} (l : list A) : (0 =? Z.of_nat (length l)) = is_nil l.
Proof. by destruct l. Qed.

(** Everything in one buffer goes to the end of another one. *)
Lemma wp_move_all a b s :
  a ≠ b → is_Some (bevs s !! buf_bev a) → is_Some (bevs s !! buf_bev b) →
  wp (srclen ← evbuffer_get_length a; evbuffer_remove_buffer a b srclen ;; mret tt)
     (λ _ s', buf (trace s') b = buf (trace s) b ++ buf (trace s) a ∧ buf (trace s') a = [] ∧
              (∀ q, q ≠ a → q ≠ b → buf (trace s') q = buf (trace s) q) ∧
              ∃ cs, s' = did cs s) s.
Proof.
  intros Hab Ha [v Hb]. apply wp_bind, wp_get_length; [done|]. destruct Ha as [w Ha].
  unfold evbuffer_remove_buffer. st_steps. rewrite eb_remove_src, eb_remove_dst by done.
  simpl. rewrite !(eb_keeps _ (c_evbuffer_get_length a)), Nat2Z.id, take_ge, drop_ge by (done || lia). split_and!; [done|done| |].
  - intros q H1 H2. by rewrite eb_remove_keeps, eb_keeps.
  - by exists [c_evbuffer_get_length a; c_evbuffer_remove_buffer a b (Z.of_nat (length (buf (trace s) a)))].
Qed.

(** Data from the client: all bytes of the client's input buffer are
    appended, in order, to the relay's output buffer, the input buffer is left
    empty, and nothing else changes. *)
Lemma client_readcb_moves s p c :
  clients s !! p = Some c → is_Some (bevs s !! client_bev c) → is_Some (bevs s !! relay_bev c) →
  ∃ s', transocks_client_readcb p s = Ok tt s' ∧
    buf (trace s') (Output (relay_bev c))
    = buf (trace s) (Output (relay_bev c)) ++ buf (trace s) (Input (client_bev c)) ∧
    buf (trace s') (Input (client_bev c)) = [] ∧
    (∀ q, q ≠ Input (client_bev c) → q ≠ Output (relay_bev c) → buf (trace s') q = buf (trace s) q) ∧
    ∃ cs, s' = did cs s.
Proof.
  intros Hc Hb Hr. apply wp_tt. unfold transocks_client_readcb. do 4 st_step. by apply wp_move_all.
Qed.

(** Data from the relay, in the same way. *)
Lemma relay_readcb_moves s p c :
  clients s !! p = Some c → is_Some (bevs s !! client_bev c) → is_Some (bevs s !! relay_bev c) →
  ∃ s', transocks_relay_readcb p s = Ok tt s' ∧
    buf (trace s') (Output (client_bev c))
    = buf (trace s) (Output (client_bev c)) ++ buf (trace s) (Input (relay_bev c)) ∧
    buf (trace s') (Input (relay_bev c)) = [] ∧
    (∀ q, q ≠ Input (relay_bev c) → q ≠ Output (client_bev c) → buf (trace s') q = buf (trace s) q) ∧
    ∃ cs, s' = did cs s.
Proof.
  intros Hc Hb Hr. apply wp_tt. unfold transocks_relay_readcb. do 4 st_step. by apply wp_move_all.
Qed.

(** The relay's output was written: when it is all out and the client has
    sent its end of file, the relay's sending direction is shut down; then the
    client is released exactly when all four directions are shut down, and
    otherwise it goes on with these flags. *)
Lemma relay_writecb_outcome s p c head l1 l2 :
  pumping s p c head l1 l2 →
  let fin := is_nil (buf (trace s) (Output (relay_bev c))) && client_shutdown_read c in
  ∃ s', transocks_relay_writecb p s = Ok tt s' ∧
    pump_outcome p c (if fin then set_relay_shutdown_write true c else c)
      (c_evbuffer_get_length (Output (relay_bev c)) :: opt fin (c_shutdown (relay_fd c) SHUT_WR)) head l1 l2 s s'.
Proof.
  intros Hpu fin. apply wp_tt. pose proof Hpu as [_ [Hc _ Hr _ _ _ _ _] _ _ Hrb _].
  unfold transocks_relay_writecb, TRANSOCKS_SHUTDOWN. st_steps. apply wp_get_length; [by apply handle_live|]. st_steps.
  rewrite length_eqb_nil. fold fin. destruct fin; st_steps; (eapply wp_check_close_free; [done|done|continues_tac]).
Qed.

(** The same for the client's output and the relay's end of file. *)
Lemma client_writecb_outcome s p c head l1 l2 :
  pumping s p c head l1 l2 →
  let fin := is_nil (buf (trace s) (Output (client_bev c))) && relay_shutdown_read c in
  ∃ s', transocks_client_writecb p s = Ok tt s' ∧
    pump_outcome p c (if fin then set_client_shutdown_write true c else c)
      (c_evbuffer_get_length (Output (client_bev c)) :: opt fin (c_shutdown (client_fd c) SHUT_WR)) head l1 l2 s s'.
Proof.
  intros Hpu fin. apply wp_tt. pose proof Hpu as [_ [Hc _ _ Hb _ _ _ _] _ Hcb _ _].
  unfold transocks_client_writecb, TRANSOCKS_SHUTDOWN. st_steps. apply wp_get_length; [by apply handle_live|]. st_steps.
  rewrite length_eqb_nil. fold fin. destruct fin; st_steps; (eapply wp_check_close_free; [done|done|continues_tac]).
Qed.

(** An event on the client's side of a connection: the callback returns,
    and the client follows the half-close protocol [client_event_spec]; it is
    released at once on an error, and otherwise exactly when all four
    directions are shut down. *)
Lemma client_eventcb_outcome s p c head l1 l2 events errno :
  pumping s p c head l1 l2 →
  ∃ s', transocks_client_eventcb events errno p s = Ok tt s' ∧
    event_outcome p c (client_event_spec events errno (is_nil (buf (trace s) (Output (relay_bev c)))) c)
      head l1 l2 s s'.
Proof.
  intros Hpu. apply wp_tt. pose proof Hpu as [Hn [Hc _ Hr Hb _ _ _ _] _ Hcb Hrb _].
  unfold transocks_client_eventcb, client_event_spec, event_outcome, TRANSOCKS_SHUTDOWN.
  destruct (_ && _); [|destruct (_ && _); [|destruct (TRANSOCKS_CHKBIT _ _)]]; st_steps.
  - apply wp_bev_disable; [by apply handle_live|]. intros f _ Hf. st_steps.
    apply wp_get_length; [st_norm; apply alter_is_Some; by apply handle_live|]. st_steps.
    rewrite length_eqb_nil, andb_true_r, eb_keeps by done. simpl. rewrite eb_keeps by done.
    destruct (is_nil _); st_steps; (eapply wp_check_close_free; [done|done|continues_tac]).
  - apply wp_bev_disable; [by apply handle_live|]. intros f _ Hf. st_steps.
    eapply wp_check_close_free; [done|done|continues_tac].
  - rewrite TRANSOCKS_FREE_live by (by eapply client_not_null). by eapply wp_bufferpump_free.
  - eapply wp_check_close_free; [done|done|continues_tac].
Qed.

(** An event on the relay's side, in the same way. *)
Lemma relay_eventcb_outcome s p c head l1 l2 events errno :
  pumping s p c head l1 l2 →
  ∃ s', transocks_relay_eventcb events errno p s = Ok tt s' ∧
    event_outcome p c (relay_event_spec events errno (is_nil (buf (trace s) (Output (client_bev c)))) c)
      head l1 l2 s s'.
Proof.
  intros Hpu. apply wp_tt. pose proof Hpu as [Hn [Hc _ Hr Hb _ _ _ _] _ Hcb Hrb _].
  unfold transocks_relay_eventcb, relay_event_spec, event_outcome, TRANSOCKS_SHUTDOWN.
  destruct (_ && _); [|destruct (_ && _); [|destruct (TRANSOCKS_CHKBIT _ _)]]; st_steps.
  - apply wp_bev_disable; [by apply handle_live|]. intros f _ Hf. st_steps.
    apply wp_get_length; [st_norm; apply alter_is_Some; by apply handle_live|]. st_steps.
    rewrite length_eqb_nil, andb_true_r, eb_keeps by done. simpl. rewrite eb_keeps by done.
    destruct (is_nil _); st_steps; (eapply wp_check_close_free; [done|done|continues_tac]).
  - apply wp_bev_disable; [by apply handle_live|]. intros f _ Hf. st_steps.
    eapply wp_check_close_free; [done|done|continues_tac].
  - rewrite TRANSOCKS_FREE_live by (by eapply client_not_null). by eapply wp_bufferpump_free.
  - eapply wp_check_close_free; [done|done|continues_tac].
Qed.

(** All bytes of the buffer [a] went to the end of the buffer [b], in order,
    and nothing else changed. *)
Definition moved_all (a b : evbuffer) s s' : Prop :=
  buf (trace s') b = buf (trace s) b ++ buf (trace s) a ∧ buf (trace s') a = [] ∧
  (∀ q, q ≠ a → q ≠ b → buf (trace s') q = buf (trace s) q) ∧ ∃ cs, s' = did cs s.

(** C11 The read callbacks relay everything: all bytes of the input buffer of
    one side are appended, in order, to the output buffer of the other side,
    the input buffer is left empty, and nothing else changes. *)
Theorem readcb_moves s p c :
  clients s !! p = Some c → is_Some (bevs s !! client_bev c) → is_Some (bevs s !! relay_bev c) →
  (∃ s', transocks_client_readcb p s = Ok tt s' ∧
         moved_all (Input (client_bev c)) (Output (relay_bev c)) s s') ∧
  (∃ s', transocks_relay_readcb p s = Ok tt s' ∧
         moved_all (Input (relay_bev c)) (Output (client_bev c)) s s').
Proof. intros Hc Hb Hr. split; [by apply client_readcb_moves|by apply relay_readcb_moves]. Qed.

(** C13 The write callbacks: when the output of one side is all out and the
    other side has sent its end of file, the sending direction is shut down,
    by exactly one call of [shutdown] on this side's descriptor; then the
    client is released exactly when all four directions are shut down, and
    otherwise it goes on with these flags. *)
Theorem writecb_outcome s p c head l1 l2 :
  pumping s p c head l1 l2 →
  let f1 := is_nil (buf (trace s) (Output (relay_bev c))) && client_shutdown_read c in
  let f2 := is_nil (buf (trace s) (Output (client_bev c))) && relay_shutdown_read c in
  (∃ s', transocks_relay_writecb p s = Ok tt s' ∧
     pump_outcome p c (if f1 then set_relay_shutdown_write true c else c)
       (c_evbuffer_get_length (Output (relay_bev c)) :: opt f1 (c_shutdown (relay_fd c) SHUT_WR)) head l1 l2 s s') ∧
  (∃ s', transocks_client_writecb p s = Ok tt s' ∧
     pump_outcome p c (if f2 then set_client_shutdown_write true c else c)
       (c_evbuffer_get_length (Output (client_bev c)) :: opt f2 (c_shutdown (client_fd c) SHUT_WR)) head l1 l2 s s').
Proof. intros Hp f1 f2. split; [by apply relay_writecb_outcome|by apply client_writecb_outcome]. Qed.

(** C12 An event on either side of a connection: the callback returns, and the
    client follows the half-close protocol [client_event_spec] or
    [relay_event_spec], which fixes the flags and the calls with their order;
    it is released at once on an error, and otherwise exactly when all four
    directions are shut down. *)
Theorem eventcb_outcome s p c head l1 l2 events errno :
  pumping s p c head l1 l2 →
  (∃ s', transocks_client_eventcb events errno p s = Ok tt s' ∧
     event_outcome p c (client_event_spec events errno (is_nil (buf (trace s) (Output (relay_bev c)))) c)
       head l1 l2 s s') ∧
  (∃ s', transocks_relay_eventcb events errno p s = Ok tt s' ∧
     event_outcome p c (relay_event_spec events errno (is_nil (buf (trace s) (Output (client_bev c)))) c)
       head l1 l2 s s').
Proof. intros Hp. split; [by apply client_eventcb_outcome|by apply relay_eventcb_outcome]. Qed.
End bufferpump_theorems.

(** What the pump asks of libevent for one side. *)
Record relaying (b : bufferevent) (rcb wcb ecb : fn) (p : Z) : Prop := {
  rel_read : bev_readcb b = Some rcb;
  rel_write : bev_writecb b = Some wcb;
  rel_event : bev_eventcb b = Some ecb;
  rel_arg : bev_cbarg b = p;
  rel_high : bev_read_low b = 0 ∧ bev_read_high b = TRANSOCKS_BUFSIZE
}.

Section start_theorems.
Context {EXT : Env}.
Implicit Types s : state.

(** Only registrations of bufferevents change, and no buffer. *)
Definition bev_only s s' : Prop :=
  ∃ cs, s' = did cs (set_bevs (bevs s') s) ∧ forallb (λ k, negb (touches_buf k)) cs = true.

Lemma bev_only_refl s : bev_only s s.
Proof. exists []. split; [|done]. rewrite did_nil. by destruct s. Qed.

Lemma bev_only_push s s' k : touches_buf k = false → bev_only s s' → bev_only s (push (ICall k) s').
Proof.
  intros Hk (cs & Hs & Hcs). exists (cs ++ [k]). split; [|by rewrite forallb_app, Hcs; simpl; rewrite Hk].
  rewrite <-did_did. simpl. by rewrite <-Hs.
Qed.

Lemma bev_only_set s s' m : bev_only s s' → bev_only s (set_bevs m s').
Proof. intros (cs & Hs & Hcs). exists cs. split; [|done]. rewrite Hs. done. Qed.

#[local] Hint Resolve bev_only_refl bev_only_push bev_only_set : core.

(** Starting the pump changes the two bufferevents and nothing else, and no
    buffer. *)
Lemma wp_bufferpump_start s p c cbev rbev :
  clients s !! p = Some c → client_bev c ≠ relay_bev c →
  bevs s !! client_bev c = Some cbev → bevs s !! relay_bev c = Some rbev →
  wp (transocks_bufferpump_start_pump p) (λ r s', ∃ cbev' rbev', (r = 0 ∨ r = -1) ∧
    ((∀ tr b ev, ext tr (c_bufferevent_enable b ev) = 0) → r = 0) ∧
    bev_only s s' ∧ bevs s' !! client_bev c = Some cbev' ∧ bevs s' !! relay_bev c = Some rbev' ∧
    (∀ q, q ≠ client_bev c → q ≠ relay_bev c → bevs s' !! q = bevs s !! q) ∧
    relaying cbev' fn_transocks_client_readcb fn_transocks_client_writecb fn_transocks_client_eventcb p ∧
    relaying rbev' fn_transocks_relay_readcb fn_transocks_relay_writecb fn_transocks_relay_eventcb p ∧
    (r = 0 → bev_enabled cbev' = Z.lor (bev_enabled cbev) (Z.lor EV_READ EV_WRITE) ∧
             bev_enabled rbev' = Z.lor (bev_enabled rbev) (Z.lor EV_READ EV_WRITE))) s.
Proof.
  intros Hc Hne Hcb Hrb.
  unfold transocks_bufferpump_start_pump, bufferevent_setwatermark, bufferevent_setcb, bufferevent_enable.
  st_steps. z_case; st_steps; [z_case|]; st_steps;
    (do 2 eexists; split_and!; [auto|naive_solver|auto 20|st_lookup|st_lookup|intros q ? ?; by simplify_map_eq|..]);
    by repeat split.
Qed.

(** Starting the buffer pump installs the three callbacks of each side
    with the client as their argument and bounds both input buffers by
    [TRANSOCKS_BUFSIZE]; it returns 0 or -1, and with 0 both sides read and
    write. *)
Theorem bufferpump_start_installs s p c cbev rbev :
  clients s !! p = Some c → client_bev c ≠ relay_bev c →
  bevs s !! client_bev c = Some cbev → bevs s !! relay_bev c = Some rbev →
  ∃ r s' cbev' rbev', transocks_bufferpump_start_pump p s = Ok r s' ∧ (r = 0 ∨ r = -1) ∧
    bevs s' !! client_bev c = Some cbev' ∧ bevs s' !! relay_bev c = Some rbev' ∧
    (∀ q, q ≠ client_bev c → q ≠ relay_bev c → bevs s' !! q = bevs s !! q) ∧
    relaying cbev' fn_transocks_client_readcb fn_transocks_client_writecb fn_transocks_client_eventcb p ∧
    relaying rbev' fn_transocks_relay_readcb fn_transocks_relay_writecb fn_transocks_relay_eventcb p ∧
    (r = 0 → bev_enabled cbev' = Z.lor (bev_enabled cbev) (Z.lor EV_READ EV_WRITE) ∧
             bev_enabled rbev' = Z.lor (bev_enabled rbev) (Z.lor EV_READ EV_WRITE)).
Proof.
  intros. pose proof (wp_bufferpump_start s p c cbev rbev) as (r & s' & ? & cbev' & rbev' & ? & _ & ? & ?)%wp_run;
    eauto 10.
Qed.
End start_theorems.

(** ** Concrete callbacks *)

Lemma ex_pumping : pumping ex_state 5000 ex_client 4176 [] [].
Proof.
  split; [apply wf_null_ok, wf_ex_state|apply ex_client_ok|reflexivity|discriminate|discriminate|concrete_dlist].
Qed.

(** Both input buffers and the client's output buffer hold data. *)
Definition ex_bufs (b : evbuffer) : list Z :=
  match b with
  | Input 5600 => [1; 2; 3]
  | Input 5700 => [4; 5]
  | Output 5600 => [9]
  | _ => []
  end.

Lemma readcb_moves_witness :
  let EXT := buffered ex_bufs in
  let buf := sim_buf ex_bufs in
  (∃ s', transocks_client_readcb 5000 ex_state = Ok tt s' ∧ moved_all buf (Input 5600) (Output 5700) ex_state s') ∧
  (∃ s', transocks_relay_readcb 5000 ex_state = Ok tt s' ∧ moved_all buf (Input 5700) (Output 5600) ex_state s').
Proof.
  intros EXT buf. apply (readcb_moves (EXT:=EXT) buf (LAWS:=buffered_laws ex_bufs) ex_state 5000 ex_client);
    [reflexivity|eexists; reflexivity..].
Defined.

Lemma writecb_outcome_witness :
  let EXT := buffered ex_bufs in
  (∃ s', transocks_relay_writecb 5000 ex_state = Ok tt s' ∧
         pump_outcome 5000 ex_client ex_client [c_evbuffer_get_length (Output 5700)] 4176 [] [] ex_state s') ∧
  (∃ s', transocks_client_writecb 5000 ex_state = Ok tt s' ∧
         pump_outcome 5000 ex_client ex_client [c_evbuffer_get_length (Output 5600)] 4176 [] [] ex_state s').
Proof.
  intros EXT.
  apply (writecb_outcome (EXT:=EXT) (sim_buf ex_bufs) (LAWS:=buffered_laws ex_bufs) ex_state 5000 ex_client).
  apply ex_pumping.
Defined.

(** An end of file on either side; the client's output buffer is not empty. *)
Lemma eventcb_outcome_witness :
  let EXT := buffered ex_bufs in
  (∃ s', transocks_client_eventcb 17 0 5000 ex_state = Ok tt s' ∧
     event_outcome 5000 ex_client
       (Some (set_relay_shutdown_write true (set_client_shutdown_read true ex_client),
              [c_bufferevent_disable 5600 EV_READ; c_shutdown 8 SHUT_RD; c_evbuffer_get_length (Output 5700);
               c_shutdown 7 SHUT_WR])) 4176 [] [] ex_state s') ∧
  (∃ s', transocks_relay_eventcb 17 0 5000 ex_state = Ok tt s' ∧
     event_outcome 5000 ex_client
       (Some (set_relay_shutdown_read true ex_client,
              [c_bufferevent_disable 5700 EV_READ; c_shutdown 7 SHUT_RD; c_evbuffer_get_length (Output 5600)])) 4176 [] [] ex_state s').
Proof.
  intros EXT.
  apply (eventcb_outcome (EXT:=EXT) (sim_buf ex_bufs) (LAWS:=buffered_laws ex_bufs) ex_state 5000 ex_client
    4176 [] [] 17 0).
  apply ex_pumping.
Defined.

Lemma bufferpump_start_installs_witness :
  ∃ r s' cbev' rbev', transocks_bufferpump_start_pump (EXT:=quiet) 5000 ex_state = Ok r s' ∧ (r = 0 ∨ r = -1) ∧
    bevs s' !! 5600 = Some cbev' ∧ bevs s' !! 5700 = Some rbev' ∧
    (∀ q, q ≠ 5600 → q ≠ 5700 → bevs s' !! q = bevs ex_state !! q) ∧
    relaying cbev' fn_transocks_client_readcb fn_transocks_client_writecb fn_transocks_client_eventcb 5000 ∧
    relaying rbev' fn_transocks_relay_readcb fn_transocks_relay_writecb fn_transocks_relay_eventcb 5000 ∧
    (r = 0 → bev_enabled cbev' = Z.lor EV_WRITE (Z.lor EV_READ EV_WRITE) ∧
             bev_enabled rbev' = Z.lor EV_WRITE (Z.lor EV_READ EV_WRITE)).
Proof.
  apply (bufferpump_start_installs (EXT:=quiet) ex_state 5000 ex_client
    (Bufferevent 8 BEV_OPT_CLOSE_ON_FREE None None None NULL EV_WRITE 0 0)
    (Bufferevent 7 BEV_OPT_CLOSE_ON_FREE None None None NULL EV_WRITE 0 0));
    [reflexivity|discriminate|reflexivity|reflexivity].
Defined.

