(* ===== verification/SplicePump.v ===== *)
(** * splicepump.c: relaying through kernel pipes

    Each direction has a pipe: the read callback of the source socket splices
    into it, the callback of the pipe's read end splices out of it into the
    target socket. *)

From S2P Require Import Prelude DList ListSpec Structs World Util Context BufferPump.
Local Open Scope Z_scope.

Definition TRANSOCKS_SPLICE_SHOULD_LOG_ERR (err : Z) : bool :=
  negb (err =? EBADF) && negb (err =? ENOTCONN).

Section splicepump.
Context {EXT : Env}.

(** [TRANSOCKS_EVENT_ACTIVE(ev, events)] *)
Definition TRANSOCKS_EVENT_ACTIVE (ev events : Z) : C unit :=
  pending ← event_pending ev events;
  if negb pending then event_active ev events else mret tt.

Definition getpipesize (fd : Z) : C Z :=
  if fd <? 0 then mret (-1) else
  ret ← sys (c_fcntl_getpipe_sz fd);
  if ret =? -1 then mret (-1) else
  mret ret.

Definition transocks_get_splicepump (pclient : Z) : C Z := fld pclient user_arg.

(** [TRANSOCKS_CLOSE(pump->pipe->fd)] for the two ends of the pipe [p]. *)
Definition close_pipe_end (pump : Z) (pipe : transocks_splicepump → Z)
    (get : transocks_splicepipe → Z) (clr : transocks_splicepipe → transocks_splicepipe) : C unit :=
  TRANSOCKS_CLOSE_at (p ← fld pump pipe; fld p get) (p ← fld pump pipe; modify p clr).

Definition del_if_set (ev : Z) : C unit :=
  if negb (ev =? NULL) then event_del ev ;; mret tt else mret tt.

Definition transocks_splicepump_free (pclient : Z) : C unit :=
  if pclient =? NULL then mret tt else
  ppump ← transocks_get_splicepump pclient;
  if ppump =? NULL then mret tt else
  close_pipe_end ppump inbound_pipe pipe_writefd (set_pipe_writefd (-1)) ;;
  close_pipe_end ppump inbound_pipe pipe_readfd (set_pipe_readfd (-1)) ;;
  TRANSOCKS_FREE_at (tr_free transocks_splicepipe) (fld ppump inbound_pipe) (modify ppump (set_inbound_pipe NULL)) ;;
  close_pipe_end ppump outbound_pipe pipe_writefd (set_pipe_writefd (-1)) ;;
  close_pipe_end ppump outbound_pipe pipe_readfd (set_pipe_readfd (-1)) ;;
  TRANSOCKS_FREE_at (tr_free transocks_splicepipe) (fld ppump outbound_pipe) (modify ppump (set_outbound_pipe NULL)) ;;
  ev ← fld ppump client_read_ev; del_if_set ev ;;
  ev ← fld ppump client_write_ev; del_if_set ev ;;
  ev ← fld ppump relay_read_ev; del_if_set ev ;;
  ev ← fld ppump relay_write_ev; del_if_set ev ;;
  TRANSOCKS_FREE_at event_free (fld ppump client_read_ev) (modify ppump (set_client_read_ev NULL)) ;;
  TRANSOCKS_FREE_at event_free (fld ppump client_write_ev) (modify ppump (set_client_write_ev NULL)) ;;
  TRANSOCKS_FREE_at event_free (fld ppump relay_read_ev) (modify ppump (set_relay_read_ev NULL)) ;;
  TRANSOCKS_FREE_at event_free (fld ppump relay_write_ev) (modify ppump (set_relay_write_ev NULL)) ;;
  TRANSOCKS_FREE (tr_free transocks_splicepump) ppump ;;
  TRANSOCKS_FREE transocks_client_free pclient.

Definition transocks_on_fatal_failure (pclient : Z) : C unit :=
  TRANSOCKS_FREE transocks_splicepump_free pclient.

(** The test of [transocks_check_normal_termination]. *)
Definition normal_termination (c : transocks_client) (direction : transocks_splicepump_data_direction) : bool :=
  if TRANSOCKS_IS_INVALID_FD (client_fd c) || TRANSOCKS_IS_INVALID_FD (relay_fd c) then true
  else match direction with
       | inbound => relay_shutdown_read c && client_shutdown_write c
       | outbound => client_shutdown_read c && relay_shutdown_write c
       end.

Definition transocks_check_normal_termination (pclient : Z)
    (direction : transocks_splicepump_data_direction) : C unit :=
  flag ← fld pclient (λ c, normal_termination c direction);
  if (flag : bool) then TRANSOCKS_FREE transocks_splicepump_free pclient else mret tt.

(** Returns the result and, for [normal_transfer], the number of bytes. *)
Definition transocks_single_splice (from_fd to_fd want_len : Z)
    : C (transocks_splicepump_splice_result * Z) :=
  r ← sys (c_splice from_fd to_fd want_len (Z.lor SPLICE_F_MOVE SPLICE_F_NONBLOCK));
  let '(n, errno) := r in
  if n =? -1 then
    if TRANSOCKS_IS_RETRIABLE errno then mret (can_retry, 0) else mret (fatal_failure, 0)
  else if n =? 0 then mret (read_eof, 0)
  else mret (normal_transfer, n).

(** What a direction selects: the source and the target of the data, its
    pipe, the flags and the events. *)
Definition dir_source (d : transocks_splicepump_data_direction) (c : transocks_client) : Z :=
  match d with inbound => relay_fd c | outbound => client_fd c end.
Definition dir_target (d : transocks_splicepump_data_direction) (c : transocks_client) : Z :=
  match d with inbound => client_fd c | outbound => relay_fd c end.
Definition dir_pipe (d : transocks_splicepump_data_direction) (p : transocks_splicepump) : Z :=
  match d with inbound => inbound_pipe p | outbound => outbound_pipe p end.
Definition dir_read_ev (d : transocks_splicepump_data_direction) (p : transocks_splicepump) : Z :=
  match d with inbound => relay_read_ev p | outbound => client_read_ev p end.
Definition dir_write_ev (d : transocks_splicepump_data_direction) (p : transocks_splicepump) : Z :=
  match d with inbound => client_write_ev p | outbound => relay_write_ev p end.
Definition dir_set_read_eof (d : transocks_splicepump_data_direction) : transocks_client → transocks_client :=
  match d with inbound => set_relay_shutdown_read true | outbound => set_client_shutdown_read true end.
Definition dir_set_write_eof (d : transocks_splicepump_data_direction) : transocks_client → transocks_client :=
  match d with inbound => set_client_shutdown_write true | outbound => set_relay_shutdown_write true end.

Definition transocks_write_to_pipe (pclient : Z) (direction : transocks_splicepump_data_direction) : C unit :=
  ppump ← transocks_get_splicepump pclient;
  from_fd ← fld pclient (dir_source direction);
  ultimate_target_fd ← fld pclient (dir_target direction);
  pipe ← fld ppump (dir_pipe direction);
  this_libevent_ev ← fld ppump (dir_read_ev direction);
  ultimate_target_libevent_ev ← fld ppump (dir_write_ev direction);
  to_fd ← fld pipe pipe_writefd;
  cap ← fld pipe capacity;
  want_len ← rd cap;
  if TRANSOCKS_IS_INVALID_FD from_fd || TRANSOCKS_IS_INVALID_FD to_fd then
    transocks_on_fatal_failure pclient
  else
  r ← transocks_single_splice from_fd to_fd want_len;
  let '(splice_ret, transfer_bytes) := r in
  match splice_ret with
  | normal_transfer =>
      modify pipe (λ p, set_data_in_pipe (size_t (data_in_pipe p + size_t transfer_bytes)) p) ;;
      transocks_check_normal_termination pclient direction
  | can_retry =>
      d ← fld pipe data_in_pipe;
      (if negb (TRANSOCKS_IS_INVALID_FD ultimate_target_fd) && (0 <? d)
       then TRANSOCKS_EVENT_ACTIVE ultimate_target_libevent_ev EV_READ
       else mret tt) ;;
      transocks_check_normal_termination pclient direction
  | fatal_failure => transocks_on_fatal_failure pclient
  | read_eof =>
      modify pclient (dir_set_read_eof direction) ;;
      TRANSOCKS_SHUTDOWN from_fd SHUT_RD ;;
      TRANSOCKS_CLOSE to_fd ;;
      event_del this_libevent_ev ;;
      transocks_check_normal_termination pclient direction
  end.

Definition transocks_read_from_pipe (pclient : Z) (direction : transocks_splicepump_data_direction) : C unit :=
  ppump ← transocks_get_splicepump pclient;
  to_fd ← fld pclient (dir_target direction);
  pipe ← fld ppump (dir_pipe direction);
  from_fd ← fld pipe pipe_readfd;
  want_len ← fld pipe data_in_pipe;
  if TRANSOCKS_IS_INVALID_FD from_fd || TRANSOCKS_IS_INVALID_FD to_fd then
    transocks_on_fatal_failure pclient
  else
  r ← transocks_single_splice from_fd to_fd want_len;
  let '(splice_ret, transfer_bytes) := r in
  match splice_ret with
  | normal_transfer =>
      modify pipe (λ p, set_data_in_pipe (size_t (data_in_pipe p - size_t transfer_bytes)) p) ;;
      transocks_check_normal_termination pclient direction
  | can_retry => transocks_check_normal_termination pclient direction
  | fatal_failure => transocks_on_fatal_failure pclient
  | read_eof =>
      modify pclient (dir_set_write_eof direction) ;;
      TRANSOCKS_SHUTDOWN to_fd SHUT_WR ;;
      TRANSOCKS_CLOSE from_fd ;;
      transocks_check_normal_termination pclient direction
  end.

Definition transocks_splicepump_client_readcb (pclient : Z) : C unit :=
  transocks_write_to_pipe pclient outbound.
Definition transocks_splicepump_relay_writecb (pclient : Z) : C unit :=
  ppump ← transocks_get_splicepump pclient;
  transocks_read_from_pipe pclient outbound.
Definition transocks_splicepump_relay_readcb (pclient : Z) : C unit :=
  transocks_write_to_pipe pclient inbound.
Definition transocks_splicepump_client_writecb (pclient : Z) : C unit :=
  transocks_read_from_pipe pclient inbound.

(** A failed allocation of a pipe returns NULL with the blocks allocated so
    far neither released nor attached. *)
Definition transocks_splicepump_new (pclient : Z) : C Z :=
  pump ← tr_malloc (TransocksSplicepump NULL NULL NULL NULL NULL NULL);
  if pump =? NULL then mret NULL else
  modify pump (λ _, TransocksSplicepump NULL NULL NULL NULL NULL NULL) ;;
  ip ← tr_malloc (TransocksSplicepipe 0 0 0 None);
  modify pump (set_inbound_pipe ip) ;;
  if ip =? NULL then mret NULL else
  modify ip (λ p, TransocksSplicepipe (-1) (-1) 0 (capacity p)) ;;
  op ← tr_malloc (TransocksSplicepipe 0 0 0 None);
  modify pump (set_outbound_pipe op) ;;
  if op =? NULL then mret NULL else
  modify op (λ p, TransocksSplicepipe (-1) (-1) 0 (capacity p)) ;;
  modify pclient (set_user_arg pump) ;;
  mret pump.

Definition transocks_splicepump_dump_info (pclient : Z) : C unit :=
  if pclient =? NULL then mret tt else
  ppump ← transocks_get_splicepump pclient;
  if ppump =? NULL then mret tt else
  pm ← load (T:=transocks_splicepump) ppump;
  print_line (LFTAB +:+ "pipe:") ;;
  ip ← load (T:=transocks_splicepipe) (inbound_pipe pm);
  icap ← rd (capacity ip);
  print_line (LFTAB +:+ "  IN: R " +:+ format_d (pipe_readfd ip) +:+ " W " +:+ format_d (pipe_writefd ip)
              +:+ " DATALEN " +:+ format_d (data_in_pipe ip) +:+ " CAPACITY " +:+ format_d icap) ;;
  op ← load (T:=transocks_splicepipe) (outbound_pipe pm);
  ocap ← rd (capacity op);
  print_line (LFTAB +:+ "  OUT: R " +:+ format_d (pipe_readfd op) +:+ " W " +:+ format_d (pipe_writefd op)
              +:+ " DATALEN " +:+ format_d (data_in_pipe op) +:+ " CAPACITY " +:+ format_d ocap) ;;
  transocks_client_dump_info pclient.

(** [createpipe] into the two ends of a pipe struct. *)
Definition create_pipe_at (pipe : Z) : C Z :=
  r ← createpipe;
  let '(ret, (rfd, wfd)) := r in
  if negb (ret =? 0) then mret ret else
  modify pipe (λ p, set_pipe_readfd rfd (set_pipe_writefd wfd p)) ;;
  mret 0.

Definition transocks_splicepump_start_pump (pclient : Z) : C Z :=
  penv ← fld pclient global_env;
  let fail : C Z :=
    TRANSOCKS_FREE transocks_splicepump_free pclient ;;
    mret (-1) in
  cb ← fld pclient client_bev;
  error ← bufferevent_disable cb (Z.lor EV_READ EV_WRITE);
  if negb (error =? 0) then fail else
  rb ← fld pclient relay_bev;
  error ← bufferevent_disable rb (Z.lor EV_READ EV_WRITE);
  if negb (error =? 0) then fail else
  bufferevent_setfd cb (-1) ;;
  bufferevent_setfd rb (-1) ;;
  pump ← transocks_splicepump_new pclient;
  if pump =? NULL then fail else
  ip ← fld pump inbound_pipe;
  e ← create_pipe_at ip;
  if negb (e =? 0) then fail else
  op ← fld pump outbound_pipe;
  e ← create_pipe_at op;
  if negb (e =? 0) then fail else
  irfd ← fld ip pipe_readfd;
  pipesz ← getpipesize irfd;
  if pipesz =? -1 then fail else
  modify ip (set_capacity (Some (size_t pipesz))) ;;
  orfd ← fld op pipe_readfd;
  pipesz ← getpipesize orfd;
  if pipesz =? -1 then fail else
  modify op (set_capacity (Some (size_t pipesz))) ;;
  base ← fld penv eventBaseLoop;
  cfd ← fld pclient client_fd;
  ev ← event_new base cfd (Z.lor EV_READ EV_PERSIST) fn_splicepump_client_readcb pclient;
  modify pump (set_client_read_ev ev) ;;
  if ev =? NULL then fail else
  ev ← event_new base irfd (Z.lor EV_READ EV_PERSIST) fn_splicepump_client_writecb pclient;
  modify pump (set_client_write_ev ev) ;;
  if ev =? NULL then fail else
  rfd ← fld pclient relay_fd;
  ev ← event_new base rfd (Z.lor EV_READ EV_PERSIST) fn_splicepump_relay_readcb pclient;
  modify pump (set_relay_read_ev ev) ;;
  if ev =? NULL then fail else
  ev ← event_new base orfd (Z.lor EV_READ EV_PERSIST) fn_splicepump_relay_writecb pclient;
  modify pump (set_relay_write_ev ev) ;;
  if ev =? NULL then fail else
  ev ← fld pump client_read_ev; e ← event_add ev None;
  if negb (e =? 0) then fail else
  ev ← fld pump client_write_ev; e ← event_add ev None;
  if negb (e =? 0) then fail else
  ev ← fld pump relay_read_ev; e ← event_add ev None;
  if negb (e =? 0) then fail else
  ev ← fld pump relay_write_ev; e ← event_add ev None;
  if negb (e =? 0) then fail else
  mret 0.
End splicepump.

(** ** A client without a pump *)

Section no_pump.
Context {EXT : Env}.
Implicit Types s : state.

Lemma splicepump_free_no_pump s p c :
  clients s !! p = Some c → user_arg c = NULL → transocks_splicepump_free p s = Ok tt s.
Proof.
  intros Hc Hu. unfold transocks_splicepump_free, transocks_get_splicepump, fld, load, mbind, M_bind.
  destruct (p =? NULL); [done|]. simpl. rewrite Hc. simpl. by rewrite Hu.
Qed.

Lemma splicepump_dump_no_pump s p c :
  clients s !! p = Some c → user_arg c = NULL → transocks_splicepump_dump_info p s = Ok tt s.
Proof.
  intros Hc Hu. unfold transocks_splicepump_dump_info, transocks_get_splicepump, fld, load, mbind, M_bind.
  destruct (p =? NULL); [done|]. simpl. rewrite Hc. simpl. by rewrite Hu.
Qed.
End no_pump.

(** ** Release of a pumping client *)

Definition pump_evs (pm : transocks_splicepump) : list Z :=
  [client_read_ev pm; client_write_ev pm; relay_read_ev pm; relay_write_ev pm].

(** Two entries of the list are the same only when they are NULL. *)
Definition apart_list (l : list Z) : Prop := ForallOrdPairs (λ x y, y = x → y = NULL) l.

(** The splice pump [pm] of the client [c] and its two pipes. *)
Record splice_ok (s : state) (c : transocks_client) (pm : transocks_splicepump)
    (pi po : transocks_splicepipe) : Prop := {
  so_pump : pumps s !! user_arg c = Some pm;
  so_pump_null : pumps s !! NULL = None;
  so_pipe_null : pipes s !! NULL = None;
  so_in : pipes s !! inbound_pipe pm = Some pi;
  so_out : pipes s !! outbound_pipe pm = Some po;
  so_ne : inbound_pipe pm ≠ outbound_pipe pm;
  so_evs : Forall (handle_ok (evs s)) (pump_evs pm);
  so_apart : apart_list (pump_evs pm ++ [timeout_ev c])
}.

Definition close_calls (pp : transocks_splicepipe) : list call :=
  opt (0 <=? pipe_writefd pp) (c_close (pipe_writefd pp)) ++
  opt (0 <=? pipe_readfd pp) (c_close (pipe_readfd pp)).

(** The calls [transocks_splicepump_free] makes before the client is released. *)
Definition splice_free_calls (ua : Z) (pm : transocks_splicepump) (pi po : transocks_splicepipe) : list call :=
  close_calls pi ++ [c_free (inbound_pipe pm)] ++ close_calls po ++ [c_free (outbound_pipe pm)] ++
  (pump_evs pm ≫= λ ev, opt (negb (ev =? NULL)) (c_event_del ev)) ++
  (pump_evs pm ≫= λ ev, opt (negb (ev =? NULL)) (c_event_free ev)) ++ [c_free ua].

Definition splice_freed (c : transocks_client) (pm : transocks_splicepump) (pi po : transocks_splicepipe)
    (s : state) : state :=
  did (splice_free_calls (user_arg c) pm pi po)
    (set_pumps (delete (user_arg c) (pumps s))
    (set_pipes (delete (outbound_pipe pm) (delete (inbound_pipe pm) (pipes s)))
    (set_evs (delete (relay_write_ev pm) (delete (relay_read_ev pm)
                (delete (client_write_ev pm) (delete (client_read_ev pm) (evs s))))) s))).

Section splice_rules.
Context {EXT : Env}.
Implicit Types s : state.

Lemma wp_close_pipe_end pump pipe get set pm pp (Q : unit → state → Prop) s :
  (∀ q, set (get q) q = q) → pumps s !! pump = Some pm → pipes s !! pipe pm = Some pp →
  Q tt (did (opt (0 <=? get pp) (c_close (get pp)))
          (set_pipes (<[pipe pm := set (if 0 <=? get pp then -1 else get pp) pp]> (pipes s)) s)) →
  wp (close_pipe_end pump pipe get (set (-1))) Q s.
Proof.
  intros Hset Hpm Hpp HQ. unfold close_pipe_end, TRANSOCKS_CLOSE_at. st_steps.
  destruct (0 <=? get pp); st_steps; [done|]. rewrite Hset, insert_id in HQ by done.
  unfold opt in HQ. rewrite did_nil in HQ. by destruct s.
Qed.

(** One pipe: both ends closed, the struct freed, the pump's field cleared. *)
Lemma wp_drop_pipe ua get set pm pp (K : C unit) (Q : unit → state → Prop) s :
  (∀ q, set (get q) q = q) → pumps s !! ua = Some pm → pipes s !! NULL = None → pipes s !! get pm = Some pp →
  wp K Q (did (close_calls pp ++ [c_free (get pm)])
           (set_pipes (delete (get pm) (pipes s)) (set_pumps (<[ua := set NULL pm]> (pumps s)) s))) →
  wp (close_pipe_end ua get pipe_writefd (set_pipe_writefd (-1)) ;;
      close_pipe_end ua get pipe_readfd (set_pipe_readfd (-1)) ;;
      TRANSOCKS_FREE_at (tr_free transocks_splicepipe) (fld ua get) (modify ua (set NULL)) ;; K) Q s.
Proof.
  intros Hset Hpm Hnull Hpp HK. assert (get pm ≠ NULL) as Hne by (intros E; rewrite E in *; congruence).
  apply wp_bind. eapply wp_close_pipe_end; [by intros []|st_lookup|st_lookup|]. st_norm.
  apply wp_bind. eapply wp_close_pipe_end; [by intros []|st_lookup|st_lookup|]. st_norm.
  apply wp_bind. unfold tr_free. eapply (wp_free_at get set); [done|apply _|apply _|st_lookup|..].
  - st_norm. by rewrite !lookup_insert_ne.
  - right. st_norm. simplify_map_eq. eauto.
  - eapply eq_ind; [exact HK|]. unfold close_calls.
    apply Z.eqb_neq in Hne. rewrite Hne. st_eq. by rewrite insert_insert_eq, delete_insert_eq.
Qed.

Lemma wp_del_if_set ev (Q : unit → state → Prop) s :
  evs s !! NULL = None → handle_ok (evs s) ev →
  Q tt (did (opt (negb (ev =? NULL)) (c_event_del ev))
          (set_evs (alter (set_ev_added false) ev (evs s)) s)) →
  wp (del_if_set ev) Q s.
Proof. apply wp_opt_del. Qed.

Lemma wp_splicepump_free s p c pm pi po head l1 l2 :
  null_ok s → client_ok s p c → is_destroyed (client_state c) = false →
  splice_ok s c pm pi po → dlist (nodes s) head (l1 ++ client_node p :: l2) →
  wp (transocks_splicepump_free p) (λ _ s', ∃ h, s' = client_freed p c h (splice_freed c pm pi po s) ∧
       dlist (nodes s') head (l1 ++ l2) ∧ nodes s' !! client_node p = None ∧
       same_outside (head :: l1 ++ client_node p :: l2) (nodes s) (nodes s')) s.
Proof.
  intros Hn Hc Hst [] Hd. pose proof Hc as [Hp _ _ _ _ _ _ _].
  pose proof (client_not_null _ _ _ Hn Hp) as Hpn. pose proof Hn as [_ _ _ Hne].
  unfold transocks_splicepump_free, transocks_get_splicepump.
  replace (p =? NULL) with false by (symmetry; by apply Z.eqb_neq). st_steps.
  assert (user_arg c ≠ NULL) as Hua by (intros E; rewrite E in *; congruence).
  replace (user_arg c =? NULL) with false by (symmetry; by apply Z.eqb_neq).
  apply (wp_drop_pipe _ inbound_pipe set_inbound_pipe pm pi); [by intros []|done..|]. st_norm.
  eapply (wp_drop_pipe _ outbound_pipe set_outbound_pipe); [by intros []|st_lookup|st_norm; auto with tr|st_lookup|].
  unfold pump_evs in so_evs0. decompose_Forall_hyps. st_steps.
  apply wp_del_if_set; [done|done|]. st_steps.
  apply wp_del_if_set; [st_norm; auto with tr|st_norm; auto with tr|]. st_steps.
  apply wp_del_if_set; [st_norm; auto with tr|st_norm; auto with tr|]. st_steps.
  apply wp_del_if_set; [st_norm; auto with tr|st_norm; auto with tr|]. st_norm.
  unfold apart_list in so_apart0. simpl in so_apart0.
  repeat match goal with H : ForallOrdPairs _ (_ :: _) |- _ => inversion_clear H end. decompose_Forall_hyps.
  unfold event_free. free_field client_read_ev set_client_read_ev. st_norm.
  free_field client_write_ev set_client_write_ev. st_norm.
  free_field relay_read_ev set_relay_read_ev. st_norm.
  free_field relay_write_ev set_relay_write_ev. st_norm.
  rewrite !TRANSOCKS_FREE_live by done. unfold tr_free, release. st_steps.
  match goal with |- wp _ _ ?t => assert (t = splice_freed c pm pi po s) as -> end.
  { unfold splice_freed, splice_free_calls, pump_evs. cbn [mbind list_bind]. rewrite !app_nil_r. st_eq.
    - by rewrite ?insert_insert_eq, ?delete_insert_eq.
    - apply map_eq. intros k. rewrite !lookup_delete, !lookup_alter. by repeat case_decide. }
  eapply wp_mono; [eapply (wp_client_free_listed _ p c head l1 l2); [..|exact Hd]|].
  - destruct Hn. split; unfold splice_freed; st_norm; auto with tr.
  - destruct Hc. split; unfold splice_freed; st_norm; eauto 12 with tr.
  - done.
  - intros [] s' (h & ? & ? & ? & ?). by exists h.
Qed.

(** C16 Releasing a client of the splice pump returns, makes exactly the calls
    of [splice_free_calls] (the ends of both pipes that are open closed, both
    pipe structs freed, the four events deleted and freed, the pump freed) and
    then those of the client's release, removes exactly these objects, and
    takes the client out of the list. *)
Theorem splicepump_free_releases s p c pm pi po head l1 l2 :
  null_ok s → client_ok s p c → is_destroyed (client_state c) = false →
  splice_ok s c pm pi po → dlist (nodes s) head (l1 ++ client_node p :: l2) →
  ∃ h, transocks_splicepump_free p s = Ok tt (client_freed p c h (splice_freed c pm pi po s)) ∧
       dlist (delete (client_node p) h) head (l1 ++ l2).
Proof.
  intros Hn Hc Hst Hs Hd.
  pose proof (wp_splicepump_free s p c pm pi po head l1 l2 Hn Hc Hst Hs Hd) as ([] & s' & Hr & h & -> & H & _)%wp_run.
  by exists h.
Qed.
End splice_rules.

(** ** Moving data *)

(** The objects of the client and its pump are gone, and the client left the
    list. *)
Record splice_released (p : Z) (c : transocks_client) (pm : transocks_splicepump) (pi po : transocks_splicepipe)
    (cs : list call) (head : Z) (l1 l2 : list Z) (s s' : state) : Prop := {
  sr_clients : clients s' = delete p (clients s);
  sr_pumps : pumps s' = delete (user_arg c) (pumps s);
  sr_pipes : pipes s' = delete (outbound_pipe pm) (delete (inbound_pipe pm) (pipes s));
  sr_blocks : blocks s' = blocks s;
  sr_evs : evs s' = delete (timeout_ev c) (delete (relay_write_ev pm) (delete (relay_read_ev pm)
             (delete (client_write_ev pm) (delete (client_read_ev pm) (evs s)))));
  sr_bevs : bevs s' = delete (client_bev c) (delete (relay_bev c) (bevs s));
  sr_addrs : addrs s' = delete (dest_addr c) (delete (client_addr c) (addrs s));
  sr_list : dlist (nodes s') head (l1 ++ l2);
  sr_node : nodes s' !! client_node p = None;
  sr_nodes : same_outside (head :: l1 ++ client_node p :: l2) (nodes s) (nodes s');
  sr_trace : trace s' = trace (did (cs ++ splice_free_calls (user_arg c) pm pi po ++ client_free_calls p c) s)
}.

Definition registration (t : event) : fn * Z := (ev_cb t, ev_arg t).

(** The client is now [c'], the pipe of the direction is [pp'], the event of
    its source may no longer be added, and nothing else changed. *)
Record moved (p : Z) (d : transocks_splicepump_data_direction) (pm : transocks_splicepump)
    (c c' : transocks_client) (pp' : transocks_splicepipe) (s s' : state) : Prop := {
  mv_clients : clients s' = <[p := c']> (clients s);
  mv_pipes : pipes s' = <[dir_pipe d pm := pp']> (pipes s);
  mv_pumps : pumps s' = pumps s;
  mv_blocks : blocks s' = blocks s;
  mv_evs : delete (dir_read_ev d pm) (evs s') = delete (dir_read_ev d pm) (evs s);
  mv_read : registration <$> evs s' !! dir_read_ev d pm = registration <$> evs s !! dir_read_ev d pm;
  mv_bevs : bevs s' = bevs s;
  mv_addrs : addrs s' = addrs s;
  mv_nodes : nodes s' = nodes s
}.

Lemma moved_registration p d pm c c' pp' s s' q :
  moved p d pm c c' pp' s s' → registration <$> evs s' !! q = registration <$> evs s !! q.
Proof.
  intros []. destruct (decide (q = dir_read_ev d pm)) as [->|Hq]; [done|].
  by rewrite <-(lookup_delete_ne (evs s') (dir_read_ev d pm)), mv_evs0, lookup_delete_ne.
Qed.

Lemma moved_live p d pm c c' pp' s s' q : moved p d pm c c' pp' s s' → is_Some (evs s' !! q) ↔ is_Some (evs s !! q).
Proof. intros H. by rewrite <-(fmap_is_Some registration), (moved_registration _ _ _ _ _ _ _ _ q H), fmap_is_Some. Qed.

(** [c'] differs from [c] in its shutdown flags only. *)
Definition flags_changed (c c' : transocks_client) : Prop :=
  same_handles c c' ∧ client_fd c' = client_fd c ∧ relay_fd c' = relay_fd c ∧
  client_state c' = client_state c ∧ user_arg c' = user_arg c ∧ global_env c' = global_env c ∧
  client_addr_len c' = client_addr_len c ∧ dest_addr_len c' = dest_addr_len c.

(** What a data callback needs: the client in the list, alive, with its pump
    and its two pipes. *)
Record splicing (s : state) (p : Z) (c : transocks_client) (pm : transocks_splicepump)
    (pi po : transocks_splicepipe) (head : Z) (l1 l2 : list Z) : Prop := {
  sp_null : null_ok s;
  sp_ok : client_ok s p c;
  sp_alive : is_destroyed (client_state c) = false;
  sp_pump : splice_ok s c pm pi po;
  sp_list : dlist (nodes s) head (l1 ++ client_node p :: l2)
}.

(** The pipe keeps its descriptors. *)
Definition same_ends (pp pp' : transocks_splicepipe) : Prop :=
  pipe_readfd pp' = pipe_readfd pp ∧ pipe_writefd pp' = pipe_writefd pp.

Definition dir_struct (d : transocks_splicepump_data_direction) (pi po : transocks_splicepipe) :=
  match d with inbound => pi | outbound => po end.

Lemma moved_splicing s s1 p c c' d pm pi po pp' head l1 l2 :
  splicing s p c pm pi po head l1 l2 → flags_changed c c' → moved p d pm c c' pp' s s1 →
  splicing s1 p c' pm (match d with inbound => pp' | outbound => pi end)
    (match d with inbound => po | outbound => pp' end) head l1 l2.
Proof.
  intros [Hn Hc Ha Hs Hl] (Hh & E1 & E2 & E3 & E4 & _) Hmv. pose proof (λ q, moved_live _ _ _ _ _ _ _ _ q Hmv) as Hlive.
  destruct Hmv. assert (evs s1 !! NULL = None) as Hev.
  { apply eq_None_not_Some. rewrite Hlive. destruct Hn as [_ _ _ ->]. by intros []. }
  pose proof (client_not_null _ _ _ Hn (co_live _ _ _ Hc)). pose proof Hh as (_ & _ & _ & _ & Et).
  split; [..|by rewrite mv_nodes0].
  - destruct Hn. split; [|congruence|congruence|done]. rewrite mv_clients0. by rewrite lookup_insert_ne.
  - eapply client_ok_mono; [done| |done|intros q; by apply Hlive|by rewrite mv_bevs0|by rewrite mv_addrs0].
    rewrite mv_clients0. apply lookup_insert_eq.
  - by rewrite E3.
  - destruct Hs. split; rewrite ?E4, ?Et, ?mv_pumps0, ?mv_pipes0; try done.
    + rewrite lookup_insert_ne; [done|]. destruct d; simpl; intros E; rewrite E in *; congruence.
    + destruct d; simpl; by simplify_map_eq.
    + destruct d; simpl; by simplify_map_eq.
    + eapply Forall_impl; [done|]. intros x. apply handle_ok_mono. intros q. by apply Hlive.
Qed.

Section splice_theorems.
Context {EXT : Env}.
Implicit Types s : state.

Lemma wp_release_moved s s1 p c c' d pm pi po pp' head l1 l2 cs :
  splicing s p c pm pi po head l1 l2 → flags_changed c c' → moved p d pm c c' pp' s s1 →
  same_ends (dir_struct d pi po) pp' → trace s1 = trace (did cs s) →
  wp (transocks_splicepump_free p) (λ _ s', splice_released p c pm pi po cs head l1 l2 s s') s1.
Proof.
  intros Hsp Hf Hmv [He1 He2] Ht. pose proof (moved_splicing _ _ _ _ _ _ _ _ _ _ _ _ _ Hsp Hf Hmv) as [Hn Hc Ha Hs Hl].
  eapply wp_mono; [by eapply wp_splicepump_free|]. intros [] s' (h & -> & Hd & Hno & Hout). destruct Hmv.
  destruct Hf as ((Ea & Ed & Ecb & Erb & Et) & Ecf & Erf & _ & Eu & _).
  assert (close_calls pp' = close_calls (dir_struct d pi po)) as Ecl by (unfold close_calls; by rewrite He1, He2).
  split; [..|done|done|by rewrite <-mv_nodes0|]; unfold client_freed, splice_freed; st_norm; rewrite ?Ea, ?Ed, ?Ecb, ?Erb, ?Et, ?Eu; try congruence.
  - by rewrite mv_clients0, delete_insert_eq.
  - rewrite mv_pipes0. apply map_eq. intros k. rewrite !lookup_delete, lookup_insert.
    destruct d; simpl; by repeat case_decide.
  - apply map_eq. intros k. pose proof (f_equal (.!! k) mv_evs0) as Hk. rewrite !lookup_delete in Hk. rewrite !lookup_delete.
    destruct d; simpl in Hk; by repeat case_decide.
  - rewrite Ht. unfold client_free_calls, splice_free_calls. rewrite Ea, Ed, Ecb, Erb, Et, Ecf, Erf.
    destruct d; simpl in Ecl; rewrite Ecl; st_norm; by rewrite !fmap_app, !reverse_app, <-!(assoc_L (++)).
Qed.

Lemma wp_check_termination s s1 p c c' d pm pi po pp' head l1 l2 cs (Q : unit → state → Prop) :
  splicing s p c pm pi po head l1 l2 → flags_changed c c' → moved p d pm c c' pp' s s1 →
  same_ends (dir_struct d pi po) pp' → trace s1 = trace (did cs s) →
  (∀ s', (if normal_termination c' d then splice_released p c pm pi po cs head l1 l2 s s' else s' = s1) → Q tt s') →
  wp (transocks_check_normal_termination p d) Q s1.
Proof.
  intros Hsp Hf Hmv Hse Ht HQ. pose proof (moved_splicing _ _ _ _ _ _ _ _ _ _ _ _ _ Hsp Hf Hmv) as [Hn Hc _ _ _].
  pose proof (co_live _ _ _ Hc) as Hp. unfold transocks_check_normal_termination. st_steps.
  destruct (normal_termination c' d); st_steps; [|by apply HQ].
  rewrite TRANSOCKS_FREE_live by (by eapply client_not_null).
  eapply wp_mono; [by eapply wp_release_moved|]. intros [] s' ?. by apply HQ.
Qed.

Definition not_splice (c : call) : bool := match c with c_splice _ _ _ _ => false | _ => true end.

(** The state after a data callback that called [sp] and is left with a client
    and a pipe by [spec]: it made the calls of [spec] too, and the connection
    is released when the direction is finished. *)
Definition splice_outcome p d pm pi po c head l1 l2
    (spec : option (transocks_client * transocks_splicepipe * list call)) (sp : call) s s' : Prop :=
  match spec with
  | None => splice_released p c pm pi po [sp] head l1 l2 s s'
  | Some (c', pp', cs) =>
      if normal_termination c' d then splice_released p c pm pi po (sp :: cs) head l1 l2 s s'
      else moved p d pm c c' pp' s s' ∧ trace s' = trace (did (sp :: cs) s)
  end.

(** What the reply [(n, errno)] of [splice] makes of the source's client and
    the pipe, and the calls that follow; [pending] is the reply of
    [event_pending] for the event of the other end. *)
Definition write_spec (d : transocks_splicepump_data_direction) (c : transocks_client) (pm : transocks_splicepump)
    (pp : transocks_splicepipe) (n errno : Z) (pending : bool)
    : option (transocks_client * transocks_splicepipe * list call) :=
  if n =? -1 then
    if TRANSOCKS_IS_RETRIABLE errno then
      Some (c, pp, if negb (dir_target d c =? -1) && (0 <? data_in_pipe pp)
                   then c_event_pending (dir_write_ev d pm) EV_READ ::
                        opt (negb pending) (c_event_active (dir_write_ev d pm) EV_READ)
                   else [])
    else None
  else if n =? 0 then
    Some (dir_set_read_eof d c, pp,
          c_shutdown (dir_source d c) SHUT_RD :: opt (0 <=? pipe_writefd pp) (c_close (pipe_writefd pp)) ++
          [c_event_del (dir_read_ev d pm)])
  else Some (c, set_data_in_pipe (size_t (data_in_pipe pp + size_t n)) pp, []).

Definition read_spec (d : transocks_splicepump_data_direction) (c : transocks_client)
    (pp : transocks_splicepipe) (n errno : Z) : option (transocks_client * transocks_splicepipe * list call) :=
  if n =? -1 then if TRANSOCKS_IS_RETRIABLE errno then Some (c, pp, []) else None
  else if n =? 0 then
    Some (dir_set_write_eof d c, pp,
          c_shutdown (dir_target d c) SHUT_WR :: opt (0 <=? pipe_readfd pp) (c_close (pipe_readfd pp)))
  else Some (c, set_data_in_pipe (size_t (data_in_pipe pp - size_t n)) pp, []).

Lemma write_spec_calls d c pm pp n errno pending c' pp' cs :
  write_spec d c pm pp n errno pending = Some (c', pp', cs) → forallb not_splice cs.
Proof.
  unfold write_spec. intros H. repeat case_match; simplify_eq; try done.
  - by destruct pending.
  - by destruct (0 <=? pipe_writefd pp').
Qed.

Lemma read_spec_calls d c pp n errno c' pp' cs :
  read_spec d c pp n errno = Some (c', pp', cs) → forallb not_splice cs.
Proof.
  unfold read_spec. intros H. repeat case_match; simplify_eq; try done. by destruct (0 <=? pipe_readfd pp').
Qed.

Definition splice_flags : Z := Z.lor SPLICE_F_MOVE SPLICE_F_NONBLOCK.

(** The end of a data callback. *)
Lemma wp_finish s s1 p c c' d pm pi po pp' head l1 l2 sp cs :
  splicing s p c pm pi po head l1 l2 → flags_changed c c' → moved p d pm c c' pp' s s1 →
  same_ends (dir_struct d pi po) pp' → trace s1 = trace (did (sp :: cs) s) →
  wp (transocks_check_normal_termination p d)
     (λ _ s', splice_outcome p d pm pi po c head l1 l2 (Some (c', pp', cs)) sp s s') s1.
Proof.
  intros Hsp Hf Hmv Hse Ht. eapply wp_check_termination; [done..|]. intros s'. unfold splice_outcome.
  destruct (normal_termination c' d); [done|]. by intros ->.
Qed.

Lemma wp_event_active_macro ev events (Q : unit → state → Prop) s :
  is_Some (evs s !! ev) →
  Q tt (did (c_event_pending ev events ::
             opt (negb (ext (trace s) (c_event_pending ev events))) (c_event_active ev events)) s) →
  wp (TRANSOCKS_EVENT_ACTIVE ev events) Q s.
Proof.
  intros [e He] HQ. unfold TRANSOCKS_EVENT_ACTIVE, event_pending, event_active. st_steps.
  destruct (ext (trace s) (c_event_pending ev events)); st_norm; st_steps; [done|].
  match goal with |- Q ?u _ => destruct u end. done.
Qed.

(** Without a change to the client or the pipe, only calls were made. *)
Lemma moved_did p d pm c pp cs s :
  clients s !! p = Some c → pipes s !! dir_pipe d pm = Some pp → moved p d pm c c pp s (did cs s).
Proof. intros Hc Hp. split; st_norm; rewrite ?insert_id; done. Qed.

Lemma wp_fatal s p c pm pi po head l1 l2 d cs :
  splicing s p c pm pi po head l1 l2 → pipes s !! dir_pipe d pm = Some (dir_struct d pi po) →
  wp (transocks_on_fatal_failure p) (λ _ s', splice_released p c pm pi po cs head l1 l2 s s') (did cs s).
Proof.
  intros Hsp Hpp. pose proof Hsp as [Hn Hc _ _ _]. unfold transocks_on_fatal_failure.
  rewrite TRANSOCKS_FREE_live by (eapply client_not_null; [done|apply Hc]).
  eapply (wp_release_moved s _ p c c d pm); [done|done| |done|done]. apply moved_did; [apply Hc|done].
Qed.

Lemma pump_evs_live s d c pm pi po :
  splice_ok s c pm pi po → Forall (.≠ NULL) (pump_evs pm) →
  is_Some (evs s !! dir_read_ev d pm) ∧ is_Some (evs s !! dir_write_ev d pm).
Proof.
  intros [_ _ _ _ _ _ He _] Hnn. unfold pump_evs in *. decompose_Forall_hyps.
  destruct d; simpl; auto using handle_live.
Qed.

Lemma trace_calls sp cs s : trace (did cs (did [sp] s)) = trace (did (sp :: cs) s).
Proof. by rewrite did_did. Qed.

Lemma flags_changed_refl c : flags_changed c c.
Proof. done. Qed.

Lemma flags_changed_read d c : flags_changed c (dir_set_read_eof d c).
Proof. by destruct d. Qed.

Lemma flags_changed_write d c : flags_changed c (dir_set_write_eof d c).
Proof. by destruct d. Qed.

Lemma wp_write_to_pipe s p c pm pi po head l1 l2 d cap n errno :
  splicing s p c pm pi po head l1 l2 → Forall (.≠ NULL) (pump_evs pm) →
  dir_source d c ≠ -1 → pipe_writefd (dir_struct d pi po) ≠ -1 →
  capacity (dir_struct d pi po) = Some cap →
  let sp := c_splice (dir_source d c) (pipe_writefd (dir_struct d pi po)) cap splice_flags in
  ext (trace s) sp = (n, errno) →
  wp (transocks_write_to_pipe p d) (λ _ s', splice_outcome p d pm pi po c head l1 l2
    (write_spec d c pm (dir_struct d pi po) n errno (ext (trace (did [sp] s)) (c_event_pending (dir_write_ev d pm) EV_READ)))
    sp s s') s.
Proof.
  intros Hsp Hnn Hsrc Hdst Hcap sp Hsplice. pose proof Hsp as [Hn Hc Ha Hs Hl].
  pose proof (co_live _ _ _ Hc) as Hp. pose proof Hs as [].
  assert (pipes s !! dir_pipe d pm = Some (dir_struct d pi po)) as Hpp by (by destruct d).
  set (pp := dir_struct d pi po) in *.
  unfold transocks_write_to_pipe, transocks_get_splicepump, transocks_single_splice. st_steps.
  assert ((TRANSOCKS_IS_INVALID_FD (dir_source d c) || TRANSOCKS_IS_INVALID_FD (pipe_writefd pp)) = false) as ->.
  { unfold TRANSOCKS_IS_INVALID_FD. apply orb_false_iff. split; by apply Z.eqb_neq. }
  st_steps. fold splice_flags. fold sp. rewrite Hsplice. unfold write_spec.
  change (push (ICall sp) s) with (did [sp] s). destruct (pump_evs_live s d c pm pi po Hs Hnn) as [[er Her] Hew].
  destruct (n =? -1); [destruct (TRANSOCKS_IS_RETRIABLE errno)|destruct (n =? 0)]; st_steps.
  - unfold TRANSOCKS_IS_INVALID_FD. destruct (_ && _).
    + apply wp_event_active_macro; [done|]. rewrite did_did. eapply wp_finish; [done|done| |done|done]. by apply moved_did.
    + st_steps. eapply wp_finish; [done|done| |done|done]. by apply moved_did.
  - by eapply wp_fatal.
  - unfold TRANSOCKS_SHUTDOWN, TRANSOCKS_CLOSE, event_del. st_steps.
    destruct (0 <=? pipe_writefd pp); st_steps;
      (eapply wp_finish; [done|apply flags_changed_read| |done|done];
       split; st_norm; rewrite ?(insert_id (pipes s)), ?delete_insert_eq, ?lookup_insert_eq, ?Her; done).
  - eapply wp_finish; [done|done| |done|done]. split; st_norm; by rewrite ?(insert_id (clients s)).
Qed.

(** A socket became readable: the callback splices at most a pipe's
    capacity from it into the direction's pipe, and does what [write_spec]
    says of the reply: it accounts for the bytes, notes an end of file, or
    tries again later; the connection is released on a fatal error and when
    the direction is finished.  It never faults. *)
Lemma write_to_pipe_outcome s p c pm pi po head l1 l2 d cap n errno :
  splicing s p c pm pi po head l1 l2 → Forall (.≠ NULL) (pump_evs pm) →
  dir_source d c ≠ -1 → pipe_writefd (dir_struct d pi po) ≠ -1 →
  capacity (dir_struct d pi po) = Some cap →
  let sp := c_splice (dir_source d c) (pipe_writefd (dir_struct d pi po)) cap splice_flags in
  ext (trace s) sp = (n, errno) →
  ∃ s', transocks_write_to_pipe p d s = Ok tt s' ∧
    splice_outcome p d pm pi po c head l1 l2
    (write_spec d c pm (dir_struct d pi po) n errno (ext (trace (did [sp] s)) (c_event_pending (dir_write_ev d pm) EV_READ)))
    sp s s'.
Proof. intros. apply wp_tt. by eapply wp_write_to_pipe. Qed.

Lemma wp_read_from_pipe s p c pm pi po head l1 l2 d n errno :
  splicing s p c pm pi po head l1 l2 →
  dir_target d c ≠ -1 → pipe_readfd (dir_struct d pi po) ≠ -1 →
  let sp := c_splice (pipe_readfd (dir_struct d pi po)) (dir_target d c)
              (data_in_pipe (dir_struct d pi po)) splice_flags in
  ext (trace s) sp = (n, errno) →
  wp (transocks_read_from_pipe p d) (λ _ s', splice_outcome p d pm pi po c head l1 l2 (read_spec d c (dir_struct d pi po) n errno) sp s s') s.
Proof.
  intros Hsp Hdst Hsrc sp Hsplice. pose proof Hsp as [Hn Hc Ha Hs Hl].
  pose proof (co_live _ _ _ Hc) as Hp. pose proof Hs as [].
  assert (pipes s !! dir_pipe d pm = Some (dir_struct d pi po)) as Hpp by (by destruct d).
  set (pp := dir_struct d pi po) in *.
  unfold transocks_read_from_pipe, transocks_get_splicepump, transocks_single_splice. st_steps.
  assert ((TRANSOCKS_IS_INVALID_FD (pipe_readfd pp) || TRANSOCKS_IS_INVALID_FD (dir_target d c)) = false) as ->.
  { unfold TRANSOCKS_IS_INVALID_FD. apply orb_false_iff. split; by apply Z.eqb_neq. }
  st_steps. fold splice_flags. fold sp. rewrite Hsplice. unfold read_spec.
  change (push (ICall sp) s) with (did [sp] s).
  destruct (n =? -1); [destruct (TRANSOCKS_IS_RETRIABLE errno)|destruct (n =? 0)]; st_steps.
  - eapply wp_finish; [done|done| |done|done]. by apply moved_did.
  - by eapply wp_fatal.
  - unfold TRANSOCKS_SHUTDOWN, TRANSOCKS_CLOSE. st_steps. destruct (0 <=? pipe_readfd pp); st_steps;
      (eapply wp_finish; [done|apply flags_changed_write| |done|done]; split; st_norm; by rewrite ?(insert_id (pipes s))).
  - eapply wp_finish; [done|done| |done|done]. split; st_norm; by rewrite ?(insert_id (clients s)).
Qed.

(** Data waits in a pipe: the callback splices what the pipe holds out to
    the direction's target, and does what [read_spec] says of the reply. *)
Lemma read_from_pipe_outcome s p c pm pi po head l1 l2 d n errno :
  splicing s p c pm pi po head l1 l2 →
  dir_target d c ≠ -1 → pipe_readfd (dir_struct d pi po) ≠ -1 →
  let sp := c_splice (pipe_readfd (dir_struct d pi po)) (dir_target d c)
              (data_in_pipe (dir_struct d pi po)) splice_flags in
  ext (trace s) sp = (n, errno) →
  ∃ s', transocks_read_from_pipe p d s = Ok tt s' ∧
    splice_outcome p d pm pi po c head l1 l2 (read_spec d c (dir_struct d pi po) n errno) sp s s'.
Proof. intros. apply wp_tt. by eapply wp_read_from_pipe. Qed.

(** ** Accounting

    What the code relies on of the kernel for one pipe, given by its two ends
    and its capacity: [inpipe] is the number of bytes in it after a history.
    Only [splice] calls on the pipe's ends change it. *)
Class PipeLaws (rfd wfd cap : Z) (inpipe : list item → Z) : Prop := {
  pl_range tr : 0 ≤ inpipe tr ≤ cap;
  pl_cap : cap < 2 ^ 64;
  pl_in tr from len flags : from ≠ rfd →
    -1 ≤ fst (ext tr (c_splice from wfd len flags)) ∧
    inpipe (ICall (c_splice from wfd len flags) :: tr)
    = inpipe tr + Z.max 0 (fst (ext tr (c_splice from wfd len flags)));
  pl_out tr to len flags : to ≠ wfd →
    -1 ≤ fst (ext tr (c_splice rfd to len flags)) ∧
    inpipe (ICall (c_splice rfd to len flags) :: tr)
    = inpipe tr - Z.max 0 (fst (ext tr (c_splice rfd to len flags)));
  pl_other tr c : not_splice c → inpipe (ICall c :: tr) = inpipe tr
}.

Lemma inpipe_calls rfd wfd cap inpipe `{!PipeLaws rfd wfd cap inpipe} cs s :
  forallb not_splice cs → inpipe (trace (did cs s)) = inpipe (trace s).
Proof.
  revert s. induction cs as [|c cs IH]; intros s; [by rewrite did_nil|].
  intros Hcs. simpl in Hcs. apply andb_prop_elim in Hcs as [H1 H2]. change (c :: cs) with ([c] ++ cs). rewrite <-did_did, IH by done.
  simpl. by apply pl_other.
Qed.

(** The counter of the pipe is the number of bytes in it. *)
Definition accounted d (pm : transocks_splicepump) cap (inpipe : list item → Z) s : Prop :=
  ∃ pp, pipes s !! dir_pipe d pm = Some pp ∧ data_in_pipe pp = inpipe (trace s) ∧ 0 ≤ data_in_pipe pp ≤ cap.

(** The counter [data_in_pipe] stays exact: when it is the number of bytes
    in the pipe before the callback of a readable socket, it is so after it,
    unless the connection was released; it neither exceeds the pipe's
    capacity nor wraps around. *)
Lemma write_to_pipe_accounts s p c pm pi po head l1 l2 d cap inpipe :
  splicing s p c pm pi po head l1 l2 → Forall (.≠ NULL) (pump_evs pm) →
  dir_source d c ≠ -1 → pipe_writefd (dir_struct d pi po) ≠ -1 →
  dir_source d c ≠ pipe_readfd (dir_struct d pi po) →
  capacity (dir_struct d pi po) = Some cap →
  PipeLaws (pipe_readfd (dir_struct d pi po)) (pipe_writefd (dir_struct d pi po)) cap inpipe →
  data_in_pipe (dir_struct d pi po) = inpipe (trace s) →
  ∃ s', transocks_write_to_pipe p d s = Ok tt s' ∧
    ((∃ cs, splice_released p c pm pi po cs head l1 l2 s s') ∨ accounted d pm cap inpipe s').
Proof.
  intros Hsp Hnn H1 H2 H3 Hcap LAWS Hacc. apply wp_tt.
  destruct (ext (trace s) (c_splice (dir_source d c) (pipe_writefd (dir_struct d pi po)) cap splice_flags))
    as [n errno] eqn:E.
  eapply wp_mono; [by eapply wp_write_to_pipe|]. intros [] s' Ho. unfold splice_outcome in Ho.
  destruct (write_spec _ _ _ _ _ _ _) as [[[c' pp'] cs]|] eqn:Ew; [|left; eauto].
  destruct (normal_termination c' d); [left; eauto|]. destruct Ho as [[] Ht]. right.
  pose proof (write_spec_calls _ _ _ _ _ _ _ _ _ _ Ew) as Hcs.
  set (pp := dir_struct d pi po) in *. set (sp := c_splice _ _ _ _) in *.
  assert (inpipe (trace s') = inpipe (trace s) + Z.max 0 n) as Hin.
  { rewrite Ht. change (sp :: cs) with ([sp] ++ cs). rewrite <-did_did.
    rewrite (inpipe_calls (pipe_readfd pp) (pipe_writefd pp) cap) by done. simpl.
    destruct (pl_in (trace s) (dir_source d c) cap splice_flags H3) as [_ Hi]. fold sp in Hi. rewrite E in Hi. done. }
  pose proof (pl_range (trace s)) as R1. pose proof (pl_range (trace s')) as R2. pose proof pl_cap as R3.
  assert (-1 ≤ n) as Hn1.
  { destruct (pl_in (trace s) (dir_source d c) cap splice_flags H3) as [Hi _]. fold sp in Hi. by rewrite E in Hi. }
  exists pp'. split; [rewrite mv_pipes0; apply lookup_insert_eq|]. rewrite Hin.
  cut (data_in_pipe pp' = inpipe (trace s) + Z.max 0 n); [lia|]. unfold write_spec in Ew.
  destruct (Z.eqb_spec n (-1)); [destruct (TRANSOCKS_IS_RETRIABLE errno); simplify_eq; lia|].
  destruct (Z.eqb_spec n 0); simplify_eq; simpl; [lia|].
  rewrite (wrap_small 64 n) by lia. rewrite wrap_small by lia. lia.
Qed.

(** The same for the callback of a pipe that holds data: the counter stays
    exact and does not fall below zero. *)
Lemma read_from_pipe_accounts s p c pm pi po head l1 l2 d cap inpipe :
  splicing s p c pm pi po head l1 l2 →
  dir_target d c ≠ -1 → pipe_readfd (dir_struct d pi po) ≠ -1 →
  dir_target d c ≠ pipe_writefd (dir_struct d pi po) →
  PipeLaws (pipe_readfd (dir_struct d pi po)) (pipe_writefd (dir_struct d pi po)) cap inpipe →
  data_in_pipe (dir_struct d pi po) = inpipe (trace s) →
  ∃ s', transocks_read_from_pipe p d s = Ok tt s' ∧
    ((∃ cs, splice_released p c pm pi po cs head l1 l2 s s') ∨ accounted d pm cap inpipe s').
Proof.
  intros Hsp H1 H2 H3 LAWS Hacc. apply wp_tt.
  set (pp := dir_struct d pi po) in *.
  destruct (ext (trace s) (c_splice (pipe_readfd pp) (dir_target d c) (data_in_pipe pp) splice_flags))
    as [n errno] eqn:E.
  eapply wp_mono; [by eapply wp_read_from_pipe|]. fold pp. intros [] s' Ho. unfold splice_outcome in Ho.
  destruct (read_spec _ _ _ _ _) as [[[c' pp'] cs]|] eqn:Ew; [|left; eauto].
  destruct (normal_termination c' d); [left; eauto|]. destruct Ho as [[] Ht]. right.
  pose proof (read_spec_calls _ _ _ _ _ _ _ _ Ew) as Hcs.
  set (sp := c_splice _ _ _ _) in *.
  destruct (pl_out (trace s) (dir_target d c) (data_in_pipe pp) splice_flags H3) as [Hn1 Hi].
  fold sp in Hn1, Hi. rewrite E in Hn1, Hi. simpl in Hn1, Hi.
  assert (inpipe (trace s') = inpipe (trace s) - Z.max 0 n) as Hin.
  { rewrite Ht. change (sp :: cs) with ([sp] ++ cs). rewrite <-did_did.
    by rewrite (inpipe_calls (pipe_readfd pp) (pipe_writefd pp) cap). }
  pose proof (pl_range (trace s)) as R1. pose proof (pl_range (trace s')) as R2. pose proof pl_cap as R3.
  exists pp'. split; [rewrite mv_pipes0; apply lookup_insert_eq|]. rewrite Hin.
  cut (data_in_pipe pp' = inpipe (trace s) - Z.max 0 n); [lia|]. unfold read_spec in Ew.
  destruct (Z.eqb_spec n (-1)); [destruct (TRANSOCKS_IS_RETRIABLE errno); simplify_eq; lia|].
  destruct (Z.eqb_spec n 0); simplify_eq; simpl; [lia|].
  rewrite (wrap_small 64 n) by lia. rewrite wrap_small by lia. lia.
Qed.

(** C15 The two data callbacks of a direction.  When a socket is readable, at
    most the pipe's capacity is spliced from it into the direction's pipe;
    when a pipe holds data, what it holds is spliced out to the target.  What
    the reply says is done ([write_spec], [read_spec]): the bytes are accounted
    for, an end of file is noted and passed on, or the other end is woken up;
    the specification fixes all calls and their order.  The connection is
    released on a fatal error and when the direction is finished.  The
    callbacks never fault. *)
Theorem pipe_callbacks_outcome s p c pm pi po head l1 l2 d cap n e m f :
  splicing s p c pm pi po head l1 l2 → Forall (.≠ NULL) (pump_evs pm) →
  let pp := dir_struct d pi po in
  dir_source d c ≠ -1 → dir_target d c ≠ -1 → pipe_writefd pp ≠ -1 → pipe_readfd pp ≠ -1 →
  capacity pp = Some cap →
  let spw := c_splice (dir_source d c) (pipe_writefd pp) cap splice_flags in
  let spr := c_splice (pipe_readfd pp) (dir_target d c) (data_in_pipe pp) splice_flags in
  ext (trace s) spw = (n, e) → ext (trace s) spr = (m, f) →
  (∃ s', transocks_write_to_pipe p d s = Ok tt s' ∧
         splice_outcome p d pm pi po c head l1 l2
           (write_spec d c pm pp n e (ext (trace (did [spw] s)) (c_event_pending (dir_write_ev d pm) EV_READ))) spw s s') ∧
  (∃ s', transocks_read_from_pipe p d s = Ok tt s' ∧
         splice_outcome p d pm pi po c head l1 l2 (read_spec d c pp m f) spr s s').
Proof. intros. split; [by eapply write_to_pipe_outcome|by eapply read_from_pipe_outcome]. Qed.

(** C14 The counter [data_in_pipe] stays exact: when it is the number of bytes
    in the pipe before a data callback of its direction, it is so afterwards,
    unless the connection was released; it neither exceeds the pipe's capacity
    nor falls below zero, so it never wraps around. *)
Theorem pipe_counter_exact s p c pm pi po head l1 l2 d cap inpipe :
  splicing s p c pm pi po head l1 l2 → Forall (.≠ NULL) (pump_evs pm) →
  let pp := dir_struct d pi po in
  dir_source d c ≠ -1 → dir_target d c ≠ -1 → pipe_writefd pp ≠ -1 → pipe_readfd pp ≠ -1 →
  dir_source d c ≠ pipe_readfd pp → dir_target d c ≠ pipe_writefd pp →
  capacity pp = Some cap → PipeLaws (pipe_readfd pp) (pipe_writefd pp) cap inpipe →
  data_in_pipe pp = inpipe (trace s) →
  (∃ s', transocks_write_to_pipe p d s = Ok tt s' ∧
         ((∃ cs, splice_released p c pm pi po cs head l1 l2 s s') ∨ accounted d pm cap inpipe s')) ∧
  (∃ s', transocks_read_from_pipe p d s = Ok tt s' ∧
         ((∃ cs, splice_released p c pm pi po cs head l1 l2 s s') ∨ accounted d pm cap inpipe s')).
Proof. intros. split; [by eapply write_to_pipe_accounts|by eapply read_from_pipe_accounts]. Qed.
End splice_theorems.

Section splice_endings.
Context {EXT : Env}.
Implicit Types s : state.

(** A client that has sent everything loses its connection: when the
    outbound pipe is drained after the client's end of file, the whole
    connection is released at once, whatever the relay still has to send and
    whatever the inbound pipe still holds. *)
Theorem outbound_end_releases s p c pm pi po head l1 l2 errno :
  splicing s p c pm pi po head l1 l2 → client_shutdown_read c = true →
  relay_fd c ≠ -1 → pipe_readfd po ≠ -1 →
  let sp := c_splice (pipe_readfd po) (relay_fd c) (data_in_pipe po) splice_flags in
  ext (trace s) sp = (0, errno) →
  ∃ s', transocks_read_from_pipe p outbound s = Ok tt s' ∧
    splice_released p c pm pi po
      (sp :: c_shutdown (relay_fd c) SHUT_WR :: opt (0 <=? pipe_readfd po) (c_close (pipe_readfd po))) head l1 l2 s s'.
Proof.
  intros Hsp Hr H1 H2 sp E. apply wp_tt.
  eapply wp_mono; [by eapply (wp_read_from_pipe s p c pm pi po head l1 l2 outbound)|]. intros [] s' Ho.
  unfold splice_outcome, read_spec, normal_termination in Ho. simpl in Ho. rewrite Hr in Ho. by destruct (_ || _).
Qed.
End splice_endings.

(** ** Start of the pump *)

(** A world in which the calls of the start succeed. *)
Class SpliceReady (EXT : Env) : Prop := {
  sw_malloc tr n : ext tr (c_malloc n) = true;
  sw_setfd tr b fd : ext tr (c_bufferevent_setfd b fd) = 0;
  sw_disable tr b e : ext tr (c_bufferevent_disable b e) = 0;
  sw_pipe tr : (ext tr c_pipe).1.1 = 0 ∧ 0 ≤ (ext tr c_pipe).1.2 ∧ 0 ≤ (ext tr c_pipe).2;
  sw_getfl tr fd : ext tr (c_fcntl_getfl fd) ≠ -1;
  sw_setfl tr fd fl : ext tr (c_fcntl_setfl fd fl) = 0;
  sw_pipesz tr fd : ext tr (c_fcntl_getpipe_sz fd) ≠ -1;
  sw_event_new tr b fd e cb a : ext tr (c_event_new b fd e cb a) = true;
  sw_event_add tr e t : ext tr (c_event_add e t) = 0
}.

Section splice_start.
Context {EXT : Env} `{!SpliceReady EXT}.
Implicit Types s : state.

Lemma wp_nonblocking_ready s fd (Q : Z → state → Prop) :
  0 ≤ fd → (∀ cs, Q 0 (did cs s)) → wp (setnonblocking fd true) Q s.
Proof.
  intros Hfd HQ. unfold setnonblocking. rewrite (proj2 (Z.ltb_ge fd 0)) by done. st_steps.
  rewrite (proj2 (Z.eqb_neq _ _)) by apply sw_getfl. st_steps. rewrite sw_setfl. simpl. st_steps.
  apply (HQ [_; _]).
Qed.

Lemma wp_create_pipe_at s pipe pp (Q : Z → state → Prop) :
  pipes s !! pipe = Some pp →
  (∀ r w cs, 0 ≤ r → 0 ≤ w →
     Q 0 (set_pipes (<[pipe := set_pipe_readfd r (set_pipe_writefd w pp)]> (pipes s)) (did cs s))) →
  wp (create_pipe_at pipe) Q s.
Proof.
  intros Hp HQ. unfold create_pipe_at, createpipe. st_steps.
  destruct (sw_pipe (trace s)) as (E & Hr & Hw). destruct (ext (trace s) c_pipe) as [[e r] w]. simpl in *. subst e. cbn [Z.eqb].
  apply wp_bind, wp_nonblocking_ready; [done|]. intros c1. cbn [Z.eqb negb].
  apply wp_bind, wp_nonblocking_ready; [done|]. intros c2. cbn [Z.eqb negb]. st_steps. cbn [Z.eqb negb]. st_steps.
  change (push (ICall c_pipe) s) with (did [c_pipe] s). rewrite !did_did. by apply HQ.
Qed.

Lemma wp_getpipesize_ready s fd (Q : Z → state → Prop) :
  0 ≤ fd → (∀ sz, sz ≠ -1 → Q sz (did [c_fcntl_getpipe_sz fd] s)) → wp (getpipesize fd) Q s.
Proof.
  intros Hfd HQ. unfold getpipesize. rewrite (proj2 (Z.ltb_ge fd 0)) by done. st_steps.
  pose proof (sw_pipesz (trace s) fd) as Hs. rewrite (proj2 (Z.eqb_neq _ _)) by done. st_steps. by apply HQ.
Qed.

(** Four new events are different from each other and from an old one. *)
Lemma fresh_apart n ev t : t < n → n ≤ ev → 0 < n → apart_list [ev; ev + 1; ev + 1 + 1; ev + 1 + 1 + 1; t].
Proof. intros. repeat constructor; intros Heq; exfalso; unfold NULL in *; lia. Qed.

(** The event of one of the four callbacks. *)
Definition data_event (fd : Z) (cb : fn) (p : Z) : event := Event fd (Z.lor EV_READ EV_PERSIST) cb p true.

(** The pump [pm] at [pu] was attached to the client, with empty pipes [pi] and
    [po] and an added event on both sockets and on the read end of both pipes. *)
Record splice_started (p pu : Z) (c : transocks_client) (pm : transocks_splicepump) (pi po : transocks_splicepipe)
    (s s' : state) : Prop := {
  ss_client : clients s' = <[p := set_user_arg pu c]> (clients s);
  ss_in : 0 ≤ pipe_readfd pi ∧ 0 ≤ pipe_writefd pi ∧ data_in_pipe pi = 0 ∧ is_Some (capacity pi);
  ss_out : 0 ≤ pipe_readfd po ∧ 0 ≤ pipe_writefd po ∧ data_in_pipe po = 0 ∧ is_Some (capacity po);
  ss_client_read : evs s' !! client_read_ev pm = Some (data_event (client_fd c) fn_splicepump_client_readcb p);
  ss_client_write : evs s' !! client_write_ev pm = Some (data_event (pipe_readfd pi) fn_splicepump_client_writecb p);
  ss_relay_read : evs s' !! relay_read_ev pm = Some (data_event (relay_fd c) fn_splicepump_relay_readcb p);
  ss_relay_write : evs s' !! relay_write_ev pm = Some (data_event (pipe_readfd po) fn_splicepump_relay_writecb p);
  ss_fd : bev_fd <$> bevs s' !! client_bev c = Some (-1) ∧ bev_fd <$> bevs s' !! relay_bev c = Some (-1);
  ss_handlers q : handlers <$> bevs s' !! q = handlers <$> bevs s !! q;
  ss_bevs : delete (client_bev c) (delete (relay_bev c) (bevs s')) = delete (client_bev c) (delete (relay_bev c) (bevs s));
  ss_evs q : q ∉ pump_evs pm → evs s' !! q = evs s !! q;
  ss_evs_new q : q ∈ pump_evs pm → brk s ≤ q;
  ss_pumps : pumps s' = <[pu := pm]> (pumps s);
  ss_pipes : pipes s' = <[outbound_pipe pm := po]> (<[inbound_pipe pm := pi]> (pipes s));
  ss_pipes_new : brk s ≤ inbound_pipe pm ∧ brk s ≤ outbound_pipe pm;
  ss_others : addrs s' = addrs s ∧ nodes s' = nodes s ∧ blocks s' = blocks s ∧ brk s ≤ brk s'
}.

Lemma wp_splicepump_start s p c e head l1 l2 :
  wf s → client_ok s p c → is_destroyed (client_state c) = false → client_bev c ≠ NULL → relay_bev c ≠ NULL →
  envs s !! global_env c = Some e → is_Some (bases s !! eventBaseLoop e) →
  dlist (nodes s) head (l1 ++ client_node p :: l2) →
  wp (transocks_splicepump_start_pump p) (λ r s', r = 0 ∧ ∃ pm pi po,
    splicing s' p (set_user_arg (brk s) c) pm pi po head l1 l2 ∧ Forall (.≠ NULL) (pump_evs pm) ∧
    splice_started p (brk s) c pm pi po s s') s.
Proof.
  intros Hwf Hc Ha Hcb Hrb He [b Hba] Hl. pose proof (wf_brk _ Hwf) as Hbrk.
  pose proof Hc as [Hp _ Hr Hb Hne _ _ _]. assert (client_bev c ≠ relay_bev c) as Hn by naive_solver.
  destruct (handle_live _ _ Hb Hcb) as [cb Ecb]. destruct (handle_live _ _ Hr Hrb) as [rb Erb].
  unfold transocks_splicepump_start_pump, bufferevent_disable, bufferevent_setfd. st_steps.
  rewrite sw_disable. cbn [Z.eqb negb]. st_steps. rewrite sw_disable. cbn [Z.eqb negb]. st_steps.
  rewrite !sw_setfd. cbn [Z.eqb]. unfold transocks_splicepump_new, tr_malloc. st_steps.
  rewrite sw_malloc. st_steps. not_null. st_steps. rewrite sw_malloc. st_steps. not_null. st_steps.
  rewrite sw_malloc. st_steps. not_null. st_steps. not_null. st_steps.
  eapply wp_create_pipe_at; [st_lookup|]. intros ir iw c1 Hir Hiw. cbn [Z.eqb negb]. st_steps.
  eapply wp_create_pipe_at; [st_lookup|]. intros or ow c2 Hor How. cbn [Z.eqb negb]. st_steps.
  apply wp_getpipesize_ready; [done|]. intros isz Hisz. rewrite (proj2 (Z.eqb_neq isz _)) by done. st_steps.
  apply wp_getpipesize_ready; [done|]. intros osz Hosz. rewrite (proj2 (Z.eqb_neq osz _)) by done. st_steps.
  unfold event_new, event_add. st_steps.
  do 4 (rewrite sw_event_new; st_steps; not_null; st_steps).
  do 4 (rewrite sw_event_add; cbn [Z.eqb negb]; st_steps).
  split; [done|]. set (ip := brk s + sizeof_transocks_splicepump). set (op := ip + sizeof_transocks_splicepipe).
  set (ev := op + sizeof_transocks_splicepipe).
  exists (TransocksSplicepump ev (ev + 1) (ev + 1 + 1) (ev + 1 + 1 + 1) ip op),
    (TransocksSplicepipe ir iw 0 (Some (size_t isz))), (TransocksSplicepipe or ow 0 (Some (size_t osz))).
  subst ev op ip. pose proof (wf_null_ok _ Hwf) as [Nc Na Nb Ne]. pose proof (client_not_null _ _ _ (wf_null_ok _ Hwf) Hp) as Hp0.
  split_and!.
  - split; [split; st_norm; rewrite ?lookup_insert_ne by (done || addr_lia); done| |done| |done].
    + eapply client_ok_mono; [exact Hc|st_norm; by rewrite lookup_insert_eq|done|..];
        intros q Hq; st_norm; repeat (apply lookup_insert_is_Some'; right); done.
    + split; st_norm; [by rewrite lookup_insert_eq|..|addr_lia| |].
      * rewrite !lookup_insert_ne by addr_lia. eapply below_None; [by apply wf_pumps|unfold NULL; lia].
      * rewrite !lookup_insert_ne by addr_lia. eapply below_None; [by apply wf_pipes|unfold NULL; lia].
      * st_lookup.
      * st_lookup.
      * unfold pump_evs. st_norm. rewrite !Forall_cons. split_and!; [..|by apply Forall_nil]; right; st_lookup.
      * apply (fresh_apart (brk s)); [|simpl; addr_lia..]. destruct (co_timer _ _ _ Hc) as [->|Hs]; [done|].
        apply (wf_evs _ Hwf) in Hs. lia.
  - unfold pump_evs. st_norm. rewrite !Forall_cons. split_and!; [..|by apply Forall_nil]; addr_lia.
  - split; st_norm; rewrite ?insert_insert_eq; eauto 10; try st_lookup.
    + intros q. rewrite !lookup_insert. repeat case_decide; subst; rewrite ?Ecb, ?Erb; done.
    + apply map_eq. intros q. rewrite !lookup_delete, !lookup_insert. by repeat case_decide.
    + intros q. unfold pump_evs. simpl. rewrite !not_elem_of_cons. intros (? & ? & ? & ? & _). by rewrite !lookup_insert_ne by done.
    + intros q. unfold pump_evs. simpl. rewrite !elem_of_cons, elem_of_nil. addr_lia.
    + apply map_eq. intros q. rewrite !lookup_insert. repeat case_decide; try done; addr_lia.
    + simpl. addr_lia.
    + split_and!; try done. addr_lia.
Qed.

(** The event of a callback that takes data out of a pipe: it is activated by
    hand, and whether it is added is left open. *)
Definition pipe_event s (ev fd : Z) (cb : fn) (p : Z) : Prop :=
  ∃ added, evs s !! ev = Some (Event fd (Z.lor EV_READ EV_PERSIST) cb p added).

(** The pump [pm] at [pu] was attached to the client, with empty pipes [pi] and
    [po], an added event on both sockets and an event for the read end of both
    pipes; nothing else of the program changed. *)
Record splice_attached (p pu : Z) (c : transocks_client) (pm : transocks_splicepump) (pi po : transocks_splicepipe)
    s s' : Prop := {
  sa_client : clients s' = <[p := set_user_arg pu c]> (clients s);
  sa_in : 0 ≤ pipe_readfd pi ∧ 0 ≤ pipe_writefd pi ∧ data_in_pipe pi = 0 ∧ is_Some (capacity pi);
  sa_out : 0 ≤ pipe_readfd po ∧ 0 ≤ pipe_writefd po ∧ data_in_pipe po = 0 ∧ is_Some (capacity po);
  sa_client_read : evs s' !! client_read_ev pm = Some (data_event (client_fd c) fn_splicepump_client_readcb p);
  sa_client_write : pipe_event s' (client_write_ev pm) (pipe_readfd pi) fn_splicepump_client_writecb p;
  sa_relay_read : evs s' !! relay_read_ev pm = Some (data_event (relay_fd c) fn_splicepump_relay_readcb p);
  sa_relay_write : pipe_event s' (relay_write_ev pm) (pipe_readfd po) fn_splicepump_relay_writecb p;
  sa_fd : bev_fd <$> bevs s' !! client_bev c = Some (-1) ∧ bev_fd <$> bevs s' !! relay_bev c = Some (-1);
  sa_handlers q : handlers <$> bevs s' !! q = handlers <$> bevs s !! q;
  sa_bevs : delete (client_bev c) (delete (relay_bev c) (bevs s')) = delete (client_bev c) (delete (relay_bev c) (bevs s));
  sa_evs q : q ∉ pump_evs pm → evs s' !! q = evs s !! q;
  sa_pumps : pumps s' = <[pu := pm]> (pumps s);
  sa_pipes : pipes s' = <[outbound_pipe pm := po]> (<[inbound_pipe pm := pi]> (pipes s));
  sa_others : addrs s' = addrs s ∧ nodes s' = nodes s ∧ blocks s' = blocks s
}.

Lemma splice_started_attached p pu c pm pi po s s' :
  splice_started p pu c pm pi po s s' → splice_attached p pu c pm pi po s s'.
Proof. intros []. split; try done; [by eexists..|naive_solver]. Qed.

(** C17 When its calls succeed ([SpliceReady]: the pipes, the memory and the
    events are given), starting the splice pump takes the descriptors away
    from the bufferevents, attaches a pump with two empty pipes to the client,
    has an added event for the data of each socket and an event for the read
    end of each pipe, each with its callback and the client as its argument,
    and changes nothing else; the client then meets what the data callbacks
    need. *)
Theorem splicepump_start_ready s p c e head l1 l2 :
  wf s → client_ok s p c → is_destroyed (client_state c) = false → client_bev c ≠ NULL → relay_bev c ≠ NULL →
  envs s !! global_env c = Some e → is_Some (bases s !! eventBaseLoop e) →
  dlist (nodes s) head (l1 ++ client_node p :: l2) →
  ∃ s', transocks_splicepump_start_pump p s = Ok 0 s' ∧ ∃ pm pi po,
    splicing s' p (set_user_arg (brk s) c) pm pi po head l1 l2 ∧ Forall (.≠ NULL) (pump_evs pm) ∧
    splice_attached p (brk s) c pm pi po s s'.
Proof.
  intros. eapply wp_Ok; [by eapply wp_splicepump_start|]. intros r s' (-> & pm & pi & po & ? & ? & ?).
  split; [done|]. exists pm, pi, po. eauto using splice_started_attached.
Qed.
End splice_start.

(** ** Concrete pumps *)

(** The client at 5000 with a pump at 6000: an inbound pipe with ends 20 and
    21 and an outbound pipe with ends 30 and 31. *)
Definition ex_pump : transocks_splicepump := TransocksSplicepump 6300 6400 6500 6600 6100 6200.
Definition ex_in (n : Z) : transocks_splicepipe := TransocksSplicepipe 20 21 n (Some 65536).
Definition ex_out (n : Z) : transocks_splicepipe := TransocksSplicepipe 30 31 n (Some 65536).
Definition ex_sclient : transocks_client :=
  set_user_arg 6000 (set_client_state client_pumping_data ex_client).

Definition ex_splice_evs : gmap Z event :=
  {[5800 := Event (-1) 0 fn_socks5_timeout_cb 5000 true;
    6300 := Event 8 18 fn_splicepump_client_readcb 5000 true;
    6400 := Event 20 18 fn_splicepump_client_writecb 5000 true;
    6500 := Event 7 18 fn_splicepump_relay_readcb 5000 true;
    6600 := Event 30 18 fn_splicepump_relay_writecb 5000 true]}.

Definition ex_splice (c : transocks_client) (i o : Z) : state :=
  set_clients {[5000 := c]} (set_pumps {[6000 := ex_pump]}
    (set_pipes {[6100 := ex_in i; 6200 := ex_out o]} (set_evs ex_splice_evs ex_state))).

Lemma ex_splicing c i o :
  same_handles ex_client c → user_arg c = 6000 → is_destroyed (client_state c) = false →
  splicing (ex_splice c i o) 5000 c ex_pump (ex_in i) (ex_out o) 4176 [] [].
Proof.
  intros Hh Hu Ha. pose proof Hh as (H1 & H2 & H3 & H4 & H5). split.
  - split; reflexivity.
  - split; rewrite ?H1, ?H2, ?H3, ?H4, ?H5; first [reflexivity | concrete_handle | discriminate].
  - done.
  - split; rewrite ?Hu; try reflexivity; try discriminate.
    + repeat (apply Forall_cons; split; [concrete_handle|]). apply Forall_nil. done.
    + rewrite H5. unfold apart_list. simpl. repeat constructor; discriminate.
  - concrete_dlist.
Qed.

(** A kernel with one pipe, which holds [n0] bytes at first: it takes and
    gives at most 5 bytes at a time. *)
Definition in_amount (cap n len : Z) : Z := Z.max 0 (Z.min (Z.min 5 len) (cap - n)).
Definition out_amount (n len : Z) : Z := Z.max 0 (Z.min (Z.min 5 len) n).

Fixpoint sim_pipe (n0 rfd wfd cap : Z) (tr : list item) : Z :=
  match tr with
  | [] => n0
  | ICall (c_splice a b len _) :: tr =>
      let n := sim_pipe n0 rfd wfd cap tr in
      if decide (a ≠ rfd ∧ b = wfd) then n + in_amount cap n len
      else if decide (a = rfd ∧ b ≠ wfd) then n - out_amount n len else n
  | _ :: tr => sim_pipe n0 rfd wfd cap tr
  end.

Definition splice_reply (n : Z) : Z * Z := if n =? 0 then (-1, EAGAIN) else (n, 0).

Definition piped (n0 rfd wfd cap : Z) : Env := λ tr c,
  match c with
  | c_splice a b len _ =>
      let n := sim_pipe n0 rfd wfd cap tr in
      if decide (a ≠ rfd ∧ b = wfd) then splice_reply (in_amount cap n len)
      else if decide (a = rfd ∧ b ≠ wfd) then splice_reply (out_amount n len) else (-1, EAGAIN)
  | c => quiet_reply c
  end.

Lemma splice_reply_max n : 0 ≤ n → -1 ≤ fst (splice_reply n) ∧ Z.max 0 (fst (splice_reply n)) = n.
Proof. intros Hn. unfold splice_reply. destruct (Z.eqb_spec n 0); simpl; lia. Qed.

Lemma piped_laws n0 rfd wfd cap :
  0 ≤ n0 ≤ cap → cap < 2 ^ 64 → PipeLaws (EXT:=piped n0 rfd wfd cap) rfd wfd cap (sim_pipe n0 rfd wfd cap).
Proof.
  intros Hn0 Hcap. split.
  - induction tr as [|[[]|] tr IH]; simpl; try lia. unfold in_amount, out_amount. repeat case_decide; lia.
  - lia.
  - intros tr from len flags Hf. unfold ext, piped. cbn [sim_pipe]. rewrite !decide_True by done.
    match goal with |- context [splice_reply ?n] => destruct (splice_reply_max n) as [? ->] end;
      [unfold in_amount; lia|done].
  - intros tr to len flags Hf. unfold ext, piped. cbn [sim_pipe].
    rewrite !(decide_False (P := rfd ≠ rfd ∧ _)) by naive_solver. rewrite !decide_True by done.
    match goal with |- context [splice_reply ?n] => destruct (splice_reply_max n) as [? ->] end;
      [unfold out_amount; lia|done].
  - intros tr c Hc. by destruct c.
Qed.

Lemma ex_sclient_splicing i o : splicing (ex_splice ex_sclient i o) 5000 ex_sclient ex_pump (ex_in i) (ex_out o) 4176 [] [].
Proof. by apply ex_splicing. Qed.

Lemma ex_evs_set : Forall (.≠ NULL) (pump_evs ex_pump).
Proof. repeat (apply Forall_cons; split; [discriminate|]). by apply Forall_nil. Qed.

Lemma splicepump_free_releases_witness :
  ∃ h, transocks_splicepump_free (EXT:=quiet) 5000 (ex_splice ex_sclient 5 0)
       = Ok tt (client_freed 5000 ex_sclient h
                  (splice_freed ex_sclient ex_pump (ex_in 5) (ex_out 0) (ex_splice ex_sclient 5 0))) ∧
       dlist (delete 5000 h) 4176 [].
Proof.
  destruct (ex_sclient_splicing 5 0) as [Hn Hc Ha Hs Hl].
  exact (splicepump_free_releases (EXT:=quiet) _ 5000 ex_sclient ex_pump (ex_in 5) (ex_out 0) 4176 [] [] Hn Hc Ha Hs Hl).
Defined.

Lemma pipe_callbacks_outcome_witness :
  let s := ex_splice ex_sclient 7 0 in
  (∃ s', transocks_write_to_pipe (EXT:=quiet) 5000 inbound s = Ok tt s' ∧
     splice_outcome 5000 inbound ex_pump (ex_in 7) (ex_out 0) ex_sclient 4176 [] []
       (Some (ex_sclient, ex_in 12, [])) (c_splice 7 21 65536 splice_flags) s s') ∧
  (∃ s', transocks_read_from_pipe (EXT:=quiet) 5000 inbound s = Ok tt s' ∧
     splice_outcome 5000 inbound ex_pump (ex_in 7) (ex_out 0) ex_sclient 4176 [] []
       (Some (ex_sclient, ex_in 2, [])) (c_splice 20 8 7 splice_flags) s s').
Proof.
  intros s. apply (pipe_callbacks_outcome (EXT:=quiet) s 5000 ex_sclient ex_pump (ex_in 7) (ex_out 0)
    4176 [] [] inbound 65536 5 0 5 0);
    [apply ex_sclient_splicing|apply ex_evs_set|discriminate|discriminate|discriminate|discriminate|reflexivity..].
Defined.

Lemma pipe_counter_exact_witness :
  let s := ex_splice ex_sclient 5 0 in
  let EXT := piped 5 20 21 65536 in
  (∃ s', transocks_write_to_pipe 5000 inbound s = Ok tt s' ∧
    ((∃ cs, splice_released 5000 ex_sclient ex_pump (ex_in 5) (ex_out 0) cs 4176 [] [] s s') ∨
     accounted inbound ex_pump 65536 (sim_pipe 5 20 21 65536) s')) ∧
  (∃ s', transocks_read_from_pipe 5000 inbound s = Ok tt s' ∧
    ((∃ cs, splice_released 5000 ex_sclient ex_pump (ex_in 5) (ex_out 0) cs 4176 [] [] s s') ∨
     accounted inbound ex_pump 65536 (sim_pipe 5 20 21 65536) s')).
Proof.
  intros s EXT. apply (pipe_counter_exact (EXT:=EXT) s 5000 ex_sclient ex_pump (ex_in 5) (ex_out 0));
    [apply ex_sclient_splicing|apply ex_evs_set|discriminate..|reflexivity| |reflexivity].
  apply piped_laws; lia.
Defined.

(** Every [splice] reports the end of the data. *)
Definition at_eof : Env := λ _ c, match c with c_splice _ _ _ _ => (0, 0) | c => quiet_reply c end.

Lemma outbound_end_releases_witness :
  let c := set_client_shutdown_read true ex_sclient in
  let s := ex_splice c 5 0 in
  ∃ s', transocks_read_from_pipe (EXT:=at_eof) 5000 outbound s = Ok tt s' ∧
        splice_released 5000 c ex_pump (ex_in 5) (ex_out 0)
          [c_splice 30 7 0 splice_flags; c_shutdown 7 SHUT_WR; c_close 30] 4176 [] [] s s'.
Proof.
  intros c s. apply (outbound_end_releases (EXT:=at_eof) s 5000 c ex_pump (ex_in 5) (ex_out 0) 4176 [] [] 0);
    [by apply ex_splicing|reflexivity|discriminate|discriminate|reflexivity].
Defined.

#[local] Instance quiet_splice_ready : SpliceReady quiet.
Proof. by split. Qed.

Lemma splicepump_start_ready_witness :
  ∃ s', transocks_splicepump_start_pump (EXT:=quiet) 5000 ex_state = Ok 0 s' ∧ ∃ pm pi po,
    splicing s' 5000 (set_user_arg 9000 ex_client) pm pi po 4176 [] [] ∧ Forall (.≠ NULL) (pump_evs pm) ∧
    splice_attached 5000 9000 ex_client pm pi po ex_state s'.
Proof.
  eapply (splicepump_start_ready (EXT:=quiet) ex_state 5000 ex_client);
    [apply wf_ex_state|apply ex_client_ok|reflexivity|discriminate|discriminate|reflexivity|exists tt; reflexivity|].
  concrete_dlist.
Defined.

Definition is_close (fd : Z) (i : item) : bool :=
  match i with ICall (c_close fd') => fd' =? fd | _ => false end.

Definition close_count (fd : Z) (tr : list item) : nat := length (List.filter (is_close fd) tr).

Definition final {A} (r : res state A) : option state :=
  match r with Ok _ s => Some s | _ => None end.

(** A pipe's write end is closed twice: at the client's end of file the
    callback closes a local copy of the descriptor and leaves it in the pipe
    struct, so the release of the connection closes the same number again,
    which may belong to another connection by then. *)
Theorem eof_closes_pipe_end_twice :
  let run := transocks_write_to_pipe (EXT:=at_eof) 5000 outbound ;; transocks_splicepump_free (EXT:=at_eof) 5000 in
  (close_count 31 ∘ trace <$> final (run (ex_splice ex_sclient 0 0))) = Some 2%nat.
Proof. vm_compute. reflexivity. Qed.
