(* ===== verification/Pump.v ===== *)
(** * pump.c and the pump-dependent part of context.c

    The pump interface, the two implementations behind it, the selection by
    name, and the operations on all clients. *)

From S2P Require Import Prelude DList ListSpec Structs World Util Context BufferPump SplicePump.
Local Open Scope Z_scope.

Definition PUMPMETHOD_SPLICE : string := "splicepump".
Definition PUMPMETHOD_BUFFER : string := "bufferpump".

(** A [transocks_pump] table; a function pointer may be NULL. *)
Record transocks_pump := TransocksPump {
  pump_name : string;
  start_pump_fn : option (Z → C Z);
  free_pump_fn : option (Z → C unit);
  dump_info_fn : option (Z → C unit)
}.

Section pump.
Context {EXT : Env}.

Definition transocks_bufferpump_ops : transocks_pump :=
  TransocksPump PUMPMETHOD_BUFFER (Some transocks_bufferpump_start_pump)
    (Some transocks_bufferpump_free) (Some transocks_bufferpump_dump_info).

Definition transocks_splicepump_ops : transocks_pump :=
  TransocksPump PUMPMETHOD_SPLICE (Some transocks_splicepump_start_pump)
    (Some transocks_splicepump_free) (Some transocks_splicepump_dump_info).

(** [*pump] for a pointer to one of the two tables. *)
Definition pump_of (r : pump_ref) : transocks_pump :=
  match r with
  | transocks_splicepump_ops_ref => transocks_splicepump_ops
  | transocks_bufferpump_ops_ref => transocks_bufferpump_ops
  end.

Definition transocks_pumps : list pump_ref :=
  [transocks_splicepump_ops_ref; transocks_bufferpump_ops_ref].

(** The loop over the table: the first entry whose name matches. *)
Definition find_pump (name : string) : option pump_ref :=
  List.find (λ r, String.eqb name (pump_name (pump_of r))) transocks_pumps.

Definition is_null {A} (o : option A) : bool := match o with None => true | Some _ => false end.

Definition transocks_pump_init (env : Z) : C Z :=
  np ← fld env pump_method_name;
  name ← load (T:=string) np;
  (match find_pump name with
   | Some r => puts (set_pumpMethodImpl (Some r))
   | None => mret tt
   end) ;;
  impl ← gets pumpMethodImpl;
  match impl with
  | None => mret (-1)
  | Some r =>
      if is_null (start_pump_fn (pump_of r)) then mret (-1)
      else if is_null (free_pump_fn (pump_of r)) then mret (-1)
      else if is_null (dump_info_fn (pump_of r)) then mret (-1)
      else mret 0
  end.

(** [pumpMethodImpl->f(...)]: a NULL table or function faults. *)
Definition pump_call {A} (f : transocks_pump → option (Z → C A)) (pclient : Z) : C A :=
  impl ← gets pumpMethodImpl;
  r ← rd impl;
  g ← rd (f (pump_of r));
  g pclient.

Definition transocks_start_pump (pclient : Z) : C Z :=
  r ← pump_call start_pump_fn pclient;
  if negb (r =? 0) then mret (-1) else
  modify pclient (set_client_state client_pumping_data) ;;
  mret 0.

Definition transocks_pump_free (pclient : Z) : C unit := pump_call free_pump_fn pclient.

(** [tag] is the text of [tagfmt] with its arguments. *)
Definition transocks_pump_dump_info (pclient : Z) (tag : string) : C unit :=
  print_line (LF +:+ "----------" +:+ LF) ;;
  print_line tag ;;
  print_line (":" +:+ LF) ;;
  pump_call dump_info_fn pclient.

(** ** context.c: all clients *)

(** Enough for every list that fits in the node heap. *)
Definition list_fuel : C nat := gets (λ s, S (size (nodes s))).

Definition transocks_drop_all_clients (env : Z) : C unit :=
  fuel ← list_fuel;
  list_for_each_entry_safe nodes offsetof_single_client_dlinklist_entry fuel (clients_head env)
    (λ pclient,
       transocks_pump_dump_info pclient "close connection" ;;
       transocks_pump_free pclient).

(** A loop body that also uses and increments the counter [i]. *)
Definition with_counter (body : Z → Z → C unit) (pclient : Z) : M (state * Z) unit := λ p,
  match body (snd p) pclient (fst p) with
  | Ok _ s' => Ok tt (s', snd p + 1)
  | Fault => Fault
  | NoFuel => NoFuel
  end.

Definition transocks_dump_all_client_info (env : Z) : C unit :=
  print_line ("transocks-wong connection info:" +:+ LF) ;;
  fuel ← list_fuel;
  zoom (λ s, (s, 0)) (λ p _, fst p)
    (list_for_each_entry (λ p : state * Z, nodes (fst p)) offsetof_single_client_dlinklist_entry fuel
       (clients_head env)
       (with_counter (λ i pclient, transocks_pump_dump_info pclient ("conn #" +:+ format_d i)))).
End pump.

(** ** Selection of the pump *)

Section pump_theorems.
Context {EXT : Env}.
Implicit Types s : state.

(** The pump named on the command line is installed when it is one of the
    two the program has; any other name is refused and nothing is installed. *)
Theorem pump_init_selects s env e name :
  envs s !! env = Some e → strs s !! pump_method_name e = Some name → pumpMethodImpl s = None →
  transocks_pump_init env s =
    if String.eqb name PUMPMETHOD_SPLICE then Ok 0 (set_pumpMethodImpl (Some transocks_splicepump_ops_ref) s)
    else if String.eqb name PUMPMETHOD_BUFFER then Ok 0 (set_pumpMethodImpl (Some transocks_bufferpump_ops_ref) s)
    else Ok (-1) s.
Proof.
  intros He Hn Hi. unfold transocks_pump_init, fld, load, mbind, M_bind, gets, puts. simpl. rewrite He. simpl.
  rewrite Hn. unfold find_pump. simpl. destruct (String.eqb name PUMPMETHOD_SPLICE); [done|].
  destruct (String.eqb name PUMPMETHOD_BUFFER); [done|]. simpl. by rewrite Hi.
Qed.

(** ** Iteration over all clients *)

Lemma nodes_length (h : lheap) head l : dlist h head l → (length l < size h)%nat.
Proof.
  intros Hd. pose proof Hd as [Hnd _].
  change (S (length l) ≤ size h)%nat. change (S (length l)) with (length (head :: l)).
  rewrite <-(size_list_to_set (C:=gset Z) (head :: l) Hnd), <-(size_dom (D:=gset Z) h).
  apply subseteq_size. intros x Hx%elem_of_list_to_set. apply elem_of_dom. by eapply dlist_live.
Qed.

Lemma dlist_rest h head vis rest :
  dlist h head (vis ++ rest) → path h (rest ++ [head]) ∧ is_Some (h !! head).
Proof.
  intros Hd. split; [|eapply dlist_live; [done|set_solver]].
  by apply dlist_cut in Hd as (_ & _ & _ & ?).
Qed.

Lemma client_node_sub p : client_node p - offsetof_single_client_dlinklist_entry = p.
Proof. unfold client_node. lia. Qed.

(** The three lines every dump starts with. *)
Definition dump_header (tag : string) : list call :=
  [c_printf (LF +:+ "----------" +:+ LF); c_printf tag; c_printf (":" +:+ LF)].

(** Under the splice pump, a client whose handshake is not over has no
    pump yet, and dropping all clients does nothing to it: when all clients
    are in this phase, the list and every client stay as they are. *)
Theorem drop_all_clients_splice_handshake s env l :
  pumpMethodImpl s = Some transocks_splicepump_ops_ref →
  dlist (nodes s) (clients_head env) (client_node <$> l) →
  (∀ p, p ∈ l → ∃ c, clients s !! p = Some c ∧ user_arg c = NULL) →
  ∃ s', transocks_drop_all_clients env s = Ok tt s' ∧ ∃ cs, s' = did cs s.
Proof.
  intros Hi Hd Hl. apply wp_tt. unfold transocks_drop_all_clients, list_fuel. st_steps.
  eapply wp_mono; [apply (wp_list_for_each_entry_safe nodes _ _ _ (client_node <$> l)
    (λ _ rest s', (∃ cs, s' = did cs s) ∧ ∃ vis, client_node <$> l = vis ++ rest))
    |by intros [] s' [? _]].
  - apply Hd.
  - intros vis rest s' [[cs ->] [vis' E]]. rewrite E in Hd. by eapply dlist_rest.
  - intros vis x rest s' E [[cs ->] _].
    assert (x ∈ client_node <$> l) as (p & -> & Hp)%list_elem_of_fmap by (rewrite E; set_solver).
    destruct (Hl p Hp) as (c & Hc & Hu). rewrite client_node_sub.
    unfold transocks_pump_dump_info, transocks_pump_free, pump_call, print_line. st_steps.
    eapply wp_Ok_run; [by eapply splicepump_dump_no_pump|]. st_steps.
    eapply wp_Ok_run; [by eapply splicepump_free_no_pump|]. split.
    + exists (cs ++ dump_header "close connection"). by rewrite <-did_did.
    + exists (vis ++ [client_node p]). by rewrite <-(assoc_L (++)).
  - split; [by exists []; rewrite did_nil|by exists []].
  - done.
  - rewrite length_fmap. pose proof (nodes_length _ _ _ Hd) as H. rewrite length_fmap in H. lia.
Qed.

(** ** Dumps *)

(** The buffers the dump prints are initialised and their address family is
    one of the two the code prints. *)
Definition printable (sa : sockaddr_storage) (len : Z) : Prop :=
  len = sizeof_sockaddr_in ∨ ss_family sa = AF_INET ∨ len = sizeof_sockaddr_in6 ∨ ss_family sa = AF_INET6.

Definition addr_printable s (p : Z) (len : option Z) : Prop :=
  ∃ sa n, addrs s !! p = Some (Some sa) ∧ len = Some n ∧ printable sa n.

Definition dumpable s (c : transocks_client) : Prop :=
  addr_printable s (client_addr c) (client_addr_len c) ∧ addr_printable s (dest_addr c) (dest_addr_len c).

Context (inet_ntop_ok : ∀ tr f a n, is_Some (ext tr (c_inet_ntop f a n))).

Lemma wp_generate_str size sa len s (Q : option string → state → Prop) :
  printable sa len → (∀ str cs, no_closes cs → Q (Some str) (did cs s)) →
  wp (generate_sockaddr_port_str size sa len) Q s.
Proof.
  intros Hp HQ. unfold generate_sockaddr_port_str.
  destruct ((len =? sizeof_sockaddr_in) || (ss_family sa =? AF_INET)) eqn:E4;
    [|destruct ((len =? sizeof_sockaddr_in6) || (ss_family sa =? AF_INET6)) eqn:E6; [|exfalso]].
  - st_steps. destruct (inet_ntop_ok (trace s) AF_INET (sin_addr sa) INET_ADDRSTRLEN) as [ip Hip].
    rewrite Hip. st_steps. by apply (HQ _ [_]).
  - st_steps. destruct (inet_ntop_ok (trace s) AF_INET6 (sin6_addr sa) INET6_ADDRSTRLEN) as [ip Hip].
    rewrite Hip. st_steps. by apply (HQ _ [_]).
  - apply orb_false_iff in E4 as [?%Z.eqb_neq ?%Z.eqb_neq]. apply orb_false_iff in E6 as [?%Z.eqb_neq ?%Z.eqb_neq].
    destruct Hp as [?|[?|[?|?]]]; done.
Qed.

Lemma wp_client_dump_info s p c :
  clients s !! p = Some c → dumpable s c →
  wp (transocks_client_dump_info p) (λ _ s', ∃ cs, s' = did cs s) s.
Proof.
  intros Hc [(sa & n & Ha & Hn & Hp) (sa' & n' & Ha' & Hn' & Hp')].
  unfold transocks_client_dump_info, print_line. st_steps. apply wp_generate_str; [done|].
  intros str cs _. st_steps. apply wp_generate_str; [done|]. intros str' cs' _. st_steps.
  match goal with |- ∃ cs, push (ICall ?a) (push (ICall ?b) (push (ICall ?c) (push (ICall ?d)
    (push (ICall ?e) (push (ICall ?f) (did ?g (did ?h ?s)))))) ) = _ =>
    exists (h ++ g ++ [f; e; d; c; b; a]) end.
  st_eq.
Qed.

Lemma wp_pump_dump_info s p c tag :
  pumpMethodImpl s = Some transocks_bufferpump_ops_ref → clients s !! p = Some c → dumpable s c →
  wp (transocks_pump_dump_info p tag) (λ _ s', ∃ cs, s' = did cs s) s.
Proof.
  intros Hi Hc Hd. unfold transocks_pump_dump_info, pump_call, print_line. st_steps.
  unfold transocks_bufferpump_dump_info.
  eapply wp_mono; [by apply (wp_client_dump_info (did (dump_header tag) s) p c)|].
  intros [] s1 [cs ->]. rewrite did_did. by eexists.
Qed.

(** The dump of all clients, for SIGHUP: if the dump of each client only
    prints, so does the whole. *)
Lemma wp_dump_all s env l :
  dlist (nodes s) (clients_head env) (client_node <$> l) →
  (∀ p tag cs, p ∈ l → wp (transocks_pump_dump_info p tag) (λ _ s', ∃ ds, s' = did ds (did cs s)) (did cs s)) →
  wp (transocks_dump_all_client_info env) (λ _ s', ∃ cs, s' = did cs s) s.
Proof.
  intros Hd Hl. unfold transocks_dump_all_client_info, list_fuel, print_line. st_steps.
  eapply wp_mono; [apply (wp_list_for_each_entry (λ p : state * Z, nodes p.1) _ _ _ (client_node <$> l)
    (λ _ t, ∃ cs, t.1 = did cs s))|by intros [] t].
  - apply Hd.
  - intros vis [s' i] [cs ->]. done.
  - intros vis x rest [s' i] E [cs Hs]. simpl in Hs. subst s'.
    assert (x ∈ client_node <$> l) as (p & -> & Hp)%list_elem_of_fmap by (rewrite E, elem_of_app; right; left).
    rewrite client_node_sub. unfold wp, with_counter. simpl.
    pose proof (Hl p ("conn #" +:+ format_d i) cs Hp) as (r & s2 & E2 & ds & ->)%wp_run.
    rewrite E2. exists (cs ++ ds). simpl. by rewrite did_did.
  - exists [c_printf ("transocks-wong connection info:" +:+ LF)]. done.
  - rewrite length_fmap. pose proof (nodes_length _ _ _ Hd) as H. rewrite length_fmap in H. lia.
Qed.

Lemma wp_dump_all_client_info s env l :
  pumpMethodImpl s = Some transocks_bufferpump_ops_ref → dlist (nodes s) (clients_head env) (client_node <$> l) →
  (∀ p, p ∈ l → ∃ c, clients s !! p = Some c ∧ dumpable s c) →
  wp (transocks_dump_all_client_info env) (λ _ s', ∃ cs, s' = did cs s) s.
Proof.
  intros Hi Hd Hl. apply (wp_dump_all s env l Hd). intros p tag cs (c & Hc & Hdump)%Hl. by apply (wp_pump_dump_info _ p c).
Qed.

(** The splice pump's dump of one client: it prints the pipes too. *)
Lemma wp_splice_dump_info s p c pm pi po tag :
  pumpMethodImpl s = Some transocks_splicepump_ops_ref → clients s !! p = Some c → dumpable s c →
  splice_ok s c pm pi po → is_Some (capacity pi) → is_Some (capacity po) →
  wp (transocks_pump_dump_info p tag) (λ _ s', ∃ cs, s' = did cs s) s.
Proof.
  intros Hi Hc Hd [] [icap Ei] [ocap Eo]. unfold transocks_pump_dump_info, pump_call, print_line. st_steps.
  unfold transocks_splicepump_dump_info, transocks_get_splicepump, print_line.
  destruct (p =? NULL); [st_steps; by exists (dump_header tag)|]. st_steps.
  destruct (user_arg c =? NULL); [st_steps; by exists (dump_header tag)|]. st_steps.
  match goal with |- wp _ _ ?t => eapply wp_mono; [by apply (wp_client_dump_info t p c)|] end.
  intros [] s1 [cs ->]. 
  match goal with |- ∃ cs, did _ (push (ICall ?a) (push (ICall ?b) (push (ICall ?c) _))) = _ =>
    exists (dump_header tag ++ [c; b; a] ++ cs) end. by rewrite <-!did_did.
Qed.

(** ** Dropping all clients *)

(** What the buffer pump needs to dump and release a client. *)
Record droppable s (p : Z) (c : transocks_client) : Prop := {
  dr_ok : client_ok s p c;
  dr_alive : is_destroyed (client_state c) = false;
  dr_cbev : client_bev c ≠ NULL;
  dr_rbev : relay_bev c ≠ NULL;
  dr_dump : dumpable s c
}.

Definition client_handles (c : transocks_client) : list Z :=
  [client_addr c; dest_addr c; client_bev c; relay_bev c; timeout_ev c].

(** Two clients share no object. *)
Definition apart (c c' : transocks_client) : Prop :=
  ∀ x, x ∈ client_handles c → x ∈ client_handles c' → x = NULL.

Lemma lookup_delete_apart {T} i (m : gmap Z T) p v :
  m !! NULL = None → (i = p → i = NULL) → m !! p = Some v → delete i m !! p = Some v.
Proof.
  intros Hn Hne Hp. rewrite lookup_delete_ne; [done|]. intros E. specialize (Hne E). congruence.
Qed.

(** Releasing one client keeps the others ready. *)
Lemma droppable_freed s p c h cs q c' :
  null_ok s → p ≠ q → apart c c' → droppable s q c' → droppable (client_freed p c h (did cs s)) q c'.
Proof.
  intros [Nc Na Nb Ne] Hpq Hap [[] Hal Hcb Hrb [(sa & n & Ha & Hn & Hp) (sa' & n' & Ha' & Hn' & Hp')]].
  assert (∀ x y, x ∈ client_handles c → y ∈ client_handles c' → x = y → x = NULL) as Hne.
  { intros x y Hx Hy ->. by apply Hap. }
  assert (∀ x y, x ∈ client_handles c → y ∈ client_handles c' → y = x → y = NULL) as Hne'.
  { intros x y Hx Hy ->. by apply Hap. }
  split; [split|..]; unfold client_freed; st_norm; try done; try (by rewrite lookup_delete_ne);
    try (repeat apply handle_ok_delete; try done; apply Hne'; unfold client_handles; set_solver).
  split; [exists sa, n|exists sa', n']; (split; [|done]); st_norm;
    (repeat apply lookup_delete_apart; try done; [by apply delete_None|..];
     apply Hne; unfold client_handles; set_solver).
Qed.

Lemma null_ok_freed s p c h cs : null_ok s → null_ok (client_freed p c h (did cs s)).
Proof. intros []. split; unfold client_freed; st_norm; auto with tr. Qed.

(** Every client of the list is ready, and no two share an object. *)
Record all_droppable s (head : Z) (l : list Z) : Prop := {
  ad_null : null_ok s;
  ad_list : dlist (nodes s) head (client_node <$> l);
  ad_ready p : p ∈ l → ∃ c, droppable s p c;
  ad_apart p q c c' : p ∈ l → q ∈ l → p ≠ q →
    clients s !! p = Some c → clients s !! q = Some c' → apart c c'
}.

Lemma wp_drop_one s head p l (Q : unit → state → Prop) :
  pumpMethodImpl s = Some transocks_bufferpump_ops_ref → all_droppable s head (p :: l) →
  (∀ s', pumpMethodImpl s' = pumpMethodImpl s → all_droppable s' head l →
     clients s' = delete p (clients s) → Q tt s') →
  wp (transocks_pump_dump_info p "close connection" ;; transocks_pump_free p) Q s.
Proof.
  intros Hi [Hn Hd Hr Ha] HQ. destruct (Hr p) as [c Hc]; [set_solver|].
  pose proof Hc as [Hok Hal Hcb Hrb Hdump]. pose proof Hok as [Hp _ _ _ _ _ _ _].
  apply wp_bind. eapply wp_mono; [by eapply wp_pump_dump_info|]. intros [] s1 [ds ->].
  unfold transocks_pump_free, pump_call. st_steps.
  eapply wp_mono; [apply (wp_bufferpump_free (did ds s) p c head [] (client_node <$> l))|].
  { split; try done. - by destruct Hn. - by eapply client_ok_mono. }
  intros [] s' (h & -> & Hd' & Ho). rewrite did_did in *. apply HQ; [done| |done].
  assert (p ∉ l) as Hpl.
  { destruct Hd as [[_ [Hx _]%NoDup_cons]%NoDup_cons _]. intros Hpl. apply Hx. by apply list_elem_of_fmap_2. }
  split; [by apply null_ok_freed|done|..].
  - intros q Hq. destruct (Hr q) as [c' Hc']; [set_solver|]. exists c'.
    apply droppable_freed; [done|by intros ->| |done].
    apply (Ha p q); [set_solver|set_solver|by intros ->|done|by destruct Hc' as [[]]].
  - intros q1 q2 c1 c2 H1 H2 Hne E1 E2. unfold client_freed in E1, E2. simpl in E1, E2.
    apply lookup_delete_Some in E1 as [_ E1], E2 as [_ E2].
    apply (Ha q1 q2); [set_solver|set_solver|done..].
Qed.

(** Under the buffer pump, dropping all clients returns, releases every
    client of the list and no other one, and leaves the list empty. *)
Theorem drop_all_clients_buffer s env l :
  pumpMethodImpl s = Some transocks_bufferpump_ops_ref → all_droppable s (clients_head env) l →
  ∃ s', transocks_drop_all_clients env s = Ok tt s' ∧
    dlist (nodes s') (clients_head env) [] ∧
    ∀ q, clients s' !! q = if decide (q ∈ l) then None else clients s !! q.
Proof.
  intros Hi Had. pose proof (ad_list _ _ _ Had) as Hd.
  apply wp_tt. unfold transocks_drop_all_clients, list_fuel. st_steps.
  eapply wp_mono; [apply (wp_list_for_each_entry_safe nodes _ _ _ (client_node <$> l)
    (λ _ rest s', ∃ done todo, l = done ++ todo ∧ rest = client_node <$> todo ∧
       pumpMethodImpl s' = pumpMethodImpl s ∧ all_droppable s' (clients_head env) todo ∧
       ∀ q, clients s' !! q = if decide (q ∈ done) then None else clients s !! q))|].
  - apply Hd.
  - intros vis rest s' (dn & todo & _ & -> & _ & [_ Hd' _ _] & _). by apply (dlist_rest _ _ []).
  - intros vis x rest s' _ (dn & [|p todo] & -> & [= -> ->] & Hi' & Had' & Hcl).
    rewrite client_node_sub. eapply wp_drop_one; [by rewrite Hi'|done|].
    intros s2 Hi2 Had2 Hcl2. exists (dn ++ [p]), todo. split_and!; [by rewrite <-(assoc_L (++))|done|congruence|done|].
    intros q. rewrite Hcl2, lookup_delete, Hcl.
    destruct (decide (p = q)) as [->|]; repeat case_decide; try done; exfalso; set_solver.
  - exists [], l. split_and!; done.
  - done.
  - rewrite length_fmap. pose proof (nodes_length _ _ _ Hd) as H. rewrite length_fmap in H. lia.
  - intros [] s' (dn & todo & -> & E & _ & [_ Hd' _ _] & Hcl).
    destruct todo; [|done]. by rewrite app_nil_r.
Qed.
End pump_theorems.

(** ** Concrete runs *)

Definition ex_named (name : string) : state :=
  set_strs {[7000 := name]}
    (set_envs {[4096 := TransocksGlobalEnv 7000 4200 4200 16 16 4900 NULL NULL NULL NULL NULL]} ex_state).

Lemma pump_init_selects_witness :
  transocks_pump_init (EXT:=quiet) 4096 (ex_named "bufferpump")
  = Ok 0 (set_pumpMethodImpl (Some transocks_bufferpump_ops_ref) (ex_named "bufferpump")).
Proof.
  apply (pump_init_selects (EXT:=quiet) (ex_named "bufferpump") 4096
    (TransocksGlobalEnv 7000 4200 4200 16 16 4900 NULL NULL NULL NULL NULL) "bufferpump"); reflexivity.
Defined.

Definition ex_with (r : pump_ref) : state := set_pumpMethodImpl (Some r) ex_state.

Lemma drop_all_clients_splice_handshake_witness :
  ∃ s', transocks_drop_all_clients (EXT:=quiet) 4096 (ex_with transocks_splicepump_ops_ref) = Ok tt s' ∧
        ∃ cs, s' = did cs (ex_with transocks_splicepump_ops_ref).
Proof.
  apply (drop_all_clients_splice_handshake (EXT:=quiet) (ex_with transocks_splicepump_ops_ref) 4096 [5000]).
  - reflexivity.
  - concrete_dlist.
  - intros p ->%list_elem_of_singleton. exists ex_client. split; reflexivity.
Defined.

Lemma drop_all_clients_buffer_witness :
  ∃ s', transocks_drop_all_clients (EXT:=quiet) 4096 (ex_with transocks_bufferpump_ops_ref) = Ok tt s' ∧
    dlist (nodes s') 4176 [] ∧
    ∀ q, clients s' !! q = if decide (q ∈ [5000]) then None
                           else clients (ex_with transocks_bufferpump_ops_ref) !! q.
Proof.
  apply (drop_all_clients_buffer (EXT:=quiet)).
  - intros tr f a n. eexists. reflexivity.
  - reflexivity.
  - split.
    + split; reflexivity.
    + concrete_dlist.
    + intros p ->%list_elem_of_singleton. exists ex_client. split; try discriminate; try reflexivity.
      * split; first [reflexivity | concrete_handle | discriminate].
      * split; exists ex_addr, 16; (split; [reflexivity|]); (split; [reflexivity|]); left; reflexivity.
    + intros p q c c' ->%list_elem_of_singleton ->%list_elem_of_singleton Hne. by destruct Hne.
Defined.
