(* ===== verification/Socks5.v ===== *)
(** * socks5.c: the SOCKS5 client handshake

    Connect to the relay, offer the "no authentication" method, read the
    selected method, send the CONNECT request for the original destination,
    read the reply, start the pump.  The packed structs of socks5.h are byte
    lists. *)

From S2P Require Import Prelude DList ListSpec Structs World Util Context BufferPump SplicePump Pump.
Local Open Scope Z_scope.

Definition SOCKS5_VERSION : Z := 0x05.
Definition SOCKS5_METHOD_NOAUTH : Z := 0x00.
Definition SOCKS5_METHOD_UNACCEPTABLE : Z := 0xff.
Definition SOCKS5_CMD_CONNECT : Z := 0x01.
Definition SOCKS5_ATYP_IPV4 : Z := 0x01.
Definition SOCKS5_ATYP_DOMAIN : Z := 0x03.
Definition SOCKS5_ATYP_IPV6 : Z := 0x04.
Definition SOCKS5_REP_SUCCEEDED : Z := 0x00.

(** ** Packed structs *)

Record socks_method_select_request := SocksMethodSelectRequest {
  msr_ver : Z; msr_nmethods : Z; msr_methods : list Z
}.

(** [struct socks_request_ipv4] and [struct socks_request_ipv6] have the same
    fields, with an address of 4 and of 16 bytes. *)
Record socks_request := SocksRequest {
  req_ver : Z; req_cmd : Z; req_rsv : Z; req_atyp : Z; req_addr : list Z; req_port : list Z
}.

(** The structs an answer is read through, by a cast of its bytes: a member is
    the byte at its offset, absent if the answer is too short. *)
Record socks_method_select_response := SocksMethodSelectResponse {
  pres_ver : option Z; pres_method : option Z
}.

Record socks_response_header := SocksResponseHeader {
  preshead_ver : option Z; preshead_rep : option Z; preshead_rsv : option Z; preshead_atyp : option Z
}.

Definition method_select_response_of (mem : list Z) : socks_method_select_response :=
  SocksMethodSelectResponse (mem !! 0%nat) (mem !! 1%nat).

Definition response_header_of (mem : list Z) : socks_response_header :=
  SocksResponseHeader (mem !! 0%nat) (mem !! 1%nat) (mem !! 2%nat) (mem !! 3%nat).

Definition bytes_of_method_select (r : socks_method_select_request) : list Z :=
  msr_ver r :: msr_nmethods r :: msr_methods r.

Definition bytes_of_request (r : socks_request) : list Z :=
  req_ver r :: req_cmd r :: req_rsv r :: req_atyp r :: req_addr r ++ req_port r.

Definition socks_request_ipv4 (sa : sockaddr_storage) : socks_request :=
  SocksRequest SOCKS5_VERSION SOCKS5_CMD_CONNECT 0x00 SOCKS5_ATYP_IPV4 (sin_addr sa) (sin_port sa).

Definition socks_request_ipv6 (sa : sockaddr_storage) : socks_request :=
  SocksRequest SOCKS5_VERSION SOCKS5_CMD_CONNECT 0x00 SOCKS5_ATYP_IPV6 (sin6_addr sa) (sin6_port sa).

Definition sizeof_socks_request_ipv4 : Z := 10.
Definition sizeof_socks_request_ipv6 : Z := 22.

(** [socks5_timeout_tv]: 60 seconds. *)
Definition socks5_timeout_tv : Z := 60.

Section socks5.
Context {EXT : Env}.

Definition free_client (pclient : Z) : C unit := TRANSOCKS_FREE transocks_client_free pclient.

Definition socks_handshake_stage_errcb (bevs : Z) (pclient : Z) : C unit :=
  tev ← fld pclient timeout_ev;
  evtimer_del tev ;;
  if TRANSOCKS_CHKBIT bevs BEV_EVENT_EOF || TRANSOCKS_CHKBIT bevs BEV_EVENT_ERROR
  then free_client pclient
  else mret tt.

(** The rest of the callback after the [switch] on the address type. *)
Definition connect_reply_start_pump (pClient relay : Z) : C unit :=
  modify pClient (set_client_state client_socks5_finish_handshake) ;;
  bufferevent_disable relay (Z.lor EV_READ EV_WRITE) ;;
  r ← transocks_start_pump pClient;
  if negb (r =? 0) then free_client pClient else mret tt.

Definition socks_on_server_connect_reply_readcb (pClient : Z) : C unit :=
  tev ← fld pClient timeout_ev;
  evtimer_del tev ;;
  relay ← fld pClient relay_bev;
  input_read_size ← evbuffer_get_length (Input relay);
  if input_read_size <? 10 then free_client pClient else
  mem ← evbuffer_pullup (Input relay) input_read_size;
  let preshead := response_header_of mem in
  ver ← rd (preshead_ver preshead);
  if negb (ver =? SOCKS5_VERSION) then free_client pClient else
  rep ← rd (preshead_rep preshead);
  if negb (rep =? SOCKS5_REP_SUCCEEDED) then free_client pClient else
  atyp ← rd (preshead_atyp preshead);
  if atyp =? SOCKS5_ATYP_IPV4 then
    evbuffer_drain (Input relay) 10 ;; connect_reply_start_pump pClient relay
  else if atyp =? SOCKS5_ATYP_IPV6 then
    evbuffer_drain (Input relay) 22 ;; connect_reply_start_pump pClient relay
  else free_client pClient.

(** One branch of [socks_send_connect_request]: a request struct is allocated,
    filled, written to the bufferevent and released. *)
Definition send_request (relay size : Z) (r : socks_request) (freeClient continue : C unit) : C unit :=
  req ← tr_malloc_block size;
  if req =? NULL then freeClient else
  modify req (λ _, bytes_of_request r) ;;
  data ← load (T:=list Z) req;
  bufferevent_write relay data ;;
  TRANSOCKS_FREE (tr_free (list Z)) req ;;
  continue.

(** The rest of [socks_send_connect_request] after the request is sent. *)
Definition await_connect_reply (pclient relay : Z) : C unit :=
  bufferevent_setwatermark relay EV_READ 10 TRANSOCKS_BUFSIZE ;;
  bufferevent_setcb relay (Some fn_socks_on_server_connect_reply_readcb) None
    (Some fn_socks_handshake_stage_errcb) pclient ;;
  bufferevent_enable relay EV_READ ;;
  transocks_client_set_timeout pclient socks5_timeout_tv fn_socks5_timeout_cb pclient ;;
  mret tt.

Definition socks_send_connect_request (pclient : Z) : C unit :=
  relay ← fld pclient relay_bev;
  da ← fld pclient dest_addr;
  sa ← load (T:=option sockaddr_storage) da;
  sa ← rd sa;
  let continue := await_connect_reply pclient relay in
  if ss_family sa =? AF_INET then
    send_request relay sizeof_socks_request_ipv4 (socks_request_ipv4 sa) (free_client pclient) continue
  else if ss_family sa =? AF_INET6 then
    send_request relay sizeof_socks_request_ipv6 (socks_request_ipv6 sa) (free_client pclient) continue
  else free_client pclient.

(** [bev] is the bufferevent the callback runs for. *)
Definition socks_on_server_selected_method_readcb (bev : Z) (pclient : Z) : C unit :=
  tev ← fld pclient timeout_ev;
  evtimer_del tev ;;
  input_read_size ← evbuffer_get_length (Input bev);
  if input_read_size <? 2 then free_client pclient else
  mem ← evbuffer_pullup (Input bev) input_read_size;
  let pres := method_select_response_of mem in
  ver ← rd (pres_ver pres);
  if negb (ver =? SOCKS5_VERSION) then free_client pclient else
  method ← rd (pres_method pres);
  if negb (method =? SOCKS5_METHOD_NOAUTH) then free_client pclient else
  d ← evbuffer_drain (Input bev) 2;
  if negb (d =? 0) then free_client pclient else
  len ← evbuffer_get_length (Input bev);
  if negb (len =? 0) then free_client pclient else
  socks_send_connect_request pclient.

Definition socks_send_method_selection (pclient : Z) : C unit :=
  relay ← fld pclient relay_bev;
  let req := SocksMethodSelectRequest SOCKS5_VERSION 0x01 [SOCKS5_METHOD_NOAUTH] in
  bufferevent_setwatermark relay EV_READ 2 TRANSOCKS_BUFSIZE ;;
  bufferevent_write relay (bytes_of_method_select req) ;;
  bufferevent_setcb relay (Some fn_socks_on_server_selected_method_readcb) None
    (Some fn_socks_handshake_stage_errcb) pclient ;;
  bufferevent_enable relay EV_READ ;;
  transocks_client_set_timeout pclient socks5_timeout_tv fn_socks5_timeout_cb pclient ;;
  mret tt.

Definition relay_onconnect_eventcb (bevs : Z) (pclient : Z) : C unit :=
  tev ← fld pclient timeout_ev;
  evtimer_del tev ;;
  if TRANSOCKS_CHKBIT bevs BEV_EVENT_CONNECTED then
    modify pclient (set_client_state client_relay_connected) ;;
    socks_send_method_selection pclient
  else if TRANSOCKS_CHKBIT bevs BEV_EVENT_ERROR then free_client pclient
  else mret tt.

Definition socks5_timeout_cb (pclient : Z) : C unit := free_client pclient.

Definition transocks_start_connect_relay (pClient : Z) : C unit :=
  env ← fld pClient global_env;
  ra ← fld env relay_addr;
  relay_a ← load (T:=option sockaddr_storage) ra;
  relay_a ← rd relay_a;
  let freeClient := free_client pClient in
  relay_fd' ← sys (c_socket (ss_family relay_a) SOCK_STREAM 0);
  if relay_fd' <? 0 then freeClient else
  let closeFd := TRANSOCKS_CLOSE relay_fd' ;; freeClient in
  r ← setnonblocking relay_fd' true;
  if negb (r =? 0) then closeFd else
  r ← apply_tcp_keepalive relay_fd';
  if negb (r =? 0) then closeFd else
  r ← apply_tcp_nodelay relay_fd';
  if negb (r =? 0) then closeFd else
  modify pClient (set_relay_fd relay_fd') ;;
  base ← fld env eventBaseLoop;
  relay ← bufferevent_socket_new base relay_fd' BEV_OPT_CLOSE_ON_FREE;
  if relay =? NULL then closeFd else
  let freeBev := TRANSOCKS_FREE bufferevent_free relay ;; closeFd in
  modify pClient (set_relay_bev relay) ;;
  rb ← fld pClient relay_bev;
  bufferevent_setcb rb None None (Some fn_relay_onconnect_eventcb) pClient ;;
  bufferevent_enable rb EV_WRITE ;;
  transocks_client_set_timeout pClient socks5_timeout_tv fn_socks5_timeout_cb pClient ;;
  len ← fld env relay_addr_len;
  r ← bufferevent_socket_connect rb relay_a len;
  if negb (r =? 0) then freeBev else
  mret tt.
End socks5.

(** ** Messages *)

Inductive socks_addr := IPv4 (a : list Z) | IPv6 (a : list Z).

(** A server's reading of a CONNECT request (RFC 1928, section 4). *)
Definition decode_request (bs : list Z) : option (socks_addr * Z) :=
  match bs with
  | ver :: cmd :: rsv :: atyp :: rest =>
      if negb ((ver =? 5) && (cmd =? 1) && (rsv =? 0)) then None
      else if (atyp =? 1) && Nat.eqb (length rest) 6 then Some (IPv4 (take 4 rest), ntohs (drop 4 rest))
      else if (atyp =? 4) && Nat.eqb (length rest) 18 then Some (IPv6 (take 16 rest), ntohs (drop 16 rest))
      else None
  | _ => None
  end.

(** C22 The CONNECT request the program builds for a destination is 10 bytes
    for IPv4 and 22 bytes for IPv6, and a server that reads it by RFC 1928
    gets back the destination's address and port. *)
Theorem connect_request_roundtrip port addr :
  (length addr = 4%nat →
     let bs := bytes_of_request (socks_request_ipv4 (mk_sockaddr_in port addr)) in
     decode_request bs = Some (IPv4 addr, port) ∧ Z.of_nat (length bs) = sizeof_socks_request_ipv4) ∧
  (length addr = 16%nat →
     let bs := bytes_of_request (socks_request_ipv6 (mk_sockaddr_in6 port addr)) in
     decode_request bs = Some (IPv6 addr, port) ∧ Z.of_nat (length bs) = sizeof_socks_request_ipv6).
Proof.
  split; intros Hl bs; subst bs; unfold bytes_of_request, socks_request_ipv4, socks_request_ipv6;
    cbn [req_ver req_cmd req_rsv req_atyp req_addr req_port].
  - destruct (mk_in_fields port addr Hl) as (_ & -> & ->). unfold decode_request. cbn [length].
    rewrite length_app, Hl, take_app_length', drop_app_length', ntohs_be16 by done. by split.
  - destruct (mk_in6_fields port addr Hl) as (_ & -> & ->). unfold decode_request. cbn [length].
    rewrite length_app, Hl, (take_app_length' addr _ 16), (drop_app_length' addr _ 16), ntohs_be16 by done. by split.
Qed.

(** ** The client during the handshake *)

(** [s1] is [s] with the client changed to [c1] (with the same handles), its
    timer and bufferevents changed, and calls made. *)
Record near (p : Z) (c c1 : transocks_client) (s s1 : state) : Prop := {
  nr_clients : clients s1 = <[p := c1]> (clients s);
  nr_handles : same_handles c c1;
  nr_evs_live q : is_Some (evs s1 !! q) ↔ is_Some (evs s !! q);
  nr_evs : delete (timeout_ev c) (evs s1) = delete (timeout_ev c) (evs s);
  nr_bevs_live q : is_Some (bevs s1 !! q) ↔ is_Some (bevs s !! q);
  nr_bevs : delete (client_bev c) (delete (relay_bev c) (bevs s1))
            = delete (client_bev c) (delete (relay_bev c) (bevs s));
  nr_addrs : addrs s1 = addrs s;
  nr_nodes : nodes s1 = nodes s;
  nr_heaps : pump_heaps s1 = pump_heaps s
}.

(** The client, its timer, bufferevents and addresses are gone, nothing else
    of these is, and it left the list; its node is gone and no node outside
    the list changed. *)
Record gone (p : Z) (c : transocks_client) (head : Z) (l1 l2 : list Z) (s s' : state) : Prop := {
  gn_clients : clients s' = delete p (clients s);
  gn_evs : evs s' = delete (timeout_ev c) (evs s);
  gn_bevs : bevs s' = delete (client_bev c) (delete (relay_bev c) (bevs s));
  gn_addrs : addrs s' = delete (dest_addr c) (delete (client_addr c) (addrs s));
  gn_list : dlist (nodes s') head (l1 ++ l2);
  gn_node : nodes s' !! client_node p = None;
  gn_nodes : same_outside (head :: l1 ++ client_node p :: l2) (nodes s) (nodes s');
  gn_heaps : pump_heaps s' = pump_heaps s
}.

Lemma near_refl p c s : clients s !! p = Some c → near p c c s s.
Proof. intros Hc. by split; rewrite ?insert_id. Qed.

Lemma near_did p c c1 s s1 cs : near p c c1 s s1 → near p c c1 s (did cs s1).
Proof. by intros []; split. Qed.

Lemma near_timer p c c1 s s1 f :
  near p c c1 s s1 → near p c c1 s (set_evs (alter f (timeout_ev c) (evs s1)) s1).
Proof.
  intros []; split; st_norm; try done; [|by rewrite delete_alter].
  intros q. rewrite alter_is_Some. apply nr_evs_live0.
Qed.

Lemma near_bev p c c1 s s1 f b :
  near p c c1 s s1 → b = client_bev c ∨ b = relay_bev c →
  near p c c1 s (set_bevs (alter f b (bevs s1)) s1).
Proof.
  intros [] Hb; split; st_norm; try done.
  - intros q. rewrite alter_is_Some. apply nr_bevs_live0.
  - rewrite <-nr_bevs0. apply map_eq. intros k. rewrite !lookup_delete, lookup_alter.
    destruct Hb as [->| ->]; by repeat case_decide.
Qed.

Lemma near_client p c c1 c2 s s1 :
  near p c c1 s s1 → same_handles c c2 → near p c c2 s (set_clients (<[p := c2]> (clients s1)) s1).
Proof. intros [] Hh; split; st_norm; try done. by rewrite nr_clients0, insert_insert_eq. Qed.

Lemma near_ok p c c1 s s1 :
  null_ok s → client_ok s p c → near p c c1 s s1 → null_ok s1 ∧ client_ok s1 p c1.
Proof.
  intros Hn Hc []. pose proof (client_not_null _ _ _ Hn (co_live _ _ _ Hc)) as Hp. split.
  - destruct Hn. split; [by rewrite nr_clients0, lookup_insert_ne|congruence|..]; apply eq_None_not_Some.
    + rewrite nr_bevs_live0, null_bevs. by intros [].
    + rewrite nr_evs_live0, null_evs. by intros [].
  - eapply client_ok_mono; [done| |done|intros q; by apply nr_evs_live0|intros q; by apply nr_bevs_live0|congruence].
    rewrite nr_clients0. apply lookup_insert_eq.
Qed.

(** A client of the list whose handshake runs: it has its timer and the
    relay's bufferevent. *)
Record shaking (s : state) (p : Z) (c : transocks_client) (head : Z) (l1 l2 : list Z) : Prop := {
  sk_null : null_ok s;
  sk_ok : client_ok s p c;
  sk_alive : is_destroyed (client_state c) = false;
  sk_timer : timeout_ev c ≠ NULL;
  sk_relay : relay_bev c ≠ NULL;
  sk_list : dlist (nodes s) head (l1 ++ client_node p :: l2)
}.

(** The client's timer, which fires the timeout of [p], still does. *)
Definition timer_kept (p ev : Z) (s s' : state) : Prop :=
  ∀ t, evs s !! ev = Some t → ev_cb t = fn_socks5_timeout_cb → ev_arg t = p →
  ∃ t', evs s' !! ev = Some t' ∧ ev_cb t' = fn_socks5_timeout_cb ∧ ev_arg t' = p.

(** The client as its handshake goes on: only its state, timer and
    bufferevents changed, and the timer is still its timeout. *)
Definition goes_on (p : Z) (c c1 : transocks_client) (s s' : state) : Prop := near p c c1 s s' ∧ timer_kept p (timeout_ev c) s s'.

Lemma timer_kept_alter p ev s s' f :
  timer_kept p ev (set_evs (alter f ev (evs s)) s) s' → (∀ t, ev_cb (f t) = ev_cb t ∧ ev_arg (f t) = ev_arg t) →
  timer_kept p ev s s'.
Proof.
  intros H Hf t Ht Hcb Harg. apply (H (f t)); [st_norm; by rewrite lookup_alter_eq, Ht| |]; destruct (Hf t); congruence.
Qed.

Lemma goes_on_trans p c c1 s s1 s' :
  near p c c s s1 → timer_kept p (timeout_ev c) s s1 → goes_on p c c1 s1 s' → goes_on p c c1 s s'.
Proof.
  intros H0 Htk [H1 Htk']. split.
  - destruct H0, H1. split; try done; try (by etrans); [by rewrite nr_clients1, nr_clients0, insert_insert_eq|..].
    + intros q. by rewrite nr_evs_live1.
    + intros q. by rewrite nr_bevs_live1.
  - intros t Ht Hcb Harg. destruct (Htk t Ht Hcb Harg) as (t' & ? & ? & ?). eauto.
Qed.

(** A complete reply of RFC 1928, section 6, that grants the request: version
    5, success, an IPv4 or IPv6 address and a port. *)
Definition success_reply (reply : list Z) : Prop :=
  ∃ rsv addr port, length port = 2%nat ∧
    (length addr = 4%nat ∧ reply = [5; 0; rsv; 1] ++ addr ++ port ∨
     length addr = 16%nat ∧ reply = [5; 0; rsv; 4] ++ addr ++ port).

(** What can not be the start of such a reply, or is shorter than the shortest. *)
Definition refused_reply (b : list Z) : Prop :=
  (length b < 10)%nat ∨ b !! 0%nat ≠ Some 5 ∨ b !! 1%nat ≠ Some 0 ∨ b !! 3%nat ∉ [Some 1; Some 4].

(** The code's test: which bytes end the connection, and how many are taken
    out of the buffer otherwise.  It takes 22 bytes for an IPv6 address when
    only 10 have to be there. *)
Definition reply_length (b : list Z) : option nat :=
  match b with
  | ver :: rep :: _ :: atyp :: _ =>
      if Z.of_nat (length b) <? 10 then None
      else if negb (ver =? SOCKS5_VERSION) then None
      else if negb (rep =? SOCKS5_REP_SUCCEEDED) then None
      else if atyp =? SOCKS5_ATYP_IPV4 then Some 10%nat
      else if atyp =? SOCKS5_ATYP_IPV6 then Some 22%nat
      else None
  | _ => None
  end.

Lemma reply_length_short b : Z.of_nat (length b) < 10 → reply_length b = None.
Proof.
  intros Hlt%Z.ltb_lt. unfold reply_length. destruct b as [|ver [|rep [|rsv [|atyp rest]]]]; try done.
  by rewrite Hlt.
Qed.

Lemma reply_length_long b :
  10 ≤ Z.of_nat (length b) → ∃ ver rep rsv atyp rest, b = ver :: rep :: rsv :: atyp :: rest ∧
    reply_length b = if negb (ver =? SOCKS5_VERSION) then None
                     else if negb (rep =? SOCKS5_REP_SUCCEEDED) then None
                     else if atyp =? SOCKS5_ATYP_IPV4 then Some 10%nat
                     else if atyp =? SOCKS5_ATYP_IPV6 then Some 22%nat else None.
Proof.
  intros Hge. destruct b as [|ver [|rep [|rsv [|atyp rest]]]]; try (simpl in Hge; lia).
  exists ver, rep, rsv, atyp, rest. split; [done|]. apply Z.ltb_ge in Hge. unfold reply_length. by rewrite Hge.
Qed.

Lemma success_reply_length reply rest :
  success_reply reply → reply_length (reply ++ rest) = Some (length reply).
Proof.
  intros (rsv & addr & port & Hp & H).
  assert (10 ≤ Z.of_nat (length (reply ++ rest))) as Hl
    by (rewrite length_app; destruct H as [[Ha ->]|[Ha ->]]; rewrite !length_app, Ha, Hp; simpl; lia).
  destruct (reply_length_long _ Hl) as (ver & rep & rsv' & atyp & rest' & E & ->).
  destruct H as [[Ha ->]|[Ha ->]]; injection E as <- <- <- <- _; simpl; by rewrite length_app, Ha, Hp.
Qed.

Lemma refused_reply_length b : refused_reply b → reply_length b = None.
Proof.
  intros H. destruct (decide (length b < 10)%nat) as [Hs|Hs]; [apply reply_length_short; lia|].
  destruct (reply_length_long b) as (ver & rep & rsv & atyp & rest & -> & ->); [lia|].
  destruct H as [?|[H|[H|H]]]; [done|..]; simpl in H.
  - by destruct (Z.eqb_spec ver SOCKS5_VERSION) as [->|].
  - destruct (negb (ver =? _)); [done|]. by destruct (Z.eqb_spec rep SOCKS5_REP_SUCCEEDED) as [->|].
  - destruct (negb (ver =? _)); [done|]. destruct (negb (rep =? _)); [done|].
    destruct (Z.eqb_spec atyp SOCKS5_ATYP_IPV4) as [->|]; [destruct H; left|].
    destruct (Z.eqb_spec atyp SOCKS5_ATYP_IPV6) as [->|]; [destruct H; right; left|done].
Qed.

Section handshake_rules.
Context {EXT : Env}.
Implicit Types s : state.

(** The release of a client of the list after changes to what it owns. *)
Lemma wp_free_listed s s1 p c c1 head l1 l2 :
  null_ok s → client_ok s p c → dlist (nodes s) head (l1 ++ client_node p :: l2) →
  is_destroyed (client_state c1) = false → near p c c1 s s1 →
  wp (free_client p) (λ _ s', gone p c head l1 l2 s s') s1.
Proof.
  intros Hn Hc Hl Ha Hnr. destruct (near_ok _ _ _ _ _ Hn Hc Hnr) as [Hn1 Hc1].
  unfold free_client. rewrite TRANSOCKS_FREE_live by (eapply client_not_null; [done|apply Hc1]).
  destruct Hnr. eapply wp_mono; [by eapply wp_client_free_listed; rewrite ?nr_nodes0|].
  intros [] s' (h & -> & Hd & Hnode & Hout). destruct nr_handles0 as (E1 & E2 & E3 & E4 & E5).
  split; try done; unfold client_freed; st_norm; rewrite ?E1, ?E2, ?E3, ?E4, ?E5; try congruence.
  - by rewrite nr_clients0, delete_insert_eq.
  - by rewrite <-nr_nodes0.
Qed.

Lemma wp_free_client s s1 p c c1 head l1 l2 :
  shaking s p c head l1 l2 → is_destroyed (client_state c1) = false → near p c c1 s s1 →
  wp (free_client p) (λ _ s', gone p c head l1 l2 s s') s1.
Proof. intros []. by apply wp_free_listed. Qed.

(** [evtimer_del] of the client's timer, with which every callback starts. *)
Lemma wp_timer_del ev (Q : Z → state → Prop) s :
  is_Some (evs s !! ev) →
  (∀ r, Q r (did [c_event_del ev] (set_evs (alter (set_ev_added false) ev (evs s)) s))) →
  wp (evtimer_del ev) Q s.
Proof.
  intros [e He] HQ. unfold evtimer_del, event_del. st_steps.
  rewrite <-(alter_insert_Some (set_ev_added false) _ _ _ He). apply HQ.
Qed.

Context (buf : list item → evbuffer → list Z) {LAWS : EvbufferLaws EXT buf}.

Lemma wp_pullup_all b data (Q : list Z → state → Prop) s :
  is_Some (bevs s !! buf_bev b) → buf (trace s) b = data →
  Q data (did [c_evbuffer_pullup b (Z.of_nat (length data))] s) →
  wp (evbuffer_pullup b (Z.of_nat (length data))) Q s.
Proof.
  intros [v Hb] <- HQ. unfold evbuffer_pullup. st_steps. rewrite eb_pullup by lia. by rewrite Nat2Z.id, take_ge.
Qed.

Lemma wp_drain b n (Q : Z → state → Prop) s :
  is_Some (bevs s !! buf_bev b) → Q 0 (did [c_evbuffer_drain b n] s) → wp (evbuffer_drain b n) Q s.
Proof. intros [v Hb] HQ. unfold evbuffer_drain. st_steps. by rewrite eb_drain. Qed.

(** The client's timer is stopped, with which every callback starts. *)
Definition timer_stopped (c : transocks_client) s : state := set_evs (alter (set_ev_added false) (timeout_ev c) (evs s)) s.

Lemma timer_stopped_goes_on p c s cs : clients s !! p = Some c → goes_on p c c s (did cs (timer_stopped c s)).
Proof.
  intros Hp. split; [by apply near_did, near_timer, near_refl|].
  eapply (timer_kept_alter _ _ _ _ (set_ev_added false)); [|done]. intros t Ht **. by exists t.
Qed.

(** The callback up to the start of the pump, or to the release. *)
Lemma connect_reply_runs s p c head l1 l2 :
  shaking s p c head l1 l2 →
  let b := buf (trace s) (Input (relay_bev c)) in
  ∃ cs, quiet_calls cs ∧ socks_on_server_connect_reply_readcb p s =
    match reply_length b with
    | Some n => connect_reply_start_pump p (relay_bev c)
                  (did (cs ++ [c_evbuffer_drain (Input (relay_bev c)) (Z.of_nat n)]) (timer_stopped c s))
    | None => free_client p (did cs (timer_stopped c s))
    end.
Proof.
  intros [Hn [Hp Hev Hrb _ _ _ _ _] Ha Ht Hb Hl] b. pose proof (handle_live _ _ Hrb Hb) as Hlive.
  set (s0 := timer_stopped c s). assert (∀ cs, quiet_calls cs → buf (trace (did cs s0)) (Input (relay_bev c)) = b) as Hbuf.
  { intros cs Hcs. by rewrite (eb_keeps_did cs s0). }
  destruct (Z.ltb_spec (Z.of_nat (length b)) 10) as [Hlt|Hge].
  - exists [c_event_del (timeout_ev c); c_evbuffer_get_length (Input (relay_bev c))]. split; [done|].
    rewrite reply_length_short by done. unfold socks_on_server_connect_reply_readcb. st_run.
    apply bind_runs, wp_timer_del; [by apply handle_live|]. intros _. st_run.
    apply bind_runs, (wp_get_length buf); [done|]. fold (timer_stopped c s). fold s0. rewrite Hbuf, did_did by done.
    apply Z.ltb_lt in Hlt. by rewrite Hlt.
  - exists [c_event_del (timeout_ev c); c_evbuffer_get_length (Input (relay_bev c));
      c_evbuffer_pullup (Input (relay_bev c)) (Z.of_nat (length b))]. split; [done|].
    destruct (reply_length_long b Hge) as (ver & rep & rsv & atyp & rest & Eb & ->).
    unfold socks_on_server_connect_reply_readcb. st_run.
    apply bind_runs, wp_timer_del; [by apply handle_live|]. intros _. st_run.
    apply bind_runs, (wp_get_length buf); [done|]. fold (timer_stopped c s). fold s0. rewrite Hbuf, did_did by done.
    apply Z.ltb_ge in Hge. rewrite Hge. apply bind_runs, wp_pullup_all; [done|by apply Hbuf|]. rewrite did_did, Eb. st_run.
    destruct (negb (ver =? _)); [done|]. st_run. destruct (negb (rep =? _)); [done|]. st_run.
    destruct (atyp =? _); [|destruct (atyp =? _); [|done]];
      (apply bind_runs, wp_drain; [done|]; by rewrite did_did).
Qed.

Lemma wp_connect_reply_rejected s p c head l1 l2 :
  shaking s p c head l1 l2 → reply_length (buf (trace s) (Input (relay_bev c))) = None →
  wp (socks_on_server_connect_reply_readcb p) (λ _ s', gone p c head l1 l2 s s') s.
Proof.
  intros Hsk Hr. destruct (connect_reply_runs _ _ _ _ _ _ Hsk) as (cs & _ & Hrun). rewrite Hr in Hrun.
  eapply wp_runs; [exact Hrun|]. eapply wp_free_client; [done|by apply Hsk|].
  apply timer_stopped_goes_on, Hsk.
Qed.

(** C19 When the read callback finds fewer than 10 bytes, or bytes whose
    version is not 5, whose reply code is not 0 or whose address type is
    neither 1 nor 4, the connection ends: the callback returns and the client
    and all it owns are released.  (Of a granting reply with an IPv6 address
    that is cut off after 10 to 21 bytes nothing is said here.) *)
Theorem connect_reply_rejected s p c head l1 l2 :
  shaking s p c head l1 l2 → refused_reply (buf (trace s) (Input (relay_bev c))) →
  ∃ s', socks_on_server_connect_reply_readcb p s = Ok tt s' ∧ gone p c head l1 l2 s s'.
Proof. intros. apply wp_tt. by apply wp_connect_reply_rejected, refused_reply_length. Qed.

(** The relaying of the client at [p] runs: both sides have the pump's
    callbacks, and the client is marked as pumping. *)
Record pump_running (p : Z) (c : transocks_client) s s' : Prop := {
  pr_client : goes_on p c (set_client_state client_pumping_data c) s s';
  pr_client_side : ∃ b, bevs s' !! client_bev c = Some b ∧
    relaying b fn_transocks_client_readcb fn_transocks_client_writecb fn_transocks_client_eventcb p;
  pr_relay_side : ∃ b, bevs s' !! relay_bev c = Some b ∧
    relaying b fn_transocks_relay_readcb fn_transocks_relay_writecb fn_transocks_relay_eventcb p
}.

Lemma wp_connect_reply_accepted s p c head l1 l2 n :
  shaking s p c head l1 l2 → client_bev c ≠ NULL →
  pumpMethodImpl s = Some transocks_bufferpump_ops_ref →
  reply_length (buf (trace s) (Input (relay_bev c))) = Some n →
  wp (socks_on_server_connect_reply_readcb p) (λ _ s',
    (pump_running p c s s' ∧
     buf (trace s') (Input (relay_bev c)) = drop n (buf (trace s) (Input (relay_bev c)))) ∨
    (¬ (∀ tr b e, ext tr (c_bufferevent_enable b e) = 0) ∧ gone p c head l1 l2 s s')) s.
Proof.
  intros Hsk Hcb Hi Hr. pose proof Hsk as [Hn Hc Ha Ht Hb Hl].
  destruct (connect_reply_runs _ _ _ _ _ _ Hsk) as (cs0 & Hcs0 & Hrun). rewrite Hr in Hrun.
  eapply wp_runs; [exact Hrun|]. clear Hrun. set (cs1 := cs0 ++ _). set (s1 := did cs1 _).
  assert (buf (trace s1) (Input (relay_bev c)) = drop n (buf (trace s) (Input (relay_bev c)))) as Hbuf.
  { unfold s1, cs1. rewrite <-did_did. simpl. rewrite eb_drain_buf, Nat2Z.id. f_equal. by apply (eb_keeps_did cs0 (timer_stopped c s)). }
  pose proof Hc as [Hp _ Hrb Hcbv Hne _ _ _]. destruct (timer_stopped_goes_on p c s cs1 Hp) as [Hnr Htk]. fold s1 in Hnr, Htk.
  assert (bevs s1 = bevs s ∧ pumpMethodImpl s1 = pumpMethodImpl s) as [Hbev Hi1] by done. clearbody s1.
  destruct (handle_live _ _ Hrb Hb) as [rb0 Erb]. destruct (handle_live _ _ Hcbv Hcb) as [cb0 Ecb].
  assert (client_bev c ≠ relay_bev c) as Hne' by auto.
  unfold connect_reply_start_pump, transocks_start_pump, pump_call. rewrite <-Hbev in Erb, Ecb.
  assert (clients s1 !! p = Some c) as Hp1 by (destruct Hnr; rewrite nr_clients0; apply lookup_insert_eq).
  st_steps. apply wp_bev_disable; [eauto|]. intros f _ Hf. st_steps. rewrite Hi1, Hi. st_steps.
  eapply wp_mono.
  { eapply wp_bufferpump_start; [st_lookup|done|..]; st_norm; rewrite ?lookup_alter_eq, ?lookup_alter_ne by done;
      [by rewrite Ecb|by rewrite Erb]. }
  intros r s2 (cbev & rbev & _ & Hr0 & (cs & Hs2 & Hcs) & E1 & E2 & E3 & R1 & R2 & _).
  cbn [client_bev relay_bev set_client_state] in E1, E2, E3. st_norm.
  assert (clients s2 = clients (set_clients (<[p := set_client_state client_socks5_finish_handshake c]> (clients s1)) s1))
    as Hc2 by (by rewrite Hs2).
  assert (∀ q, buf (trace s2) q = buf (trace s1) q) as Hbuf2.
  { intros q. rewrite Hs2. rewrite eb_keeps_did by done. simpl. by apply eb_keeps. }
  assert (goes_on p c (set_client_state client_socks5_finish_handshake c) s s2) as [Hnr2 Htk2].
  { apply (goes_on_trans _ _ _ _ s1); [done|done|]. split; [|rewrite Hs2; intros t Ht1 **; by exists t].
    assert (∀ q, is_Some (bevs s2 !! q) ↔ is_Some (bevs s1 !! q)) as Hlive.
    { intros q. destruct (decide (q = client_bev c)) as [->|]; [rewrite E1, Ecb; split; eauto|].
      destruct (decide (q = relay_bev c)) as [->|]; [rewrite E2, Erb; split; eauto|].
      rewrite E3 by done. st_norm. by rewrite lookup_alter_ne. }
    split; st_norm; try done; try (by rewrite Hs2).
    apply map_eq. intros q. rewrite !lookup_delete. repeat case_decide; try done.
    rewrite E3 by done. st_norm. by rewrite lookup_alter_ne. }
  destruct (Z.eqb_spec r 0) as [->|Hr1]; cbn [negb].
  - apply wp_bind. eapply wp_modify; [st_norm; rewrite Hc2; st_lookup|]. st_steps. left. split; [split|].
    + split; [by eapply near_client|done].
    + by exists cbev.
    + by exists rbev.
    + by rewrite Hbuf2.
  - st_steps. cbn [Z.eqb negb]. eapply wp_mono; [by eapply wp_free_client, Hnr2|].
    intros [] s' Hg. right. split; [|done]. by intros H%Hr0.
Qed.

(** C18 A complete reply of RFC 1928 that grants the request, with [rest]
    behind it in the relay's input buffer, under the buffer pump: exactly the
    reply, 10 or 22 bytes by its address type, is taken out of the buffer and
    [rest] stays, the pump's callbacks are installed on both sides and the
    client is marked as pumping; or a [bufferevent_enable] failed, and the
    client is released. *)
Theorem connect_reply_starts_buffer_pump s p c head l1 l2 reply rest :
  shaking s p c head l1 l2 → client_bev c ≠ NULL →
  pumpMethodImpl s = Some transocks_bufferpump_ops_ref →
  success_reply reply → buf (trace s) (Input (relay_bev c)) = reply ++ rest →
  ∃ s', socks_on_server_connect_reply_readcb p s = Ok tt s' ∧
    (pump_running p c s s' ∧ buf (trace s') (Input (relay_bev c)) = rest ∨
     ¬ (∀ tr b e, ext tr (c_bufferevent_enable b e) = 0) ∧ gone p c head l1 l2 s s').
Proof.
  intros Hsk Hcb Hi Hr Hb. apply wp_tt. eapply wp_mono.
  { eapply wp_connect_reply_accepted; [done|done|done|]. by rewrite Hb, success_reply_length. }
  intros [] s'. by rewrite Hb, drop_app_length.
Qed.
End handshake_rules.

(** ** Sending *)

(** What was written to a bufferevent, in order. *)
Fixpoint written (bev : Z) (tr : list item) : list (list Z) :=
  match tr with
  | [] => []
  | ICall (c_bufferevent_write b data) :: tr =>
      if b =? bev then written bev tr ++ [data] else written bev tr
  | _ :: tr => written bev tr
  end.

Definition is_write (c : call) : bool := match c with c_bufferevent_write _ _ => true | _ => false end.

Lemma written_did bev cs s :
  forallb (λ k, negb (is_write k)) cs = true → written bev (trace (did cs s)) = written bev (trace s).
Proof.
  revert s. induction cs as [|c cs IH]; intros s Hcs; [by rewrite did_nil|].
  simpl in Hcs. apply andb_true_iff in Hcs as [H1 H2]. change (c :: cs) with ([c] ++ cs).
  rewrite <-did_did, IH by done. by destruct c.
Qed.

Lemma quiet_not_write cs : quiet_calls cs → forallb (λ k, negb (is_write k)) cs = true.
Proof. induction cs as [|[] cs IH]; simpl; try done. Qed.

Lemma timer_not_write cs : forallb is_timer_call cs = true → forallb (λ k, negb (is_write k)) cs = true.
Proof. induction cs as [|[] cs IH]; simpl; try done. Qed.

(** A client that can be given a timeout. *)
Record timeable (s : state) (c : transocks_client) : Prop := {
  ti_brk : 0 < brk s;
  ti_env : ∃ e, envs s !! global_env c = Some e ∧ is_Some (bases s !! eventBaseLoop e)
}.

Section sending.
Context {EXT : Env}.
Implicit Types s : state.

(** The timer [ev] of the client at [p] runs: unless the calls that set it
    fail, it is added with the timeout callback for [p], and the call that
    added it, the last one made, gave it [socks5_timeout_tv]. *)
Definition timer_runs s (p ev : Z) : Prop :=
  (∀ tr base, ext tr (c_event_assign ev base (-1) 0 fn_socks5_timeout_cb p) = 0) →
  (∀ tr, ext tr (c_event_add ev (Some socks5_timeout_tv)) = 0) →
  evs s !! ev = Some (Event (-1) 0 fn_socks5_timeout_cb p true) ∧
  ∃ tr, trace s = ICall (c_event_add ev (Some socks5_timeout_tv)) :: tr.

(** The relay's bufferevent [bev] waits for at least [low] bytes for [cb]: the
    callbacks and watermarks are set and, unless [bufferevent_enable] fails,
    reading is enabled; the timer [ev] limits the wait. *)
Definition awaiting s (p ev bev : Z) (cb : fn) (low : Z) : Prop :=
  (∃ b, bevs s !! bev = Some b ∧ bev_readcb b = Some cb ∧ bev_writecb b = None ∧
    bev_eventcb b = Some fn_socks_handshake_stage_errcb ∧ bev_cbarg b = p ∧
    bev_read_low b = low ∧ bev_read_high b = TRANSOCKS_BUFSIZE ∧
    ((∀ tr, ext tr (c_bufferevent_enable bev EV_READ) = 0) → Z.testbit (bev_enabled b) 1 = true)) ∧
  timer_runs s p ev.

(** The step shared by the two messages: start the timer. *)
Lemma wp_set_timeout_near s s1 p c c1 (Q : Z → state → Prop) :
  null_ok s → client_ok s p c → timeout_ev c ≠ NULL → near p c c1 s s1 → timeable s1 c1 →
  (∀ r s', near p c c1 s s' → timer_kept p (timeout_ev c) s1 s' → bevs s' = bevs s1 →
     (∃ cs, trace s' = trace (did cs s1) ∧ forallb is_timer_call cs = true) →
     timer_runs s' p (timeout_ev c) → Q r s') →
  wp (transocks_client_set_timeout p socks5_timeout_tv fn_socks5_timeout_cb p) Q s1.
Proof.
  intros Hn Hc Ht Hnr [Hb (e & He & Hba)] HQ. destruct (near_ok _ _ _ _ _ Hn Hc Hnr) as [Hn1 Hc1].
  pose proof Hc1 as [Hp1 He1 _ _ _ _ _ _]. pose proof (nr_handles _ _ _ _ _ Hnr) as (_ & _ & _ & _ & E5).
  eapply wp_mono; [eapply wp_set_timeout; [done|by apply null_evs|done|done|done|done]|].
  intros r s' (ev & Hf & Hcl & Hev & Hdel & Hadd & _ & Hreg & Htr & Hr0). rewrite E5 in Hev, Hr0. specialize (Hev Ht) as ->.
  destruct Hf, Hnr. apply HQ; [|intros t Ht1 Hcb Harg; destruct (Hreg t Ht1) as (t' & ? & [[? ?]|[? ?]]); exists t'; split_and!; congruence|done|done|by intros Ha1 Ha2; specialize (Hr0 Ht Ha1 Ha2); split; auto].
  split; [|done| |by etrans|by rewrite tf_bevs|by rewrite tf_bevs|by etrans..].
  - rewrite Hcl, nr_clients0, insert_insert_eq. f_equal. rewrite <-E5. by destruct c1.
  - intros q. rewrite <-nr_evs_live0. destruct (decide (q = timeout_ev c)) as [->|Hq].
    + destruct (handle_live _ _ He1) as [t Ht1]; [by rewrite E5|]. rewrite E5 in Ht1.
      destruct (Hreg t Ht1) as (t' & -> & _). rewrite Ht1. split; eauto.
    + by rewrite <-(lookup_delete_ne (evs s') (timeout_ev c)), Hdel, lookup_delete_ne.
Qed.
Lemma wp_onconnect s p c head l1 l2 events :
  shaking s p c head l1 l2 → timeable s c → TRANSOCKS_CHKBIT events BEV_EVENT_CONNECTED = true →
  wp (relay_onconnect_eventcb events p) (λ _ s',
    goes_on p c (set_client_state client_relay_connected c) s s' ∧
    (∀ q, q ≠ relay_bev c → bevs s' !! q = bevs s !! q) ∧
    written (relay_bev c) (trace s') = written (relay_bev c) (trace s) ++ [[5; 1; 0]] ∧
    awaiting s' p (timeout_ev c) (relay_bev c) fn_socks_on_server_selected_method_readcb 2) s.
Proof.
  intros [Hn Hc Ha Ht Hb Hl] Hti Hev. pose proof Hc as [Hp He Hrb _ _ _ _ _].
  destruct (handle_live _ _ Hrb Hb) as [rb Erb].
  unfold relay_onconnect_eventcb. st_steps.
  apply wp_timer_del; [by apply handle_live|]. intros _. rewrite Hev. st_steps.
  unfold socks_send_method_selection, bufferevent_setwatermark, bufferevent_write, bufferevent_setcb, bufferevent_enable.
  st_steps.
  apply (wp_set_timeout_near s _ p c (set_client_state client_relay_connected c)); [done|done|done| |by destruct Hti|].
  - split; st_norm; try done.
    + intros q. apply alter_is_Some.
    + by rewrite delete_alter.
    + intros q. rewrite !insert_insert_eq. by eapply insert_live.
    + by rewrite !insert_insert_eq, delete_insert_eq.
  - intros r s' Hnr Htk Hbev (cs & Htr & Hcs) Htm. st_steps. split_and!.
    + split; [done|]. eapply timer_kept_alter; [exact Htk|done].
    + intros q Hq. rewrite Hbev. st_norm. by rewrite !lookup_insert_ne by done.
    + rewrite Htr, written_did by (by apply timer_not_write). simpl. by rewrite Z.eqb_refl.
    + split; [|done]. eexists. rewrite Hbev. st_norm. rewrite lookup_insert_eq. split; [done|].
      z_case; cbn -[Z.testbit Z.lor]; split_and!; try done; intros Hen; [by rewrite Z.lor_spec, orb_true_r|exfalso; eauto].
Qed.

(** C21 After the connection to the relay is up, the callback marks the client
    and sends the method selection: exactly the three bytes 5, 1, 0 (SOCKS5,
    one method, no authentication) are written to the relay.  The answer of at
    least two bytes is then awaited: the next callbacks and the watermarks are
    set, reading is enabled unless [bufferevent_enable] fails, and unless the
    calls that set it fail the timer runs, with a timeout of 60 seconds that
    releases this client.  Nothing of any other client changes. *)
Theorem onconnect_sends_method_selection s p c head l1 l2 events :
  shaking s p c head l1 l2 → timeable s c → TRANSOCKS_CHKBIT events BEV_EVENT_CONNECTED = true →
  ∃ s', relay_onconnect_eventcb events p s = Ok tt s' ∧
    written (relay_bev c) (trace s') = written (relay_bev c) (trace s) ++ [[5; 1; 0]] ∧
    awaiting s' p (timeout_ev c) (relay_bev c) fn_socks_on_server_selected_method_readcb 2 ∧
    goes_on p c (set_client_state client_relay_connected c) s s' ∧
    (∀ q, q ≠ relay_bev c → bevs s' !! q = bevs s !! q).
Proof.
  intros. apply wp_tt. eapply wp_mono; [by eapply wp_onconnect|]. naive_solver.
Qed.

(** What the request for the destination [sa] is. *)
Definition request_for (sa : sockaddr_storage) : option (Z * list Z) :=
  if ss_family sa =? AF_INET then Some (sizeof_socks_request_ipv4, bytes_of_request (socks_request_ipv4 sa))
  else if ss_family sa =? AF_INET6 then Some (sizeof_socks_request_ipv6, bytes_of_request (socks_request_ipv6 sa))
  else None.

(** The request was sent and its reply is awaited. *)
Definition request_sent p c (bytes : list Z) s s' : Prop :=
  written (relay_bev c) (trace s') = written (relay_bev c) (trace s) ++ [bytes] ∧
  awaiting s' p (timeout_ev c) (relay_bev c) fn_socks_on_server_connect_reply_readcb 10 ∧
  goes_on p c c s s' ∧ (∀ q, q ≠ relay_bev c → bevs s' !! q = bevs s !! q).

Lemma wp_send_request s p c head l1 l2 size r :
  shaking s p c head l1 l2 → timeable s c → blocks s !! brk s = None →
  wp (send_request (relay_bev c) size r (free_client p) (await_connect_reply p (relay_bev c))) (λ _ s',
    if ext (trace s) (c_malloc size) then request_sent p c (bytes_of_request r) s s'
    else gone p c head l1 l2 s s') s.
Proof.
  intros Hsk Hti Hbl. pose proof Hsk as [Hn Hc Ha Ht Hb Hl]. pose proof Hc as [Hp He Hrb _ _ _ _ _].
  destruct (handle_live _ _ Hrb Hb) as [rb Erb]. pose proof Hti as [Hbrk _].
  unfold send_request, tr_malloc_block. st_steps. destruct (ext _ (c_malloc size)); st_steps; not_null.
  2: { eapply wp_free_client; [done|done|]. by apply (near_did _ _ _ _ _ [_]), near_refl. }
  unfold bufferevent_write, await_connect_reply, bufferevent_setwatermark, bufferevent_setcb, bufferevent_enable.
  st_steps. rewrite TRANSOCKS_FREE_live by addr_lia. unfold tr_free, release. st_steps.
  apply (wp_set_timeout_near s _ p c c); [done|done|done| |destruct Hti; split; st_norm; [lia|done]|].
  - split; st_norm; try done.
    + by rewrite insert_id.
    + intros q. rewrite !insert_insert_eq. by eapply insert_live.
    + by rewrite !insert_insert_eq, delete_insert_eq.
    + unfold pump_heaps. st_norm. by rewrite insert_insert_eq, delete_insert_id.
  - intros r' s' Hnr Htk Hbev (cs & Htr & Hcs) Htm. st_steps. split_and!; [| |done|].
    + rewrite Htr, written_did by (by apply timer_not_write). simpl. by rewrite Z.eqb_refl.
    + split; [|done]. eexists. rewrite Hbev. st_norm. rewrite lookup_insert_eq. split; [done|].
      z_case; cbn -[Z.testbit Z.lor]; split_and!; try done; intros Hen; [by rewrite Z.lor_spec, orb_true_r|exfalso; eauto].
    + intros q Hq. rewrite Hbev. st_norm. by rewrite !lookup_insert_ne by done.
Qed.

Lemma wp_send_connect_request s p c head l1 l2 sa :
  shaking s p c head l1 l2 → timeable s c → addrs s !! dest_addr c = Some (Some sa) → blocks s !! brk s = None →
  wp (socks_send_connect_request p) (λ _ s',
    match request_for sa with
    | Some (size, bytes) =>
        if ext (trace s) (c_malloc size) then request_sent p c bytes s s' else gone p c head l1 l2 s s'
    | None => gone p c head l1 l2 s s'
    end) s.
Proof.
  intros Hsk Hti Hsa Hbl. pose proof Hsk as [Hn Hc Ha Ht Hb Hl]. pose proof Hc as [Hp He Hrb _ _ _ _ _].
  unfold socks_send_connect_request. st_steps. unfold request_for.
  destruct (ss_family sa =? AF_INET); [|destruct (ss_family sa =? AF_INET6)].
  - by apply wp_send_request.
  - by apply wp_send_request.
  - eapply wp_free_client; [done|done|]. by apply near_refl.
Qed.

(** The CONNECT request for the client's original destination: exactly the
    bytes of the request are written to the relay, the block they were built
    in is freed again, and the reply of at least 10 bytes is awaited.  Without
    memory for the block, or for a destination of an unknown family, the
    client is released instead.  Nothing of any other client changes. *)
Theorem send_connect_request_outcome s p c head l1 l2 sa :
  shaking s p c head l1 l2 → timeable s c → addrs s !! dest_addr c = Some (Some sa) → blocks s !! brk s = None →
  ∃ s', socks_send_connect_request p s = Ok tt s' ∧
    match request_for sa with
    | Some (size, bytes) =>
        if ext (trace s) (c_malloc size) then request_sent p c bytes s s' else gone p c head l1 l2 s s'
    | None => gone p c head l1 l2 s s'
    end.
Proof. intros. apply wp_tt. by eapply wp_send_connect_request. Qed.

Lemma near_shaking s s1 p c head l1 l2 :
  shaking s p c head l1 l2 → near p c c s s1 → shaking s1 p c head l1 l2.
Proof.
  intros [Hn Hc Ha Ht Hb Hl] Hnr. destruct (near_ok _ _ _ _ _ Hn Hc Hnr). split; try done.
  by rewrite (nr_nodes _ _ _ _ _ Hnr).
Qed.

Lemma gone_trans p c head l1 l2 s s1 s' : near p c c s s1 → gone p c head l1 l2 s1 s' → gone p c head l1 l2 s s'.
Proof.
  intros [] []. split; try done; try congruence.
  - by rewrite gn_clients0, nr_clients0, delete_insert_eq.
  - by rewrite <-nr_nodes0.
Qed.

Context (buf : list item → evbuffer → list Z) {LAWS : EvbufferLaws EXT buf}.

(** The calls that take the two bytes of the answer out of the buffer. *)
Definition drain_calls (b : Z) : list call := [c_evbuffer_drain (Input b) 2; c_evbuffer_get_length (Input b)].

(** The relay's answer, up to the request or to the release. *)
Lemma method_answer_runs s p c head l1 l2 :
  shaking s p c head l1 l2 →
  let b := buf (trace s) (Input (relay_bev c)) in
  ∃ cs d, quiet_calls cs ∧ (b = [5; 0] → d = true) ∧
    socks_on_server_selected_method_readcb (relay_bev c) p s =
    (if decide (b = [5; 0]) then socks_send_connect_request p else free_client p)
      (did (cs ++ if d then drain_calls (relay_bev c) else []) (timer_stopped c s)).
Proof.
  intros [Hn [Hp Hev Hrb _ _ _ _ _] Ha Ht Hb Hl] b. pose proof (handle_live _ _ Hrb Hb) as Hlive.
  set (s0 := timer_stopped c s). assert (∀ cs, quiet_calls cs → buf (trace (did cs s0)) (Input (relay_bev c)) = b) as Hbuf.
  { intros cs Hcs. by rewrite (eb_keeps_did cs s0). }
  set (c1 := [c_event_del (timeout_ev c); c_evbuffer_get_length (Input (relay_bev c))]).
  assert (∀ f : Z → C unit, (x ← fld p timeout_ev; evtimer_del x ;; n ← evbuffer_get_length (Input (relay_bev c)); f n) s
    = f (Z.of_nat (length b)) (did c1 s0)) as Hpre.
  { intros f. st_run. apply bind_runs, wp_timer_del; [by apply handle_live|]. intros _.
    apply bind_runs, (wp_get_length buf); [done|]. fold (timer_stopped c s). fold s0. by rewrite Hbuf, did_did. }
  unfold socks_on_server_selected_method_readcb. rewrite Hpre. clear Hpre.
  destruct (Z.ltb_spec (Z.of_nat (length b)) 2) as [Hlt|Hge].
  { assert (b ≠ [5; 0]) as Hne by (intros E; rewrite E in Hlt; simpl in Hlt; lia).
    exists c1, false. split_and!; [done|done|]. by rewrite decide_False, app_nil_r. }
  destruct b as [|ver [|method rest]] eqn:Eb; [simpl in Hge; lia..|].
  exists (c1 ++ [c_evbuffer_pullup (Input (relay_bev c)) (Z.of_nat (length (ver :: method :: rest)))]),
    ((ver =? SOCKS5_VERSION) && (method =? SOCKS5_METHOD_NOAUTH)).
  split_and!; [done|by intros [= -> -> _]|].
  apply bind_runs, (wp_pullup_all buf); [done|by apply Hbuf|]. rewrite did_did. st_run.
  destruct (Z.eqb_spec ver SOCKS5_VERSION) as [->|Hv]; cbn [negb andb]; [|rewrite decide_False, app_nil_r; [done|by intros [=]]]. st_run.
  destruct (Z.eqb_spec method SOCKS5_METHOD_NOAUTH) as [->|Hm]; cbn [negb andb]; [|rewrite decide_False, app_nil_r; [done|by intros [=]]].
  apply bind_runs, (wp_drain buf); [done|]. cbn [Z.eqb negb]. apply bind_runs, (wp_get_length buf); [done|].
  rewrite (eb_drain_buf (trace (did _ s0)) (Input (relay_bev c)) 2 : buf (trace (did [_] (did _ s0))) _ = _), Hbuf by done.
  rewrite !did_did.
  destruct rest as [|x rest]; cbn [length Z.of_nat Z.eqb negb]; [by rewrite decide_True|rewrite decide_False; [done|by intros [=]]].
Qed.

(** The relay's answer. *)
Lemma wp_method_answer s p c head l1 l2 sa :
  shaking s p c head l1 l2 → timeable s c → addrs s !! dest_addr c = Some (Some sa) →
  blocks s !! brk s = None →
  wp (socks_on_server_selected_method_readcb (relay_bev c) p) (λ _ s',
    if decide (buf (trace s) (Input (relay_bev c)) = [5; 0]) then
      match request_for sa with
      | Some (_, bytes) => request_sent p c bytes s s' ∨
          (¬ (∀ tr n, ext tr (c_malloc n) = true) ∧ gone p c head l1 l2 s s')
      | None => gone p c head l1 l2 s s'
      end
    else gone p c head l1 l2 s s') s.
Proof.
  intros Hsk Hti Hsa Hbl. destruct (method_answer_runs _ _ _ _ _ _ Hsk) as (cs & d & Hcs & _ & Hrun).
  eapply wp_runs; [exact Hrun|]. set (cs1 := cs ++ _).
  assert (forallb (λ k, negb (is_write k)) cs1 = true) as Hcs1.
  { unfold cs1. rewrite forallb_app, quiet_not_write by done. by destruct d. }
  clearbody cs1.
  destruct (timer_stopped_goes_on p c s cs1) as [Hnr Htk]; [apply Hsk|].
  case_decide; [|eapply wp_free_client; [done|by apply Hsk|done]].
  eapply wp_mono; [eapply (wp_send_connect_request _ p c head l1 l2); [by eapply near_shaking|by destruct Hti|done|done]|].
  intros [] s' Hs. destruct (request_for sa) as [[size bytes]|]; [|by eapply gone_trans].
  destruct (ext _ _) eqn:Em; [|right; split; [intros Hmal; by rewrite Hmal in Em|by eapply gone_trans]].
  destruct Hs as (Hw & Haw & Hgo & Hbev). left. split_and!; [|done|by eapply goes_on_trans|done].
  by rewrite Hw, written_did.
Qed.

(** C20 The relay's answer to the method selection, for a destination of a
    family that has a request and when [malloc] gives the memory for it:
    exactly the two bytes 5, 0 (SOCKS5, no authentication) lead to the CONNECT
    request for the client's destination, whose reply is then awaited; any
    other answer, shorter, longer or different, releases the client. *)
Theorem method_answer_outcome s p c head l1 l2 sa size bytes :
  shaking s p c head l1 l2 → timeable s c → addrs s !! dest_addr c = Some (Some sa) →
  blocks s !! brk s = None → request_for sa = Some (size, bytes) → (∀ tr n, ext tr (c_malloc n) = true) →
  ∃ s', socks_on_server_selected_method_readcb (relay_bev c) p s = Ok tt s' ∧
    if decide (buf (trace s) (Input (relay_bev c)) = [5; 0]) then request_sent p c bytes s s'
    else gone p c head l1 l2 s s'.
Proof.
  intros Hsk Hti Hsa Hbl Hreq Hmal. apply wp_tt. eapply wp_mono; [by eapply wp_method_answer|].
  intros [] s'. rewrite Hreq. case_decide; naive_solver.
Qed.
End sending.

Section handshake_failures.
Context {EXT : Env}.
Implicit Types s : state.

(** C23 Every way a handshake can fail outside the messages releases the
    client: the timeout, an end of file or an error on the connection to the
    relay, and a connection that cannot be established. *)
Theorem handshake_failure_releases s p c head l1 l2 :
  shaking s p c head l1 l2 →
  (∃ s', socks5_timeout_cb p s = Ok tt s' ∧ gone p c head l1 l2 s s') ∧
  (∀ events, TRANSOCKS_CHKBIT events BEV_EVENT_EOF || TRANSOCKS_CHKBIT events BEV_EVENT_ERROR = true →
     ∃ s', socks_handshake_stage_errcb events p s = Ok tt s' ∧ gone p c head l1 l2 s s') ∧
  (∀ events, TRANSOCKS_CHKBIT events BEV_EVENT_CONNECTED = false →
     TRANSOCKS_CHKBIT events BEV_EVENT_ERROR = true →
     ∃ s', relay_onconnect_eventcb events p s = Ok tt s' ∧ gone p c head l1 l2 s s').
Proof.
  intros Hsk. pose proof Hsk as [Hn Hc Ha Ht Hb Hl]. pose proof Hc as [Hp Hev _ _ _ _ _ _].
  split_and!; [|intros events E|intros events E1 E2]; apply wp_tt.
  - eapply wp_free_client; [done|done|]. by apply near_refl.
  - unfold socks_handshake_stage_errcb. st_steps. apply wp_timer_del; [by apply handle_live|]. intros _.
    rewrite E. eapply wp_free_client; [done|done|]. by apply near_did, near_timer, near_refl.
  - unfold relay_onconnect_eventcb. st_steps. apply wp_timer_del; [by apply handle_live|]. intros _.
    rewrite E1, E2. eapply wp_free_client; [done|done|]. by apply near_did, near_timer, near_refl.
Qed.
End handshake_failures.

(** ** Concrete handshakes *)

Lemma ex_shaking : shaking ex_state 5000 ex_client 4176 [] [].
Proof.
  split; [apply wf_null_ok, wf_ex_state|apply ex_client_ok|reflexivity|discriminate|discriminate|concrete_dlist].
Qed.

Lemma ex_timeable : timeable ex_state ex_client.
Proof.
  split; [done|]. exists (TransocksGlobalEnv NULL 4200 4200 16 16 4900 NULL NULL NULL NULL NULL).
  split; [reflexivity|eexists; reflexivity].
Qed.

(** The relay's input buffer holds [b]. *)
Definition from_relay (b : list Z) (q : evbuffer) : list Z :=
  match q with Input 5700 => b | _ => [] end.

Definition ex_buffer : state := ex_with transocks_bufferpump_ops_ref.

Lemma connect_reply_rejected_witness :
  ∃ s', socks_on_server_connect_reply_readcb (EXT:=buffered (from_relay [5; 1; 0])) 5000 ex_state = Ok tt s' ∧
        gone 5000 ex_client 4176 [] [] ex_state s'.
Proof.
  apply (connect_reply_rejected (EXT:=buffered (from_relay [5; 1; 0])) (sim_buf (from_relay [5; 1; 0]))
    (LAWS:=buffered_laws _) ex_state 5000 ex_client 4176 [] []); [apply ex_shaking|].
  left. vm_compute. lia.
Defined.

(** A successful reply with an IPv4 address, and one byte of data behind it. *)
Definition ex_reply : list Z := [5; 0; 0; 1; 10; 0; 0; 1; 4; 56; 77].

Lemma ex_buffer_shaking : shaking ex_buffer 5000 ex_client 4176 [] [].
Proof.
  split; [split; reflexivity|split; first [reflexivity | concrete_handle | discriminate]
         |reflexivity|discriminate|discriminate|concrete_dlist].
Qed.

Lemma connect_reply_starts_buffer_pump_witness :
  ∃ s', socks_on_server_connect_reply_readcb (EXT:=buffered (from_relay ex_reply)) 5000 ex_buffer = Ok tt s' ∧
        pump_running 5000 ex_client ex_buffer s' ∧
        sim_buf (from_relay ex_reply) (trace s') (Input 5700) = [77].
Proof.
  destruct (connect_reply_starts_buffer_pump (EXT:=buffered (from_relay ex_reply)) (sim_buf (from_relay ex_reply))
    (LAWS:=buffered_laws _) ex_buffer 5000 ex_client 4176 [] [] [5; 0; 0; 1; 10; 0; 0; 1; 4; 56] [77])
    as (s' & Hrun & [H|[H _]]); [apply ex_buffer_shaking|discriminate|reflexivity| |reflexivity|exists s'; auto|].
  - exists 0, [10; 0; 0; 1], [4; 56]. split; [reflexivity|]. left. split; reflexivity.
  - destruct H. reflexivity.
Defined.

Lemma onconnect_sends_method_selection_witness :
  ∃ s', relay_onconnect_eventcb (EXT:=quiet) 128 5000 ex_state = Ok tt s' ∧
    written 5700 (trace s') = [] ++ [[5; 1; 0]] ∧
    (∃ b, bevs s' !! 5700 = Some b ∧ Z.testbit (bev_enabled b) 1 = true) ∧
    evs s' !! timeout_ev ex_client = Some (Event (-1) 0 fn_socks5_timeout_cb 5000 true).
Proof.
  destruct (onconnect_sends_method_selection (EXT:=quiet) ex_state 5000 ex_client 4176 [] [] 128)
    as (s' & Hrun & Hw & ((b & Hb & _ & _ & _ & _ & _ & _ & He) & Ht) & _ & _);
    [apply ex_shaking|apply ex_timeable|reflexivity|].
  exists s'. split; [exact Hrun|]. split; [exact Hw|]. split.
  - exists b. split; [exact Hb|]. apply He. reflexivity.
  - apply Ht; reflexivity.
Defined.

Lemma send_connect_request_outcome_witness :
  ∃ s', socks_send_connect_request (EXT:=quiet) 5000 ex_state = Ok tt s' ∧
    request_sent (EXT:=quiet) 5000 ex_client [5; 1; 0; 1; 10; 0; 0; 1; 31; 144] ex_state s'.
Proof.
  apply (send_connect_request_outcome (EXT:=quiet) ex_state 5000 ex_client 4176 [] [] ex_addr);
    [apply ex_shaking|apply ex_timeable|reflexivity|reflexivity].
Defined.

Lemma method_answer_outcome_witness :
  ∃ s', socks_on_server_selected_method_readcb (EXT:=buffered (from_relay [5; 0])) 5700 5000 ex_state = Ok tt s' ∧
    request_sent (EXT:=buffered (from_relay [5; 0])) 5000 ex_client [5; 1; 0; 1; 10; 0; 0; 1; 31; 144] ex_state s'.
Proof.
  apply (method_answer_outcome (EXT:=buffered (from_relay [5; 0])) (sim_buf (from_relay [5; 0]))
    (LAWS:=buffered_laws _) ex_state 5000 ex_client 4176 [] [] ex_addr sizeof_socks_request_ipv4
    [5; 1; 0; 1; 10; 0; 0; 1; 31; 144]);
    [apply ex_shaking|apply ex_timeable|reflexivity..].
Defined.

Lemma handshake_failure_releases_witness :
  (∃ s', socks5_timeout_cb (EXT:=quiet) 5000 ex_state = Ok tt s' ∧ gone 5000 ex_client 4176 [] [] ex_state s') ∧
  (∀ events, TRANSOCKS_CHKBIT events BEV_EVENT_EOF || TRANSOCKS_CHKBIT events BEV_EVENT_ERROR = true →
     ∃ s', socks_handshake_stage_errcb (EXT:=quiet) events 5000 ex_state = Ok tt s' ∧
           gone 5000 ex_client 4176 [] [] ex_state s') ∧
  (∀ events, TRANSOCKS_CHKBIT events BEV_EVENT_CONNECTED = false →
     TRANSOCKS_CHKBIT events BEV_EVENT_ERROR = true →
     ∃ s', relay_onconnect_eventcb (EXT:=quiet) events 5000 ex_state = Ok tt s' ∧
           gone 5000 ex_client 4176 [] [] ex_state s').
Proof. apply (handshake_failure_releases (EXT:=quiet)). apply ex_shaking. Defined.

(** ** Failures of the code *)

(** The client before it connects to the relay. *)
Definition ex_unconnected : state :=
  set_clients {[5000 := set_relay_fd (-1) (set_relay_bev NULL (set_timeout_ev NULL ex_client))]} ex_state.

Definition refusing : Env := λ _ c,
  match c with c_bufferevent_socket_connect _ _ _ => -1 | c => quiet_reply c end.

(** When the connection attempt to the relay fails at once, the cleanup
    frees the relay's bufferevent but leaves it in the client, and the release
    of the client then uses it after it was freed. *)
Theorem connect_failure_uses_freed_bev : transocks_start_connect_relay (EXT:=refusing) 5000 ex_unconnected = Fault.
Proof. vm_compute. reflexivity. Qed.

(** A relay that accepts, and a kernel that gives no pipes. *)
Definition no_pipes : Env := λ tr c,
  match c with c_pipe => (-1, 0, 0) | c => buffered (from_relay ex_reply) tr c end.

(** When the splice pump cannot start, it has already released the client,
    and the reply callback then releases the freed client again. *)
Theorem splice_start_failure_releases_twice :
  socks_on_server_connect_reply_readcb (EXT:=no_pipes) 5000 (ex_with transocks_splicepump_ops_ref) = Fault.
Proof. vm_compute. reflexivity. Qed.

(** The first 10 of the 22 bytes of a reply with an IPv6 address. *)
Definition ex_reply6 : list Z := [5; 0; 0; 4; 0; 0; 0; 0; 0; 0].

(** A reply with an IPv6 address has 22 bytes, but it is accepted when 10
    of them have arrived: the client is relaying although the rest of the
    reply is still to come, and will be passed on to the client as data. *)
Theorem ipv6_reply_accepted_early :
  (λ s, (client_state <$> clients s !! 5000, sim_buf (from_relay ex_reply6) (trace s) (Input 5700)))
    <$> final (socks_on_server_connect_reply_readcb (EXT:=buffered (from_relay ex_reply6)) 5000 ex_buffer)
  = Some (Some client_pumping_data, []).
Proof. vm_compute. reflexivity. Qed.
