(* ===== verification/Listener.v ===== *)
(** * listener.c and signal.c

    Accepting a redirected connection and starting its handshake; the
    listening socket; the signal events; and [transocks_global_env_free] of
    context.c, which releases both. *)

From S2P Require Import Prelude DList ListSpec Structs World Util Context BufferPump SplicePump Pump Socks5.
Local Open Scope Z_scope.

Section listener.
Context {EXT : Env}.

Definition listener_cb (env : Z) : C unit :=
  lp ← fld env listener;
  lfd ← fld lp listener_fd;
  lfd ← rd lfd;
  a ← sys (c_accept lfd sizeof_sockaddr_storage);
  let '(clientFd, errno, acceptedSrcSockAddr, acceptedSrcSockLen) := a in
  if clientFd <? 0 then
    if TRANSOCKS_IS_RETRIABLE errno then mret tt else mret tt
  else
  let freeFd := TRANSOCKS_CLOSE clientFd in
  if acceptedSrcSockLen =? 0 then freeFd else
  r ← setnonblocking clientFd true;
  if negb (r =? 0) then freeFd else
  r ← apply_tcp_keepalive clientFd;
  if negb (r =? 0) then freeFd else
  r ← apply_tcp_nodelay clientFd;
  if negb (r =? 0) then freeFd else
  pclient ← transocks_client_new env;
  let freeClient := TRANSOCKS_FREE transocks_client_free pclient ;; freeFd in
  if pclient =? NULL then freeClient else
  ba ← fld env bind_addr;
  bind_a ← load (T:=option sockaddr_storage) ba;
  bind_a ← rd bind_a;
  blen ← fld env bind_addr_len;
  bindaddrstr ← generate_sockaddr_port_str TRANSOCKS_INET_ADDRPORTSTRLEN bind_a blen;
  modify pclient (set_client_addr_len (Some acceptedSrcSockLen)) ;;
  ca ← fld pclient client_addr;
  (* memcpy into a block of sizeof(struct sockaddr_storage) *)
  (if sizeof_sockaddr_storage <? acceptedSrcSockLen then fault else mret tt) ;;
  modify ca (λ _ : option sockaddr_storage, Some (take (Z.to_nat acceptedSrcSockLen) acceptedSrcSockAddr)) ;;
  srcaddrstr ← generate_sockaddr_port_str TRANSOCKS_INET_ADDRPORTSTRLEN acceptedSrcSockAddr acceptedSrcSockLen;
  da ← fld pclient dest_addr;
  g ← getorigdst clientFd da;
  let '(err, dlen) := g in
  if negb (err =? 0) then freeClient else
  modify pclient (set_dest_addr_len (Some dlen)) ;;
  dest_a ← load (T:=option sockaddr_storage) da;
  dest_a ← rd dest_a;
  destaddrstr ← generate_sockaddr_port_str TRANSOCKS_INET_ADDRPORTSTRLEN dest_a dlen;
  (* the log line reads the three buffers *)
  _ ← rd bindaddrstr;
  _ ← rd srcaddrstr;
  _ ← rd destaddrstr;
  modify pclient (set_client_fd clientFd) ;;
  modify pclient (set_global_env env) ;;
  base ← fld env eventBaseLoop;
  client_b ← bufferevent_socket_new base (-1) BEV_OPT_CLOSE_ON_FREE;
  let freeBev := TRANSOCKS_FREE bufferevent_free client_b ;; freeClient in
  if client_b =? NULL then freeBev else
  r ← bufferevent_disable client_b EV_READ;
  if negb (r =? 0) then freeBev else
  r ← bufferevent_setfd client_b clientFd;
  if negb (r =? 0) then freeBev else
  modify pclient (set_client_bev client_b) ;;
  list_op (list_add_tail (client_node pclient) (clients_head env)) ;;
  transocks_start_connect_relay pclient.

Definition listener_deinit (env : Z) : C unit :=
  if env =? NULL then mret tt else
  lp ← fld env listener;
  if negb (lp =? NULL) then
    ev ← fld lp listener_ev;
    ev ← rd ev;
    (if negb (ev =? NULL) then
       event_del ev ;;
       TRANSOCKS_FREE_at event_free (o ← fld lp listener_ev; rd o) (modify lp (set_listener_ev (Some NULL)))
     else mret tt) ;;
    TRANSOCKS_CLOSE_at (o ← fld lp listener_fd; rd o) (modify lp (set_listener_fd (Some (-1)))) ;;
    TRANSOCKS_FREE_at (tr_free transocks_listener) (fld env listener) (modify env (set_listener NULL))
  else mret tt.

Definition listener_init (env : Z) : C Z :=
  ba ← fld env bind_addr;
  bind_a ← load (T:=option sockaddr_storage) ba;
  bind_a ← rd bind_a;
  fd ← sys (c_socket (ss_family bind_a) SOCK_STREAM 0);
  if fd <? 0 then mret (-1) else
  let closeFd : C Z := TRANSOCKS_CLOSE fd ;; mret (-1) in
  let freeListener : C Z := listener_deinit env ;; closeFd in
  err ← setsockopt fd SOL_SOCKET SO_REUSEADDR 1;
  if negb (err =? 0) then closeFd else
  err ← setsockopt fd SOL_SOCKET SO_REUSEPORT 1;
  if negb (err =? 0) then closeFd else
  r ← setnonblocking fd true;
  if negb (r =? 0) then closeFd else
  r ← (if ss_family bind_a =? AF_INET6 then apply_ipv6only fd 0 else mret 0);
  if negb (r =? 0) then closeFd else
  blen ← fld env bind_addr_len;
  err ← sys (c_bind fd bind_a blen);
  if negb (err =? 0) then closeFd else
  err ← sys (c_listen fd SOMAXCONN);
  if negb (err =? 0) then closeFd else
  lp ← tr_malloc (TransocksListener None None);
  modify env (set_listener lp) ;;
  if lp =? NULL then freeListener else
  modify lp (set_listener_fd (Some fd)) ;;
  base ← fld env eventBaseLoop;
  ev ← event_new base fd (Z.lor EV_READ EV_PERSIST) fn_listener_cb env;
  modify lp (set_listener_ev (Some ev)) ;;
  if ev =? NULL then freeListener else
  r ← event_add ev None;
  if negb (r =? 0) then freeListener else
  mret 0.

(** ** signal.c *)

Definition terminate_signal_cb (env : Z) : C unit :=
  base ← fld env eventBaseLoop;
  _ ← load (T:=unit) base;
  sys (c_event_base_loopbreak base) ;;
  mret tt.

Definition dump_client_info_signal_cb (env : Z) : C unit := transocks_dump_all_client_info env.

Definition drop_all_clients_signal_cb (env : Z) : C unit := transocks_drop_all_clients env.

Definition signal_init (env : Z) : C Z :=
  base ← fld env eventBaseLoop;
  e1 ← evsignal_new base SIGTERM fn_terminate_signal_cb env;
  modify env (set_sigterm_ev e1) ;;
  e2 ← evsignal_new base SIGINT fn_terminate_signal_cb env;
  modify env (set_sigint_ev e2) ;;
  e3 ← evsignal_new base SIGHUP fn_dump_client_info_signal_cb env;
  modify env (set_sighup_ev e3) ;;
  e4 ← evsignal_new base SIGUSR1 fn_drop_all_clients_signal_cb env;
  modify env (set_sigusr1_ev e4) ;;
  if (e1 =? NULL) || (e2 =? NULL) || (e3 =? NULL) || (e4 =? NULL) then mret (-1) else
  r ← evsignal_add e1;
  if negb (r =? 0) then mret (-1) else
  r ← evsignal_add e2;
  if negb (r =? 0) then mret (-1) else
  r ← evsignal_add e3;
  if negb (r =? 0) then mret (-1) else
  r ← evsignal_add e4;
  if negb (r =? 0) then mret (-1) else
  mret 0.

(** One of the four blocks of [signal_deinit]. *)
Definition signal_ev_deinit (env : Z) (get : transocks_global_env → Z)
    (clr : transocks_global_env → transocks_global_env) : C unit :=
  ev ← fld env get;
  if negb (ev =? NULL) then
    evsignal_del ev ;;
    TRANSOCKS_FREE_at event_free (fld env get) (modify env clr)
  else mret tt.

Definition signal_deinit (env : Z) : C unit :=
  if env =? NULL then mret tt else
  signal_ev_deinit env sigint_ev (set_sigint_ev NULL) ;;
  signal_ev_deinit env sigterm_ev (set_sigterm_ev NULL) ;;
  signal_ev_deinit env sighup_ev (set_sighup_ev NULL) ;;
  signal_ev_deinit env sigusr1_ev (set_sigusr1_ev NULL).

(** ** context.c: release of the global environment *)

Definition transocks_global_env_free (pEnv : Z) : C unit :=
  if pEnv =? NULL then mret tt else
  TRANSOCKS_FREE_at (tr_free string) (fld pEnv pump_method_name) (modify pEnv (set_pump_method_name NULL)) ;;
  TRANSOCKS_FREE_at (tr_free (option sockaddr_storage)) (fld pEnv relay_addr) (modify pEnv (set_relay_addr NULL)) ;;
  TRANSOCKS_FREE_at (tr_free (option sockaddr_storage)) (fld pEnv bind_addr) (modify pEnv (set_bind_addr NULL)) ;;
  listener_deinit pEnv ;;
  signal_deinit pEnv ;;
  TRANSOCKS_FREE_at event_base_free (fld pEnv eventBaseLoop) (modify pEnv (set_eventBaseLoop NULL)) ;;
  TRANSOCKS_FREE (tr_free transocks_global_env) pEnv.
End listener.

(** ** Release of the listener, the signals and the environment *)

(** The listener of the environment: none, or with its descriptor and event. *)
Definition listener_ok (s : state) (lp fd ev : Z) : Prop :=
  lp = NULL ∨ (listeners s !! lp = Some (TransocksListener (Some fd) (Some ev)) ∧ handle_ok (evs s) ev).

Definition listener_calls (lp fd ev : Z) : list call :=
  if lp =? NULL then [] else
  opt (negb (ev =? NULL)) (c_event_del ev) ++ opt (negb (ev =? NULL)) (c_event_free ev) ++
  opt (0 <=? fd) (c_close fd) ++ [c_free lp].

(** The state without the listener. *)
Definition listener_released (env : Z) (e : transocks_global_env) (lp fd ev : Z) (s : state) : state :=
  did (listener_calls lp fd ev)
    (set_listeners (delete lp (listeners s))
    (set_evs (if lp =? NULL then evs s else delete ev (evs s))
    (set_envs (<[env := set_listener NULL e]> (envs s)) s))).

Definition signal_evs (e : transocks_global_env) : list Z := [sigint_ev e; sigterm_ev e; sighup_ev e; sigusr1_ev e].

Definition signal_calls (ev : Z) : list call :=
  opt (negb (ev =? NULL)) (c_event_del ev) ++ opt (negb (ev =? NULL)) (c_event_free ev).

Section release_rules.
Context {EXT : Env}.
Implicit Types s : state.

Lemma wp_listener_deinit s env e fd ev (Q : unit → state → Prop) :
  env ≠ NULL → envs s !! env = Some e → listeners s !! NULL = None → evs s !! NULL = None →
  listener_ok s (listener e) fd ev →
  Q tt (listener_released env e (listener e) fd ev s) → wp (listener_deinit env) Q s.
Proof.
  intros Henv He Hln Hen Hl HQ. unfold listener_deinit, listener_released, listener_calls in *.
  replace (env =? NULL) with false by (symmetry; by apply Z.eqb_neq). st_steps.
  destruct (Z.eqb_spec (listener e) NULL) as [E|E]; cbn [negb].
  { rewrite did_nil, E, delete_id, insert_id in HQ by (try done; by rewrite <-E; destruct e).
    apply wp_ret. by destruct s. }
  destruct Hl as [?|[Hl Hev]]; [done|]. st_steps.
  unfold TRANSOCKS_FREE_at, TRANSOCKS_CLOSE_at, event_del, event_free, tr_free, release.
  apply Z.eqb_neq in E.
  destruct (ev =? NULL) eqn:Eev; cbn [negb opt app] in *.
  - st_steps. apply Z.eqb_eq in Eev as ->.
    destruct (0 <=? fd); st_steps; rewrite E; st_norm; st_steps;
      (eapply eq_ind; [exact HQ|st_eq]; rewrite ?delete_insert_eq, ?(delete_id (evs s)); done).
  - assert (is_Some (evs s !! ev)) as [v Hv] by (apply handle_live; [done|by apply Z.eqb_neq]).
    st_steps. rewrite Eev. st_norm. st_steps.
    destruct (0 <=? fd); st_steps; rewrite E; st_norm; st_steps;
      (eapply eq_ind; [exact HQ|st_eq]; rewrite ?insert_insert_eq, ?delete_insert_eq; done).
Qed.

(** One signal event. *)
Lemma wp_signal_ev_deinit s env e get set (Q : unit → state → Prop) :
  (∀ x, set (get x) x = x) → envs s !! env = Some e → evs s !! NULL = None → handle_ok (evs s) (get e) →
  Q tt (did (signal_calls (get e))
         (set_evs (delete (get e) (evs s)) (set_envs (<[env := set NULL e]> (envs s)) s))) →
  wp (signal_ev_deinit env get (set NULL)) Q s.
Proof.
  intros Hset He Hn Hh HQ. unfold signal_ev_deinit, evsignal_del, event_free. st_steps.
  destruct (get e =? NULL) eqn:E; cbn [negb].
  - apply Z.eqb_eq in E. apply wp_ret. unfold signal_calls in HQ.
    rewrite E, delete_id in HQ by done. rewrite <-E, Hset, insert_id in HQ by done. rewrite E in HQ.
    cbn in HQ. rewrite did_nil in HQ. by destruct s.
  - unfold TRANSOCKS_FREE_at, event_del, release.
    assert (is_Some (evs s !! get e)) as [v Hv] by (apply handle_live; [done|by apply Z.eqb_neq]).
    st_steps. rewrite E. st_norm. st_steps. eapply eq_ind; [exact HQ|].
    unfold signal_calls. rewrite E. cbn [negb opt]. st_eq. by rewrite delete_insert_eq.
Qed.
End release_rules.

(** What the release of the environment needs of it: every handle is NULL or
    live, and no two of one kind are the same object. *)
Record env_ok (s : state) (env : Z) (e : transocks_global_env) (fd ev : Z) : Prop := {
  eo_live : envs s !! env = Some e;
  eo_null : null_ok s ∧ envs s !! NULL = None ∧ strs s !! NULL = None ∧ listeners s !! NULL = None ∧
            bases s !! NULL = None;
  eo_name : handle_ok (strs s) (pump_method_name e);
  eo_relay : handle_ok (addrs s) (relay_addr e);
  eo_bind : handle_ok (addrs s) (bind_addr e);
  eo_addrs : bind_addr e = relay_addr e → bind_addr e = NULL;
  eo_listener : listener_ok s (listener e) fd ev;
  eo_evs : Forall (handle_ok (evs s)) (signal_evs e);
  eo_apart : apart_list (ev :: signal_evs e);
  eo_base : handle_ok (bases s) (eventBaseLoop e)
}.

Definition env_free_calls (env : Z) (e : transocks_global_env) (fd ev : Z) : list call :=
  opt (negb (pump_method_name e =? NULL)) (c_free (pump_method_name e)) ++
  opt (negb (relay_addr e =? NULL)) (c_free (relay_addr e)) ++
  opt (negb (bind_addr e =? NULL)) (c_free (bind_addr e)) ++
  listener_calls (listener e) fd ev ++ (signal_evs e ≫= signal_calls) ++
  opt (negb (eventBaseLoop e =? NULL)) (c_event_base_free (eventBaseLoop e)) ++ [c_free env].

Section env_theorems.
Context {EXT : Env}.
Implicit Types s : state.

(** What the release of the environment leaves. *)
Definition env_released (env : Z) (e : transocks_global_env) (fd ev : Z) (s s' : state) : Prop :=
  trace s' = trace (did (env_free_calls env e fd ev) s) ∧
  envs s' = delete env (envs s) ∧ strs s' = delete (pump_method_name e) (strs s) ∧
  addrs s' = delete (bind_addr e) (delete (relay_addr e) (addrs s)) ∧
  listeners s' = delete (listener e) (listeners s) ∧
  evs s' = foldl (flip delete) (if listener e =? NULL then evs s else delete ev (evs s)) (signal_evs e) ∧
  bases s' = delete (eventBaseLoop e) (bases s) ∧ nodes s' = delete (clients_head env) (nodes s) ∧
  clients s' = clients s ∧ bevs s' = bevs s ∧ pump_heaps s' = pump_heaps s.

Lemma wp_global_env_free s env e fd ev :
  env_ok s env e fd ev → wp (transocks_global_env_free env) (λ _ s', env_released env e fd ev s s') s.
Proof.
  intros [He ([Nc Na Nb Ne] & Nenv & Ns & Nl & Nba) Hnm Hr Hbi Had Hli Hevs Hap Hba].
  assert (env ≠ NULL) as Hnz by (intros ->; congruence).
  unfold env_released, transocks_global_env_free, tr_free, event_base_free.
  replace (env =? NULL) with false by (symmetry; by apply Z.eqb_neq).
  free_field pump_method_name set_pump_method_name. st_norm.
  free_field relay_addr set_relay_addr. st_norm.
  free_field bind_addr set_bind_addr. st_norm.
  apply wp_bind. eapply (wp_listener_deinit _ env); [done|st_lookup|done|done|exact Hli|].
  unfold listener_released. st_norm.
  set (m := if listener e =? NULL then evs s else delete ev (evs s)).
  assert (m !! NULL = None) as Nm by (subst m; destruct (listener e =? NULL); auto with tr).
  unfold signal_evs, apart_list in Hap, Hevs.
  repeat match goal with H : ForallOrdPairs _ (_ :: _) |- _ => inversion_clear H end. decompose_Forall_hyps.
  assert (∀ x, (x = ev → x = NULL) → handle_ok (evs s) x → handle_ok m x) as Hm.
  { intros x Hx Hh. subst m. destruct (listener e =? NULL); auto with tr. }
  unfold signal_deinit. replace (env =? NULL) with false by (symmetry; by apply Z.eqb_neq).
  apply wp_bind, wp_bind. eapply (wp_signal_ev_deinit _ _ _ sigint_ev set_sigint_ev);
    [by intros []|st_lookup|done|st_norm; auto|]. st_norm.
  apply wp_bind. eapply (wp_signal_ev_deinit _ _ _ sigterm_ev set_sigterm_ev);
    [by intros []|st_lookup|st_norm; auto with tr|st_norm; auto with tr|]. st_norm.
  apply wp_bind. eapply (wp_signal_ev_deinit _ _ _ sighup_ev set_sighup_ev);
    [by intros []|st_lookup|st_norm; auto with tr|st_norm; auto with tr|]. st_norm.
  eapply (wp_signal_ev_deinit _ _ _ sigusr1_ev set_sigusr1_ev);
    [by intros []|st_lookup|st_norm; auto with tr|st_norm; auto with tr|]. st_norm.
  free_field eventBaseLoop set_eventBaseLoop. st_norm.
  rewrite TRANSOCKS_FREE_live by done. unfold release. st_steps.
  split_and!; try done.
  - unfold env_free_calls, signal_evs. cbn [mbind list_bind]. rewrite !app_nil_r.
    unfold did. simpl. by rewrite ?fmap_app, ?reverse_app, <-?(assoc_L (++)).
  - by rewrite !insert_insert_eq, delete_insert_eq.
Qed.

(** C29 Releasing the environment returns, makes exactly the calls of
    [env_free_calls] in this order (the pump's name and both addresses freed,
    the listener's event deleted and freed, its socket closed and its struct
    freed, the four signal events deleted and freed, then the event base and
    the environment), and removes exactly these objects. *)
Theorem global_env_free_releases s env e fd ev :
  env_ok s env e fd ev →
  ∃ s', transocks_global_env_free env s = Ok tt s' ∧
    trace s' = trace (did (env_free_calls env e fd ev) s) ∧
    envs s' = delete env (envs s) ∧ strs s' = delete (pump_method_name e) (strs s) ∧
    addrs s' = delete (bind_addr e) (delete (relay_addr e) (addrs s)) ∧
    listeners s' = delete (listener e) (listeners s) ∧
    evs s' = foldl (flip delete) (if listener e =? NULL then evs s else delete ev (evs s)) (signal_evs e) ∧
    bases s' = delete (eventBaseLoop e) (bases s) ∧ nodes s' = delete (clients_head env) (nodes s) ∧
    clients s' = clients s ∧ bevs s' = bevs s ∧ pump_heaps s' = pump_heaps s.
Proof. intros Hok. by apply wp_tt, wp_global_env_free. Qed.
End env_theorems.

(** ** Start-up *)

(** A registered, added signal event. *)
Definition signal_event (signum : Z) (cb : fn) (env : Z) : event :=
  Event signum (Z.lor EV_SIGNAL EV_PERSIST) cb env true.

Section startup.
Context {EXT : Env}.
Implicit Types s : state.
Context (event_new_ok : ∀ tr b fd ev cb arg, ext tr (c_event_new b fd ev cb arg) = true).
Context (event_add_ok : ∀ tr ev t, ext tr (c_event_add ev t) = 0).

(** C35 Signals: when event_new and event_add succeed, SIGTERM and SIGINT are
    connected to the end of the program, SIGHUP to the dump of all clients and
    SIGUSR1 to dropping them; all four events are new and added, for the
    environment as their argument, the environment holds each in its field, and
    every older event is as before. *)
Theorem signal_init_connects s env e :
  wf s → envs s !! env = Some e → is_Some (bases s !! eventBaseLoop e) →
  ∃ s', signal_init env s = Ok 0 s' ∧
    let a := brk s in
    envs s' = <[env := set_sigusr1_ev (a + 3) (set_sighup_ev (a + 2) (set_sigint_ev (a + 1) (set_sigterm_ev a e)))]>
                (envs s) ∧
    evs s' !! a = Some (signal_event SIGTERM fn_terminate_signal_cb env) ∧
    evs s' !! (a + 1) = Some (signal_event SIGINT fn_terminate_signal_cb env) ∧
    evs s' !! (a + 2) = Some (signal_event SIGHUP fn_dump_client_info_signal_cb env) ∧
    evs s' !! (a + 3) = Some (signal_event SIGUSR1 fn_drop_all_clients_signal_cb env) ∧
    (∀ q, q < a → evs s' !! q = evs s !! q).
Proof.
  intros Hwf He [b Hb]. pose proof (wf_brk _ Hwf) as Hbrk.
  eapply wp_Ok; [|intros r s' H; exact H]. unfold signal_init, evsignal_new, evsignal_add, event_new.
  st_steps. rewrite event_new_ok. st_steps. rewrite event_new_ok. st_steps. rewrite event_new_ok. st_steps.
  rewrite event_new_ok. st_steps. not_null. unfold event_add.
  st_steps. rewrite event_add_ok. st_norm. cbn [Z.eqb negb]. st_steps. rewrite event_add_ok. cbn [Z.eqb negb].
  st_steps. rewrite event_add_ok. cbn [Z.eqb negb]. st_steps. rewrite event_add_ok. cbn [Z.eqb negb]. st_steps.
  split; [done|]. rewrite !insert_insert_eq.
  replace (brk s + 1 + 1 + 1) with (brk s + 3) by lia. replace (brk s + 1 + 1) with (brk s + 2) by lia.
  split_and!; [done|intros; repeat first [rewrite lookup_insert_eq | rewrite lookup_insert_ne by lia]; done..].
Qed.
End startup.

(** ** Refusing a connection *)

(** The options an accepted socket is given; whether all could be set. *)
Definition socket_setup {EXT : Env} (fd : Z) : C bool :=
  r ← setnonblocking fd true;
  if negb (r =? 0) then mret false else
  r ← apply_tcp_keepalive fd;
  if negb (r =? 0) then mret false else
  r ← apply_tcp_nodelay fd;
  mret (r =? 0).

Definition is_option_call (c : call) : bool :=
  match c with c_fcntl_getfl _ | c_fcntl_setfl _ _ | c_setsockopt _ _ _ _ => true | _ => false end.

Section refusing.
Context {EXT : Env}.
Implicit Types s : state.

(** A computation that only sets options of sockets. *)
Definition only_options {A} (m : C A) : Prop :=
  ∀ s, ∃ a cs, m s = Ok a (did cs s) ∧ forallb is_option_call cs = true.

Lemma only_options_ret {A} (a : A) : only_options (mret a).
Proof. intros s. exists a, []. by rewrite did_nil. Qed.

Lemma only_options_bind {A B} (m : C A) (f : A → C B) :
  only_options m → (∀ a, only_options (f a)) → only_options (m ≫= f).
Proof.
  intros Hm Hf s. destruct (Hm s) as (a & cs & E & Hcs). destruct (Hf a (did cs s)) as (b & ds & E' & Hds).
  exists b, (cs ++ ds). rewrite did_did in E'. split; [|by rewrite forallb_app, Hcs, Hds].
  unfold mbind, M_bind. by rewrite E.
Qed.

Lemma only_options_sys c : is_option_call c = true → only_options (sys c).
Proof. intros Hc s. exists (ext (trace s) c), [c]. split; [done|]. simpl. by rewrite Hc. Qed.

Lemma socket_setup_options fd : only_options (socket_setup fd).
Proof.
  unfold socket_setup, setnonblocking, apply_tcp_keepalive, apply_tcp_nodelay, setsockopt.
  repeat first [apply only_options_bind; [|intros ?] | match goal with |- only_options (sys ?c) => exact (only_options_sys c eq_refl) end | apply only_options_ret | case_match].
Qed.

(** The three checks of the listener's callback, when an option cannot be set. *)
Lemma wp_setup_fails s s1 fd (fail : C unit) (K : Z → C unit) (Q : unit → state → Prop) :
  socket_setup fd s = Ok false s1 → wp fail Q s1 →
  wp (r ← setnonblocking fd true; if negb (r =? 0) then fail else
      r ← apply_tcp_keepalive fd; if negb (r =? 0) then fail else
      r ← apply_tcp_nodelay fd; if negb (r =? 0) then fail else K r) Q s.
Proof.
  unfold socket_setup, wp, mbind, M_bind. intros Hs Hf.
  destruct (setnonblocking fd true s) as [r t| |]; try done. destruct (r =? 0); simpl in *; [|by injection Hs as ->].
  destruct (apply_tcp_keepalive fd t) as [r' t'| |]; try done. destruct (r' =? 0); simpl in *; [|by injection Hs as ->].
  destruct (apply_tcp_nodelay fd t') as [r'' t''| |]; try done. injection Hs as Hr ->. by rewrite Hr.
Qed.

(** The same when all are set. *)
Lemma wp_setup_ok s s1 fd (fail : C unit) (K : Z → C unit) (Q : unit → state → Prop) :
  socket_setup fd s = Ok true s1 → (∀ r, wp (K r) Q s1) →
  wp (r ← setnonblocking fd true; if negb (r =? 0) then fail else
      r ← apply_tcp_keepalive fd; if negb (r =? 0) then fail else
      r ← apply_tcp_nodelay fd; if negb (r =? 0) then fail else K r) Q s.
Proof.
  unfold socket_setup, wp, mbind, M_bind. intros Hs Hf.
  destruct (setnonblocking fd true s) as [r t| |]; try done. destruct (r =? 0); simpl in *; [|done].
  destruct (apply_tcp_keepalive fd t) as [r' t'| |]; try done. destruct (r' =? 0); simpl in *; [|done].
  destruct (apply_tcp_nodelay fd t') as [r'' t''| |]; try done. injection Hs as Hr ->. rewrite Hr. apply Hf.
Qed.

Lemma wp_close_fd s fd (Q : unit → state → Prop) : 0 ≤ fd → Q tt (did [c_close fd] s) → wp (TRANSOCKS_CLOSE fd) Q s.
Proof. intros Hfd HQ. unfold TRANSOCKS_CLOSE. rewrite (proj2 (Z.leb_le 0 fd)) by done. apply wp_sys. by destruct (ext _ _). Qed.

(** [accept] failed, or reported no address. *)
Lemma listener_cb_no_peer s env e lfd lev cfd errno src slen :
  envs s !! env = Some e → listeners s !! listener e = Some (TransocksListener (Some lfd) lev) →
  let acc := c_accept lfd sizeof_sockaddr_storage in
  ext (trace s) acc = (cfd, errno, src, slen) →
  (cfd < 0 → listener_cb env s = Ok tt (did [acc] s)) ∧
  (0 ≤ cfd → slen = 0 → listener_cb env s = Ok tt (did [acc; c_close cfd] s)).
Proof.
  intros He Hl acc Eacc. split.
  - intros Hlt%Z.ltb_lt. apply wp_tt_eq. unfold listener_cb. st_steps. fold acc. rewrite Eacc, Hlt. case_match; by apply wp_ret.
  - intros Hge ->. apply wp_tt_eq. unfold listener_cb. st_steps. fold acc. rewrite Eacc, (proj2 (Z.ltb_ge cfd 0)) by done.
    by apply wp_close_fd.
Qed.

(** An option of the socket cannot be set. *)
Lemma listener_cb_no_options s env e lfd lev cfd errno src slen s1 :
  envs s !! env = Some e → listeners s !! listener e = Some (TransocksListener (Some lfd) lev) →
  let acc := c_accept lfd sizeof_sockaddr_storage in
  ext (trace s) acc = (cfd, errno, src, slen) → 0 ≤ cfd → slen ≠ 0 →
  socket_setup cfd (did [acc] s) = Ok false s1 →
  ∃ cs, listener_cb env s = Ok tt (did (acc :: cs ++ [c_close cfd]) s) ∧ forallb is_option_call cs = true.
Proof.
  intros He Hl acc Eacc Hge Hlen%Z.eqb_neq Hs. destruct (socket_setup_options cfd (did [acc] s)) as (a & cs & E & Hcs).
  rewrite Hs in E. injection E as <- ->. exists cs. split; [|done].
  apply wp_tt_eq. unfold listener_cb. st_steps. fold acc. rewrite Eacc, (proj2 (Z.ltb_ge cfd 0)), Hlen by done.
  eapply wp_setup_fails; [exact Hs|]. apply wp_close_fd; [done|]. by rewrite !did_did.
Qed.

(** No memory for the client. *)
Lemma listener_cb_no_client s env e lfd lev cfd errno src slen s1 s2 :
  envs s !! env = Some e → listeners s !! listener e = Some (TransocksListener (Some lfd) lev) →
  let acc := c_accept lfd sizeof_sockaddr_storage in
  ext (trace s) acc = (cfd, errno, src, slen) → 0 ≤ cfd → slen ≠ 0 →
  socket_setup cfd (did [acc] s) = Ok true s1 → transocks_client_new env s1 = Ok NULL s2 →
  listener_cb env s = Ok tt (did [c_close cfd] s2).
Proof.
  intros He Hl acc Eacc Hge Hlen%Z.eqb_neq Hs Hn.
  apply wp_tt_eq. unfold listener_cb. st_steps. fold acc. rewrite Eacc, (proj2 (Z.ltb_ge cfd 0)), Hlen by done.
  eapply wp_setup_ok; [exact Hs|]. intros _. apply wp_bind. eapply wp_Ok_run; [exact Hn|].
  change (TRANSOCKS_FREE transocks_client_free NULL) with (mret (M:=M state) tt). cbn [Z.eqb NULL]. st_steps. by apply wp_close_fd.
Qed.
End refusing.

(** ** Accepting a connection *)

(** A world in which the calls for a new connection succeed. *)
Class Succeeds (EXT : Env) : Prop := {
  su_malloc tr n : ext tr (c_malloc n) = true;
  su_getfl tr fd : ext tr (c_fcntl_getfl fd) ≠ -1;
  su_setfl tr fd fl : ext tr (c_fcntl_setfl fd fl) = 0;
  su_setsockopt tr fd l o v : ext tr (c_setsockopt fd l o v) = 0;
  su_socket tr f t p : 0 ≤ ext tr (c_socket f t p);
  su_ntop tr f a n : is_Some (ext tr (c_inet_ntop f a n));
  su_bev_new tr b fd o : ext tr (c_bufferevent_socket_new b fd o) = true;
  su_bev_disable tr b e : ext tr (c_bufferevent_disable b e) = 0;
  su_bev_enable tr b e : ext tr (c_bufferevent_enable b e) = 0;
  su_bev_setfd tr b fd : ext tr (c_bufferevent_setfd b fd) = 0;
  su_bev_connect tr b a n : ext tr (c_bufferevent_socket_connect b a n) = 0;
  su_event_new tr b fd e cb a : ext tr (c_event_new b fd e cb a) = true;
  su_event_add tr e t : ext tr (c_event_add e t) = 0
}.

(** The calls whose failure the code does not survive: the block of a client
    and the timer of its handshake can be allocated, an address can be
    printed, and the attempt to connect to the relay can be started. *)
Class Survives (EXT : Env) : Prop := {
  sv_client tr : ext tr (c_malloc sizeof_transocks_client) = true;
  sv_timer tr b cb a : ext tr (c_event_new b (-1) 0 cb a) = true;
  sv_ntop tr f a n : is_Some (ext tr (c_inet_ntop f a n));
  sv_connect tr b a n : ext tr (c_bufferevent_socket_connect b a n) = 0
}.

#[global] Instance succeeds_survives {EXT : Env} : Succeeds EXT → Survives EXT.
Proof. intros []. by split. Qed.

Section accepting.
Context {EXT : Env} `{!Survives EXT}.
Implicit Types s : state.

(** Some call failed. *)
Abbreviation failed := (¬ Succeeds EXT).

(** Each option is set or not. *)
Ltac each_option HQ :=
  repeat (st_steps; match goal with |- wp (if ?b then _ else _) _ _ => destruct b eqn:? end); st_steps;
  first [apply (HQ _ [_]) | apply (HQ _ [_; _]) | apply (HQ _ [_; _; _]) | apply (HQ _ [_; _; _; _])];
  first [done | intros _ Hs; rewrite ?su_setfl, ?su_setsockopt in *; done
         | intros _ Hs; by match goal with H : (_ =? _) = true |- _ => apply Z.eqb_eq, su_getfl in H end].

Lemma wp_setnonblocking_any s fd (Q : Z → state → Prop) :
  0 ≤ fd → (∀ r cs, (r ≠ 0 → failed) → Q r (did cs s)) → wp (setnonblocking fd true) Q s.
Proof. intros Hfd HQ. unfold setnonblocking. rewrite (proj2 (Z.ltb_ge fd 0)) by done. each_option HQ. Qed.

Lemma wp_keepalive_any s fd (Q : Z → state → Prop) :
  0 ≤ fd → (∀ r cs, (r ≠ 0 → failed) → Q r (did cs s)) → wp (apply_tcp_keepalive fd) Q s.
Proof. intros Hfd HQ. unfold apply_tcp_keepalive, setsockopt. rewrite (proj2 (Z.ltb_ge fd 0)) by done. each_option HQ. Qed.

Lemma wp_nodelay_any s fd (Q : Z → state → Prop) :
  0 ≤ fd → (∀ r cs, (r ≠ 0 → failed) → Q r (did cs s)) → wp (apply_tcp_nodelay fd) Q s.
Proof. intros Hfd HQ. unfold apply_tcp_nodelay, setsockopt. rewrite (proj2 (Z.ltb_ge fd 0)) by done. each_option HQ. Qed.

(** The state after the connection to the relay was started for the client
    [c] at [p]: its descriptor, bufferevent and timer are new. *)
Record connecting (p : Z) (c : transocks_client) (e : transocks_global_env) (relay_a : sockaddr_storage)
    (rfd ev : Z) (s s' : state) : Prop := {
  cn_clients : clients s' = <[p := set_timeout_ev ev (set_relay_bev (brk s) (set_relay_fd rfd c))]> (clients s);
  cn_fd : 0 ≤ rfd;
  cn_ev : 0 < ev;
  cn_ev_new : brk s < ev;
  cn_bevs : bevs s' = <[brk s := Bufferevent rfd BEV_OPT_CLOSE_ON_FREE None None (Some fn_relay_onconnect_eventcb)
                                   p EV_WRITE 0 0]> (bevs s);
  cn_timer : ∃ b, evs s' !! ev = Some (Event (-1) 0 fn_socks5_timeout_cb p b) ∧ (b = false → failed);
  cn_evs : delete ev (evs s') = delete ev (evs s);
  cn_addrs : addrs s' = addrs s;
  cn_nodes : nodes s' = nodes s;
  cn_envs : envs s' = envs s;
  cn_bases : bases s' = bases s;
  cn_heaps : pump_heaps s' = pump_heaps s;
  cn_brk : 0 < brk s';
  cn_call : ∃ tr, trace s' = ICall (c_bufferevent_socket_connect (brk s) relay_a (relay_addr_len e)) :: tr
}.

(** The attempt is under way, or some call failed and the client is gone. *)
Lemma wp_start_connect_relay s p c e relay_a head l1 l2 :
  0 < brk s → null_ok s → client_ok s p c → is_destroyed (client_state c) = false →
  dlist (nodes s) head (l1 ++ client_node p :: l2) → envs s !! global_env c = Some e →
  addrs s !! relay_addr e = Some (Some relay_a) → is_Some (bases s !! eventBaseLoop e) →
  bevs s !! brk s = None → timeout_ev c = NULL →
  wp (transocks_start_connect_relay p) (λ _ s', (∃ rfd ev, connecting p c e relay_a rfd ev s s') ∨
    (failed ∧ gone p c head l1 l2 s s')) s.
Proof.
  intros Hb Hn Hok Hst Hl He Ha [b Hba] Hf Ht. pose proof Hok as [Hc _ _ _ _ _ _ _].
  assert (∀ s1 c1, failed → near p c c1 s s1 → is_destroyed (client_state c1) = false →
    wp (free_client p) (λ _ s', (∃ rfd ev, connecting p c e relay_a rfd ev s s') ∨ (failed ∧ gone p c head l1 l2 s s')) s1) as Hfree.
  { intros s1 c1 Hfail Hnr Hd. eapply wp_mono; [by eapply wp_free_listed|]. intros [] s' Hg. by right. }
  assert (∀ fd cs, 0 ≤ fd → failed → wp (TRANSOCKS_CLOSE fd ;; free_client p) (λ _ s',
    (∃ rfd ev, connecting p c e relay_a rfd ev s s') ∨ (failed ∧ gone p c head l1 l2 s s')) (did cs s)) as Hclose.
  { intros fd cs Hfd Hfail. apply wp_bind, wp_close_fd; [done|]. rewrite did_did. by eapply Hfree; [|apply near_did, near_refl|]. }
  unfold transocks_start_connect_relay. st_steps.
  set (rfd := ext _ _). destruct (Z.ltb_spec rfd 0) as [Hr|Hr].
  { apply (Hfree (did [_] s) c); [|by apply near_did, near_refl|done]. intros Hs. pose proof (su_socket (trace s) (ss_family relay_a) SOCK_STREAM 0). lia. }
  apply wp_bind, wp_setnonblocking_any; [done|]. intros r1 c1 H1. change (push (ICall ?x) s) with (did [x] s).
  rewrite did_did. destruct (Z.eqb_spec r1 0) as [->|E1]; cbn [negb]; [|by apply Hclose; auto].
  apply wp_bind, wp_keepalive_any; [done|]. intros r2 c2 H2. rewrite did_did. destruct (Z.eqb_spec r2 0) as [->|E2]; cbn [negb]; [|by apply Hclose; auto].
  apply wp_bind, wp_nodelay_any; [done|]. intros r3 c3 H3. rewrite did_did. destruct (Z.eqb_spec r3 0) as [->|E3]; cbn [negb]; [|by apply Hclose; auto].
  st_steps.
  unfold bufferevent_socket_new. st_steps. destruct (ext _ (c_bufferevent_socket_new _ _ _)) eqn:Eb; st_steps.
  2:{ cbn [Z.eqb]. apply wp_bind, wp_close_fd; [done|]. eapply (Hfree _ (set_relay_fd rfd c)); [|apply near_did, (near_did _ _ _ _ _ [_]), (near_client p c c _ s (did _ s)); [by apply near_did, near_refl|done]|done].
      intros Hs. by rewrite su_bev_new in Eb. }
  not_null.
  unfold bufferevent_setcb, bufferevent_enable. st_steps.
  unfold transocks_client_set_timeout, evtimer_new, evtimer_add, event_new, event_add. st_steps. rewrite Ht. simpl. st_steps.
  rewrite sv_timer. st_steps. not_null. st_steps.
  unfold bufferevent_socket_connect. st_steps. rewrite sv_connect. cbn [Z.eqb negb]. st_steps.
  left. exists rfd, (brk s + 1). split; try done; st_norm; rewrite ?insert_insert_eq, ?delete_insert_eq, ?lookup_insert_eq;
    eauto; try lia.
  - by destruct (ext _ (c_bufferevent_enable _ _) =? 0).
  - destruct (ext _ (c_event_add _ _) =? 0) eqn:Eadd; [by exists true|]. exists false. split; [done|].
    intros _ Hs. by rewrite su_event_add in Eadd.
Qed.

(** What [getorigdst] answers for the descriptor [fd] in this world. *)
Definition origdst_answer (fd : Z) (dst : sockaddr_storage) (dlen : Z) : Prop :=
  ∃ err6 a6 l6 err4 a4 l4,
    (∀ tr, ext tr (c_getsockopt_addr fd SOL_IPV6 IP6T_SO_ORIGINAL_DST sizeof_sockaddr_in6) = (err6, a6, l6)) ∧
    (∀ tr, ext tr (c_getsockopt_addr fd SOL_IP SO_ORIGINAL_DST sizeof_sockaddr_in) = (err4, a4, l4)) ∧
    ((err6 = 0 ∧ (dst, dlen) = (a6, l6)) ∨ (err6 ≠ 0 ∧ err4 = 0 ∧ (dst, dlen) = (a4, l4))).

Lemma wp_getorigdst_ok s fd da old dst dlen (Q : Z * Z → state → Prop) :
  origdst_answer fd dst dlen → addrs s !! da = Some old →
  (∀ cs, Q (0, dlen) (set_addrs (<[da := Some dst]> (addrs s)) (did cs s))) → wp (getorigdst fd da) Q s.
Proof.
  intros (err6 & a6 & l6 & err4 & a4 & l4 & E6 & E4 & H) Ha HQ. unfold wp.
  erewrite getorigdst_result by done.
  destruct H as [[-> [= -> ->]]|(Hne%Z.eqb_neq & -> & [= -> ->])]; [apply HQ|]. rewrite Hne. apply HQ.
Qed.

(** The client of an accepted connection. *)
Definition accepted_client (env p cfd slen dlen : Z) : transocks_client :=
  let ca := p + sizeof_transocks_client in
  let da := ca + sizeof_sockaddr_storage in
  TransocksClient env ca da cfd (-1) (Some slen) (Some dlen) (da + sizeof_sockaddr_storage) NULL NULL NULL
    client_NEW false false false false.

(** The state in which the listener starts the connection to the relay. *)
Record accepted (env : Z) (l : list Z) (cfd : Z) (src : sockaddr_storage) (slen : Z) (dst : sockaddr_storage)
    (dlen : Z) (s s1 : state) : Prop := {
  ac_clients : clients s1 = <[brk s := accepted_client env (brk s) cfd slen dlen]> (clients s);
  ac_addrs : addrs s1 = <[dest_addr (accepted_client env (brk s) cfd slen dlen) := Some dst]>
      (<[client_addr (accepted_client env (brk s) cfd slen dlen) := Some (take (Z.to_nat slen) src)]> (addrs s));
  ac_bevs : bevs s1 = <[client_bev (accepted_client env (brk s) cfd slen dlen) :=
      Bufferevent cfd BEV_OPT_CLOSE_ON_FREE None None None NULL EV_WRITE 0 0]> (bevs s);
  ac_brk : brk s1 = client_bev (accepted_client env (brk s) cfd slen dlen) + 1;
  ac_evs : evs s1 = evs s;
  ac_envs : envs s1 = envs s;
  ac_bases : bases s1 = bases s;
  ac_list : dlist (nodes s1) (clients_head env) (l ++ [client_node (brk s)]);
  ac_nodes : same_outside (client_node (brk s) :: clients_head env :: l) (nodes s) (nodes s1);
  ac_heaps : pump_heaps s1 = pump_heaps s
}.

(** The conclusion for the client [c] the listener leaves at [p]. *)
Record handshake_started (env p cfd : Z) (src : sockaddr_storage) (slen : Z) (dst : sockaddr_storage) (dlen : Z)
    (relay_a : sockaddr_storage) (relay_len : Z) (c : transocks_client) (s s' : state) : Prop := {
  hs_client : clients s' = <[p := c]> (clients s);
  hs_env : global_env c = env;
  hs_fd : client_fd c = cfd;
  hs_state : client_state c = client_NEW;
  hs_source : addrs s' !! client_addr c = Some (Some (take (Z.to_nat slen) src)) ∧ client_addr_len c = Some slen;
  hs_dest : addrs s' !! dest_addr c = Some (Some dst) ∧ dest_addr_len c = Some dlen;
  hs_client_bev : bevs s' !! client_bev c =
    Some (Bufferevent cfd BEV_OPT_CLOSE_ON_FREE None None None NULL EV_WRITE 0 0);
  hs_relay_bev : bevs s' !! relay_bev c =
    Some (Bufferevent (relay_fd c) BEV_OPT_CLOSE_ON_FREE None None (Some fn_relay_onconnect_eventcb) p EV_WRITE 0 0);
  hs_timer : evs s' !! timeout_ev c = Some (Event (-1) 0 fn_socks5_timeout_cb p true);
  hs_call : ∃ tr, trace s' = ICall (c_bufferevent_socket_connect (relay_bev c) relay_a relay_len) :: tr
}.

(** The new client of a well-formed state, with its connection started. *)
Lemma accepted_connected s s1 s' env e l cfd src slen dst dlen relay_a rfd ev :
  Succeeds EXT → wf s → accepted env l cfd src slen dst dlen s s1 → envs s !! env = Some e → is_Some (bases s !! eventBaseLoop e) →
  connecting (brk s) (accepted_client env (brk s) cfd slen dlen) e relay_a rfd ev s1 s' →
  ∃ c, shaking s' (brk s) c (clients_head env) l [] ∧ timeable s' c ∧
    handshake_started env (brk s) cfd src slen dst dlen relay_a (relay_addr_len e) c s s'.
Proof.
  intros Hsu Hwf [A1 A2 A3 A4 A5 A6 A7 A8 _ _] He Hba [B1 Hrfd Hev _ B2 ([] & B3 & Hb) B4 B5 B6 B7 B8 _ B9 [tr B10]];
    [|by destruct (Hb eq_refl)]. clear Hb.
  pose proof (wf_null_ok _ Hwf) as [Nc Na Nb Ne]. pose proof (wf_brk _ Hwf) as Hbrk.
  set (c := set_timeout_ev ev (set_relay_bev (brk s1) (set_relay_fd rfd (accepted_client env (brk s) cfd slen dlen)))).
  exists c. rewrite A1, insert_insert_eq in B1. rewrite A3 in B2. rewrite A2 in B5. subst c.
  unfold accepted_client in *. st_norm. simpl in A4, B2, B5.
  assert (∀ q, q ≠ ev → evs s' !! q = evs s !! q) as Hevs.
  { intros q Hq. rewrite <-A5, <-(lookup_delete_ne (evs s') ev), B4, lookup_delete_ne; done. }
  assert (∀ A (m : gmap Z A) i x, i ≠ NULL → m !! NULL = None → <[i := x]> m !! NULL = None) as Hins.
  { intros A m i x Hi Hm. by rewrite lookup_insert_ne. }
  split_and!.
  - split; st_norm; [split; rewrite ?B1, ?B2, ?B5, ?Hevs; try (by auto); repeat (apply Hins; [addr_lia|]); (done || addr_lia)| |done|addr_lia|addr_lia|by rewrite B6].
    split; st_norm; rewrite ?B1, ?B2, ?B5; [st_lookup|right; by rewrite B3|right; st_lookup|right; st_lookup|addr_lia|right; st_lookup|right; st_lookup|addr_lia].
  - split; [done|]. st_norm. exists e. by rewrite B7, B8, A6, A7.
  - split; st_norm; try done; rewrite ?B1, ?B2, ?B5; eauto; try (split; [|done]); st_lookup.
Qed.

Lemma client_freed_heaps p c h s :
  let s1 := client_freed p c h s in
  clients s1 = delete p (clients s) ∧ addrs s1 = delete (dest_addr c) (delete (client_addr c) (addrs s)) ∧
  bevs s1 = delete (client_bev c) (delete (relay_bev c) (bevs s)) ∧ evs s1 = delete (timeout_ev c) (evs s) ∧
  pump_heaps s1 = pump_heaps s.
Proof. done. Qed.

(** The new client, released before it is in the list. *)
Lemma wp_release_new s0 s p c n cfd (Q : unit → state → Prop) :
  wf s → 0 < p → brk s ≤ p → 0 ≤ cfd → clients s0 = <[p := c]> (clients s) →
  (∀ q, q ≠ client_addr c → q ≠ dest_addr c → addrs s0 !! q = addrs s !! q) →
  is_Some (addrs s0 !! client_addr c) → is_Some (addrs s0 !! dest_addr c) →
  brk s ≤ client_addr c → brk s ≤ dest_addr c → client_addr c ≠ dest_addr c →
  bevs s0 = bevs s → evs s0 = evs s → nodes s0 = upd_prev (client_node p) (client_node p) (upd_next (client_node p) (client_node p) (<[client_node p := n]> (nodes s))) →
  pump_heaps s0 = pump_heaps s →
  client_bev c = NULL → relay_bev c = NULL → timeout_ev c = NULL → is_destroyed (client_state c) = false →
  (∀ s1, same_objects s s1 → trace s1 = trace (did (client_free_calls p c ++ [c_close cfd]) s0) → Q tt s1) →
  wp (TRANSOCKS_FREE transocks_client_free p) (λ _ s', wp (TRANSOCKS_CLOSE cfd) Q s') s0.
Proof.
  intros Hwf Hp0 Hp Hfd Ec Ea La Ld Ba Bd Hne Eb Ee En Eh N1 N2 N3 Hst HQ.
  pose proof (wf_null_ok _ Hwf) as [Nc Na Nb Ne]. pose proof (wf_brk _ Hwf) as Hbrk.
  rewrite TRANSOCKS_FREE_live by addr_lia.
  destruct (client_free_unlisted s0 p c) as (h & Hrun & Hh); [..|done| |].
  - split; rewrite ?Ec, ?Eb, ?Ee; [rewrite lookup_insert_ne by addr_lia|rewrite Ea by addr_lia|..]; done.
  - split; unfold handle_ok; rewrite ?N1, ?N2, ?N3; auto; rewrite ?Ec, ?lookup_insert_eq; done.
  - rewrite En. apply dlist_init. rewrite lookup_insert_eq. eauto.
  - eapply wp_Ok_run; [exact Hrun|]. apply wp_close_fd; [done|]. apply HQ; [|by rewrite <-did_did].
    destruct (client_freed_heaps p c h s0) as (F1 & F2 & F3 & F4 & F5). clear Hrun HQ.
    generalize dependent (client_freed p c h s0). intros s1 Hh F1 F2 F3 F4 F5. rewrite N1, N2 in F3. rewrite N3 in F4.
    split_and!; st_norm.
    + rewrite F1, Ec. apply delete_insert_id. eapply alloc_fresh; [by apply wf_clients|done].
    + rewrite F2. apply map_eq. intros q. rewrite !lookup_delete. repeat case_decide; subst.
      * symmetry. eapply alloc_fresh; [by apply wf_addrs|done].
      * symmetry. eapply alloc_fresh; [by apply wf_addrs|done].
      * by apply Ea.
    + by rewrite F3, Eb, !delete_id by (by rewrite ?delete_id).
    + by rewrite F4, Ee, delete_id.
    + rewrite Hh, En. apply map_eq. intros q. rewrite lookup_delete. case_decide.
      * subst. symmetry. eapply alloc_fresh; [by apply wf_nodes|unfold client_node; addr_lia].
      * unfold upd_prev, upd_next. by rewrite !lookup_alter_ne, lookup_insert_ne.
    + etrans; [exact F5|done].
Qed.

(** [getorigdst] answers an address and length of [Ans], or fails, which only
    a [may_fail] allows. *)
Definition origdst_spec (fd : Z) (Ans : sockaddr_storage → Z → Prop) (may_fail : Prop) : Prop :=
  ∀ s da old (Q : Z * Z → state → Prop), addrs s !! da = Some old →
    (∀ dst dlen cs, Ans dst dlen → Q (0, dlen) (set_addrs (<[da := Some dst]> (addrs s)) (did cs s))) →
    (∀ cs, may_fail → Q (-1, 0) (did cs s)) → wp (getorigdst fd da) Q s.

(** The new client meets what the attempt to connect needs. *)
Lemma wp_accepted_connect s s1 env e l cfd src slen dst dlen relay_a :
  wf s → accepted env l cfd src slen dst dlen s s1 → envs s !! env = Some e →
  addrs s !! relay_addr e = Some (Some relay_a) → is_Some (bases s !! eventBaseLoop e) →
  let c := accepted_client env (brk s) cfd slen dlen in
  wp (transocks_start_connect_relay (brk s)) (λ _ s', (∃ rfd ev, connecting (brk s) c e relay_a rfd ev s1 s') ∨
    (failed ∧ gone (brk s) c (clients_head env) l [] s1 s')) s1.
Proof.
  intros Hwf [A1 A2 A3 A4 A5 A6 A7 A8 _ _] He Hr Hba c. pose proof (wf_brk _ Hwf) as Hbrk.
  pose proof (wf_null_ok _ Hwf) as [Nc Na Nb Ne]. pose proof (wf_addrs _ Hwf _ (mk_is_Some _ _ Hr)) as Lr.
  subst c. unfold accepted_client in *. simpl in *.
  eapply wp_start_connect_relay; simpl; rewrite ?A1, ?A2, ?A3, ?A5, ?A6, ?A7; try done.
  - addr_lia.
  - split; rewrite ?A1, ?A2, ?A3, ?A5; try done; by rewrite !lookup_insert_ne by addr_lia.
  - split; simpl; rewrite ?A1, ?A2, ?A3, ?A5; [st_lookup|by left|by left|right; st_lookup|addr_lia|right; st_lookup|right; st_lookup|addr_lia].
  - st_lookup.
  - rewrite lookup_insert_ne by addr_lia. eapply alloc_fresh; [by apply wf_bevs|addr_lia].
Qed.

Ltac release_new s Hwf Hbrk :=
  eapply (wp_release_new _ s); [done|exact Hbrk|done|done|st_norm; rewrite !insert_insert_eq; reflexivity|..]; st_norm;
  try done; try addr_lia; try match goal with |- is_Some _ => st_lookup end; try (intros q Hq1 Hq2; by simplify_map_eq);
  try (rewrite ?insert_insert_eq, delete_insert_id; [done|]; eapply alloc_fresh; [by apply wf_bevs|addr_lia]).

(** The listener's callback up to the start of the connection to the relay;
    or a call failed, and no object is new. *)
Lemma wp_listener_cb s env e lfd lev bind_a l cfd errno src slen Ans may_fail (Q : unit → state → Prop) :
  wf s → envs s !! env = Some e → listeners s !! listener e = Some (TransocksListener (Some lfd) lev) →
  addrs s !! bind_addr e = Some (Some bind_a) →
  is_Some (bases s !! eventBaseLoop e) → dlist (nodes s) (clients_head env) l →
  ext (trace s) (c_accept lfd sizeof_sockaddr_storage) = (cfd, errno, src, slen) → 0 ≤ cfd → 0 < slen ≤ sizeof_sockaddr_storage →
  origdst_spec cfd Ans may_fail →
  printable bind_a (bind_addr_len e) → printable src slen → (∀ dst dlen, Ans dst dlen → printable dst dlen) →
  (∀ dst dlen s1, Ans dst dlen → accepted env l cfd src slen dst dlen s s1 →
     wp (transocks_start_connect_relay (brk s)) Q s1) →
  (∀ s1, may_fail ∨ failed → same_objects s s1 → Q tt s1) →
  wp (listener_cb env) Q s.
Proof.
  intros Hwf He Hl Hb [b Hba] Hd Eacc Hfd Hlen Ho Pb Ps Pd HQ HF. pose proof (wf_brk _ Hwf) as Hbrk.
  pose proof (wf_addrs _ Hwf _ (mk_is_Some _ _ Hb)) as Lb.
  assert (client_node (brk s) ∉ clients_head env :: l) as Hnew.
  { intros Hin. pose proof (wf_nodes _ Hwf _ (dlist_live _ _ _ _ Hd Hin)). unfold client_node in *. addr_lia. }
  assert (∀ cs s1, failed → same_objects s s1 → wp (TRANSOCKS_CLOSE cfd) Q (did cs s1)) as Hclose.
  { intros cs s1 Hf Hs. apply wp_close_fd; [done|]. apply HF; [by right|]. by rewrite did_did. }
  unfold listener_cb. st_steps. rewrite Eacc, (proj2 (Z.ltb_ge cfd 0)), (proj2 (Z.eqb_neq slen 0)) by lia.
  apply wp_bind, wp_setnonblocking_any; [done|]. intros r1 c1 H1. change (push (ICall ?x) s) with (did [x] s).
  rewrite did_did. destruct (Z.eqb_spec r1 0) as [->|E1]; cbn [negb]; [|by apply Hclose; auto].
  apply wp_bind, wp_keepalive_any; [done|]. intros r2 c2 H2. rewrite did_did. destruct (Z.eqb_spec r2 0) as [->|E2]; cbn [negb]; [|by apply Hclose; auto].
  apply wp_bind, wp_nodelay_any; [done|]. intros r3 c3 H3. rewrite did_did. destruct (Z.eqb_spec r3 0) as [->|E3]; cbn [negb]; [|by apply Hclose; auto].
  apply wp_bind, wp_client_new; [by destruct Hwf|apply sv_client|..].
  { intros s' tr Em Hs. change (wp (TRANSOCKS_CLOSE cfd) Q s'). rewrite <-(did_nil s').
    apply Hclose; [|done]. intros Hsu. by rewrite su_malloc in Em. }
  intros p ca da c4 _. subst p ca da. unfold new_client. st_norm. not_null. st_steps.
  apply (wp_generate_str sv_ntop); [done|]. intros bstr c5 _. rewrite (proj2 (Z.ltb_ge _ slen)) by lia. st_steps.
  apply (wp_generate_str sv_ntop); [done|]. intros sstr c6 _. st_steps.
  eapply Ho; [st_lookup|intros dst dlen c7 Hans|intros c7 Hfail]; cbn [Z.eqb negb].
  2: { apply wp_bind. release_new s Hwf Hbrk. intros s1 Hs1 _. apply HF; [|done]. by left. }
  st_steps. apply (wp_generate_str sv_ntop); [by apply Pd|]. intros dstr c8 _. st_steps.
  unfold bufferevent_socket_new, bufferevent_disable, bufferevent_setfd. st_steps.
  destruct (ext _ (c_bufferevent_socket_new _ _ _)) eqn:En; st_steps; not_null.
  2: { change (TRANSOCKS_FREE bufferevent_free NULL) with (mret (M:=M state) tt). st_steps.
       release_new s Hwf Hbrk. intros s1 Hs1 _. apply HF; [|done]. right. intros Hs. by rewrite su_bev_new in En. }
  st_steps. destruct (ext _ (c_bufferevent_disable _ _) =? 0) eqn:Edis; cbn [negb]; st_steps.
  2: { rewrite TRANSOCKS_FREE_live by addr_lia. unfold bufferevent_free, release. st_steps.
       release_new s Hwf Hbrk. intros s1 Hs1 _. apply HF; [|done]. right. intros Hs. by rewrite su_bev_disable in Edis. }
  destruct (ext _ (c_bufferevent_setfd _ _) =? 0) eqn:Eset; cbn [negb]; st_steps.
  2: { rewrite TRANSOCKS_FREE_live by addr_lia. unfold bufferevent_free, release. st_steps.
       release_new s Hwf Hbrk. intros s1 Hs1 _. apply HF; [|done]. right. intros Hs. by rewrite su_bev_setfd in Eset. }
  rewrite !insert_insert_eq.
  eapply wp_mono; [apply wp_list_add_tail; [| |exact Hnew]|].
  - eapply (dlist_same_outside (nodes s) _ [client_node (brk s)]); [set_solver| |done].
    apply same_upd_prev, same_upd_next, same_insert, same_refl; set_solver.
  - rewrite is_Some_upd_prev, is_Some_upd_next, lookup_insert_eq. eauto.
  - intros [] h [Hd' Hout]. apply (HQ _ _ _ Hans). split; st_norm; try done; simpl.
    + rewrite (insert_insert_ne (<[_ := None]> (addrs s))), insert_insert_eq, insert_insert_eq; [done|addr_lia].
    + intros q Hq. rewrite Hout by done. eapply same_upd_prev; [|eapply same_upd_next; [|eapply same_insert; [|apply same_refl]]|exact Hq]; set_solver.
Qed.
Lemma client_free_no_closes p c : client_fd c < 0 → relay_fd c < 0 → no_closes (client_free_calls p c).
Proof.
  intros H1 H2. unfold client_free_calls. rewrite (proj2 (Z.leb_gt 0 (client_fd c))), (proj2 (Z.leb_gt 0 (relay_fd c))) by done.
  unfold opt. rewrite !forallb_app. by repeat case_match.
Qed.

(** Every object is as before, and [fd] was closed by the last call and not
    before. *)
Definition closed_once (fd : Z) s s' : Prop :=
  same_objects s s' ∧ ∃ cs, trace s' = trace (did (cs ++ [c_close fd]) s) ∧ no_closes cs.

(** The original destination is not known to the kernel. *)
Lemma wp_getorigdst_fails s fd da (Q : Z * Z → state → Prop) :
  (∀ tr lv o n, (ext tr (c_getsockopt_addr fd lv o n)).1.1 ≠ 0) →
  (∀ cs, no_closes cs → Q (-1, 0) (did cs s)) → wp (getorigdst fd da) Q s.
Proof.
  intros Hno HQ. assert (∀ tr lv o n err a l, ext tr (c_getsockopt_addr fd lv o n) = (err, a, l) → err ≠ 0) as Hn.
  { intros tr lv o n err a l E. specialize (Hno tr lv o n). by rewrite E in Hno. }
  unfold getorigdst. st_steps. destruct (ext _ _) as [[err6 a6] l6] eqn:E6.
  rewrite (proj2 (Z.eqb_neq err6 0)) by (by eapply Hn). cbn [negb]. st_steps.
  destruct (ext (_ :: _) _) as [[err4 a4] l4] eqn:E4. rewrite (proj2 (Z.eqb_neq err4 0)) by (by eapply Hn). cbn [negb].
  st_steps. by apply (HQ [_; _]).
Qed.

Lemma listener_cb_no_origdst s env e lfd lev bind_a cfd errno src slen s1 :
  wf s → envs s !! env = Some e → listeners s !! listener e = Some (TransocksListener (Some lfd) lev) →
  addrs s !! bind_addr e = Some (Some bind_a) →
  let acc := c_accept lfd sizeof_sockaddr_storage in
  ext (trace s) acc = (cfd, errno, src, slen) → 0 ≤ cfd → 0 < slen ≤ sizeof_sockaddr_storage →
  socket_setup cfd (did [acc] s) = Ok true s1 →
  printable bind_a (bind_addr_len e) → printable src slen →
  (∀ tr n, ext tr (c_malloc n) = true) → (∀ tr f a n, is_Some (ext tr (c_inet_ntop f a n))) →
  (∀ tr lv o n, (ext tr (c_getsockopt_addr cfd lv o n)).1.1 ≠ 0) →
  wp (listener_cb env) (λ _ s', closed_once cfd s s') s.
Proof.
  intros Hwf He Hl Hb acc Eacc Hfd Hlen Hs Pb Ps Hm Hnt Hno. pose proof (wf_brk _ Hwf) as Hbrk.
  pose proof (wf_addrs _ Hwf _ (mk_is_Some _ _ Hb)) as Lb.
  destruct (socket_setup_options cfd (did [acc] s)) as (a & cs & E & Hcs).
  assert (no_closes cs) as Hn0 by (clear - Hcs; induction cs as [|[] cs IH]; simpl in *; try done; by apply IH).
  rewrite Hs in E. injection E as <- ->.
  unfold listener_cb. st_steps. fold acc. rewrite Eacc, (proj2 (Z.ltb_ge cfd 0)), (proj2 (Z.eqb_neq slen 0)) by lia.
  eapply wp_setup_ok; [exact Hs|]. intros _. rewrite did_did.
  apply wp_bind, wp_client_new; [by destruct Hwf|apply Hm|intros s' tr Em; by rewrite Hm in Em|].
  intros p ca da c4 Hn4. subst p ca da. unfold new_client. st_norm. not_null. st_steps.
  apply (wp_generate_str Hnt); [done|]. intros bstr c5 Hn5. rewrite (proj2 (Z.ltb_ge _ slen)) by lia. st_steps.
  apply (wp_generate_str Hnt); [done|]. intros sstr c6 Hn6. st_steps.
  apply wp_getorigdst_fails; [done|]. intros c7 Hn7. cbn [Z.eqb negb]. apply wp_bind.
  release_new s Hwf Hbrk. intros s1 Hs1 Ht. split; [done|].
  assert (no_closes (client_free_calls (brk s) (set_client_addr_len (Some slen) (new_client env
    (brk s + sizeof_transocks_client) (brk s + sizeof_transocks_client + sizeof_sockaddr_storage))))) as Hn8
    by (by apply client_free_no_closes).
  unfold new_client in Hn8. set (c8 := client_free_calls _ _) in *. clearbody c8.
  exists (([acc] ++ cs) ++ c4 ++ c5 ++ c6 ++ c7 ++ c8). split; [|by rewrite !forallb_app, Hn0, Hn4, Hn5, Hn6, Hn7, Hn8].
  rewrite Ht. unfold did. st_norm. by rewrite !fmap_app, !reverse_app, <-!(assoc_L (++)).
Qed.

End accepting.

Section refusals.
Context {EXT : Env}.
Implicit Types s : state.

End refusals.

Section accepting_succeeds.
Context {EXT : Env} `{!Succeeds EXT}.
Implicit Types s : state.

(** C9 An accepted connection ends in the list of clients with its handshake
    under way: the new client, last in the list, owns the accepted descriptor
    and both bufferevents, holds the peer's and the original destination's
    address, waits for the connection to the relay (which the last call asked
    for), and its timer is running; it meets all the handshake callbacks
    need. *)
Theorem listener_cb_starts_handshake s env e lfd lev bind_a relay_a l cfd errno src slen dst dlen :
  wf s → envs s !! env = Some e → listeners s !! listener e = Some (TransocksListener (Some lfd) lev) →
  addrs s !! bind_addr e = Some (Some bind_a) → addrs s !! relay_addr e = Some (Some relay_a) →
  is_Some (bases s !! eventBaseLoop e) → dlist (nodes s) (clients_head env) l →
  ext (trace s) (c_accept lfd sizeof_sockaddr_storage) = (cfd, errno, src, slen) → 0 ≤ cfd → 0 < slen ≤ sizeof_sockaddr_storage →
  origdst_answer cfd dst dlen →
  printable bind_a (bind_addr_len e) → printable src slen → printable dst dlen →
  ∃ s', listener_cb env s = Ok tt s' ∧ ∃ c,
    shaking s' (brk s) c (clients_head env) l [] ∧ timeable s' c ∧
    handshake_started env (brk s) cfd src slen dst dlen relay_a (relay_addr_len e) c s s'.
Proof.
  intros Hwf He Hl Hb Hr Hba Hd Ea Hfd Hlen Ho **. apply wp_tt.
  eapply (wp_listener_cb _ _ _ _ _ _ _ _ _ _ _ (λ a n, a = dst ∧ n = dlen) False); eauto; [|by intros ? ? [-> ->]| |by intros s1 [[]|[]]].
  { intros s0 da old Q Hda HQ _. eapply wp_getorigdst_ok; [done|done|]. intros cs. by apply HQ. }
  intros ? ? s1 [-> ->] Hac. eapply wp_mono; [by eapply wp_accepted_connect|].
  intros [] s' [(rfd & ev & Hcn)|[[] _]]; [by eapply accepted_connected|done].
Qed.
End accepting_succeeds.

(** ** Concrete listeners *)

(** The environment at 4096, listening on descriptor 9 with one event per
    signal, and no client. *)
Definition ex_env : transocks_global_env :=
  TransocksGlobalEnv 4700 4400 4600 16 16 4900 4300 4920 4910 4930 4940.

Definition ex_listening : state :=
  State 9000 ∅ {[4400 := Some ex_addr; 4600 := Some ex_addr]} ∅ ∅ {[4096 := ex_env]}
    {[4300 := TransocksListener (Some 9) (Some 4950)]} {[4700 := PUMPMETHOD_BUFFER]} ∅ {[4900 := tt]}
    {[4176 := ListHead 4176 4176]} ∅
    {[4910 := signal_event SIGINT fn_terminate_signal_cb 4096;
      4920 := signal_event SIGTERM fn_terminate_signal_cb 4096;
      4930 := signal_event SIGHUP fn_dump_client_info_signal_cb 4096;
      4940 := signal_event SIGUSR1 fn_drop_all_clients_signal_cb 4096;
      4950 := Event 9 (Z.lor EV_READ EV_PERSIST) fn_listener_cb 4096 true]}
    (Some transocks_bufferpump_ops_ref) [].

Lemma wf_ex_listening : wf ex_listening.
Proof. split; [done|..]; simpl; concrete_below. Qed.

Lemma ex_listening_ok : env_ok ex_listening 4096 ex_env 9 4950.
Proof.
  split; try first [reflexivity | concrete_handle | discriminate].
  - split; [apply wf_null_ok, wf_ex_listening|done].
  - right. split; [reflexivity|concrete_handle].
  - unfold signal_evs. rewrite !Forall_cons. split_and!; try apply Forall_nil_2; concrete_handle.
  - repeat constructor; discriminate.
Qed.

Lemma global_env_free_releases_witness :
  ∃ s', transocks_global_env_free (EXT:=quiet) 4096 ex_listening = Ok tt s' ∧
    trace s' = trace (did (env_free_calls 4096 ex_env 9 4950) ex_listening) ∧
    envs s' = delete 4096 (envs ex_listening) ∧ strs s' = delete 4700 (strs ex_listening) ∧
    addrs s' = delete 4400 (delete 4600 (addrs ex_listening)) ∧
    listeners s' = delete 4300 (listeners ex_listening) ∧
    evs s' = foldl (flip delete) (delete 4950 (evs ex_listening)) (signal_evs ex_env) ∧
    bases s' = delete 4900 (bases ex_listening) ∧
    nodes s' = delete (clients_head 4096) (nodes ex_listening) ∧
    clients s' = clients ex_listening ∧ bevs s' = bevs ex_listening ∧ pump_heaps s' = pump_heaps ex_listening.
Proof. apply (global_env_free_releases (EXT:=quiet) ex_listening 4096 ex_env 9 4950). apply ex_listening_ok. Defined.

Lemma signal_init_connects_witness :
  ∃ s', signal_init (EXT:=quiet) 4096 ex_state = Ok 0 s' ∧
    let a := 9000 in
    envs s' = <[4096 := set_sigusr1_ev (a + 3) (set_sighup_ev (a + 2) (set_sigint_ev (a + 1) (set_sigterm_ev a
                  (TransocksGlobalEnv NULL 4200 4200 16 16 4900 NULL NULL NULL NULL NULL))))]> (envs ex_state) ∧
    evs s' !! a = Some (signal_event SIGTERM fn_terminate_signal_cb 4096) ∧
    evs s' !! (a + 1) = Some (signal_event SIGINT fn_terminate_signal_cb 4096) ∧
    evs s' !! (a + 2) = Some (signal_event SIGHUP fn_dump_client_info_signal_cb 4096) ∧
    evs s' !! (a + 3) = Some (signal_event SIGUSR1 fn_drop_all_clients_signal_cb 4096) ∧
    (∀ q, q < a → evs s' !! q = evs ex_state !! q).
Proof.
  apply (signal_init_connects (EXT:=quiet)); [done|done|apply wf_ex_state|reflexivity|exists tt; reflexivity].
Defined.

#[local] Instance quiet_succeeds : Succeeds quiet.
Proof. by split. Qed.

Lemma listener_cb_starts_handshake_witness :
  let src := [2; 0; 19; 136; 10; 0; 0; 2] ++ replicate 120 0 in
  ∃ s', listener_cb (EXT:=quiet) 4096 ex_listening = Ok tt s' ∧ ∃ c,
    shaking s' 9000 c 4176 [] [] ∧ timeable s' c ∧
    handshake_started 4096 9000 8 src 16 ex_addr 16 ex_addr 16 c ex_listening s'.
Proof.
  intros src.
  apply (listener_cb_starts_handshake (EXT:=quiet) ex_listening 4096 ex_env 9 (Some 4950) ex_addr ex_addr [] 8 0 src
           16 ex_addr 16); try done.
  - apply wf_ex_listening.
  - concrete_dlist.
  - exists 0, ex_addr, 16, 0, ex_addr, 16. split_and!; [done|done|by left].
  - by left.
  - by left.
  - by left.
Defined.

(** A world without NAT: no original destination is known. *)
Definition no_origdst : Env := λ _ c,
  match c with c_getsockopt_addr _ _ _ _ => (-1, [], 0) | c => quiet_reply c end.

(** A world in which no socket option can be set. *)
Definition no_options : Env := λ _ c, match c with c_setsockopt _ _ _ _ => -1 | c => quiet_reply c end.


(** ** Failures of the code *)

(** A world in which no bufferevent can be created. *)
Definition no_bev : Env := λ _ c,
  match c with c_bufferevent_socket_new _ _ _ => false | c => quiet_reply c end.

(** When the bufferevent of an accepted connection cannot be created, the
    cleanup closes the accepted descriptor twice: the release of the client
    closes it, and the last label closes it again. *)
Theorem listener_cb_closes_twice :
  close_count 8 ∘ trace <$> final (listener_cb (EXT:=no_bev) 4096 ex_listening) = Some 2%nat.
Proof. vm_compute. reflexivity. Qed.

(** A world in which no event can be created. *)
Definition no_event : Env := λ _ c,
  match c with c_event_new _ _ _ _ _ => false | c => quiet_reply c end.

(** When the listener's event cannot be created, [listener_init] closes the
    listening socket twice: in [listener_deinit] and at its last label. *)
Theorem listener_init_closes_twice :
  close_count 7 ∘ trace <$> final (listener_init (EXT:=no_event) 4096 ex_listening) = Some 2%nat.
Proof. vm_compute. reflexivity. Qed.
