(* ===== verification/Alloc.v ===== *)
(** * mem-allocator.h: which allocator the program is built with

    The macros that the rest of the program allocates and frees with, for the
    two builds, and which function of which library each call of the model
    reaches.  A block must be freed by the allocator it comes from; the pump's
    name is the one block for which this depends on the build. *)

From S2P Require Import Prelude DList ListSpec Structs World Util Context BufferPump SplicePump Pump Socks5 Listener.
Local Open Scope Z_scope.
Local Open Scope string_scope.

(** ** The header *)

Inductive allocator := alloc_system | alloc_mimalloc.

#[global] Instance allocator_eq_dec : EqDecision allocator.
Proof. solve_decision. Defined.

(** The branches of the header, by the two macros the build may define; without
    either of them it is an error. *)
Definition mem_allocator (use_system use_mimalloc : bool) : option allocator :=
  if use_system then Some alloc_system
  else if use_mimalloc then Some alloc_mimalloc
  else None.

Definition TR_USED_MEM_ALLOCATOR (a : allocator) : string :=
  match a with alloc_system => "system" | alloc_mimalloc => "mimalloc" end.

Inductive tr_macro := m_malloc | m_calloc | m_realloc | m_expand | m_free | m_strdup | m_strndup | m_realpath.

#[global] Instance tr_macro_eq_dec : EqDecision tr_macro.
Proof. solve_decision. Defined.

(** The function that a macro is. *)
Definition tr_expansion (a : allocator) (m : tr_macro) : string :=
  match a, m with
  | alloc_system, m_malloc => "malloc"
  | alloc_system, m_calloc => "calloc"
  | alloc_system, m_realloc => "realloc"
  | alloc_system, m_expand => "expand"
  | alloc_system, m_free => "free"
  | alloc_system, m_strdup => "strdup"
  | alloc_system, m_strndup => "strndup"
  | alloc_system, m_realpath => "realpath"
  | alloc_mimalloc, m_malloc => "mi_malloc"
  | alloc_mimalloc, m_calloc => "mi_calloc"
  | alloc_mimalloc, m_realloc => "mi_realloc"
  | alloc_mimalloc, m_expand => "mi_expand"
  | alloc_mimalloc, m_free => "mi_free"
  | alloc_mimalloc, m_strdup => "mi_strdup"
  | alloc_mimalloc, m_strndup => "mi_strndup"
  | alloc_mimalloc, m_realpath => "mi_realpath"
  end.

(** ** The functions of the two libraries *)

(** The documented functions that hand out or take back memory. *)
Definition libc_memory : list string := ["malloc"; "calloc"; "realloc"; "free"; "strdup"; "strndup"; "realpath"].
Definition mimalloc_memory : list string :=
  ["mi_malloc"; "mi_calloc"; "mi_realloc"; "mi_expand"; "mi_free"; "mi_strdup"; "mi_strndup"; "mi_realpath"].

(** Whose memory a function deals with, by the manuals of the two libraries. *)
Class MemoryLaws (memory_of : string → option allocator) : Prop := {
  ml_libc f : f ∈ libc_memory → memory_of f = Some alloc_system;
  ml_mimalloc f : f ∈ mimalloc_memory → memory_of f = Some alloc_mimalloc
}.

Definition documented_memory (f : string) : option allocator :=
  if decide (f ∈ libc_memory) then Some alloc_system
  else if decide (f ∈ mimalloc_memory) then Some alloc_mimalloc
  else None.

#[export] Instance documented_laws : MemoryLaws documented_memory.
Proof.
  split; intros f; unfold libc_memory, mimalloc_memory; rewrite !elem_of_cons; intros Hf;
    repeat destruct Hf as [->|Hf]; try (vm_compute; reflexivity); by apply elem_of_nil in Hf.
Qed.

(** The function behind a call of the model.  Structs go through the macros,
    the pump's name through [strdup] itself (transocks.c). *)
Definition memory_function (a : allocator) (c : call) : option string :=
  match c with
  | c_malloc _ => Some (tr_expansion a m_malloc)
  | c_calloc _ _ => Some (tr_expansion a m_calloc)
  | c_free _ => Some (tr_expansion a m_free)
  | c_strdup _ => Some "strdup"
  | _ => None
  end.

Section memory.
Context {memory_of : string → option allocator} `{!MemoryLaws memory_of}.

Definition memory_by (a : allocator) (c : call) : option allocator := memory_function a c ≫= memory_of.

(** Each macro stays within the allocator of the build; [expand], which the
    system's build names, is not a function of its library. *)
Lemma tr_macros_consistent a m :
  (a = alloc_system → m ≠ m_expand) → memory_of (tr_expansion a m) = Some a.
Proof. destruct a, m; intros H; first [by destruct H | apply ml_libc; set_solver | apply ml_mimalloc; set_solver]. Qed.

(** A struct is given back to the allocator it came from, in both builds. *)
Lemma structs_consistent a n m p :
  memory_by a (c_malloc n) = Some a ∧ memory_by a (c_calloc m n) = Some a ∧ memory_by a (c_free p) = Some a.
Proof. split_and!; by apply tr_macros_consistent. Qed.

Lemma name_consistent a name p : memory_by a (c_free p) = memory_by a (c_strdup name) ↔ a = alloc_system.
Proof.
  destruct (structs_consistent a 0 0 p) as (_ & _ & ->). change (memory_by a (c_strdup name)) with (memory_of "strdup").
  rewrite ml_libc by set_solver. split; [by intros [= ->]|by intros ->].
Qed.

(** ** The pump's name *)

Context {EXT : Env}.

(** The release of the environment hands the pump's name, which comes from
    [strdup], to the function behind [tr_free]: the allocator it came from
    exactly when the program is built with the system's. *)
Theorem name_goes_to_tr_free s env e fd ev name :
  env_ok s env e fd ev → pump_method_name e ≠ NULL →
  ∃ s' cs, transocks_global_env_free env s = Ok tt s' ∧ trace s' = trace (did cs s) ∧
    c_free (pump_method_name e) ∈ cs ∧
    ∀ a, memory_by a (c_free (pump_method_name e)) = memory_by a (c_strdup name) ↔ a = alloc_system.
Proof.
  intros Hok Hn%Z.eqb_neq. pose proof (wp_global_env_free s env e fd ev Hok) as ([] & s' & E & Htr & _)%wp_run.
  exists s', (env_free_calls env e fd ev). split_and!; [done|done| |intros a; apply name_consistent].
  unfold env_free_calls. rewrite Hn. simpl. by left.
Qed.
End memory.

(** In a concrete state: the name at 4700. *)
Lemma name_goes_to_tr_free_run :
  ∃ s' cs, transocks_global_env_free (EXT:=quiet) 4096 ex_listening = Ok tt s' ∧ trace s' = trace (did cs ex_listening) ∧
    c_free 4700 ∈ cs ∧ ∀ a, memory_by (memory_of:=documented_memory) a (c_free 4700) =
                            memory_by (memory_of:=documented_memory) a (c_strdup PUMPMETHOD_BUFFER) ↔ a = alloc_system.
Proof.
  apply (name_goes_to_tr_free (EXT:=quiet) ex_listening 4096 ex_env 9 4950); [apply ex_listening_ok|discriminate].
Qed.
