(* ===== verification/Main.v ===== *)
(** * transocks.c: the program

    The dispatch of libevent's callbacks to the program's functions, the run
    of the event loop, and [main]. *)

From S2P Require Import Prelude DList ListSpec Structs World Util Context BufferPump SplicePump Pump Socks5 Listener.
Local Open Scope Z_scope.

Definition GETOPT_VAL_LISTENERADDRPORT : Z := 0.
Definition GETOPT_VAL_SOCKS5ADDRPORT : Z := 1.
Definition GETOPT_VAL_PUMPMETHOD : Z := 2.
Definition GETOPT_VAL_HELP : Z := 3.
Definition EXIT_FAILURE : Z := 1.

Section main.
Context {EXT : Env}.

(** ** Callbacks *)

Definition run_event_fn (f : fn) (arg : Z) : C unit :=
  match f with
  | fn_listener_cb => listener_cb arg
  | fn_terminate_signal_cb => terminate_signal_cb arg
  | fn_dump_client_info_signal_cb => dump_client_info_signal_cb arg
  | fn_drop_all_clients_signal_cb => drop_all_clients_signal_cb arg
  | fn_socks5_timeout_cb => socks5_timeout_cb arg
  | fn_splicepump_client_readcb => transocks_splicepump_client_readcb arg
  | fn_splicepump_client_writecb => transocks_splicepump_client_writecb arg
  | fn_splicepump_relay_readcb => transocks_splicepump_relay_readcb arg
  | fn_splicepump_relay_writecb => transocks_splicepump_relay_writecb arg
  | _ => fault
  end.

Definition run_data_fn (f : fn) (bev arg : Z) : C unit :=
  match f with
  | fn_socks_on_server_selected_method_readcb => socks_on_server_selected_method_readcb bev arg
  | fn_socks_on_server_connect_reply_readcb => socks_on_server_connect_reply_readcb arg
  | fn_transocks_client_readcb => transocks_client_readcb arg
  | fn_transocks_client_writecb => transocks_client_writecb arg
  | fn_transocks_relay_readcb => transocks_relay_readcb arg
  | fn_transocks_relay_writecb => transocks_relay_writecb arg
  | _ => fault
  end.

Definition run_bevent_fn (f : fn) (what errno arg : Z) : C unit :=
  match f with
  | fn_relay_onconnect_eventcb => relay_onconnect_eventcb what arg
  | fn_socks_handshake_stage_errcb => socks_handshake_stage_errcb what arg
  | fn_transocks_client_eventcb => transocks_client_eventcb what errno arg
  | fn_transocks_relay_eventcb => transocks_relay_eventcb what errno arg
  | _ => fault
  end.

(** libevent delivers an event: the registered callback runs with the
    registered argument; a bufferevent callback that is NULL is not called. *)
Definition run_callback (e : loop_event) : C unit :=
  puts (push (IEvent e)) ;;
  match e with
  | le_event ev _ =>
      r ← load (T:=event) ev;
      run_event_fn (ev_cb r) (ev_arg r)
  | le_bev_read bev =>
      b ← load (T:=bufferevent) bev;
      match bev_readcb b with Some f => run_data_fn f bev (bev_cbarg b) | None => mret tt end
  | le_bev_write bev =>
      b ← load (T:=bufferevent) bev;
      match bev_writecb b with Some f => run_data_fn f bev (bev_cbarg b) | None => mret tt end
  | le_bev_event bev what errno =>
      b ← load (T:=bufferevent) bev;
      match bev_eventcb b with Some f => run_bevent_fn f what errno (bev_cbarg b) | None => mret tt end
  end.

(** [event_base_dispatch]: libevent delivers the events of [sched], one after
    the other, and returns. *)
Fixpoint run_callbacks (sched : list loop_event) : C unit :=
  match sched with
  | [] => mret tt
  | e :: sched => run_callback e ;; run_callbacks sched
  end.

Definition event_base_dispatch (base : Z) (sched : list loop_event) : C Z :=
  _ ← load (T:=unit) base;
  r ← sys (c_event_base_dispatch base);
  run_callbacks sched ;;
  mret r.

(** ** main *)

Definition print_help : C unit :=
  print_line ("transocks-wong help:" +:+ LF) ;;
  print_line (TAB +:+ " WARNING: data must be NATed to our listener endpoint" +:+ LF) ;;
  print_line (TAB +:+ " --listener-addr-port   what address and port we are listening" +:+ LF) ;;
  print_line (TAB +:+ " --socks5-addr-port     the SOCKS5 server address and port" +:+ LF) ;;
  print_line (TAB +:+ " --pump-method          " +:+ PUMPMETHOD_BUFFER +:+ "/" +:+ PUMPMETHOD_SPLICE +:+ LF) ;;
  print_line (TAB +:+ " --help                 this message" +:+ LF) ;;
  print_line (TAB +:+ " Address and port must in this format:" +:+ LF) ;;
  print_line (TAB +:+ TAB +:+ " - [IPv6Address]:Port" +:+ LF) ;;
  print_line (TAB +:+ TAB +:+ " - IPv4Address:Port" +:+ LF).

(** The three option variables; [None] is NULL. *)
Record options := Options {
  listenerAddrPort : option string;
  socks5AddrPort : option string;
  pumpMethod : option string
}.

(** The [getopt_long] loop; [None] when it ends in [PRINTHELP_EXIT]. *)
Fixpoint getopt_loop (fuel : nat) (o : options) : C (option options) :=
  match fuel with
  | O => λ _, NoFuel
  | S fuel =>
      r ← sys c_getopt_long;
      let '(opt, optarg) := r in
      if opt =? -1 then mret (Some o)
      else if opt =? GETOPT_VAL_LISTENERADDRPORT then
        getopt_loop fuel (Options optarg (socks5AddrPort o) (pumpMethod o))
      else if opt =? GETOPT_VAL_SOCKS5ADDRPORT then
        getopt_loop fuel (Options (listenerAddrPort o) optarg (pumpMethod o))
      else if opt =? GETOPT_VAL_PUMPMETHOD then
        getopt_loop fuel (Options (listenerAddrPort o) (socks5AddrPort o) optarg)
      else mret None
  end.

Definition PRINTHELP_EXIT : C Z := print_help ;; mret EXIT_FAILURE.

(** The part of [main] from the label [shutdown] on. *)
Definition main_shutdown (globalEnv : Z) : C Z :=
  transocks_drop_all_clients globalEnv ;;
  base ← fld globalEnv eventBaseLoop;
  _ ← load (T:=unit) base;
  ge ← sys (c_event_base_got_exit base);
  (if (ge : bool) then mret tt else sys (c_event_base_got_break base) ;; mret tt) ;;
  TRANSOCKS_FREE transocks_global_env_free globalEnv ;;
  mret 0.

(** From the creation of the environment to the start of the event loop, with
    the parsed addresses: the environment, NULL when it could not be created,
    and whether the program got as far as the event loop. *)
Definition main_start (listener_ss socks5_ss : sockaddr_storage) (listener_ss_size socks5_ss_size : Z)
    (pump : string) : C (Z * bool) :=
  globalEnv ← transocks_global_env_new;
  if globalEnv =? NULL then mret (NULL, false) else
  let shutdown : C (Z * bool) := mret (globalEnv, false) in
  r ← signal_init globalEnv;
  if negb (r =? 0) then shutdown else
  ba ← fld globalEnv bind_addr;
  modify ba (λ _ : option sockaddr_storage, Some listener_ss) ;;
  modify globalEnv (set_bind_addr_len listener_ss_size) ;;
  ra ← fld globalEnv relay_addr;
  modify ra (λ _ : option sockaddr_storage, Some socks5_ss) ;;
  modify globalEnv (set_relay_addr_len socks5_ss_size) ;;
  r ← listener_init globalEnv;
  if negb (r =? 0) then shutdown else
  name ← strdup pump;
  modify globalEnv (set_pump_method_name name) ;;
  if name =? NULL then shutdown else
  r ← transocks_pump_init globalEnv;
  if negb (r =? 0) then shutdown else
  mret (globalEnv, true).

(** From the creation of the environment on. *)
Definition main_run (sched : list loop_event) (listener_ss socks5_ss : sockaddr_storage)
    (listener_ss_size socks5_ss_size : Z) (pump : string) : C Z :=
  st ← main_start listener_ss socks5_ss listener_ss_size socks5_ss_size pump;
  let '(globalEnv, started) := st in
  if globalEnv =? NULL then mret 0 else
  (if (started : bool) then
     base ← fld globalEnv eventBaseLoop;
     event_base_dispatch base sched ;;
     mret tt
   else mret tt) ;;
  main_shutdown globalEnv.

(** [argc] bounds the number of options; [sched] is what the event loop delivers. *)
Definition main (argc : nat) (sched : list loop_event) : C Z :=
  r ← getopt_loop (S argc) (Options None None None);
  match r with
  | None => PRINTHELP_EXIT
  | Some o =>
      match listenerAddrPort o, socks5AddrPort o with
      | Some listenerAP, Some socks5AP =>
          let pump := default PUMPMETHOD_BUFFER (pumpMethod o) in
          sys (c_signal_ignore 13) ;;
          p ← transocks_parse_sockaddr_port listenerAP;
          let '(e, (listener_ss, listener_ss_size)) := p in
          if negb (e =? 0) then PRINTHELP_EXIT else
          p ← transocks_parse_sockaddr_port socks5AP;
          let '(e, (socks5_ss, socks5_ss_size)) := p in
          if negb (e =? 0) then PRINTHELP_EXIT else
          if negb (validateAddrPort listener_ss) then PRINTHELP_EXIT else
          if negb (validateAddrPort socks5_ss) then PRINTHELP_EXIT else
          main_run sched listener_ss socks5_ss listener_ss_size socks5_ss_size pump
      | _, _ => PRINTHELP_EXIT
      end
  end.
End main.

(** ** The command line *)

(** The options after [getopt_long] replied [rs]. *)
Definition set_option (o : options) (r : Z * option string) : options :=
  let '(opt, optarg) := r in
  if opt =? GETOPT_VAL_LISTENERADDRPORT then Options optarg (socks5AddrPort o) (pumpMethod o)
  else if opt =? GETOPT_VAL_SOCKS5ADDRPORT then Options (listenerAddrPort o) optarg (pumpMethod o)
  else Options (listenerAddrPort o) (socks5AddrPort o) optarg.

Definition options_of (rs : list (Z * option string)) : options := foldl set_option (Options None None None) rs.

(** The replies for the three options that take a value. *)
Definition known_option (r : Z * option string) : Prop :=
  r.1 = GETOPT_VAL_LISTENERADDRPORT ∨ r.1 = GETOPT_VAL_SOCKS5ADDRPORT ∨ r.1 = GETOPT_VAL_PUMPMETHOD.

Definition help_lines : list call :=
  c_printf <$> [
    "transocks-wong help:" +:+ LF;
    TAB +:+ " WARNING: data must be NATed to our listener endpoint" +:+ LF;
    TAB +:+ " --listener-addr-port   what address and port we are listening" +:+ LF;
    TAB +:+ " --socks5-addr-port     the SOCKS5 server address and port" +:+ LF;
    TAB +:+ " --pump-method          bufferpump/splicepump" +:+ LF;
    TAB +:+ " --help                 this message" +:+ LF;
    TAB +:+ " Address and port must in this format:" +:+ LF;
    TAB +:+ TAB +:+ " - [IPv6Address]:Port" +:+ LF;
    TAB +:+ TAB +:+ " - IPv4Address:Port" +:+ LF ].

Section command_line.
Context {EXT : Env}.
Implicit Types s : state.

(** [getopt_long] replies [rs], then [last], to the calls from [s] on. *)
Definition replies s (rs : list (Z * option string)) (last : Z * option string) : Prop :=
  (∀ i r, rs !! i = Some r → ext (trace (did (replicate i c_getopt_long) s)) c_getopt_long = r) ∧
  ext (trace (did (replicate (length rs) c_getopt_long) s)) c_getopt_long = last.

Lemma replies_cons s r rs last :
  replies s (r :: rs) last → ext (trace s) c_getopt_long = r ∧ replies (push (ICall c_getopt_long) s) rs last.
Proof.
  intros [H1 H2]. split; [by apply (H1 0%nat)|].
  change (push (ICall c_getopt_long) s) with (did [c_getopt_long] s). split.
  - intros i x Hx. rewrite did_did. by apply (H1 (S i)).
  - by rewrite did_did.
Qed.

(** The loop over the options terminates within its fuel: [argc] options at
    most, and one more call. *)
Lemma wp_getopt_loop fuel rs last o s (Q : option options → state → Prop) :
  replies s rs last → Forall known_option rs → ¬ known_option last → (length rs < fuel)%nat →
  Q (if last.1 =? -1 then Some (foldl set_option o rs) else None)
    (did (replicate (S (length rs)) c_getopt_long) s) →
  wp (getopt_loop fuel o) Q s.
Proof.
  revert rs o s. induction fuel as [|fuel IH]; intros rs o s Hr Hk Hl Hf HQ; [lia|].
  cbn [getopt_loop]. st_steps. destruct rs as [|r rs].
  - destruct Hr as [_ Hr]. simpl in Hr, HQ. rewrite Hr. destruct last as [opt optarg]. simpl in *.
    unfold known_option in Hl. simpl in Hl. repeat (z_case; try done; try (exfalso; tauto)). 
  - apply replies_cons in Hr as [Hr Hrs]. rewrite Hr. apply Forall_cons in Hk as [Hk Hks].
    destruct r as [opt optarg]. unfold known_option in Hk. simpl in Hk.
    assert (∀ n, did (replicate (S n) c_getopt_long) s = did (replicate n c_getopt_long) (push (ICall c_getopt_long) s)) as E.
    { intros n. change (push (ICall c_getopt_long) s) with (did [c_getopt_long] s). by rewrite did_did. }
    cbn [length] in HQ, Hf. rewrite E in HQ.
    destruct Hk as [->|[->| ->]]; (eapply IH; [done|done|done|lia|exact HQ]).
Qed.

Lemma wp_print_line l s (Q : unit → state → Prop) : Q tt (did [c_printf l] s) → wp (print_line l) Q s.
Proof. intros HQ. apply wp_sys. by destruct (ext _ _). Qed.

Lemma wp_PRINTHELP_EXIT s (Q : Z → state → Prop) : Q EXIT_FAILURE (did help_lines s) → wp PRINTHELP_EXIT Q s.
Proof.
  intros HQ. unfold PRINTHELP_EXIT, print_help. apply wp_bind.
  do 8 apply wp_bind, wp_print_line. apply wp_print_line, wp_ret. rewrite !did_did. exact HQ.
Qed.

(** C31 Let [getopt_long] do as documented: it reports the options of the
    command line one per call, at most [argc] of them, and then -1.  [rs] are
    the reports of the three options with a value before the first other
    report [last], which is -1, or [--help] or an unknown option.  Then for
    every such command line the option loop ends after one call more than
    there are options in [rs]; it returns the variables with the last value
    given to each when [last] is -1 and leaves for the help otherwise.  An
    unusable command line ([last] is not -1, or an address is missing) ends
    the program before it does anything else: it prints the nine lines of help
    and returns [EXIT_FAILURE]. *)
Theorem main_usage argc sched rs last s :
  replies s rs last → Forall known_option rs → ¬ known_option last → (length rs ≤ argc)%nat →
  getopt_loop (S argc) (Options None None None) s
    = Ok (if last.1 =? -1 then Some (options_of rs) else None) (did (replicate (S (length rs)) c_getopt_long) s) ∧
  (last.1 ≠ -1 ∨ listenerAddrPort (options_of rs) = None ∨ socks5AddrPort (options_of rs) = None →
   main argc sched s = Ok EXIT_FAILURE (did (replicate (S (length rs)) c_getopt_long ++ help_lines) s)).
Proof.
  intros Hr Hk Hl Hn.
  assert (getopt_loop (S argc) (Options None None None) s
    = Ok (if last.1 =? -1 then Some (options_of rs) else None) (did (replicate (S (length rs)) c_getopt_long) s)) as Ho.
  { apply wp_val_eq. eapply wp_getopt_loop; [done|done|done|lia|done]. }
  split; [done|]. intros Hbad. apply wp_val_eq. unfold main. apply wp_bind. eapply wp_Ok_run; [exact Ho|].
  destruct (Z.eqb_spec last.1 (-1)) as [E|E].
  - destruct (listenerAddrPort (options_of rs)), (socks5AddrPort (options_of rs)); try (naive_solver);
      apply wp_PRINTHELP_EXIT; by rewrite did_did.
  - apply wp_PRINTHELP_EXIT. by rewrite did_did.
Qed.

(** Calls that parse the command line, print help or set SIGPIPE aside. *)
Definition is_startup_call (c : call) : bool :=
  match c with
  | c_getopt_long | c_printf _ | c_signal_ignore _ | c_evutil_parse_sockaddr_port _ _ => true
  | _ => false
  end.

Lemma parse_calls str s :
  ∃ e ss len cs, transocks_parse_sockaddr_port str s = Ok (e, (ss, len)) (did cs s) ∧ forallb is_startup_call cs = true.
Proof.
  cut (wp (transocks_parse_sockaddr_port str)
         (λ r t, ∃ cs, t = did cs s ∧ forallb is_startup_call cs = true) s).
  { intros ([e [ss len]] & t & E & cs & -> & Hcs)%wp_run. eauto 10. }
  assert (∀ cs, forallb is_startup_call cs = true → ∃ ds, did cs s = did ds s ∧ forallb is_startup_call ds = true) as HQ
    by eauto.
  unfold transocks_parse_sockaddr_port. st_steps.
  destruct (ext _ _) as [[err sa] len]. destruct (err =? 0); simpl; st_steps; [by apply (HQ [_])|].
  destruct (ext (_ :: _) _) as [[err4 sa4] len4]. destruct (err4 =? 0); simpl; st_steps; by apply (HQ [_; _]).
Qed.

(** C30 The program starts only with two usable addresses: given both options,
    [main] either returns [EXIT_FAILURE] after parsing and printing, or runs
    with a listener and a relay address that [validateAddrPort] accepts and
    with the chosen pump, the buffer pump by default. *)
Theorem main_validates argc sched rs last lap sap s :
  replies s rs last → Forall known_option rs → last.1 = -1 → (length rs ≤ argc)%nat →
  listenerAddrPort (options_of rs) = Some lap → socks5AddrPort (options_of rs) = Some sap →
  ∃ cs, forallb is_startup_call cs = true ∧
    (main argc sched s = Ok EXIT_FAILURE (did cs s) ∨
     ∃ lss llen sss slen, validateAddrPort lss = true ∧ validateAddrPort sss = true ∧
       main argc sched s =
         main_run sched lss sss llen slen (default PUMPMETHOD_BUFFER (pumpMethod (options_of rs))) (did cs s)).
Proof.
  intros Hr Hk Hl Hn Hla Hsa.
  assert (getopt_loop (S argc) (Options None None None) s
          = Ok (Some (options_of rs)) (did (replicate (S (length rs)) c_getopt_long) s)) as Hopt.
  { apply wp_val_eq. eapply wp_getopt_loop; [done|done| |lia|by rewrite Hl].
    unfold known_option. rewrite Hl. intros [?|[?|?]]; done. }
  set (s0 := did (replicate (S (length rs)) c_getopt_long) s) in *.
  set (s1 := did [c_signal_ignore 13] s0).
  destruct (parse_calls lap s1) as (e1 & lss & llen & c1 & E1 & H1).
  destruct (parse_calls sap (did c1 s1)) as (e2 & sss & slen & c2 & E2 & H2).
  assert (∀ n, forallb is_startup_call (replicate n c_getopt_long) = true) as H0 by (by induction n).
  assert (∀ cs (P : list call → Prop), forallb is_startup_call cs = true →
    ∃ ds, forallb is_startup_call ds = true ∧ (PRINTHELP_EXIT (did cs s) = Ok EXIT_FAILURE (did ds s) ∨ P ds)) as Hhelp.
  { intros cs P Hcs. exists (cs ++ help_lines). rewrite forallb_app, Hcs. split; [done|left].
    apply wp_val_eq, wp_PRINTHELP_EXIT. by rewrite did_did. }
  unfold main. rewrite (bind_Ok _ _ _ _ _ Hopt), Hla, Hsa.
  rewrite (bind_Ok (sys _) _ (ext (trace s0) (c_signal_ignore 13)) _ s1), (bind_Ok _ _ _ _ _ E1) by done.
  set (cs1 := replicate (S (length rs)) c_getopt_long ++ [c_signal_ignore 13] ++ c1).
  assert (forallb is_startup_call cs1 = true) as H3 by (unfold cs1; by rewrite !forallb_app, H0, H1).
  assert (did c1 s1 = did cs1 s) as Ec1 by (unfold s1, s0, cs1; by rewrite !did_did, (assoc_L (++))).
  rewrite Ec1 in *.
  destruct (e1 =? 0); cbn [negb]; [|by apply Hhelp].
  rewrite (bind_Ok _ _ _ _ _ E2), did_did.
  assert (forallb is_startup_call (cs1 ++ c2) = true) as H4 by (by rewrite forallb_app, H3, H2).
  destruct (e2 =? 0); cbn [negb]; [|by apply Hhelp].
  destruct (validateAddrPort lss) eqn:V1; cbn [negb]; [|by apply Hhelp].
  destruct (validateAddrPort sss) eqn:V2; cbn [negb]; [|by apply Hhelp].
  exists (cs1 ++ c2). split; [done|]. right. by exists lss, llen, sss, slen.
Qed.
End command_line.

(** ** A session

    A world in which the program is started with both addresses, everything
    succeeds, and the buffers hold what the two peers send. *)

Definition is_getopt (i : item) : bool := match i with ICall c_getopt_long => true | _ => false end.

Definition ex_options : list (Z * option string) :=
  [(GETOPT_VAL_LISTENERADDRPORT, Some "10.0.0.1:8080"); (GETOPT_VAL_SOCKS5ADDRPORT, Some "10.0.0.1:8080")].

(** What the peers send: before its [n]-th read callback the bufferevent [b]
    receives the [n]-th block of [recv b]. *)
Definition is_read (b : Z) (i : item) : bool := match i with IEvent (le_bev_read b') => b' =? b | _ => false end.

Fixpoint session_buf (recv : Z → list (list Z)) (tr : list item) (q : evbuffer) : list Z :=
  match tr with
  | [] => []
  | IEvent (le_bev_read b) :: tr =>
      let block := nth (length (List.filter (is_read b) tr)) (recv b) [] in
      if decide (q = Input b) then session_buf recv tr q ++ block else session_buf recv tr q
  | ICall (c_evbuffer_drain b n) :: tr =>
      if decide (q = b) then drop (Z.to_nat n) (session_buf recv tr q) else session_buf recv tr q
  | ICall (c_evbuffer_remove_buffer a b n) :: tr =>
      if decide (q = a) then drop (Z.to_nat n) (session_buf recv tr a)
      else if decide (q = b) then session_buf recv tr b ++ take (Z.to_nat n) (session_buf recv tr a)
      else session_buf recv tr q
  | ICall (c_bufferevent_write bev data) :: tr =>
      if decide (q = Output bev) then session_buf recv tr q ++ data else session_buf recv tr q
  | _ :: tr => session_buf recv tr q
  end.

Definition session (recv : Z → list (list Z)) : Env := λ tr c,
  match c with
  | c_getopt_long => nth (length (List.filter is_getopt tr)) ex_options (-1, None)
  | c_socket _ _ _ => 10 + Z.of_nat (length tr)
  | c_evbuffer_get_length b => Z.of_nat (length (session_buf recv tr b))
  | c_evbuffer_pullup b n => take (Z.to_nat n) (session_buf recv tr b)
  | c => quiet_reply c
  end.

(** The relay answers the two messages and sends "OK"; the client sends "GET". *)
Definition ex_recv (bev : Z) : list (list Z) :=
  match bev with
  | 4824 => [[5; 0]; [5; 0; 0; 1; 10; 0; 0; 1; 4; 56]; [79; 75]]
  | 4823 => [[71; 69; 84]]
  | _ => []
  end.

(** A connection is accepted, connects to the relay, shakes hands and relays
    one block each way; then SIGTERM arrives. *)
Definition ex_sched : list loop_event :=
  [le_event 4469 EV_READ; le_bev_event 4824 BEV_EVENT_CONNECTED 0; le_bev_read 4824; le_bev_read 4824;
   le_bev_read 4823; le_bev_read 4824; le_event 4449 EV_SIGNAL].

(** Every object of the program and of libevent is released. *)
Definition nothing_live (s : state) : bool :=
  bool_decide (clients s = ∅) && bool_decide (addrs s = ∅) && bool_decide (pumps s = ∅) &&
  bool_decide (pipes s = ∅) && bool_decide (envs s = ∅) && bool_decide (listeners s = ∅) &&
  bool_decide (strs s = ∅) && bool_decide (blocks s = ∅) && bool_decide (bases s = ∅) &&
  bool_decide (nodes s = ∅) && bool_decide (bevs s = ∅) && bool_decide (evs s = ∅).

(** A whole session: the program starts, accepts a connection, connects to
    the relay, shakes hands, and relays a block in each direction; after
    SIGTERM it returns 0 with every object released.  The relay was sent the
    two messages of the protocol and then exactly what the client sent, and
    the client exactly what the relay sent after its reply. *)
Theorem session_relays_and_releases :
  match main (EXT:=session ex_recv) 4 ex_sched state0 with
  | Ok r s => Some (r, nothing_live s, session_buf ex_recv (trace s) (Output 4823),
                    session_buf ex_recv (trace s) (Output 4824))
  | _ => None
  end = Some (0, true, [79; 75], [5; 1; 0] ++ [5; 1; 0; 1; 10; 0; 0; 1; 31; 144] ++ [71; 69; 84]).
Proof. vm_compute. reflexivity. Qed.

Lemma main_usage_witness :
  getopt_loop (EXT:=session ex_recv) 5 (Options None None None) state0
    = Ok (Some (Options (Some "10.0.0.1:8080") (Some "10.0.0.1:8080") None)) (did (replicate 3 c_getopt_long) state0) ∧
  main (EXT:=quiet) 1 [] state0 = Ok EXIT_FAILURE (did (replicate 1 c_getopt_long ++ help_lines) state0).
Proof.
  assert (∀ a, ¬ known_option (-1, a)) as Hl by (unfold known_option; simpl; intros a [?|[?|?]]; discriminate).
  split.
  - apply (main_usage (EXT:=session ex_recv) 4 [] ex_options (-1, None) state0).
    + split; [|reflexivity]. intros [|[|i]] r [= <-]; reflexivity.
    + repeat constructor; by (left + (right; left)).
    + apply Hl.
    + simpl. lia.
  - apply (main_usage (EXT:=quiet) 1 [] [] (-1, None) state0).
    + split; [intros i r; discriminate|reflexivity].
    + constructor.
    + apply Hl.
    + simpl. lia.
    + right. left. reflexivity.
Defined.

Lemma main_validates_witness :
  ∃ cs, forallb is_startup_call cs = true ∧
    (main (EXT:=session ex_recv) 4 ex_sched state0 = Ok EXIT_FAILURE (did cs state0) ∨
     ∃ lss llen sss slen, validateAddrPort lss = true ∧ validateAddrPort sss = true ∧
       main (EXT:=session ex_recv) 4 ex_sched state0 =
         main_run (EXT:=session ex_recv) ex_sched lss sss llen slen PUMPMETHOD_BUFFER (did cs state0)).
Proof.
  apply (main_validates (EXT:=session ex_recv) 4 ex_sched ex_options (-1, None) "10.0.0.1:8080" "10.0.0.1:8080" state0);
    try reflexivity.
  - split; [|reflexivity]. intros [|[|i]] r [= <-]; reflexivity.
  - repeat constructor; by (left + (right; left)).
  - simpl. lia.
Defined.
