(* ===== verification/Kept.v ===== *)
(** * What every function keeps

    Relations between the states before and after that hold for every function
    of the program, in every world and however the function ends up: the state
    stays well-formed, its history grows, and an object that was released does
    not come back ([grows]); the event loop never changes the environment
    ([same_globals]).  Both are preorders, so each follows, function by
    function, from the few operations that write the state; the section below
    does this once for any such relation [R]. *)

From S2P Require Import Prelude DList ListSpec Structs World Util Context BufferPump SplicePump Pump Socks5 Listener Main.
Local Open Scope Z_scope.

(** ** The writing operations *)

(** [R] is kept by calls that move no bytes and by list operations. *)
Class KeepsCalls {EXT : Env} (R : state → state → Prop) : Prop := {
  kc_preorder :: PreOrder R;
  kc_sys c : moves_bytes c = false → keeps R (sys c);
  kc_list A (m : M lheap A) : keeps same_nodes m → keeps R (list_op m)
}.

(** [R] is kept by the calls that move bytes, too. *)
Class KeepsMoves {EXT : Env} (R : state → state → Prop) : Prop :=
  km_sys c : moves_bytes c = true → keeps R (sys c).

(** [R] is kept by allocation, assignment and release of a [T]. *)
Class KeepsHeap (R : state → state → Prop) (T : Type) `{!HeapOf T} : Prop := {
  kh_alloc (v : T) : keeps R (alloc v);
  kh_modify p (f : T → T) : keeps R (modify p f);
  kh_dealloc p : keeps R (dealloc (T:=T) p)
}.

#[export] Hint Resolve kc_list kh_alloc kh_modify kh_dealloc : tr.
#[export] Hint Extern 0 (keeps _ (sys ?c)) =>
  first [exact (kc_sys c eq_refl) | exact (km_sys c eq_refl)] : tr.

Lemma keeps_INIT_LIST_HEAD p : keeps same_nodes (INIT_LIST_HEAD p).
Proof. unfold INIT_LIST_HEAD. keeps. Qed.

Lemma keeps_list_del p : keeps same_nodes (list_del p).
Proof. unfold list_del. keeps. Qed.

Lemma keeps_list_add_tail p q : keeps same_nodes (list_add_tail p q).
Proof. unfold list_add_tail. keeps. Qed.

#[export] Hint Resolve keeps_INIT_LIST_HEAD keeps_list_del keeps_list_add_tail : tr.

(** The loops of list.h keep what their bodies keep. *)
Section loops.
Context {S : Type} (R : S → S → Prop) `{!PreOrder R} (hp : S → lheap) (off : Z).

Lemma keeps_rd_next p : keeps R (rd_next hp p).
Proof. intros s a s'. unfold rd_next. case_match; by intros [= _ <-]. Qed.

#[local] Hint Resolve keeps_rd_next : tr.

Lemma keeps_for_each_entry fuel head body :
  (∀ p, keeps R (body p)) → keeps R (list_for_each_entry hp off fuel head body).
Proof.
  intros Hb. unfold list_for_each_entry, list_first_entry. keeps.
  revert a. induction fuel as [|fuel IH]; intros pos; simpl; unfold list_next_entry; keeps.
Qed.

Lemma keeps_for_each_entry_safe fuel head body :
  (∀ p, keeps R (body p)) → keeps R (list_for_each_entry_safe hp off fuel head body).
Proof.
  intros Hb. unfold list_for_each_entry_safe, list_first_entry. keeps; [unfold list_next_entry; keeps|].
  revert a a0. induction fuel as [|fuel IH]; intros pos n; simpl; unfold list_next_entry; keeps.
Qed.
End loops.

#[export] Hint Resolve keeps_for_each_entry keeps_for_each_entry_safe : tr.

(** ** Objects of clients *)

Section client_level.
Context {EXT : Env} (R : state → state → Prop) `{!KeepsCalls R}.

Lemma keeps_load {T} `{!HeapOf T} p : keeps R (load (T:=T) p).
Proof. intros s a s'. unfold load. case_match; by intros [= _ <-]. Qed.

Lemma keeps_fld {T A} `{!HeapOf T} p (f : T → A) : keeps R (fld p f).
Proof. unfold fld. keeps. apply keeps_load. Qed.

Lemma keeps_rd {A} (o : option A) : keeps R (rd o).
Proof. unfold rd. keeps. Qed.

#[local] Hint Resolve keeps_load keeps_fld keeps_rd : tr.

Section one_heap.
Context {T : Type} `{!HeapOf T, !KeepsHeap R T}.

Lemma keeps_tr_malloc (v : T) : keeps R (tr_malloc v).
Proof. unfold tr_malloc. keeps. Qed.

Lemma keeps_tr_calloc (v : T) : keeps R (tr_calloc v).
Proof. unfold tr_calloc. keeps. Qed.

Lemma keeps_release mk p : moves_bytes (mk p) = false → keeps R (release T mk p).
Proof. intros Hmk. unfold release. keeps. by apply kc_sys. Qed.

Lemma keeps_tr_free p : keeps R (tr_free T p).
Proof. by apply keeps_release. Qed.
End one_heap.

#[local] Hint Resolve keeps_tr_malloc keeps_tr_calloc keeps_tr_free : tr.
#[local] Hint Extern 1 (keeps R (release _ _ _)) => apply keeps_release; reflexivity : tr.

Lemma keeps_FREE f p : (∀ q, keeps R (f q)) → keeps R (TRANSOCKS_FREE f p).
Proof. intros Hf. unfold TRANSOCKS_FREE. keeps. Qed.

Lemma keeps_FREE_at f get clr :
  (∀ q, keeps R (f q)) → keeps R get → keeps R clr → keeps R (TRANSOCKS_FREE_at f get clr).
Proof. intros Hf Hg Hc. unfold TRANSOCKS_FREE_at. keeps. Qed.

Lemma keeps_CLOSE fd : keeps R (TRANSOCKS_CLOSE fd).
Proof. unfold TRANSOCKS_CLOSE. destruct (0 <=? fd); [exact (kc_sys (c_close fd) eq_refl)|]. keeps. Qed.

Lemma keeps_CLOSE_at get clr : keeps R get → keeps R clr → keeps R (TRANSOCKS_CLOSE_at get clr).
Proof. intros Hg Hc. unfold TRANSOCKS_CLOSE_at. keeps. Qed.

Lemma keeps_SHUTDOWN fd how : keeps R (TRANSOCKS_SHUTDOWN fd how).
Proof. exact (kc_sys (c_shutdown fd how) eq_refl). Qed.

#[local] Hint Resolve keeps_FREE keeps_FREE_at keeps_CLOSE keeps_CLOSE_at keeps_SHUTDOWN : tr.

Lemma keeps_setnonblocking fd b : keeps R (setnonblocking fd b).
Proof. unfold setnonblocking. keeps. Qed.

Lemma keeps_keepalive fd : keeps R (apply_tcp_keepalive fd).
Proof. unfold apply_tcp_keepalive, setsockopt. keeps. Qed.

Lemma keeps_nodelay fd : keeps R (apply_tcp_nodelay fd).
Proof. unfold apply_tcp_nodelay, setsockopt. keeps. Qed.

#[local] Hint Resolve keeps_setnonblocking keeps_keepalive keeps_nodelay : tr.

Lemma keeps_createpipe : keeps R createpipe.
Proof. unfold createpipe. keeps. Qed.

Lemma keeps_generate_str size sa len : keeps R (generate_sockaddr_port_str size sa len).
Proof. unfold generate_sockaddr_port_str. keeps. Qed.

Lemma keeps_print_line l : keeps R (print_line l).
Proof. exact (kc_sys (c_printf l) eq_refl). Qed.

#[local] Hint Resolve keeps_createpipe keeps_generate_str keeps_print_line : tr.

(** *** libevent *)

Context `{!KeepsHeap R transocks_client, !KeepsHeap R (option sockaddr_storage), !KeepsHeap R bufferevent,
  !KeepsHeap R event, !KeepsHeap R (list Z), !KeepsHeap R transocks_splicepump, !KeepsHeap R transocks_splicepipe}.

Lemma keeps_event_new base fd evs cb arg : keeps R (event_new base fd evs cb arg).
Proof. unfold event_new. keeps. Qed.

Lemma keeps_event_assign ev base fd evs cb arg : keeps R (event_assign ev base fd evs cb arg).
Proof. unfold event_assign. keeps. Qed.

Lemma keeps_event_add ev t : keeps R (event_add ev t).
Proof. unfold event_add. keeps. Qed.

Lemma keeps_event_del ev : keeps R (event_del ev).
Proof. unfold event_del. keeps. Qed.

Lemma keeps_event_free ev : keeps R (event_free ev).
Proof. unfold event_free. keeps. Qed.

Lemma keeps_event_active ev events : keeps R (TRANSOCKS_EVENT_ACTIVE ev events).
Proof. unfold TRANSOCKS_EVENT_ACTIVE, event_pending, event_active. keeps. Qed.

Lemma keeps_bev_new base fd opts : keeps R (bufferevent_socket_new base fd opts).
Proof. unfold bufferevent_socket_new. keeps. Qed.

Lemma keeps_bev_free bev : keeps R (bufferevent_free bev).
Proof. unfold bufferevent_free. keeps. Qed.

Lemma keeps_bev_setcb bev r w e arg : keeps R (bufferevent_setcb bev r w e arg).
Proof. unfold bufferevent_setcb. keeps. Qed.

Lemma keeps_bev_enable bev events : keeps R (bufferevent_enable bev events).
Proof. unfold bufferevent_enable. keeps. Qed.

Lemma keeps_bev_disable bev events : keeps R (bufferevent_disable bev events).
Proof. unfold bufferevent_disable. keeps. Qed.

Lemma keeps_bev_setwatermark bev events low high : keeps R (bufferevent_setwatermark bev events low high).
Proof. unfold bufferevent_setwatermark. keeps. Qed.

Lemma keeps_bev_setfd bev fd : keeps R (bufferevent_setfd bev fd).
Proof. unfold bufferevent_setfd. keeps. Qed.

Lemma keeps_bev_connect bev a n : keeps R (bufferevent_socket_connect bev a n).
Proof. unfold bufferevent_socket_connect. keeps. Qed.

Lemma keeps_eb_length b : keeps R (evbuffer_get_length b).
Proof. unfold evbuffer_get_length. keeps. Qed.

Lemma keeps_eb_pullup b n : keeps R (evbuffer_pullup b n).
Proof. unfold evbuffer_pullup. keeps. Qed.

(** What moves bytes needs more of [R]. *)
Context `{!KeepsMoves R}.

Lemma keeps_bev_write bev data : keeps R (bufferevent_write bev data).
Proof. unfold bufferevent_write. keeps. Qed.

Lemma keeps_eb_drain b n : keeps R (evbuffer_drain b n).
Proof. unfold evbuffer_drain. keeps. Qed.

Lemma keeps_eb_remove a b n : keeps R (evbuffer_remove_buffer a b n).
Proof. unfold evbuffer_remove_buffer. keeps. Qed.

#[local] Hint Resolve keeps_event_new keeps_event_assign keeps_event_add keeps_event_del keeps_event_free
  keeps_event_active keeps_bev_new keeps_bev_free keeps_bev_setcb keeps_bev_enable keeps_bev_disable
  keeps_bev_setwatermark keeps_bev_setfd keeps_bev_connect keeps_bev_write keeps_eb_length keeps_eb_pullup
  keeps_eb_drain keeps_eb_remove : tr.

(** *** context.c *)

Lemma keeps_client_new env : keeps R (transocks_client_new env).
Proof. unfold transocks_client_new. keeps. Qed.

Lemma keeps_client_free p : keeps R (transocks_client_free p).
Proof. unfold transocks_client_free, evtimer_del. keeps. Qed.

Lemma keeps_set_timeout p t cb arg : keeps R (transocks_client_set_timeout p t cb arg).
Proof.
  unfold transocks_client_set_timeout, evtimer_new, evtimer_add, evtimer_del, evtimer_assign. keeps.
Qed.

Lemma keeps_client_dump p : keeps R (transocks_client_dump_info p).
Proof. unfold transocks_client_dump_info. keeps. Qed.

#[local] Hint Resolve keeps_client_new keeps_client_free keeps_set_timeout keeps_client_dump : tr.

(** *** bufferpump.c *)

Lemma keeps_bufferpump_free p : keeps R (transocks_bufferpump_free p).
Proof. unfold transocks_bufferpump_free. keeps. Qed.

#[local] Hint Resolve keeps_bufferpump_free : tr.

Lemma keeps_check_close p : keeps R (check_close_free p).
Proof. unfold check_close_free. keeps. Qed.

#[local] Hint Resolve keeps_check_close : tr.

Lemma keeps_bufferpump_reads p : keeps R (transocks_client_readcb p) ∧ keeps R (transocks_relay_readcb p).
Proof. unfold transocks_client_readcb, transocks_relay_readcb. split; keeps. Qed.

Lemma keeps_bufferpump_callbacks p events errno :
  keeps R (transocks_client_writecb p) ∧ keeps R (transocks_relay_writecb p) ∧
  keeps R (transocks_client_eventcb events errno p) ∧ keeps R (transocks_relay_eventcb events errno p).
Proof.
  unfold transocks_client_writecb, transocks_relay_writecb, transocks_client_eventcb, transocks_relay_eventcb. split_and!; keeps.
Qed.

Lemma keeps_bufferpump_start p : keeps R (transocks_bufferpump_start_pump p).
Proof. unfold transocks_bufferpump_start_pump. keeps. Qed.

#[local] Hint Resolve keeps_bufferpump_start : tr.

(** *** splicepump.c *)

Lemma keeps_close_pipe_end pump pipe get clr : keeps R (close_pipe_end pump pipe get clr).
Proof. unfold close_pipe_end. apply keeps_CLOSE_at; keeps. Qed.

#[local] Hint Resolve keeps_close_pipe_end : tr.

Lemma keeps_splicepump_free p : keeps R (transocks_splicepump_free p).
Proof. unfold transocks_splicepump_free, transocks_get_splicepump, del_if_set. keeps. Qed.

#[local] Hint Resolve keeps_splicepump_free : tr.

Lemma keeps_check_normal_termination p d : keeps R (transocks_check_normal_termination p d).
Proof. unfold transocks_check_normal_termination. keeps. Qed.

Lemma keeps_on_fatal_failure p : keeps R (transocks_on_fatal_failure p).
Proof. unfold transocks_on_fatal_failure. keeps. Qed.

Lemma keeps_single_splice a b n : keeps R (transocks_single_splice a b n).
Proof. unfold transocks_single_splice. keeps. Qed.

#[local] Hint Resolve keeps_check_normal_termination keeps_on_fatal_failure keeps_single_splice : tr.

Lemma keeps_write_to_pipe p d : keeps R (transocks_write_to_pipe p d).
Proof. unfold transocks_write_to_pipe, transocks_get_splicepump. keeps. Qed.

Lemma keeps_read_from_pipe p d : keeps R (transocks_read_from_pipe p d).
Proof. unfold transocks_read_from_pipe, transocks_get_splicepump. keeps. Qed.

#[local] Hint Resolve keeps_write_to_pipe keeps_read_from_pipe : tr.

Lemma keeps_splicepump_new p : keeps R (transocks_splicepump_new p).
Proof. unfold transocks_splicepump_new. keeps. Qed.

#[local] Hint Resolve keeps_splicepump_new : tr.

Lemma keeps_splicepump_start p : keeps R (transocks_splicepump_start_pump p).
Proof. unfold transocks_splicepump_start_pump, create_pipe_at, getpipesize. keeps. Qed.

Lemma keeps_splicepump_dump p : keeps R (transocks_splicepump_dump_info p).
Proof. unfold transocks_splicepump_dump_info, transocks_get_splicepump. keeps. Qed.

#[local] Hint Resolve keeps_splicepump_start keeps_splicepump_dump : tr.

(** *** pump.c *)

Lemma keeps_pump_call {A} (f : transocks_pump → option (Z → C A)) p :
  (∀ r g, f (pump_of r) = Some g → keeps R (g p)) → keeps R (pump_call f p).
Proof.
  intros Hf. unfold pump_call. apply keeps_bind; [typeclasses eauto|keeps|].
  intros impl. apply keeps_bind; [typeclasses eauto|keeps|]. intros r.
  destruct (f (pump_of r)) as [g|] eqn:E; [exact (Hf r g E)|by intros s a s'].
Qed.

Lemma keeps_start_pump p : keeps R (transocks_start_pump p).
Proof.
  unfold transocks_start_pump. keeps. apply keeps_pump_call. intros [] g [= <-]; auto with tr.
Qed.

Lemma keeps_pump_free p : keeps R (transocks_pump_free p).
Proof. apply keeps_pump_call. intros [] g [= <-]; auto with tr. Qed.

Lemma keeps_pump_dump p tag : keeps R (transocks_pump_dump_info p tag).
Proof.
  unfold transocks_pump_dump_info. keeps. apply keeps_pump_call. intros [] g [= <-]; [auto with tr|].
  unfold transocks_bufferpump_dump_info. auto with tr.
Qed.

#[local] Hint Resolve keeps_start_pump keeps_pump_free keeps_pump_dump : tr.

Lemma keeps_drop_one p : keeps R (transocks_pump_dump_info p "close connection" ;; transocks_pump_free p).
Proof. keeps. Qed.

Lemma keeps_drop_all_clients env : keeps R (transocks_drop_all_clients env).
Proof.
  unfold transocks_drop_all_clients, list_fuel. keeps. apply keeps_for_each_entry_safe; [typeclasses eauto|]. intros p. keeps.
Qed.

(** The loop with the counter keeps [R] on the state. *)
Lemma keeps_dump_all_client_info env : keeps R (transocks_dump_all_client_info env).
Proof.
  unfold transocks_dump_all_client_info, list_fuel. keeps.
  eapply (keeps_zoom R _ _ (λ t t', R t.1 t'.1)); [|by intros s [t i] H].
  assert (PreOrder (λ t t' : state * Z, R t.1 t'.1)).
  { split; [by intros [s i]|]. intros [s1 i1] [s2 i2] [s3 i3] H1 H2. simpl in *. by etrans. }
  apply keeps_for_each_entry; [done|]. intros p [s i] [] [s' i'] Hrun. unfold with_counter in Hrun. simpl in *.
  destruct (transocks_pump_dump_info p _ s) as [[] t| |] eqn:E; simplify_eq. by eapply keeps_pump_dump.
Qed.

#[local] Hint Resolve keeps_drop_all_clients keeps_dump_all_client_info : tr.

(** *** socks5.c *)

Lemma keeps_free_client p : keeps R (free_client p).
Proof. unfold free_client. keeps. Qed.

#[local] Hint Resolve keeps_free_client : tr.

Lemma keeps_await_reply p relay : keeps R (await_connect_reply p relay).
Proof. unfold await_connect_reply. keeps. Qed.

#[local] Hint Resolve keeps_await_reply : tr.

Lemma keeps_send_connect_request p : keeps R (socks_send_connect_request p).
Proof. unfold socks_send_connect_request, send_request, tr_malloc_block. keeps. Qed.

Lemma keeps_reply_start_pump p relay : keeps R (connect_reply_start_pump p relay).
Proof. unfold connect_reply_start_pump. keeps. Qed.

#[local] Hint Resolve keeps_send_connect_request keeps_reply_start_pump : tr.

(** The callbacks of the handshake that only end it. *)
Lemma keeps_handshake_ends p events :
  keeps R (socks5_timeout_cb p) ∧ keeps R (socks_handshake_stage_errcb events p).
Proof. unfold socks5_timeout_cb, socks_handshake_stage_errcb, evtimer_del. split; keeps. Qed.

Lemma keeps_handshake_callbacks p bev events :
  keeps R (relay_onconnect_eventcb events p) ∧ keeps R (socks_on_server_selected_method_readcb bev p) ∧
  keeps R (socks_on_server_connect_reply_readcb p).
Proof.
  unfold relay_onconnect_eventcb, socks_send_method_selection, socks_on_server_selected_method_readcb,
    socks_on_server_connect_reply_readcb, evtimer_del.
  split_and!; keeps.
Qed.

Lemma keeps_start_connect_relay p : keeps R (transocks_start_connect_relay p).
Proof. unfold transocks_start_connect_relay. keeps. Qed.

#[local] Hint Resolve keeps_start_connect_relay : tr.

(** *** The event loop *)

Lemma keeps_getorigdst fd p : keeps R (getorigdst fd p).
Proof. unfold getorigdst. keeps. Qed.

#[local] Hint Resolve keeps_getorigdst : tr.

Lemma keeps_listener_cb env : keeps R (listener_cb env).
Proof. unfold listener_cb. keeps. Qed.

Context (keeps_delivery : ∀ e, keeps R (puts (push (IEvent e)))).

Lemma keeps_run_callback e : keeps R (run_callback e).
Proof.
  unfold run_callback. apply keeps_bind; [typeclasses eauto|apply keeps_delivery|]. intros _.
  destruct e as [ev what|bev|bev|bev what errno].
  - keeps. unfold run_event_fn, terminate_signal_cb, dump_client_info_signal_cb, drop_all_clients_signal_cb,
      transocks_splicepump_client_readcb, transocks_splicepump_client_writecb, transocks_splicepump_relay_readcb,
      transocks_splicepump_relay_writecb, transocks_get_splicepump.
    destruct (ev_cb a); try apply keeps_listener_cb; try apply (keeps_handshake_ends _ 0); keeps.
  - keeps. unfold run_data_fn. destruct f;
      first [apply keeps_fault | apply (keeps_handshake_callbacks (bev_cbarg a) bev 0) | apply (keeps_bufferpump_callbacks (bev_cbarg a) 0 0)
            | apply keeps_bufferpump_reads].
  - keeps. unfold run_data_fn. destruct f;
      first [apply keeps_fault | apply (keeps_handshake_callbacks (bev_cbarg a) bev 0) | apply (keeps_bufferpump_callbacks (bev_cbarg a) 0 0)
            | apply keeps_bufferpump_reads].
  - keeps. unfold run_bevent_fn. destruct f;
      first [apply keeps_fault | apply (keeps_handshake_callbacks (bev_cbarg a) 0 what) | apply keeps_handshake_ends
            | apply (keeps_bufferpump_callbacks (bev_cbarg a) what errno)].
Qed.

Lemma keeps_run_callbacks sched : keeps R (run_callbacks sched).
Proof. induction sched; simpl; keeps. apply keeps_run_callback. Qed.

(** ** Start and end of the program *)

Context `{!KeepsHeap R transocks_global_env, !KeepsHeap R transocks_listener, !KeepsHeap R string, !KeepsHeap R unit}.
Context (keeps_set_pump : ∀ o, keeps R (puts (set_pumpMethodImpl o))).

Lemma keeps_event_base_new : keeps R event_base_new.
Proof. unfold event_base_new. keeps. Qed.

Lemma keeps_event_base_free p : keeps R (event_base_free p).
Proof. unfold event_base_free. keeps. Qed.

#[local] Hint Resolve keeps_event_base_new keeps_event_base_free : tr.

Lemma keeps_global_env_new : keeps R transocks_global_env_new.
Proof. unfold transocks_global_env_new. keeps. Qed.

Lemma keeps_signal_init env : keeps R (signal_init env).
Proof. unfold signal_init, evsignal_new, evsignal_add. keeps. Qed.

Lemma keeps_signal_deinit env : keeps R (signal_deinit env).
Proof. unfold signal_deinit, signal_ev_deinit, evsignal_del. keeps. Qed.

Lemma keeps_listener_deinit env : keeps R (listener_deinit env).
Proof.
  unfold listener_deinit. keeps; try apply keeps_FREE_at; try apply keeps_CLOSE_at; keeps.
Qed.

#[local] Hint Resolve keeps_global_env_new keeps_signal_init keeps_signal_deinit keeps_listener_deinit : tr.

Lemma keeps_listener_init env : keeps R (listener_init env).
Proof. unfold listener_init, apply_ipv6only, setsockopt. keeps. Qed.

Lemma keeps_global_env_free env : keeps R (transocks_global_env_free env).
Proof. unfold transocks_global_env_free. keeps. Qed.

Lemma keeps_pump_init env : keeps R (transocks_pump_init env).
Proof. unfold transocks_pump_init. keeps. Qed.

#[local] Hint Resolve keeps_listener_init keeps_global_env_free keeps_pump_init keeps_run_callbacks : tr.

Lemma keeps_main_shutdown env : keeps R (main_shutdown env).
Proof. unfold main_shutdown. keeps. Qed.

#[local] Hint Resolve keeps_main_shutdown : tr.

Lemma keeps_main_start lss sss llen slen pump : keeps R (main_start lss sss llen slen pump).
Proof. unfold main_start, strdup. keeps. Qed.

#[local] Hint Resolve keeps_main_start : tr.

Lemma keeps_main_run sched lss sss llen slen pump : keeps R (main_run sched lss sss llen slen pump).
Proof. unfold main_run, event_base_dispatch. keeps. Qed.

Lemma keeps_getopt_loop fuel o : keeps R (getopt_loop fuel o).
Proof. revert o. induction fuel as [|fuel IH]; intros o; simpl; keeps. Qed.

#[local] Hint Resolve keeps_main_run keeps_getopt_loop : tr.

Lemma keeps_main argc sched : keeps R (main argc sched).
Proof. unfold main, PRINTHELP_EXIT, print_help, transocks_parse_sockaddr_port. keeps. Qed.
End client_level.

(** ** The environment during the event loop *)

Record same_globals (s s' : state) : Prop := {
  sg_envs : envs s' = envs s;
  sg_bases : bases s' = bases s;
  sg_listeners : listeners s' = listeners s;
  sg_strs : strs s' = strs s;
  sg_pump : pumpMethodImpl s' = pumpMethodImpl s
}.

#[export] Instance same_globals_preorder : PreOrder same_globals.
Proof. split; [by intros s|]. intros s1 s2 s3 [] []. split; congruence. Qed.

#[export] Instance same_globals_calls {EXT : Env} : KeepsCalls same_globals.
Proof.
  split; [apply _|by intros c _ s a s' [= _ <-]|]. intros A m _ s a s'. unfold list_op, zoom.
  destruct (m (nodes s)); by intros [= _ <-].
Qed.

#[export] Instance same_globals_moves {EXT : Env} : KeepsMoves same_globals.
Proof. by intros c _ s a s' [= _ <-]. Qed.

Ltac keeps_heap_globals :=
  split; [by intros v s a s' [= _ <-]|intros p f s a s'|intros p s a s'];
  unfold modify, dealloc; case_match; by intros [= _ <-].

#[export] Instance same_globals_client : KeepsHeap same_globals transocks_client.
Proof. keeps_heap_globals. Qed.
#[export] Instance same_globals_addr : KeepsHeap same_globals (option sockaddr_storage).
Proof. keeps_heap_globals. Qed.
#[export] Instance same_globals_bev : KeepsHeap same_globals bufferevent.
Proof. keeps_heap_globals. Qed.
#[export] Instance same_globals_ev : KeepsHeap same_globals event.
Proof. keeps_heap_globals. Qed.
#[export] Instance same_globals_block : KeepsHeap same_globals (list Z).
Proof. keeps_heap_globals. Qed.
#[export] Instance same_globals_spump : KeepsHeap same_globals transocks_splicepump.
Proof. keeps_heap_globals. Qed.
#[export] Instance same_globals_pipe : KeepsHeap same_globals transocks_splicepipe.
Proof. keeps_heap_globals. Qed.

Lemma run_callback_globals {EXT : Env} e : keeps same_globals (run_callback e).
Proof. apply keeps_run_callback; try apply _. by intros e' s a s' [= _ <-]. Qed.

(** The event loop leaves the program's environment alone: whatever events
    are delivered in whatever world and with either pump, if the callbacks
    return then the environment, its event base and listener, the pump's name
    and the chosen pump are what they were. *)
Theorem event_loop_keeps_environment {EXT : Env} sched s s' :
  run_callbacks sched s = Ok tt s' →
  envs s' = envs s ∧ bases s' = bases s ∧ listeners s' = listeners s ∧ strs s' = strs s ∧
  pumpMethodImpl s' = pumpMethodImpl s.
Proof.
  intros Hrun. assert (keeps same_globals (run_callbacks sched)) as Hk.
  { apply keeps_run_callbacks; try apply _. by intros e t a t' [= _ <-]. }
  by destruct (Hk _ _ _ Hrun).
Qed.

(** ** Well-formedness and the lifetime of objects *)

(** An address below [n] without an object stays without one. *)
Definition stays_dead {T} (n : Z) (m m' : gmap Z T) : Prop := ∀ q, q < n → m !! q = None → m' !! q = None.

Record grows (s s' : state) : Prop := {
  gr_wf : wf s → wf s';
  gr_brk : brk s ≤ brk s';
  gr_trace : ∃ tr, trace s' = tr ++ trace s;
  gr_clients : stays_dead (brk s) (clients s) (clients s');
  gr_addrs : stays_dead (brk s) (addrs s) (addrs s');
  gr_pumps : stays_dead (brk s) (pumps s) (pumps s');
  gr_pipes : stays_dead (brk s) (pipes s) (pipes s');
  gr_envs : stays_dead (brk s) (envs s) (envs s');
  gr_listeners : stays_dead (brk s) (listeners s) (listeners s');
  gr_strs : stays_dead (brk s) (strs s) (strs s');
  gr_blocks : stays_dead (brk s) (blocks s) (blocks s');
  gr_bases : stays_dead (brk s) (bases s) (bases s');
  gr_bevs : stays_dead (brk s) (bevs s) (bevs s');
  gr_evs : stays_dead (brk s) (evs s) (evs s')
}.

Section below_lemmas.
Context {T : Type}.
Implicit Types m : gmap Z T.

Lemma below_mono n n' m : n ≤ n' → below n m → below n' m.
Proof. intros Hn H q Hq. specialize (H q Hq). lia. Qed.

Lemma below_insert n p v m : 0 < p < n → below n m → below n (<[p := v]> m).
Proof. intros Hp H q. rewrite lookup_insert. case_decide; [by subst|apply H]. Qed.

Lemma below_delete n p m : below n m → below n (delete p m).
Proof. intros H q. rewrite lookup_delete. case_decide; [by intros []|apply H]. Qed.

Lemma below_modify n p v w m : m !! p = Some w → below n m → below n (<[p := v]> m).
Proof. intros Hp H. apply below_insert; [|done]. apply H. eauto. Qed.

Lemma stays_dead_refl n m : stays_dead n m m.
Proof. by intros q. Qed.

Lemma stays_dead_trans n n' m1 m2 m3 :
  n ≤ n' → stays_dead n m1 m2 → stays_dead n' m2 m3 → stays_dead n m1 m3.
Proof. intros Hn H1 H2 q Hq E. apply H2; [lia|]. by apply H1. Qed.

Lemma stays_dead_alloc n v m : stays_dead n m (<[n := v]> m).
Proof. intros q Hq E. rewrite lookup_insert_ne by lia. done. Qed.

Lemma stays_dead_modify n p v w m : m !! p = Some w → stays_dead n m (<[p := v]> m).
Proof. intros Hp q Hq E. rewrite lookup_insert_ne; [done|congruence]. Qed.

Lemma stays_dead_delete n p m : stays_dead n m (delete p m).
Proof. intros q Hq E. by apply delete_None. Qed.
End below_lemmas.

#[local] Hint Resolve below_mono below_insert below_delete below_modify stays_dead_refl stays_dead_alloc
  stays_dead_modify stays_dead_delete : tr.

#[export] Instance grows_preorder : PreOrder grows.
Proof.
  split; [intros s; split; auto with tr; [done|by exists []]|].
  intros s1 s2 s3 [] []. split; eauto using stays_dead_trans; [lia|].
  destruct gr_trace0 as [t1 E1], gr_trace1 as [t2 E2]. exists (t2 ++ t1). by rewrite E2, E1, (assoc_L (++)).
Qed.

Lemma grows_sys {EXT : Env} c : keeps grows (sys c).
Proof. intros s a s' [= _ <-]. split; st_norm; auto with tr; [by intros []|done|by exists [ICall c]]. Qed.

#[export] Instance grows_moves {EXT : Env} : KeepsMoves grows.
Proof. intros c _. apply grows_sys. Qed.

#[export] Instance grows_calls {EXT : Env} : KeepsCalls grows.
Proof.
  split; [apply _|..].
  - intros c _. apply grows_sys.
  - intros A m Hm s a s'. unfold list_op, zoom. destruct (m (nodes s)) as [b h| |] eqn:E; intros [= _ <-].
    split; st_norm; auto with tr; [|done|by exists []]. intros []. split; st_norm; try done.
    intros q Hq. apply wf_nodes. by apply (Hm _ _ _ E).
Qed.

Ltac keeps_heap_grows :=
  split;
  [ intros v s a s' [= _ <-]; split; st_norm; simpl; auto with tr; [|addr_lia|by exists []];
    intros []; split; st_norm; simpl; try addr_lia;
    repeat (apply below_insert; [addr_lia|]); eapply below_mono; try eassumption; addr_lia
  | intros p f s a s'; unfold modify; case_match eqn:E; intros [= _ <-]; split; st_norm; eauto with tr;
    [|done|by exists []]; intros []; split; st_norm; eauto with tr
  | intros p s a s'; unfold dealloc; case_match eqn:E; intros [= _ <-]; split; st_norm; eauto with tr;
    [|done|by exists []]; intros []; split; st_norm; eauto with tr ].

#[export] Instance grows_client : KeepsHeap grows transocks_client.
Proof. keeps_heap_grows. Qed.
#[export] Instance grows_addr : KeepsHeap grows (option sockaddr_storage).
Proof. keeps_heap_grows. Qed.
#[export] Instance grows_bev : KeepsHeap grows bufferevent.
Proof. keeps_heap_grows. Qed.
#[export] Instance grows_ev : KeepsHeap grows event.
Proof. keeps_heap_grows. Qed.
#[export] Instance grows_block : KeepsHeap grows (list Z).
Proof. keeps_heap_grows. Qed.
#[export] Instance grows_spump : KeepsHeap grows transocks_splicepump.
Proof. keeps_heap_grows. Qed.
#[export] Instance grows_pipe : KeepsHeap grows transocks_splicepipe.
Proof. keeps_heap_grows. Qed.
#[export] Instance grows_env : KeepsHeap grows transocks_global_env.
Proof. keeps_heap_grows. Qed.
#[export] Instance grows_listener : KeepsHeap grows transocks_listener.
Proof. keeps_heap_grows. Qed.
#[export] Instance grows_str : KeepsHeap grows string.
Proof. keeps_heap_grows. Qed.
#[export] Instance grows_base : KeepsHeap grows unit.
Proof. keeps_heap_grows. Qed.

Lemma grows_delivery e : keeps grows (puts (push (IEvent e))).
Proof.
  intros s [] s' [= <-]. split; st_norm; auto with tr; [by intros []|done|by exists [IEvent e]].
Qed.

Lemma grows_set_pump o : keeps grows (puts (set_pumpMethodImpl o)).
Proof. intros s [] s' [= <-]. split; st_norm; auto with tr; [by intros []|done|by exists []]. Qed.

Lemma run_callback_grows {EXT : Env} e : keeps grows (run_callback e).
Proof. apply keeps_run_callback; try apply _. apply grows_delivery. Qed.

Lemma run_callbacks_grow {EXT : Env} sched : keeps grows (run_callbacks sched).
Proof. apply keeps_run_callbacks; try apply _. apply grows_delivery. Qed.

(** ** Concrete runs *)

(** The state a run ends in; [state0] when it does not return. *)
Definition end_of {A} (r : res state A) : state := match r with Ok _ s => s | _ => state0 end.

(** A connection is accepted and dropped again by SIGUSR1. *)
Definition ex_accept_drop : list loop_event := [le_event 4950 EV_READ; le_event 4940 EV_SIGNAL].

Lemma event_loop_keeps_environment_witness :
  let s' := end_of (run_callbacks (EXT:=quiet) ex_accept_drop ex_listening) in
  envs s' = {[4096 := ex_env]} ∧ bases s' = {[4900 := tt]} ∧
  listeners s' = {[4300 := TransocksListener (Some 9) (Some 4950)]} ∧ strs s' = {[4700 := PUMPMETHOD_BUFFER]} ∧
  pumpMethodImpl s' = Some transocks_bufferpump_ops_ref.
Proof.
  apply (event_loop_keeps_environment (EXT:=quiet) ex_accept_drop ex_listening). vm_compute. reflexivity.
Defined.
