(* ===== verification/Log.v ===== *)
(** * log.h and log.c: the log

    [_log_write] and the macros over it, on a model of stdio: two streams with
    the text written to them so far, and [errno], which every library call may
    change.  The clock, [strerror] and what a call leaves in [errno] are
    parameters.  printf is modelled for the conversions the program uses; a
    conversion whose argument is missing or of another type is undefined
    behaviour, as in C. *)

From Stdlib Require Import Ascii.
From S2P Require Import Prelude Structs World Context Main.
Local Open Scope Z_scope.

(** ** Text *)

Abbreviation text := (list ascii).

Definition str (s : string) : text := String.list_ascii_of_string s.

Definition NL : ascii := ascii_of_nat 10.

(** *** Digits *)

Definition digit_char (d : Z) : ascii := ascii_of_nat (Z.to_nat (if d <? 10 then 48 + d else 87 + d)).

Definition digit_val (c : ascii) : option Z :=
  let n := Z.of_nat (nat_of_ascii c) in
  if (48 <=? n) && (n <=? 57) then Some (n - 48)
  else if (97 <=? n) && (n <=? 102) then Some (n - 87)
  else None.

Definition is_digit (c : ascii) : bool :=
  match digit_val c with Some d => d <? 10 | None => false end.

(** Digits of [z] in base [b], at least one; [fuel] bounds their number. *)
Fixpoint digits (b : Z) (fuel : nat) (z : Z) : text :=
  match fuel with
  | O => [digit_char (z mod b)]
  | S fuel => if z <? b then [digit_char z] else digits b fuel (z / b) ++ [digit_char (z mod b)]
  end.

(** Reading digits back, most significant first. *)
Definition of_digits (b : Z) (t : text) : option Z :=
  foldl (λ acc c, a ← acc; d ← digit_val c; Some (a * b + d)) (Some 0) t.

(** The longest prefix of [p]-characters, and the rest. *)
Fixpoint span (p : ascii → bool) (t : text) : text * text :=
  match t with
  | c :: u => if p c then let '(a, b) := span p u in (c :: a, b) else ([], t)
  | [] => ([], [])
  end.

(** ** printf *)

Inductive arg := a_int (z : Z) | a_long (z : Z) | a_size (z : Z) | a_str (t : text).

Inductive length_modifier := len_none | len_l | len_z.

Record directive := Directive {
  zero_flag : bool;
  field_width : nat;
  precision : option nat;
  length_mod : length_modifier;
  conversion : ascii
}.

Definition read_number (t : text) : nat := default 0%nat (Z.to_nat <$> of_digits 10 t).

(** What follows a percent sign: flag, width, precision, length, conversion. *)
Definition parse_directive (t : text) : option (directive * text) :=
  let '(z, t) := match t with "0"%char :: u => (true, u) | _ => (false, t) end in
  let '(w, t) := span is_digit t in
  let '(p, t) := match t with
                 | "."%char :: u => let '(p, v) := span is_digit u in (Some (read_number p), v)
                 | _ => (None, t)
                 end in
  let '(l, t) := match t with
                 | "l"%char :: u => (len_l, u)
                 | "z"%char :: u => (len_z, u)
                 | _ => (len_none, t)
                 end in
  match t with
  | c :: u => Some (Directive z (read_number w) p l c, u)
  | [] => None
  end.

(** The integer argument a length modifier asks for. *)
Definition int_arg (l : length_modifier) (a : arg) : option Z :=
  match l, a with
  | len_none, a_int z | len_l, a_long z | len_z, a_size z => Some z
  | _, _ => None
  end.

Definition width_of (l : length_modifier) : Z := match l with len_none => 32 | _ => 64 end.

Definition zeros (n : nat) : text := replicate n "0"%char.
Definition spaces (n : nat) : text := replicate n " "%char.

(** A number [sign body] of magnitude [m] under a precision and a width. *)
Definition print_number (d : directive) (sign body : text) (m : Z) : text :=
  match precision d with
  | Some p =>
      let body := if (m =? 0) && (Nat.eqb p 0) then [] else zeros (p - length body) ++ body in
      spaces (field_width d - length (sign ++ body)) ++ sign ++ body
  | None =>
      let n := (field_width d - length (sign ++ body))%nat in
      if zero_flag d then sign ++ zeros n ++ body else spaces n ++ sign ++ body
  end.

Definition convert (d : directive) (a : arg) : option text :=
  match conversion d with
  | "d"%char =>
      z ← int_arg (length_mod d) a;
      Some (print_number d (if z <? 0 then ["-"%char] else []) (digits 10 64 (Z.abs z)) z)
  | "u"%char =>
      z ← int_arg (length_mod d) a;
      let u := wrap (width_of (length_mod d)) z in
      Some (print_number d [] (digits 10 64 u) u)
  | "x"%char =>
      z ← int_arg (length_mod d) a;
      let u := wrap (width_of (length_mod d)) z in
      Some (print_number d [] (digits 16 64 u) u)
  | "s"%char =>
      match length_mod d, a with
      | len_none, a_str t =>
          let t := match precision d with Some p => take p t | None => t end in
          Some (spaces (field_width d - length t) ++ t)
      | _, _ => None
      end
  | _ => None
  end.

(** A format is a sequence of characters and conversions.  Every step of the
    parser consumes a character, so the length of the format bounds the number
    of steps. *)
Inductive piece := lit (c : ascii) | conv (d : directive).

Fixpoint parse_format (fuel : nat) (fmt : text) : option (list piece) :=
  match fuel, fmt with
  | _, [] => Some []
  | O, _ => None
  | S fuel, "%"%char :: "%"%char :: fmt => ps ← parse_format fuel fmt; Some (lit "%"%char :: ps)
  | S fuel, "%"%char :: fmt => '(d, fmt) ← parse_directive fmt; ps ← parse_format fuel fmt; Some (conv d :: ps)
  | S fuel, c :: fmt => ps ← parse_format fuel fmt; Some (lit c :: ps)
  end.

Fixpoint render (ps : list piece) (args : list arg) : option text :=
  match ps, args with
  | [], _ => Some []
  | lit c :: ps, _ => t ← render ps args; Some (c :: t)
  | conv d :: ps, a :: args => t ← convert d a; u ← render ps args; Some (t ++ u)
  | conv _ :: _, [] => None
  end.

(** The text of a format and its arguments; [None]: undefined behaviour. *)
Definition format (fmt : text) (args : list arg) : option text :=
  ps ← parse_format (length fmt) fmt; render ps args.

(** ** stdio *)

Inductive stream := stdout | stderr.

#[global] Instance stream_eq_dec : EqDecision stream.
Proof. solve_decision. Defined.

(** [written]: the text of each stream; [calls]: how many library calls were
    made so far. *)
Record stdio := Stdio { errno : Z; calls : nat; written : stream → text }.

(** libc: the clock as a call reads it, the messages, and what a call leaves
    in [errno]. *)
Class Libc := {
  clock : nat → Z * Z;
  strerror_msg : Z → text;
  errno_after : nat → Z → Z
}.

Section log.
Context {LIBC : Libc}.

Abbreviation L A := (M stdio A).

(** A library call happens: it may change [errno]. *)
Definition lib_call : L unit :=
  puts (λ s, Stdio (errno_after (calls s) (errno s)) (S (calls s)) (written s)).

Definition clock_gettime : L (Z * Z) :=
  tv ← gets (λ s, clock (calls s));
  lib_call ;;
  mret tv.

Definition strerror (e : Z) : L text :=
  lib_call ;;
  mret (strerror_msg e).

Definition put_text (fd : stream) (t : text) : L unit :=
  puts (λ s, Stdio (errno s) (calls s) (λ f, if decide (f = fd) then written s f ++ t else written s f)).

Definition fprintf (fd : stream) (fmt : text) (args : list arg) : L unit :=
  match format fmt args with
  | Some t => put_text fd t ;; lib_call
  | None => fault
  end.

Definition vfprintf : stream → text → list arg → L unit := fprintf.
Definition printf : text → list arg → L unit := fprintf stdout.

(** ** log.c *)

Definition LOG_ERR : Z := 0.
Definition LOG_INFO : Z := 1.
Definition LOG_DEBUG : Z := 2.

Definition loglevel_str : list text := [str "err"; str "info"; str "debug"].

Definition _log_write (fd : stream) (file : text) (line : Z) (func : text) (do_errno : bool) (priority : Z)
    (fmt : text) (ap : list arg) : L unit :=
  saved_errno ← gets errno;
  tv ← clock_gettime;
  let '(tv_sec, tv_nsec) := tv in
  level ← (if priority <? 0 then fault
           else match loglevel_str !! Z.to_nat priority with Some t => mret t | None => fault end);
  fprintf fd (str "%ld.%6.6ld %s %s:%d %s() ")
    [a_long tv_sec; a_long (tv_nsec ÷ 1000); a_str level; a_str file; a_int line; a_str func] ;;
  vfprintf fd fmt ap ;;
  if do_errno then
    msg ← strerror saved_errno;
    fprintf fd (str ": %s" ++ [NL]) [a_str msg]
  else fprintf fd [NL] [].

(** [text] is the memory [text] points to: reading past it faults. *)
Fixpoint dump_loop (text : list Z) (len : Z) (i : Z) (fuel : nat) : L unit :=
  if i <? len then
    match fuel with
    | O => λ _, NoFuel
    | S fuel =>
        c ← (match text !! Z.to_nat i with Some c => mret c | None => fault end);
        printf (str "0x%02x ") [a_int (wrap 8 c)] ;;
        dump_loop text len (i + 1) fuel
    end
  else mret tt.

Definition dump_data (TRANSOCKS_DEBUG : bool) (tag : text) (text : list Z) (len : Z) : L unit :=
  if TRANSOCKS_DEBUG then
    printf (str "%s: ") [a_str tag] ;;
    dump_loop text len 0 (Z.to_nat len) ;;
    printf [NL] []
  else mret tt.

(** ** log.h *)

(** Where a log macro stands: [__FILE__], [__LINE__], [__func__]. *)
Record site := Site { at_file : text; at_line : Z; at_func : text }.

Definition log_errno (here : site) (prio : Z) (fmt : text) (args : list arg) : L unit :=
  _log_write stderr (at_file here) (at_line here) (at_func here) true prio fmt args.

Definition log_error (here : site) (prio : Z) (fmt : text) (args : list arg) : L unit :=
  _log_write stderr (at_file here) (at_line here) (at_func here) false prio fmt args.

(** The debug macros vanish unless the program is built with TRANSOCKS_DEBUG. *)
Definition LOGD (TRANSOCKS_DEBUG : bool) (here : site) (fmt : text) (args : list arg) : L unit :=
  if TRANSOCKS_DEBUG then log_error here LOG_DEBUG fmt args else mret tt.

Definition LOGD_ERRNO (TRANSOCKS_DEBUG : bool) (here : site) (fmt : text) (args : list arg) : L unit :=
  if TRANSOCKS_DEBUG then log_errno here LOG_DEBUG fmt args else mret tt.

Definition LOGI (here : site) : text → list arg → L unit := log_error here LOG_INFO.
Definition LOGE (here : site) : text → list arg → L unit := log_error here LOG_ERR.
Definition LOGE_ERRNO (here : site) : text → list arg → L unit := log_errno here LOG_ERR.

(** The macros that end the program return its exit status. *)
Definition FATAL (here : site) (fmt : text) (args : list arg) : L Z :=
  LOGE here fmt args ;; mret EXIT_FAILURE.

Definition FATAL_ERRNO (here : site) (fmt : text) (args : list arg) : L Z :=
  LOGE_ERRNO here fmt args ;; mret EXIT_FAILURE.

(** [print_help] of util.c on these streams: the lines of Main. *)
Definition print_help : L unit :=
  visit (λ c, match c with c_printf l => fprintf stdout (str l) [] | _ => mret tt end) help_lines.

Definition FATAL_WITH_HELPMSG (here : site) (fmt : text) (args : list arg) : L Z :=
  LOGE here fmt args ;; print_help ;; mret EXIT_FAILURE.
End log.

(** ** Numbers and their digits *)

Lemma digit_val_char d : 0 ≤ d < 16 → digit_val (digit_char d) = Some d.
Proof.
  intros Hd. assert (∃ n, d = Z.of_nat n ∧ (n < 16)%nat) as (n & -> & Hn) by (exists (Z.to_nat d); lia).
  do 16 (destruct n as [|n]; [reflexivity|]). lia.
Qed.

Lemma of_digits_snoc b t c : of_digits b (t ++ [c]) = (a ← of_digits b t; d ← digit_val c; Some (a * b + d)).
Proof. unfold of_digits. by rewrite foldl_app. Qed.

Lemma of_digits_zeros b n t : of_digits b (zeros n ++ t) = of_digits b t.
Proof. unfold of_digits. rewrite foldl_app. f_equal. by induction n. Qed.

Section base.
Context (b : Z) (Hb : 2 ≤ b ≤ 16).

Lemma of_digits_digits fuel z : 0 ≤ z < b ^ Z.of_nat (S fuel) → of_digits b (digits b fuel z) = Some z.
Proof.
  assert (∀ d, 0 ≤ d < b → of_digits b [digit_char d] = Some d) as H1.
  { intros d Hd. unfold of_digits. simpl. by rewrite digit_val_char by lia. }
  revert z. induction fuel as [|fuel IH]; intros z Hz; cbn [digits].
  - rewrite Z.mod_small by (simpl in Hz; lia). apply H1. simpl in Hz. lia.
  - z_case; [apply H1; lia|]. rewrite of_digits_snoc, IH, digit_val_char; simpl.
    + f_equal. pose proof (Z.div_mod z b). lia.
    + pose proof (Z.mod_pos_bound z b). lia.
    + split; [apply Z.div_pos; lia|]. apply Z.div_lt_upper_bound; [lia|].
      rewrite <-Z.pow_succ_r by lia. replace (Z.succ (Z.of_nat (S fuel))) with (Z.of_nat (S (S fuel))) by lia. lia.
Qed.

Lemma digits_length fuel z k :
  0 ≤ z < b ^ Z.of_nat k → (0 < k)%nat → (length (digits b fuel z) ≤ k)%nat.
Proof.
  revert z k. induction fuel as [|fuel IH]; intros z k Hz Hk; cbn [digits]; [simpl; lia|].
  z_case; [simpl; lia|]. rewrite length_app. simpl. destruct k as [|[|k]]; [lia|simpl in Hz; lia|].
  assert (length (digits b fuel (z / b)) ≤ S k)%nat; [|lia]. apply IH; [|lia]. split; [apply Z.div_pos; lia|].
  apply Z.div_lt_upper_bound; [lia|]. rewrite <-Z.pow_succ_r by lia.
  replace (Z.succ (Z.of_nat (S k))) with (Z.of_nat (S (S k))) by lia. lia.
Qed.

Lemma digits_nonempty fuel z : (0 < length (digits b fuel z))%nat.
Proof. destruct fuel; simpl; [lia|]. z_case; [simpl; lia|]. rewrite length_app. simpl. lia. Qed.

Lemma digits_Forall (P : ascii → Prop) fuel z :
  0 ≤ z → (∀ d, 0 ≤ d < b → P (digit_char d)) → Forall P (digits b fuel z).
Proof.
  intros Hz HP. revert z Hz. induction fuel as [|fuel IH]; intros z Hz; cbn [digits].
  - constructor; [|done]. apply HP, Z.mod_pos_bound. lia.
  - z_case; [constructor; [apply HP; lia|done]|]. apply Forall_app. split; [apply IH, Z.div_pos; lia|].
    constructor; [|done]. apply HP, Z.mod_pos_bound. lia.
Qed.
End base.

Lemma digits10_is_digit fuel z : 0 ≤ z → Forall is_digit (digits 10 fuel z).
Proof.
  intros Hz. apply digits_Forall; [lia|done|]. intros d Hd. unfold is_digit. rewrite digit_val_char by lia.
  apply Is_true_true, Z.ltb_lt. lia.
Qed.

Lemma zeros_is_digit n : Forall is_digit (zeros n).
Proof. by apply Forall_replicate. Qed.

Lemma span_stop (p : ascii → bool) t c u : Forall p t → p c = false → span p (t ++ c :: u) = (t, c :: u).
Proof.
  induction t as [|a t IH]; intros Ht Hc; simpl; [by rewrite Hc|].
  apply Forall_cons in Ht as [Ha%Is_true_true Ht]. by rewrite Ha, IH.
Qed.

Lemma format_literal fmt args : "%"%char ∉ fmt → format fmt args = Some fmt.
Proof.
  intros Hn. unfold format. cut (parse_format (length fmt) fmt = Some (lit <$> fmt)).
  { intros ->. simpl. clear Hn. induction fmt as [|c fmt IH]; [done|]. rewrite fmap_cons. cbn [render]. by rewrite IH. }
  induction fmt as [|c fmt IH]; [done|]. apply not_elem_of_cons in Hn as [Hc Hn].
  cbn [length parse_format]. rewrite IH by done. destruct c as [[] [] [] [] [] [] [] []]; done.
Qed.

(** A number in decimal, and one of six digits. *)
Definition dec (z : Z) : text := (if z <? 0 then ["-"%char] else []) ++ digits 10 64 (Z.abs z).
Definition dec6 (z : Z) : text := zeros (6 - length (digits 10 64 z)) ++ digits 10 64 z.

Definition header (sec usec : Z) (level file : text) (line : Z) (func : text) : text :=
  dec sec ++ "."%char :: dec6 usec ++ " "%char :: level ++ " "%char :: file ++ ":"%char :: dec line ++
  " "%char :: func ++ str "() ".

Lemma dec6_length z : 0 ≤ z < 10 ^ 6 → length (dec6 z) = 6%nat.
Proof.
  intros Hz. unfold dec6, zeros. rewrite length_app, length_replicate.
  pose proof (digits_length 10 ltac:(lia) 64 z 6 ltac:(lia) ltac:(lia)). lia.
Qed.

(** The conversions of the program's own formats. *)
Lemma convert_string t : convert (Directive false 0 None len_none "s") (a_str t) = Some t.
Proof. done. Qed.

Lemma convert_int z : convert (Directive false 0 None len_none "d") (a_int z) = Some (dec z).
Proof. done. Qed.

Lemma convert_long z : convert (Directive false 0 None len_l "d") (a_long z) = Some (dec z).
Proof. done. Qed.

Lemma convert_usec z :
  0 ≤ z < 10 ^ 6 → convert (Directive false 6 (Some 6%nat) len_l "d") (a_long z) = Some (dec6 z).
Proof.
  intros Hz. pose proof (dec6_length z Hz) as H6. unfold convert, dec6, print_number in *. cbn [conversion int_arg length_mod mbind option_bind precision field_width].
  rewrite Z.abs_eq, (proj2 (Z.ltb_ge z 0)), andb_false_r by lia.
  generalize dependent (digits 10 64 z). intros ds H6. simpl app. by rewrite H6.
Qed.

Lemma format_header sec usec level file line func :
  0 ≤ usec < 10 ^ 6 →
  format (str "%ld.%6.6ld %s %s:%d %s() ")
    [a_long sec; a_long usec; a_str level; a_str file; a_int line; a_str func]
  = Some (header sec usec level file line func).
Proof.
  intros Hu. pose (long := Directive false 0 None len_l "d"). pose (string := Directive false 0 None len_none "s").
  pose (ps := [conv long; lit "."; conv (Directive false 6 (Some 6%nat) len_l "d"); lit " "; conv string; lit " ";
              conv string; lit ":"; conv (Directive false 0 None len_none "d"); lit " "; conv string; lit "("; lit ")"; lit " "]).
  unfold format. change (parse_format _ _) with (Some ps). cbn [mbind option_bind render ps].
  rewrite convert_usec, !convert_string, convert_int by done. unfold long. rewrite convert_long.
  unfold header, str. done.
Qed.

(** ** What a log call writes *)

(** [t] was added to the stream [fd], and nothing else changed. *)
Definition wrote (fd : stream) (t : text) (s s' : stdio) : Prop :=
  written s' fd = written s fd ++ t ∧ ∀ f, f ≠ fd → written s' f = written s f.

Lemma wrote_nil fd s s' : written s' = written s → wrote fd [] s s'.
Proof. intros E. split; rewrite E; [by rewrite app_nil_r|done]. Qed.

Lemma wrote_app fd t u s s1 s2 : wrote fd t s s1 → wrote fd u s1 s2 → wrote fd (t ++ u) s s2.
Proof.
  intros [H1 H2] [H3 H4]. split; [by rewrite H3, H1, (assoc_L (++))|]. intros f Hf. by rewrite H4, H2.
Qed.

Section writing.
Context {LIBC : Libc}.
Implicit Types s : stdio.

Lemma wp_fprintf fd fmt args t (Q : unit → stdio → Prop) s :
  format fmt args = Some t → (∀ s', calls s' = S (calls s) → wrote fd t s s' → Q tt s') → wp (fprintf fd fmt args) Q s.
Proof.
  intros E HQ. unfold fprintf. rewrite E. apply wp_bind, wp_puts, wp_puts, HQ; [done|]. split; simpl.
  - by rewrite decide_True.
  - intros f Hf. by rewrite decide_False.
Qed.

(** The appendix of a record, with the error [e]. *)
Definition appendix (do_errno : bool) (e : Z) : text :=
  if do_errno then str ": " ++ strerror_msg e ++ [NL] else [NL].

(** The text of one call. *)
Definition record_text (now : Z * Z) (e : Z) (file : text) (line : Z) (func : text) (do_errno : bool) (level msg : text) : text :=
  header now.1 (now.2 ÷ 1000) level file line func ++ msg ++ appendix do_errno e.

(** POSIX: a time is not negative and has less than 10^9 nanoseconds. *)
Definition clock_ok : Prop := ∀ n, 0 ≤ (clock n).1 < 2 ^ 63 ∧ 0 ≤ (clock n).2 < 10 ^ 9.

Lemma usec_range n : clock_ok → 0 ≤ (clock n).2 ÷ 1000 < 10 ^ 6.
Proof.
  intros H. destruct (H n) as [_ Hn]. rewrite Z.quot_div_nonneg by lia.
  split; [apply Z.div_pos; lia|apply Z.div_lt_upper_bound; lia].
Qed.

Lemma wp_log_write fd file line func do_errno prio level fmt args msg (Q : unit → stdio → Prop) s :
  clock_ok → 0 ≤ prio → loglevel_str !! Z.to_nat prio = Some level → format fmt args = Some msg →
  (∀ s', (calls s < calls s')%nat →
    wrote fd (record_text (clock (calls s)) (errno s) file line func do_errno level msg) s s' → Q tt s') →
  wp (_log_write fd file line func do_errno prio fmt args) Q s.
Proof.
  intros Hc Hp Hl Hm HQ. unfold _log_write, clock_gettime, strerror, lib_call, record_text in *.
  pose proof (usec_range (calls s) Hc) as Hu. repeat st_step. destruct (clock (calls s)) as [sec nsec].
  simpl in Hu, HQ. rewrite (proj2 (Z.ltb_ge prio 0)), Hl by done. repeat st_step.
  eapply wp_fprintf; [by apply format_header|]. intros s1 C1 W1. simpl in C1. repeat st_step.
  eapply wp_fprintf; [done|]. intros s2 C2 W2. destruct do_errno; repeat st_step.
  - eapply wp_fprintf; [done|]. intros s3 C3 W3. simpl in C3. apply HQ; [lia|].
    apply (wrote_app _ _ _ s s1); [done|]. by apply (wrote_app _ _ _ s1 s2).
  - eapply wp_fprintf; [done|]. intros s3 C3 W3. apply HQ; [lia|].
    apply (wrote_app _ _ _ s s1); [done|]. by apply (wrote_app _ _ _ s1 s2).
Qed.
End writing.

(** ** Reading a log back *)

Record entry := Entry {
  e_sec : Z; e_usec : Z; e_level : text; e_file : text; e_line : Z; e_func : text; e_text : text
}.

(** A field up to the separator [c]. *)
Definition upto (p : ascii → bool) (c : ascii) (t : text) : option (text * text) :=
  match span p t with
  | (a, c' :: u) => if decide (c = c') then Some (a, u) else None
  | (_, []) => None
  end.

Definition number_upto (c : ascii) (t : text) : option (Z * text) :=
  '(a, t) ← upto is_digit c t; n ← of_digits 10 a; Some (n, t).

Definition is_not (c d : ascii) : bool := negb (bool_decide (d = c)).

Definition parse_line (t : text) : option entry :=
  '(sec, t) ← number_upto "." t;
  '(usec, t) ← number_upto " " t;
  '(level, t) ← upto (is_not " ") " " t;
  '(file, t) ← upto (is_not ":") ":" t;
  '(line, t) ← number_upto " " t;
  '(func, t) ← upto (is_not "(") "(" t;
  match t with
  | ")"%char :: " "%char :: t => Some (Entry sec usec level file line func t)
  | _ => None
  end.

Fixpoint parse_lines (fuel : nat) (t : text) : option (list entry) :=
  match fuel, t with
  | _, [] => Some []
  | O, _ => None
  | S fuel, t => '(l, t) ← upto (is_not NL) NL t; e ← parse_line l; es ← parse_lines fuel t; Some (e :: es)
  end.

(** Every line has a character, its newline. *)
Definition parse_log (t : text) : option (list entry) := parse_lines (length t) t.

Lemma upto_ok (p : ascii → bool) c a u : Forall p a → p c = false → upto p c (a ++ c :: u) = Some (a, u).
Proof. intros Ha Hc. unfold upto. rewrite span_stop by done. by rewrite decide_True. Qed.

Lemma Forall_is_not c t : c ∉ t → Forall (is_not c) t.
Proof.
  intros Hc. apply Forall_forall. intros d Hd. unfold is_not. rewrite bool_decide_eq_false_2; [done|]. by intros ->.
Qed.

Lemma upto_is_not c a u : c ∉ a → upto (is_not c) c (a ++ c :: u) = Some (a, u).
Proof. intros Hc. apply upto_ok; [by apply Forall_is_not|]. unfold is_not. by rewrite bool_decide_eq_true_2. Qed.

Lemma number_upto_ok c a u n :
  Forall is_digit a → of_digits 10 a = Some n → is_digit c = false → number_upto c (a ++ c :: u) = Some (n, u).
Proof. intros Ha En Hc. unfold number_upto. rewrite upto_ok by done. simpl. by rewrite En. Qed.

Lemma dec_digits z : 0 ≤ z < 2 ^ 63 → Forall is_digit (dec z) ∧ of_digits 10 (dec z) = Some z.
Proof.
  intros Hz. unfold dec. rewrite Z.abs_eq, (proj2 (Z.ltb_ge z 0)) by lia.
  split; [apply digits10_is_digit; lia|apply of_digits_digits; lia].
Qed.

Lemma dec6_digits z : 0 ≤ z < 10 ^ 6 → Forall is_digit (dec6 z) ∧ of_digits 10 (dec6 z) = Some z.
Proof.
  intros Hz. unfold dec6. rewrite of_digits_zeros. split; [|apply of_digits_digits; lia].
  apply Forall_app. split; [apply zeros_is_digit|apply digits10_is_digit; lia].
Qed.

Lemma Forall_digit_not c t : is_digit c = false → Forall is_digit t → c ∉ t.
Proof. intros Hc Ht Hin. rewrite Forall_forall in Ht. specialize (Ht c Hin). by rewrite Hc in Ht. Qed.

(** The parts of a record that the decoder can tell apart. *)
Record separable (level file func : text) (line : Z) : Prop := {
  sp_level : (" "%char ∉ level) ∧ (NL ∉ level);
  sp_file : (":"%char ∉ file) ∧ (NL ∉ file);
  sp_func : ("("%char ∉ func) ∧ (NL ∉ func);
  sp_line : 0 ≤ line < 2 ^ 31
}.

Lemma parse_line_header sec usec level file line func t :
  0 ≤ sec < 2 ^ 63 → 0 ≤ usec < 10 ^ 6 → separable level file func line →
  parse_line (header sec usec level file line func ++ t) = Some (Entry sec usec level file line func t).
Proof.
  intros Hs Hu [[Hl _] [Hf _] [Hn _] Hli]. unfold header, parse_line.
  destruct (dec_digits sec Hs), (dec6_digits usec Hu), (dec_digits line ltac:(lia)).
  repeat (rewrite <-(assoc_L (++)); simpl). 
  rewrite (number_upto_ok _ _ _ sec) by done. simpl. rewrite (number_upto_ok _ _ _ usec) by done. simpl.
  rewrite upto_is_not by done. simpl. rewrite upto_is_not by done. simpl.
  rewrite (number_upto_ok _ _ _ line) by done. simpl. rewrite upto_is_not by done. done.
Qed.

Lemma header_no_newline sec usec level file line func :
  0 ≤ sec < 2 ^ 63 → 0 ≤ usec < 10 ^ 6 → separable level file func line →
  NL ∉ header sec usec level file line func.
Proof.
  intros Hs Hu [[_ Hl] [_ Hf] [_ Hn] Hli]. unfold header.
  pose proof (Forall_digit_not NL _ eq_refl (proj1 (dec_digits sec Hs))).
  pose proof (Forall_digit_not NL _ eq_refl (proj1 (dec6_digits usec Hu))).
  pose proof (Forall_digit_not NL _ eq_refl (proj1 (dec_digits line ltac:(lia)))).
  assert (NL ∉ str "() ") by (unfold str; simpl; rewrite !not_elem_of_cons; split_and!; [done..|apply not_elem_of_nil]).
  repeat (rewrite not_elem_of_app || rewrite not_elem_of_cons). split_and!; done.
Qed.

Lemma parse_lines_mono n n' t es : parse_lines n t = Some es → (n ≤ n')%nat → parse_lines n' t = Some es.
Proof.
  revert n' t es. induction n as [|n IH]; intros n' t es; destruct t as [|c t].
  - by destruct n'.
  - done.
  - by destruct n'.
  - intros H Hn. destruct n' as [|n']; [lia|]. cbn [parse_lines] in *.
    destruct (upto _ _ _) as [[l u]|]; [|done]. simpl in *. destruct (parse_line l); [|done]. simpl in *.
    destruct (parse_lines n u) as [es'|] eqn:E; [|done]. by rewrite (IH n' u es') by (done || lia).
Qed.

Lemma parse_log_cons l e t es :
  NL ∉ l → parse_line l = Some e → parse_log t = Some es → parse_log (l ++ NL :: t) = Some (e :: es).
Proof.
  intros Hl He Ht. unfold parse_log. apply (parse_lines_mono (S (length t))); [|rewrite length_app; simpl; lia].
  assert (∃ c u, l ++ NL :: t = c :: u) as (c & u & E) by (destruct l; eauto).
  cbn [parse_lines]. rewrite E, <-E, upto_is_not by done. simpl. rewrite He. unfold parse_log in Ht. by rewrite Ht.
Qed.

(** A log call: [log_errno] or [log_error] with its arguments. *)
Record message := Message { m_here : site; m_errno : bool; m_prio : Z; m_fmt : text; m_args : list arg }.

Section reading_back.
Context {LIBC : Libc}.
Implicit Types s : stdio.

Definition log_message (m : message) : M stdio unit :=
  if m_errno m then log_errno (m_here m) (m_prio m) (m_fmt m) (m_args m)
  else log_error (m_here m) (m_prio m) (m_fmt m) (m_args m).

(** A call with a level, a format that fits its arguments, and no newline or
    separator where it would be misread. *)
Record clean (m : message) : Prop := {
  cl_prio : 0 ≤ m_prio m ≤ 2;
  cl_msg : ∃ msg, format (m_fmt m) (m_args m) = Some msg ∧ NL ∉ msg;
  cl_file : (":"%char ∉ at_file (m_here m)) ∧ (NL ∉ at_file (m_here m));
  cl_func : ("("%char ∉ at_func (m_here m)) ∧ (NL ∉ at_func (m_here m));
  cl_line : 0 ≤ at_line (m_here m) < 2 ^ 31
}.

(** The entry [e] is what the call [m] logs in the state [s]: with the clock as
    it is read next and with the [errno] of [s]. *)
Definition logged (s : stdio) (m : message) (e : entry) : Prop :=
  ∃ msg level, format (m_fmt m) (m_args m) = Some msg ∧ loglevel_str !! Z.to_nat (m_prio m) = Some level ∧
    e = Entry (clock (calls s)).1 ((clock (calls s)).2 ÷ 1000) level
          (at_file (m_here m)) (at_line (m_here m)) (at_func (m_here m))
          (msg ++ (if m_errno m then str ": " ++ strerror_msg (errno s) else [])).

(** The entries of a sequence of calls, each of the state its call is made in. *)
Inductive logged_all : stdio → list message → list entry → Prop :=
| la_nil s : logged_all s [] []
| la_cons s s' m ms e es :
    logged s m e → log_message m s = Ok tt s' → logged_all s' ms es → logged_all s (m :: ms) (e :: es).

Lemma loglevel_ok prio : 0 ≤ prio ≤ 2 →
  ∃ level, loglevel_str !! Z.to_nat prio = Some level ∧ (" "%char ∉ level) ∧ (NL ∉ level).
Proof.
  intros Hp. assert (prio = 0 ∨ prio = 1 ∨ prio = 2) as [->|[->| ->]] by lia; eexists; (split; [reflexivity|]);
    unfold str; simpl; rewrite !not_elem_of_cons; split_and!; done || apply not_elem_of_nil.
Qed.

Lemma wp_log_message m s (Q : unit → stdio → Prop) :
  clock_ok → (∀ e, NL ∉ strerror_msg e) → clean m →
  (∀ s' l e, wrote stderr (l ++ [NL]) s s' → NL ∉ l → parse_line l = Some e → logged s m e → Q tt s') →
  wp (log_message m) Q s.
Proof.
  intros Hc He [Hp (msg & Em & Hm) Hf Hn Hl] HQ. destruct (loglevel_ok (m_prio m) Hp) as (level & El & Hlev).
  set (err := if m_errno m then str ": " ++ strerror_msg (errno s) else []).
  assert (separable level (at_file (m_here m)) (at_func (m_here m)) (at_line (m_here m))) as Hsep by done.
  pose proof (usec_range (calls s) Hc) as Hu. destruct (Hc (calls s)) as [Hs _].
  assert (NL ∉ err) as Herr.
  { unfold err. destruct (m_errno m); [|apply not_elem_of_nil]. rewrite not_elem_of_app. split; [|apply He].
    unfold str; simpl; rewrite !not_elem_of_cons; split_and!; done || apply not_elem_of_nil. }
  cut (wp (_log_write stderr (at_file (m_here m)) (at_line (m_here m)) (at_func (m_here m)) (m_errno m) (m_prio m)
             (m_fmt m) (m_args m)) Q s).
  { unfold log_message, log_errno, log_error. by destruct (m_errno m). }
  eapply wp_log_write; [done|lia|done|done|]. intros s' _ Hw. eapply HQ.
  - replace (record_text _ _ _ _ _ _ _ _) with ((header (clock (calls s)).1 ((clock (calls s)).2 ÷ 1000) level
        (at_file (m_here m)) (at_line (m_here m)) (at_func (m_here m)) ++ msg ++ err) ++ [NL]) in Hw; [exact Hw|].
    unfold record_text, appendix, err. rewrite <-!(assoc_L (++)). by destruct (m_errno m).
  - rewrite !not_elem_of_app. split_and!; try done. by apply header_no_newline.
  - by apply parse_line_header.
  - by exists msg, level.
Qed.

(** C36 One log call is one record of the log: for a level of the program and a
    format that fits its arguments, [_log_write] returns, the stream gets the
    time, level, file, line, function and message of the call, followed by the
    message of [errno] as it was when the call was made if the macro asks for
    it, whatever the library calls in between do to [errno]; nothing is written
    to any other stream. *)
Theorem log_write_record fd file line func do_errno prio level fmt args msg s :
  clock_ok → 0 ≤ prio → loglevel_str !! Z.to_nat prio = Some level → format fmt args = Some msg →
  ∃ s', _log_write fd file line func do_errno prio fmt args s = Ok tt s' ∧
    written s' fd = written s fd
      ++ dec (clock (calls s)).1 ++ str "." ++ dec6 ((clock (calls s)).2 ÷ 1000) ++ str " " ++ level ++ str " " ++ file
      ++ str ":" ++ dec line ++ str " " ++ func ++ str "() " ++ msg
      ++ (if do_errno then str ": " ++ strerror_msg (errno s) else []) ++ [NL] ∧
    ∀ f, f ≠ fd → written s' f = written s f.
Proof.
  intros Hc Hp Hl Hm. apply wp_tt. eapply wp_log_write; [done..|]. intros s' _ [-> Hw]. split; [|done].
  unfold record_text, header, appendix. destruct do_errno; repeat (rewrite <-(assoc_L (++)); simpl); done.
Qed.

(** C37 The log can be read back, if the messages are clean: for any sequence of
    log calls at the program's levels whose formatted messages contain no
    newline (one call of the program, for an unknown address family, has one),
    whose file and function names contain no newline and no separator of the
    record, for a clock that gives a time of day and error texts without a
    newline, what is added to stderr splits into one line per call, and the
    parser finds in each, in order, the time of the call in seconds and
    microseconds, the level, the file, the line, the function, the message,
    and the text of [errno] at the call if the macro asks for it. *)
Theorem log_reads_back ms s :
  clock_ok → (∀ e, NL ∉ strerror_msg e) → Forall clean ms →
  ∃ s' t es, visit log_message ms s = Ok tt s' ∧ wrote stderr t s s' ∧ parse_log t = Some es ∧ logged_all s ms es.
Proof.
  intros Hc He. revert s. induction ms as [|m ms IH]; intros s Hms.
  { exists s, [], []. split_and!; [done|by apply wrote_nil|done|constructor]. }
  apply Forall_cons in Hms as [Hm Hms]. cbn [visit].
  cut (wp (log_message m) (λ _ s1, ∃ l e, wrote stderr (l ++ [NL]) s s1 ∧ (NL ∉ l) ∧ parse_line l = Some e ∧ logged s m e) s).
  2: { apply wp_log_message; [done..|]. intros s1 l e **. by exists l, e. }
  intros ([] & s1 & E1 & l & e & W1 & Hl & El & Hlog)%wp_run.
  destruct (IH s1 Hms) as (s2 & t & es & E2 & W2 & Et & Hall). exists s2, (l ++ NL :: t), (e :: es).
  split_and!; [by rewrite (bind_Ok _ _ _ _ _ E1)| |by apply parse_log_cons|by econstructor].
  change (NL :: t) with ([NL] ++ t). rewrite (assoc_L (++)). by eapply wrote_app.
Qed.
End reading_back.

(** ** Dumped data *)

(** A byte in the notation of the dump. *)
Definition hex_byte (z : Z) : text := ["0"; "x"; digit_char (z / 16); digit_char (z mod 16); " "]%char.

Definition dump_text (tag : text) (bytes : list Z) : text :=
  tag ++ str ": " ++ concat (hex_byte <$> bytes) ++ [NL].

(** Reading a dump back. *)
Fixpoint parse_bytes (t : text) : option (list Z) :=
  match t with
  | "0"%char :: "x"%char :: a :: b :: " "%char :: t =>
      x ← digit_val a; y ← digit_val b; bs ← parse_bytes t; Some (x * 16 + y :: bs)
  | [c] => if decide (c = NL) then Some [] else None
  | _ => None
  end.

Definition parse_dump (t : text) : option (text * list Z) :=
  '(tag, t) ← upto (is_not ":") ":" t;
  match t with
  | " "%char :: t => bs ← parse_bytes t; Some (tag, bs)
  | _ => None
  end.

Lemma parse_dump_text tag bytes :
  ":"%char ∉ tag → Forall (λ b, 0 ≤ b < 256) bytes → parse_dump (dump_text tag bytes) = Some (tag, bytes).
Proof.
  intros Ht Hb. unfold parse_dump, dump_text. simpl. rewrite upto_is_not by done. simpl.
  cut (parse_bytes (concat (hex_byte <$> bytes) ++ [NL]) = Some bytes).
  { intros E. by rewrite E. }
  induction Hb as [|b bytes Hb _ IH]; [done|]. rewrite fmap_cons. cbn [concat].
  rewrite <-(assoc_L (++)). unfold hex_byte at 1. simpl.
  rewrite !digit_val_char;
    [|split; [apply Z.div_pos; lia|apply Z.div_lt_upper_bound; lia]|apply Z.mod_pos_bound; lia].
  simpl. rewrite IH. simpl. f_equal. f_equal. pose proof (Z.div_mod b 16). lia.
Qed.

(** The conversion of one byte, by cases on its 256 values. *)
Lemma format_byte b : 0 ≤ b < 256 → format (str "0x%02x ") [a_int b] = Some (hex_byte b).
Proof.
  intros Hb. assert (Forall (λ n, format (str "0x%02x ") [a_int (Z.of_nat n)]
    = Some (hex_byte (Z.of_nat n))) (seq 0 256)) as H.
  { apply (bool_decide_unpack _). vm_compute. exact I. }
  rewrite Forall_forall in H. specialize (H (Z.to_nat b)). rewrite Z2Nat.id in H by lia. apply H, elem_of_seq. lia.
Qed.

Section dumping.
Context {LIBC : Libc}.
Implicit Types s : stdio.

Lemma wrap8_byte z : 0 ≤ wrap 8 z < 256.
Proof. by apply wrap_range. Qed.

Lemma wp_dump_loop memory len i fuel s (Q : unit → stdio → Prop) :
  0 ≤ i → len ≤ Z.of_nat (length memory) → len - i ≤ Z.of_nat fuel →
  (∀ s', wrote stdout (concat (hex_byte <$>
           (wrap 8 <$> take (Z.to_nat (len - i)) (drop (Z.to_nat i) memory)))) s s' → Q tt s') →
  wp (dump_loop memory len i fuel) Q s.
Proof.
  revert i s. induction fuel as [|fuel IH]; intros i s Hi Hlen Hf HQ; cbn [dump_loop]; (z_case; [|apply wp_ret, HQ]).
  - lia.
  - replace (Z.to_nat (len - i)) with 0%nat by lia. by apply wrote_nil.
  - destruct (lookup_lt_is_Some_2 memory (Z.to_nat i) ltac:(lia)) as [c Ec]. rewrite Ec. repeat st_step.
    eapply wp_fprintf; [apply format_byte, wrap8_byte|]. intros s1 _ W1. apply IH; [lia|done|lia|].
    intros s2 W2. apply HQ. rewrite (drop_S _ _ _ Ec).
    replace (Z.to_nat (len - i)) with (S (Z.to_nat (len - (i + 1)))) by lia.
    replace (S (Z.to_nat i)) with (Z.to_nat (i + 1)) by lia. cbn [take fmap list_fmap concat].
    by eapply wrote_app.
  - replace (Z.to_nat (len - i)) with 0%nat by lia. by apply wrote_nil.
Qed.

(** C38 A dump shows exactly the bytes it was given: in a debug build
    [dump_data] writes its tag and, for each of the first [len] bytes of the
    memory (none when [len] is not positive), two hexadecimal digits, from
    which the bytes (as unsigned ones) can be read back; in a release build it
    writes nothing. *)
Theorem dump_data_reads_back tag memory len s :
  ":"%char ∉ tag → len ≤ Z.of_nat (length memory) →
  (∃ s' t, dump_data true tag memory len s = Ok tt s' ∧ wrote stdout t s s' ∧
     parse_dump t = Some (tag, wrap 8 <$> take (Z.to_nat len) memory)) ∧
  dump_data false tag memory len s = Ok tt s.
Proof.
  intros Ht Hlen. split; [|done].
  cut (wp (dump_data true tag memory len) (λ _ s', wrote stdout (dump_text tag (wrap 8 <$> take (Z.to_nat len) memory)) s s') s).
  { intros ([] & s' & E & H)%wp_run. exists s'. eexists. split_and!; [done|exact H|]. apply parse_dump_text; [done|].
    apply Forall_fmap, Forall_true. intros z. apply wrap8_byte. }
  unfold dump_data, printf. apply wp_bind. eapply wp_fprintf; [reflexivity|]. intros s1 _ W1.
  apply wp_bind, wp_dump_loop; [done|done|lia|]. intros s2 W2. eapply wp_fprintf; [reflexivity|]. intros s3 _ W3.
  rewrite Z.sub_0_r, drop_0 in W2. unfold dump_text. rewrite (assoc_L (++)).
  eapply wrote_app; [exact W1|]. by eapply wrote_app.
Qed.
End dumping.

(** ** The end of the program *)

Section ending.
Context {LIBC : Libc}.
Implicit Types s : stdio.

Definition line_of (c : call) : text := match c with c_printf l => str l | _ => [] end.

Definition help_text : text := concat (line_of <$> help_lines).

Lemma wp_print_lines cs s :
  Forall (λ c, "%"%char ∉ line_of c) cs →
  wp (visit (λ c, match c with c_printf l => fprintf stdout (str l) [] | _ => mret tt end) cs)
    (λ _ s', wrote stdout (concat (line_of <$> cs)) s s') s.
Proof.
  intros Hcs. revert s. induction Hcs as [|c cs Hc _ IH]; intros s; [by apply wrote_nil|].
  cbn [visit]. apply wp_bind, (wp_mono _ (λ _ s1, wrote stdout (line_of c) s s1)).
  - destruct c; try (by apply wrote_nil). eapply wp_fprintf; [by apply format_literal|done].
  - intros [] s1 W1. eapply wp_mono; [apply IH|]. intros [] s2 W2. by eapply wrote_app.
Qed.

(** [FATAL_WITH_HELPMSG] logs one record of level err to stderr, prints the
    help to stdout and ends the program with [EXIT_FAILURE]. *)
Theorem fatal_with_helpmsg here fmt args msg s :
  clock_ok → format fmt args = Some msg →
  ∃ s', FATAL_WITH_HELPMSG here fmt args s = Ok EXIT_FAILURE s' ∧
    written s' stderr = written s stderr ++ record_text (clock (calls s)) (errno s) (at_file here) (at_line here)
                          (at_func here) false (str "err") msg ∧
    written s' stdout = written s stdout ++ help_text.
Proof.
  intros Hc Hm.
  cut (wp (FATAL_WITH_HELPMSG here fmt args) (λ r s', r = EXIT_FAILURE ∧
         written s' stderr = written s stderr ++ record_text (clock (calls s)) (errno s) (at_file here) (at_line here)
                               (at_func here) false (str "err") msg ∧
         written s' stdout = written s stdout ++ help_text) s).
  { intros (r & s' & E & -> & H)%wp_run. eauto. }
  unfold FATAL_WITH_HELPMSG, LOGE, log_error. apply wp_bind.
  apply (wp_log_write _ _ _ _ _ _ (str "err") _ _ msg); [exact Hc|done|reflexivity|exact Hm|]. intros s1 _ [W1 W2].
  apply wp_bind. eapply wp_mono; [apply wp_print_lines|].
  - apply (bool_decide_unpack _). vm_compute. exact I.
  - intros [] s2 [W3 W4]. split; [done|]. by rewrite W4, W1, W3, W2.
Qed.

(** The message of [validateAddrPort] for an unknown family ends in a newline
    of its own, so its record is followed by an empty line, which is no
    record. *)
Theorem unknown_family_message_breaks_line here s :
  clock_ok →
  ∃ s' t, LOGE here (str "unknown sockaddr_storage ss_family" ++ [NL]) [] s = Ok tt s' ∧ wrote stderr (t ++ [NL; NL]) s s'.
Proof.
  intros Hc. cut (wp (LOGE here (str "unknown sockaddr_storage ss_family" ++ [NL]) [])
                    (λ _ s', ∃ t, wrote stderr (t ++ [NL; NL]) s s') s).
  { intros ([] & s' & E & t & W)%wp_run. eauto. }
  unfold LOGE, log_error. eapply (wp_log_write _ _ _ _ _ _ (str "err")); [exact Hc|done|reflexivity|apply format_literal|].
  - apply (bool_decide_unpack _). vm_compute. exact I.
  - intros s' _ W. unfold record_text, appendix in W. change [NL; NL] with ([NL] ++ [NL]).
    eexists. rewrite !(assoc_L (++)) in *. exact W.
Qed.
End ending.

(** ** Concrete logs *)

(** A libc whose calls all overwrite [errno]. *)
Definition ex_libc : Libc :=
  {| clock n := (1570000000, 250000999 + Z.of_nat (n mod 8));
     strerror_msg e := if e =? 98 then str "Address already in use" else str "Success";
     errno_after _ _ := 0 |}.

Definition ex_stdio : stdio := Stdio 98 0 (λ _, []).

Lemma ex_clock_ok : clock_ok (LIBC:=ex_libc).
Proof. intros n. simpl. pose proof (Nat.mod_upper_bound n 8). lia. Qed.

Definition ex_bind_failed : message :=
  Message (Site (str "listener.c") 145 (str "listener_init")) true LOG_ERR (str "fail to bind") [].

Definition ex_splice_failed : message :=
  Message (Site (str "splicepump.c") 143 (str "transocks_single_splice")) true LOG_ERR
    (str "splice from: %d, to: %d, want_len: %zu, ret %zd") [a_int 7; a_int 8; a_size 4096; a_size (-1)].

Lemma log_write_record_witness :
  ∃ s', _log_write (LIBC:=ex_libc) stderr (str "listener.c") 145 (str "listener_init") true LOG_ERR
          (str "fail to bind") [] ex_stdio = Ok tt s' ∧
    written s' stderr
      = str "1570000000.250000 err listener.c:145 listener_init() fail to bind: Address already in use" ++ [NL] ∧
    ∀ f, f ≠ stderr → written s' f = [].
Proof.

  apply (log_write_record (LIBC:=ex_libc) stderr (str "listener.c") 145 (str "listener_init") true LOG_ERR (str "err")
           (str "fail to bind") [] (str "fail to bind") ex_stdio ex_clock_ok); done.
Defined.

Ltac concrete_clean :=
  split; [simpl; unfold LOG_ERR; lia|eexists; split; [vm_compute; reflexivity|]|split|split|simpl; lia];
  (apply (bool_decide_unpack _); vm_compute; exact I).

Lemma log_reads_back_witness :
  ∃ s' t es, visit (log_message (LIBC:=ex_libc)) [ex_bind_failed; ex_splice_failed] ex_stdio = Ok tt s' ∧
    wrote stderr t ex_stdio s' ∧ parse_log t = Some es ∧
    logged_all (LIBC:=ex_libc) ex_stdio [ex_bind_failed; ex_splice_failed] es.
Proof.
  apply (log_reads_back (LIBC:=ex_libc) [ex_bind_failed; ex_splice_failed] ex_stdio ex_clock_ok).
  - intros e. simpl. destruct (e =? 98); apply (bool_decide_unpack _); vm_compute; exact I.
  - constructor; [concrete_clean|constructor; [concrete_clean|constructor]].
Defined.

Lemma dump_data_reads_back_witness :
  (∃ s' t, dump_data (LIBC:=ex_libc) true (str "request") [5; 1; -1] 3 ex_stdio = Ok tt s' ∧
     wrote stdout t ex_stdio s' ∧ parse_dump t = Some (str "request", [5; 1; 255])) ∧
  dump_data (LIBC:=ex_libc) false (str "request") [5; 1; -1] 3 ex_stdio = Ok tt ex_stdio.
Proof.
  apply (dump_data_reads_back (LIBC:=ex_libc) (str "request") [5; 1; -1] 3 ex_stdio); [|done].
  apply (bool_decide_unpack _). vm_compute. exact I.
Defined.
