(* ===== verification/Inv.v ===== *)
(** * The invariant of the event loop

    The invariant [inv] of the event loop, for either pump: the list of
    clients is exactly the live clients, every live object belongs to the
    environment or to exactly one listed client, and the callbacks a client's
    bufferevents carry are those of the phase it is in.  What the callbacks of
    the handshake, the listener and the release of a client do is shown to keep
    it; the callbacks of the two pumps follow in the files of their own. *)

From S2P Require Import Prelude DList ListSpec Structs World Util Context BufferPump SplicePump Pump Socks5 Listener Main Kept.
Local Open Scope Z_scope.

(** ** The invariant *)

Definition silent (b : bufferevent) : Prop := bev_readcb b = None ∧ bev_writecb b = None ∧ bev_eventcb b = None.

(** What depends on the pump: its implementation and name, the heaps of its
    objects, and the events it registered for its clients. *)
Record config := Config {
  cf_impl : pump_ref;
  cf_name : string;
  cf_heaps : gmap Z transocks_splicepump * gmap Z transocks_splicepipe * gmap Z (list Z);
  cf_extra : gset Z
}.

(** A pump without objects of its own. *)
Definition idle_config (r : pump_ref) (name : string) : config := Config r name (∅, ∅, ∅) ∅.

(** The buffer pump never has any. *)
Definition buffer_config : config := idle_config transocks_bufferpump_ops_ref PUMPMETHOD_BUFFER.

(** The state of the client at [p] and the callbacks of its two sides.  The
    splice pump leaves the callbacks of the handshake in place. *)
Inductive phase (k : config) (p : Z) : transocks_client_state → bufferevent → bufferevent → Prop :=
| ph_connecting cb rb :
    silent cb → handlers rb = (None, None, Some fn_relay_onconnect_eventcb, p) → phase k p client_NEW cb rb
| ph_method cb rb :
    silent cb →
    handlers rb = (Some fn_socks_on_server_selected_method_readcb, None, Some fn_socks_handshake_stage_errcb, p) →
    phase k p client_relay_connected cb rb
| ph_reply cb rb :
    silent cb →
    handlers rb = (Some fn_socks_on_server_connect_reply_readcb, None, Some fn_socks_handshake_stage_errcb, p) →
    phase k p client_relay_connected cb rb
| ph_pumping cb rb :
    cf_impl k = transocks_bufferpump_ops_ref →
    handlers cb = (Some fn_transocks_client_readcb, Some fn_transocks_client_writecb, Some fn_transocks_client_eventcb, p) →
    handlers rb = (Some fn_transocks_relay_readcb, Some fn_transocks_relay_writecb, Some fn_transocks_relay_eventcb, p) →
    phase k p client_pumping_data cb rb
| ph_splicing cb rb :
    cf_impl k = transocks_splicepump_ops_ref → silent cb →
    handlers rb = (Some fn_socks_on_server_connect_reply_readcb, None, Some fn_socks_handshake_stage_errcb, p) →
    phase k p client_pumping_data cb rb.

Definition in_phase (k : config) (s : state) (p : Z) (c : transocks_client) : Prop :=
  ∃ cb rb, bevs s !! client_bev c = Some cb ∧ bevs s !! relay_bev c = Some rb ∧ phase k p (client_state c) cb rb.

(** The connections as a state machine.  How far the client at [p] got is read
    off its state and the callback that waits for the relay. *)
Inductive stage := Connecting | Greeting | Requesting | Relaying.

#[global] Instance stage_eq_dec : EqDecision stage.
Proof. solve_decision. Defined.

Definition stage_of (s : state) (p : Z) : option stage :=
  c ← clients s !! p;
  match client_state c with
  | client_NEW => Some Connecting
  | client_relay_connected =>
      rb ← bevs s !! relay_bev c;
      match bev_readcb rb with
      | Some fn_socks_on_server_selected_method_readcb => Some Greeting
      | Some fn_socks_on_server_connect_reply_readcb => Some Requesting
      | _ => None
      end
  | client_pumping_data => Some Relaying
  | _ => None
  end.

Definition connections (ps : list Z) (s : state) : list (Z * option stage) := (λ p, (p, stage_of s p)) <$> ps.

(** The stages follow each other in one order. *)
Inductive next_stage : option stage → option stage → Prop :=
| ns_connected : next_stage (Some Connecting) (Some Greeting)
| ns_method : next_stage (Some Greeting) (Some Requesting)
| ns_reply : next_stage (Some Requesting) (Some Relaying).

(** What SIGUSR1 leaves: the buffer pump releases every client, the splice pump
    only those that relay data. *)
Definition spared (r : pump_ref) (l : list (Z * option stage)) : list (Z * option stage) :=
  match r with
  | transocks_bufferpump_ops_ref => []
  | transocks_splicepump_ops_ref => filter (λ x, x.2 ≠ Some Relaying) l
  end.

(** Whom an event is for: the listening socket, SIGUSR1, the other signals, the
    timeout of the connection [p], or any other event of [p]. *)
Inductive actor := Listening | Dropping | Watching | Expired (p : Z) | Acting (p : Z).

(** SIGUSR1 and a timeout never leave things as they are. *)
Definition may_idle (o : actor) : bool := match o with Dropping | Expired _ => false | _ => true end.

(** One event: an event of the listening socket may accept a connection,
    SIGUSR1 drops what the pump drops, the timeout of [p] ends [p], another
    event of the connection [p] may move [p] one stage on or end it. *)
Inductive session_step (r : pump_ref) : actor → list (Z * option stage) → list (Z * option stage) → Prop :=
| ss_idle o l : may_idle o = true → session_step r o l l
| ss_accept l p : p ∉ l.*1 → session_step r Listening l (l ++ [(p, Some Connecting)])
| ss_drop_all l : session_step r Dropping l (spared r l)
| ss_advance p a b l1 l2 : next_stage a b → session_step r (Acting p) (l1 ++ (p, a) :: l2) (l1 ++ (p, b) :: l2)
| ss_close p a l1 l2 : session_step r (Acting p) (l1 ++ (p, a) :: l2) (l1 ++ l2)
| ss_expire p a l1 l2 : session_step r (Expired p) (l1 ++ (p, a) :: l2) (l1 ++ l2).

Lemma spared_sub r l x : x ∈ spared r l → x ∈ l.
Proof. destruct r; simpl; [|by intros []%elem_of_nil]. by intros [_ H]%list_elem_of_filter. Qed.

(** A connection that is in a stage after a step was in it before, or in the
    stage before it, or is new. *)
Lemma session_step_stage r o l l' p b :
  session_step r o l l' → (p, Some b) ∈ l' →
  b = Connecting ∨ (p, Some b) ∈ l ∨ ∃ a, next_stage a (Some b) ∧ (p, a) ∈ l.
Proof.
  intros [|l0 q Hq|l0|q a b' l1 l2 Hn|q a l1 l2|q a l1 l2] Hin; [by auto|set_solver|by eauto using spared_sub| |set_solver..].
  destruct (decide (p = q ∧ Some b = b')) as [[-> <-]|Hne]; [|right; left; set_solver].
  do 2 right. exists a. split; [done|set_solver].
Qed.

(** Without a connection in its handshake both pumps make the same steps. *)
Lemma session_step_pumps r o l l' :
  session_step r o l l' → (o = Dropping → ∀ x, x ∈ l → x.2 = Some Relaying) →
  session_step transocks_bufferpump_ops_ref o l l'.
Proof.
  intros [| |l0| | |] Hl; try by constructor. replace (spared r l0) with (spared transocks_bufferpump_ops_ref l0); [constructor|].
  destruct r; [|done]. simpl. symmetry. apply elem_of_nil_inv. intros x [Hne Hx]%list_elem_of_filter. by apply Hne, Hl.
Qed.

Definition has_timeout (s : state) (p : Z) (c : transocks_client) : Prop :=
  ∃ t, evs s !! timeout_ev c = Some t ∧ ev_cb t = fn_socks5_timeout_cb ∧ ev_arg t = p.

Record client_inv (k : config) (s : state) (env p : Z) (c : transocks_client) : Prop := {
  ci_env : global_env c = env;
  ci_ok : client_ok s p c;
  ci_set x : x ∈ client_handles c → x ≠ NULL;
  ci_dump : dumpable s c;
  ci_timer : has_timeout s p c;
  ci_phase : in_phase k s p c
}.

(** The events of the environment and their callbacks. *)
Definition env_events (e : transocks_global_env) (lev : Z) : list (Z * fn) :=
  [(lev, fn_listener_cb); (sigterm_ev e, fn_terminate_signal_cb); (sigint_ev e, fn_terminate_signal_cb);
   (sighup_ev e, fn_dump_client_info_signal_cb); (sigusr1_ev e, fn_drop_all_clients_signal_cb)].

Definition env_handles (e : transocks_global_env) (lev : Z) : list Z :=
  bind_addr e :: relay_addr e :: (env_events e lev).*1.

Record env_inv (k : config) (s : state) (env : Z) (e : transocks_global_env) (lfd lev : Z) : Prop := {
  ei_envs : envs s = {[env := e]};
  ei_bases : bases s = {[eventBaseLoop e := tt]};
  ei_listeners : listeners s = {[listener e := TransocksListener (Some lfd) (Some lev)]};
  ei_strs : strs s = {[pump_method_name e := cf_name k]};
  ei_pump : pumpMethodImpl s = Some (cf_impl k);
  ei_heaps : pump_heaps s = cf_heaps k;
  ei_bind : addr_printable s (bind_addr e) (Some (bind_addr_len e));
  ei_relay : ∃ a, addrs s !! relay_addr e = Some (Some a);
  ei_evs v f : (v, f) ∈ env_events e lev → ∃ t, evs s !! v = Some t ∧ ev_cb t = f ∧ ev_arg t = env;
  ei_apart : NoDup (env_handles e lev)
}.

(** The clients of the list are [ps]. *)
Record inv (k : config) (env : Z) (e : transocks_global_env) (lfd lev : Z) (ps : list Z) (s : state) : Prop := {
  in_wf : wf s;
  in_env : env_inv k s env e lfd lev;
  in_list : dlist (nodes s) (clients_head env) (client_node <$> ps);
  in_dom p : is_Some (clients s !! p) ↔ p ∈ ps;
  in_client p c : clients s !! p = Some c → client_inv k s env p c;
  in_apart p q c c' x : p ≠ q → clients s !! p = Some c → clients s !! q = Some c' →
    x ∈ client_handles c → x ∉ client_handles c';
  in_env_apart p c x : clients s !! p = Some c → x ∈ client_handles c → x ∉ env_handles e lev;
  in_nodes n : is_Some (nodes s !! n) → n ∈ clients_head env :: (client_node <$> ps);
  in_addrs a : is_Some (addrs s !! a) → a = bind_addr e ∨ a = relay_addr e ∨
    ∃ p c, clients s !! p = Some c ∧ (a = client_addr c ∨ a = dest_addr c);
  in_bevs b : is_Some (bevs s !! b) → ∃ p c, clients s !! p = Some c ∧ (b = client_bev c ∨ b = relay_bev c);
  in_evs v : is_Some (evs s !! v) →
    v ∈ (env_events e lev).*1 ∨ (∃ p c, clients s !! p = Some c ∧ v = timeout_ev c) ∨ v ∈ cf_extra k;
  in_extra v : v ∈ cf_extra k →
    is_Some (evs s !! v) ∧ (v ∉ env_handles e lev) ∧ (∀ p c, clients s !! p = Some c → v ∉ client_handles c)
}.

Arguments ci_env {k s env p c} _.
Arguments ci_ok {k s env p c} _.
Arguments ci_set {k s env p c} _ _ _.
Arguments ci_dump {k s env p c} _.
Arguments ci_timer {k s env p c} _.
Arguments ci_phase {k s env p c} _.
Arguments ei_envs {k s env e lfd lev} _.
Arguments ei_bases {k s env e lfd lev} _.
Arguments ei_listeners {k s env e lfd lev} _.
Arguments ei_strs {k s env e lfd lev} _.
Arguments ei_pump {k s env e lfd lev} _.
Arguments ei_heaps {k s env e lfd lev} _.
Arguments ei_bind {k s env e lfd lev} _.
Arguments ei_relay {k s env e lfd lev} _.
Arguments ei_evs {k s env e lfd lev} _ _ _ _.
Arguments ei_apart {k s env e lfd lev} _.
Arguments in_wf {k env e lfd lev ps s} _.
Arguments in_env {k env e lfd lev ps s} _.
Arguments in_list {k env e lfd lev ps s} _.
Arguments in_dom {k env e lfd lev ps s} _ _.
Arguments in_client {k env e lfd lev ps s} _ _ _ _.
Arguments in_apart {k env e lfd lev ps s} _ _ _ _ _ _ _ _ _ _ _.
Arguments in_env_apart {k env e lfd lev ps s} _ _ _ _ _ _ _.
Arguments in_nodes {k env e lfd lev ps s} _ _ _.
Arguments in_addrs {k env e lfd lev ps s} _ _ _.
Arguments in_bevs {k env e lfd lev ps s} _ _ _.
Arguments in_evs {k env e lfd lev ps s} _ _ _.
Arguments in_extra {k env e lfd lev ps s} _ _ _.

(** The handles of a client. *)
Ltac handle_in := unfold client_handles; rewrite !elem_of_cons; tauto.

Section generic.
Context {k : config}.

(** The stage of a client whose objects did not change. *)
Lemma stage_frame s s' p c :
  clients s !! p = Some c → clients s' !! p = Some c → bevs s' !! relay_bev c = bevs s !! relay_bev c →
  stage_of s' p = stage_of s p.
Proof. intros H1 H2 H3. unfold stage_of. rewrite H1, H2. simpl. by rewrite H3. Qed.

Lemma stage_at s p c rb g :
  clients s !! p = Some c → bevs s !! relay_bev c = Some rb → client_state c = client_relay_connected →
  bev_readcb rb = Some g →
  stage_of s p = match g with
                 | fn_socks_on_server_selected_method_readcb => Some Greeting
                 | fn_socks_on_server_connect_reply_readcb => Some Requesting
                 | _ => None
                 end.
Proof. intros H1 H2 H3 H4. unfold stage_of. rewrite H1. simpl. rewrite H3, H2. simpl. by rewrite H4. Qed.

Lemma connections_app l1 l2 s : connections (l1 ++ l2) s = connections l1 s ++ connections l2 s.
Proof. apply fmap_app. Qed.

Lemma connections_frame ps s s' : (∀ q, q ∈ ps → stage_of s' q = stage_of s q) → connections ps s' = connections ps s.
Proof. intros H. apply list_fmap_ext. intros i q Hq%list_elem_of_lookup_2. by rewrite H. Qed.

Lemma phase_alive p st cb rb : phase k p st cb rb → is_destroyed st = false.
Proof. by destruct 1. Qed.

(** The environment's part of a state that kept its globals and addresses and
    the environment's events. *)
Lemma env_inv_mono s s' env e lfd lev :
  env_inv k s env e lfd lev → same_globals s s' → pump_heaps s' = pump_heaps s →
  (∀ v, v ∈ env_handles e lev → addrs s' !! v = addrs s !! v ∧ evs s' !! v = evs s !! v) →
  env_inv k s' env e lfd lev.
Proof.
  intros [] [] Hh Hv. split; try congruence.
  - destruct ei_bind0 as (a & n & ? & ? & ?). exists a, n. split; [|done].
    rewrite (proj1 (Hv (bind_addr e) ltac:(unfold env_handles; set_solver))). done.
  - by rewrite (proj1 (Hv (relay_addr e) ltac:(unfold env_handles; set_solver))).
  - intros v f Hin. assert (v ∈ env_handles e lev) as Hvin.
    { unfold env_handles. do 2 right. by apply (list_elem_of_fmap_2' fst _ (v, f)). }
    rewrite (proj2 (Hv v Hvin)). by apply ei_evs0.
Qed.

(** What a client needs is there in a state that kept its objects. *)
Lemma client_inv_mono s s' env p c :
  client_inv k s env p c → clients s' !! p = Some c →
  (∀ x, x ∈ client_handles c → addrs s' !! x = addrs s !! x ∧ bevs s' !! x = bevs s !! x ∧ evs s' !! x = evs s !! x) →
  client_inv k s' env p c.
Proof.
  intros [? [] ? [(sa & n & ? & ? & ?) (sa' & n' & ? & ? & ?)] (t & ? & ?) (cb & rb & ? & ? & ?)] Hc Hx.
  pose proof (Hx (client_addr c)) as (A1 & _ & _); [handle_in|].
  pose proof (Hx (dest_addr c)) as (A2 & _ & _); [handle_in|].
  pose proof (Hx (client_bev c)) as (_ & B1 & _); [handle_in|].
  pose proof (Hx (relay_bev c)) as (_ & B2 & _); [handle_in|].
  pose proof (Hx (timeout_ev c)) as (_ & _ & E1); [handle_in|].
  split; try done.
  - split; unfold handle_ok; rewrite ?A1, ?A2, ?B1, ?B2, ?E1; done.
  - split; [exists sa, n|exists sa', n']; rewrite ?A1, ?A2; done.
  - exists t. by rewrite E1.
  - exists cb, rb. by rewrite B1, B2.
Qed.

(** ** A callback that changes one client *)

(** The fields of a client that never change. *)
Definition same_identity (c c1 : transocks_client) : Prop :=
  same_handles c c1 ∧ global_env c1 = global_env c ∧ client_addr_len c1 = client_addr_len c ∧
  dest_addr_len c1 = dest_addr_len c.

Lemma same_handles_handles c c1 : same_handles c c1 → client_handles c1 = client_handles c.
Proof. intros (E1 & E2 & E3 & E4 & E5). unfold client_handles. by rewrite E1, E2, E3, E4, E5. Qed.

Lemma near_evs p c c1 s s1 q : near p c c1 s s1 → q ≠ timeout_ev c → evs s1 !! q = evs s !! q.
Proof.
  intros H Hq. by rewrite <-(lookup_delete_ne (evs s1) (timeout_ev c)), (nr_evs _ _ _ _ _ H), lookup_delete_ne.
Qed.

Lemma near_bevs p c c1 s s1 q :
  near p c c1 s s1 → q ≠ client_bev c → q ≠ relay_bev c → bevs s1 !! q = bevs s !! q.
Proof.
  intros H H1 H2. rewrite <-(lookup_delete_ne (bevs s1) (relay_bev c)) by done.
  rewrite <-(lookup_delete_ne (delete _ (bevs s1)) (client_bev c)) by done.
  by rewrite (nr_bevs _ _ _ _ _ H), !lookup_delete_ne.
Qed.

Lemma client_inv_goes_on s s' env p c c1 :
  wf s → client_inv k s env p c → same_identity c c1 → goes_on p c c1 s s' → in_phase k s' p c1 → client_inv k s' env p c1.
Proof.
  intros Hwf [He Hok Hset Hd (t & Ht & Hcb & Harg) _] (Hh & Eg & El1 & El2) [Hnr Htk] Hph.
  destruct (near_ok _ _ _ _ _ (wf_null_ok _ Hwf) Hok Hnr) as [_ Hok1].
  pose proof Hh as (E1 & E2 & E3 & E4 & E5). split; try done.
  - congruence.
  - by rewrite (same_handles_handles _ _ Hh).
  - unfold dumpable, addr_printable in *. by rewrite E1, E2, El1, El2, (nr_addrs _ _ _ _ _ Hnr).
  - unfold has_timeout. rewrite E5. by apply (Htk t).
Qed.

(** A client is in the list once. *)
Lemma split_once env e lfd lev l1 p l2 s : inv k env e lfd lev (l1 ++ p :: l2) s → p ∉ l1 ++ l2.
Proof.
  intros Hinv. pose proof (in_list Hinv) as [[_ Hnd]%NoDup_cons _].
  apply NoDup_fmap_1 in Hnd. apply NoDup_app in Hnd as (_ & H1 & [H2 _]%NoDup_cons). set_solver.
Qed.

(** Only listed clients have a stage. *)
Lemma stage_listed env e lfd lev ps s p b : inv k env e lfd lev ps s → stage_of s p = Some b → p ∈ ps.
Proof.
  intros Hinv H. apply (in_dom Hinv). unfold stage_of in H. destruct (clients s !! p); [eauto|done].
Qed.

Lemma listed_stage env e lfd lev ps s p : inv k env e lfd lev ps s → p ∈ ps → ∃ b, stage_of s p = Some b.
Proof.
  intros Hinv [c Hc]%(in_dom Hinv).
  destruct (ci_phase (in_client Hinv _ _ Hc)) as (cb & rb & _ & Hrb & Hph).
  unfold stage_of. rewrite Hc. simpl. destruct Hph as [? ? _ _|? ? _ H|? ? _ H| |]; [eauto|..|eauto|eauto];
    rewrite Hrb; simpl; unfold handlers in H; injection H as -> _ _ _; eauto.
Qed.

Section one_client.
Context (env : Z) (e : transocks_global_env) (lfd lev : Z) (ps : list Z) (s s' : state) (p : Z) (c : transocks_client).
Context (Hinv : inv k env e lfd lev ps s) (Hp : clients s !! p = Some c) (Hg : same_globals s s') (Hwf' : wf s').

(** The objects of another client and of the environment are not [c]'s. *)
Lemma other_not_mine q c' x y :
  q ≠ p → clients s !! q = Some c' → x ∈ client_handles c' → y ∈ client_handles c → x ≠ y.
Proof. intros Hq Hc' Hx Hy ->. by apply (in_apart Hinv q p c' c y). Qed.

Lemma env_not_mine x y : x ∈ env_handles e lev → y ∈ client_handles c → x ≠ y.
Proof. intros Hx Hy ->. by apply (in_env_apart Hinv p c y). Qed.

Lemma inv_goes_on c1 :
  goes_on p c c1 s s' → same_identity c c1 → in_phase k s' p c1 → inv k env e lfd lev ps s'.
Proof.
  intros Hgo Hid Hph. pose proof Hgo as [Hnr _]. pose proof Hid as [Hh _].
  assert (∀ y, y ∈ [client_addr c; dest_addr c; client_bev c; relay_bev c; timeout_ev c] → y ∈ client_handles c) as Hmine by done.
  assert (clients s' = <[p := c1]> (clients s)) as Hcl by apply (nr_clients _ _ _ _ _ Hnr).
  assert (∀ q c', clients s' !! q = Some c' → ∃ c0, clients s !! q = Some c0 ∧ client_handles c' = client_handles c0) as Hold.
  { intros q c'. rewrite Hcl, lookup_insert. case_decide; [|eauto]. subst. intros [= <-].
    exists c. split; [done|]. by apply same_handles_handles. }
  assert (∀ q c0, clients s !! q = Some c0 → ∃ c', clients s' !! q = Some c' ∧ same_handles c0 c') as Hnew.
  { intros q c0 Hc0. rewrite Hcl, lookup_insert. case_decide; [|by exists c0]. exists c1. split; [done|]. by simplify_eq. }
  split; [done|..].
  - eapply env_inv_mono; [apply Hinv|done|apply (nr_heaps _ _ _ _ _ Hnr)|]. intros v Hv.
    rewrite (nr_addrs _ _ _ _ _ Hnr). split; [done|]. eapply near_evs; [done|]. apply env_not_mine; [done|]. apply Hmine. set_solver.
  - rewrite (nr_nodes _ _ _ _ _ Hnr). apply Hinv.
  - intros q. rewrite Hcl, (insert_live _ _ _ _ _ Hp). apply Hinv.
  - intros q c'. destruct (decide (q = p)) as [->|Hq].
    + rewrite Hcl, lookup_insert_eq. intros [= <-].
      eapply client_inv_goes_on; [apply Hinv|by apply (in_client Hinv)|done|done|done].
    + intros Hc'. pose proof Hc' as Hc0. rewrite Hcl, lookup_insert_ne in Hc0 by done.
      eapply client_inv_mono; [by eapply (in_client Hinv)|done|].
      intros x Hx. rewrite (nr_addrs _ _ _ _ _ Hnr). split_and!; [done|eapply near_bevs; [done|..]|eapply near_evs; [done|]];
        (eapply other_not_mine; [done|done|done|apply Hmine; set_solver]).
  - intros q1 q2 c1' c2' x Hne H1 H2 Hx. destruct (Hold _ _ H1) as (d1 & D1 & E1), (Hold _ _ H2) as (d2 & D2 & E2).
    rewrite E2. rewrite E1 in Hx. by eapply (in_apart Hinv q1 q2).
  - intros q c' x Hc' Hx. destruct (Hold _ _ Hc') as (d & D & E). rewrite E in Hx. by eapply (in_env_apart Hinv).
  - rewrite (nr_nodes _ _ _ _ _ Hnr). apply Hinv.
  - intros a. rewrite (nr_addrs _ _ _ _ _ Hnr). intros [?|[?|(q & c0 & Hq & Ha)]]%(in_addrs Hinv); [auto..|].
    destruct (Hnew _ _ Hq) as (c' & ? & F1 & F2 & _). do 2 right. exists q, c'. by rewrite F1, F2.
  - intros b. rewrite (nr_bevs_live _ _ _ _ _ Hnr). intros (q & c0 & Hq & Hb)%(in_bevs Hinv).
    destruct (Hnew _ _ Hq) as (c' & ? & _ & _ & F1 & F2 & _). exists q, c'. by rewrite F1, F2.
  - intros v. rewrite (nr_evs_live _ _ _ _ _ Hnr). intros [?|[(q & c0 & Hq & Hv)|?]]%(in_evs Hinv); [auto| |auto].
    destruct (Hnew _ _ Hq) as (c' & ? & _ & _ & _ & _ & F1). right. left. exists q, c'. by rewrite F1.
  - intros v (Hl & He & Hx)%(in_extra Hinv). split_and!; [by apply (nr_evs_live _ _ _ _ _ Hnr)|done|].
    intros q c' Hc'. destruct (Hold _ _ Hc') as (d & D & E). rewrite E. by eapply Hx.
Qed.

(** The other connections stay in their stages. *)
Lemma others_goes_on c1 q : goes_on p c c1 s s' → q ≠ p → q ∈ ps → stage_of s' q = stage_of s q.
Proof.
  intros [Hnr _] Hq [c' Hc']%(in_dom Hinv). eapply stage_frame; [done| |].
  - by rewrite (nr_clients _ _ _ _ _ Hnr), lookup_insert_ne.
  - eapply near_bevs; [done|..]; (eapply other_not_mine; [done|done|handle_in..]).
Qed.

Lemma others_gone head l1 l2 q : gone p c head l1 l2 s s' → q ≠ p → q ∈ ps → stage_of s' q = stage_of s q.
Proof.
  intros [G1 _ G3 _ _ _ _ _] Hq [c' Hc']%(in_dom Hinv). eapply stage_frame; [done| |].
  - by rewrite G1, lookup_delete_ne.
  - rewrite G3, !lookup_delete_ne; [done|apply not_eq_sym; eapply other_not_mine; [done|done|handle_in..]..].
Qed.

(** ** A callback that ends one client *)

Lemma inv_gone l1 l2 :
  ps = l1 ++ p :: l2 →
  gone p c (clients_head env) (client_node <$> l1) (client_node <$> l2) s s' → inv k env e lfd lev (l1 ++ l2) s'.
Proof.
  intros Eps [G1 G2 G3 G4 G5 G6 G7 G8].
  assert (∀ y, y ∈ [client_addr c; dest_addr c; client_bev c; relay_bev c; timeout_ev c] → y ∈ client_handles c) as Hmine by done.
  pose proof (in_list Hinv) as Hlist. rewrite Eps, fmap_app, fmap_cons in Hlist.
  assert (∀ q c', clients s' !! q = Some c' ↔ q ≠ p ∧ clients s !! q = Some c') as Hcl.
  { intros q c'. rewrite G1, lookup_delete_Some. naive_solver. }
  split; [done|..].
  - eapply env_inv_mono; [apply Hinv|done|done|]. intros v Hv. rewrite G2, G4.
    rewrite !lookup_delete_ne; [done|apply not_eq_sym, env_not_mine; [done|apply Hmine; set_solver]..].
  - by rewrite fmap_app.
  - intros q. rewrite G1, lookup_delete_is_Some, (in_dom Hinv q), Eps.
    assert (p ∉ l1 ++ l2) as Hpn by (eapply split_once; rewrite <-Eps; done).
    split; [set_solver|]. intros Hq. split; [intros ->; done|set_solver].
  - intros q c' [Hq Hc']%Hcl. eapply client_inv_mono; [by eapply (in_client Hinv)|by apply Hcl|].
    intros x Hx. rewrite G2, G3, G4.
    rewrite !lookup_delete_ne; [done|apply not_eq_sym; eapply other_not_mine; [done|done|done|apply Hmine; set_solver]..].
  - intros q1 q2 c1 c2 x Hne [_ H1]%Hcl [_ H2]%Hcl. by eapply (in_apart Hinv q1 q2).
  - intros q c' x [_ Hc']%Hcl. by eapply (in_env_apart Hinv).
  - intros n Hn. destruct (decide (n = client_node p)) as [->|Hnp]; [rewrite G6 in Hn; by destruct Hn|].
    destruct (decide (n ∈ clients_head env :: (client_node <$> l1) ++ client_node p :: (client_node <$> l2))) as [Hin|Hout].
    + rewrite fmap_app. set_solver.
    + rewrite (G7 n Hout) in Hn. apply (in_nodes Hinv) in Hn. rewrite Eps, fmap_app, fmap_cons in Hn. done.
  - intros a. rewrite G4, !lookup_delete_is_Some. intros (H1 & H2 & [?|[?|(q & c0 & Hq & Ha)]]%(in_addrs Hinv)); [auto..|].
    do 2 right. exists q, c0. split; [|done]. apply Hcl. split; [|done]. intros ->. simplify_eq. naive_solver.
  - intros b. rewrite G3, !lookup_delete_is_Some. intros (H1 & H2 & (q & c0 & Hq & Hb)%(in_bevs Hinv)).
    exists q, c0. split; [|done]. apply Hcl. split; [|done]. intros ->. simplify_eq. naive_solver.
  - intros v. rewrite G2, lookup_delete_is_Some. intros (H1 & [?|[(q & c0 & Hq & Hv)|?]]%(in_evs Hinv)); [auto| |auto].
    right. left. exists q, c0. split; [|done]. apply Hcl. split; [|done]. intros ->. by simplify_eq.
  - intros v (Hl & He & Hx)%(in_extra Hinv). split_and!; [|done|intros q c' [_ Hc']%Hcl; by eapply Hx].
    rewrite G2, lookup_delete_ne; [done|]. intros <-. apply (Hx p c Hp), Hmine. set_solver.
Qed.
End one_client.

(** ** A callback that adds a client *)

Section add_client.
Context (env : Z) (e : transocks_global_env) (lfd lev : Z) (ps : list Z) (s : state).
Context (Hinv : inv k env e lfd lev ps s).

(** The objects of the clients and the environment are below the frontier. *)
Lemma client_handles_old p c x : clients s !! p = Some c → x ∈ client_handles c → x < brk s.
Proof.
  intros Hp Hx. pose proof (in_client Hinv _ _ Hp) as Hc. pose proof (in_wf Hinv) as Hwf.
  pose proof (ci_set Hc _ Hx) as Hn. destruct (ci_ok Hc). unfold client_handles in Hx.
  rewrite !elem_of_cons in Hx. destruct Hx as [->|[->|[->|[->|[->|[]%elem_of_nil]]]]].
  - by apply (wf_addrs _ Hwf), handle_live.
  - by apply (wf_addrs _ Hwf), handle_live.
  - by apply (wf_bevs _ Hwf), handle_live.
  - by apply (wf_bevs _ Hwf), handle_live.
  - by apply (wf_evs _ Hwf), handle_live.
Qed.

Lemma env_handles_old x : x ∈ env_handles e lev → x < brk s.
Proof.
  pose proof (in_wf Hinv) as Hwf. destruct (in_env Hinv). unfold env_handles.
  rewrite !elem_of_cons. intros [->|[->|([v f] & -> & Hv)%list_elem_of_fmap]].
  - destruct ei_bind0 as (a & n & ? & _). apply (wf_addrs _ Hwf). eauto.
  - destruct ei_relay0 as (a & ?). apply (wf_addrs _ Hwf). eauto.
  - destruct (ei_evs0 v f Hv) as (t & ? & _). apply (wf_evs _ Hwf). eauto.
Qed.

Lemma inv_add s' p c :
  same_globals s s' → wf s' → clients s !! p = None → (∀ x, x ∈ client_handles c → brk s ≤ x) →
  clients s' = <[p := c]> (clients s) →
  (∀ x, x < brk s → addrs s' !! x = addrs s !! x ∧ bevs s' !! x = bevs s !! x ∧ evs s' !! x = evs s !! x) →
  (∀ x, brk s ≤ x → is_Some (addrs s' !! x) → x = client_addr c ∨ x = dest_addr c) →
  (∀ x, brk s ≤ x → is_Some (bevs s' !! x) → x = client_bev c ∨ x = relay_bev c) →
  (∀ x, brk s ≤ x → is_Some (evs s' !! x) → x = timeout_ev c) →
  dlist (nodes s') (clients_head env) ((client_node <$> ps) ++ [client_node p]) →
  same_outside (client_node p :: clients_head env :: (client_node <$> ps)) (nodes s) (nodes s') →
  pump_heaps s' = pump_heaps s → client_inv k s' env p c → inv k env e lfd lev (ps ++ [p]) s'.
Proof.
  intros Hg Hwf' Hfresh Hnew Hcl Hold Ha Hb He Hlist Hout Hh Hc.
  assert (∀ q c', clients s' !! q = Some c' → (q = p ∧ c' = c) ∨ (q ≠ p ∧ clients s !! q = Some c')) as Hcases.
  { intros q c'. rewrite Hcl, lookup_insert. case_decide; [subst; intros [= <-]; auto|auto]. }
  assert (∀ q c', clients s !! q = Some c' → clients s' !! q = Some c') as Hkeep.
  { intros q c' Hq. rewrite Hcl, lookup_insert_ne; [done|congruence]. }
  assert (clients s' !! p = Some c) as Hp by (by rewrite Hcl, lookup_insert_eq).
  split; [done|..].
  - eapply env_inv_mono; [apply Hinv|done|done|]. intros v Hv.
    destruct (Hold v (env_handles_old v Hv)) as (? & _ & ?). done.
  - by rewrite fmap_app.
  - intros q. rewrite elem_of_app, list_elem_of_singleton, <-(in_dom Hinv q), Hcl, lookup_insert.
    case_decide; [subst; naive_solver|naive_solver].
  - intros q c' [[-> ->]|[Hq Hc']]%Hcases; [done|].
    eapply client_inv_mono; [by eapply (in_client Hinv)|by apply Hkeep|].
    intros x Hx. by apply Hold, (client_handles_old q c').
  - intros q1 q2 c1 c2 x Hne [[-> ->]|[_ H1]]%Hcases [[-> ->]|[_ H2]]%Hcases Hx; [done|..].
    + intros Hx2. pose proof (Hnew x Hx). pose proof (client_handles_old _ _ _ H2 Hx2). lia.
    + intros Hx2. pose proof (Hnew x Hx2). pose proof (client_handles_old _ _ _ H1 Hx). lia.
    + by eapply (in_apart Hinv q1 q2).
  - intros q c' x [[-> ->]|[_ Hq]]%Hcases Hx; [|by eapply (in_env_apart Hinv)].
    intros Hx2. pose proof (Hnew x Hx). pose proof (env_handles_old _ Hx2). lia.
  - intros n Hn. rewrite fmap_app. destruct (decide (n ∈ client_node p :: clients_head env :: (client_node <$> ps))) as [|Hno]; [set_solver|].
    rewrite (Hout n Hno) in Hn. apply (in_nodes Hinv) in Hn. set_solver.
  - intros a Hs. destruct (Z.lt_ge_cases a (brk s)) as [Hlt|Hge]; [|do 2 right; exists p, c; auto].
    rewrite (proj1 (Hold a Hlt)) in Hs. destruct (in_addrs Hinv a Hs) as [?|[?|(q & c' & ? & ?)]]; eauto 10.
  - intros b Hs. destruct (Z.lt_ge_cases b (brk s)) as [Hlt|Hge]; [|exists p, c; auto].
    rewrite (proj1 (proj2 (Hold b Hlt))) in Hs. destruct (in_bevs Hinv b Hs) as (q & c' & ? & ?); eauto 10.
  - intros v Hs. destruct (Z.lt_ge_cases v (brk s)) as [Hlt|Hge]; [|right; left; exists p, c; auto].
    rewrite (proj2 (proj2 (Hold v Hlt))) in Hs. destruct (in_evs Hinv v Hs) as [?|[(q & c' & ? & ?)|?]]; eauto 10.
  - intros v (Hl & Hev & Hx)%(in_extra Hinv). pose proof (wf_evs _ (in_wf Hinv) _ Hl) as Hlt.
    split_and!; [by rewrite (proj2 (proj2 (Hold v ltac:(lia))))|done|].
    intros q c' [[-> ->]|[_ Hq]]%Hcases; [|by eapply Hx]. intros Hv%Hnew. lia.
Qed.
End add_client.

(** ** The callbacks of a client *)

(** The sockets and the pump of the client stay, and only the buffer pump
    relays data. *)
Definition same_sockets (c c1 : transocks_client) : Prop :=
  client_fd c1 = client_fd c ∧ relay_fd c1 = relay_fd c ∧ user_arg c1 = user_arg c ∧
  (client_state c1 = client_pumping_data → cf_impl k = transocks_bufferpump_ops_ref).

(** What a callback does to the client it runs for: it goes on, in one of the
    phases, or it is gone. *)
Definition client_step (p : Z) (c : transocks_client) (head : Z) (l1 l2 : list Z) (s s' : state) : Prop :=
  (∃ c1, goes_on p c c1 s s' ∧ same_identity c c1 ∧ same_sockets c c1 ∧ in_phase k s' p c1 ∧
     (stage_of s' p = stage_of s p ∨ next_stage (stage_of s p) (stage_of s' p))) ∨ gone p c head l1 l2 s s'.

Lemma inv_step env e lfd lev l1 p l2 s s' c :
  inv k env e lfd lev (l1 ++ p :: l2) s → clients s !! p = Some c → same_globals s s' → wf s' →
  client_step p c (clients_head env) (client_node <$> l1) (client_node <$> l2) s s' →
  ∃ ps', inv k env e lfd lev ps' s' ∧ session_step (cf_impl k) (Acting p) (connections (l1 ++ p :: l2) s) (connections ps' s') ∧
    (gone p c (clients_head env) (client_node <$> l1) (client_node <$> l2) s s' →
     session_step (cf_impl k) (Expired p) (connections (l1 ++ p :: l2) s) (connections ps' s')).
Proof.
  intros Hinv Hp Hg Hwf' Hst. pose proof (split_once _ _ _ _ _ _ _ _ Hinv) as Hpn.
  assert (∀ l, (∀ q, q ∈ l1 ++ l2 → stage_of s' q = stage_of s q) → l = l1 ∨ l = l2 → connections l s' = connections l s) as Hl.
  { intros l H [->| ->]; apply connections_frame; intros q Hq; apply H; set_solver. }
  destruct Hst as [(c1 & Hgo & Hid & _ & Hph & Hstage)|Hgone].
  - exists (l1 ++ p :: l2). split; [by eapply inv_goes_on|].
    assert (∀ q, q ∈ l1 ++ l2 → stage_of s' q = stage_of s q) as Ho.
    { intros q Hq. eapply others_goes_on; first [done|set_solver]. }
    split.
    + rewrite !connections_app. simpl. rewrite !Hl by auto. by destruct Hstage as [->|Hn]; constructor.
    + intros Hg'. pose proof (nr_clients _ _ _ _ _ (proj1 Hgo)) as E. rewrite (gn_clients _ _ _ _ _ _ _ Hg') in E.
      apply (f_equal (lookup p)) in E. by rewrite lookup_delete_eq, lookup_insert_eq in E.
  - exists (l1 ++ l2). split; [by eapply inv_gone|].
    assert (∀ q, q ∈ l1 ++ l2 → stage_of s' q = stage_of s q) as Ho.
    { intros q Hq. eapply others_gone; first [done|set_solver]. }
    rewrite !connections_app. simpl. rewrite !Hl by auto. split; [constructor|intros _; constructor].
Qed.

Lemma goes_on_evs p c s f cs :
  clients s !! p = Some c → (∀ t, ev_cb (f t) = ev_cb t ∧ ev_arg (f t) = ev_arg t) →
  goes_on p c c s (did cs (set_evs (alter f (timeout_ev c) (evs s)) s)).
Proof.
  intros Hp Hf. split; [by apply near_did, near_timer, near_refl|].
  eapply (timer_kept_alter _ _ _ _ f); [|done]. intros t Ht **. by exists t.
Qed.

Lemma goes_on_did p c s cs : clients s !! p = Some c → goes_on p c c s (did cs s).
Proof. intros Hp. split; [by apply near_did, near_refl|]. intros t Ht **. by exists t. Qed.

Lemma continues_goes_on p c c' cs s s' :
  client_ok s p c → flags_only c c' → continues p c' cs s s' → goes_on p c c' s s'.
Proof.
  intros Hok ((E1 & E2 & E3 & E4 & E5) & _) (m & -> & Hm & Hd). rewrite E3, E4 in Hd. split; [|intros t Ht **; by exists t].
  split; st_norm; try done. intros q. by apply (handlers_live handlers).
Qed.

Lemma goes_on_stage p c c1 s s' rb g :
  goes_on p c c1 s s' → bevs s' !! relay_bev c = Some rb → client_state c1 = client_relay_connected →
  bev_readcb rb = Some g →
  stage_of s' p = match g with
                  | fn_socks_on_server_selected_method_readcb => Some Greeting
                  | fn_socks_on_server_connect_reply_readcb => Some Requesting
                  | _ => None
                  end.
Proof.
  intros [Hnr _] Hrb Hst Hg. eapply stage_at; [rewrite (nr_clients _ _ _ _ _ Hnr); apply lookup_insert_eq| |done|done].
  destruct (nr_handles _ _ _ _ _ Hnr) as (_ & _ & _ & -> & _). done.
Qed.

Lemma released_gone p c cs head l1 l2 s s' : released p c cs head l1 l2 s s' → gone p c head l1 l2 s s'.
Proof. intros (h & -> & Hd & Ho). split; try done. unfold client_freed. st_norm. apply lookup_delete_eq. Qed.

(** A phase is a property of the client's state and of the callbacks. *)
Lemma phase_handlers p st cb rb cb' rb' :
  phase k p st cb rb → handlers cb' = handlers cb → handlers rb' = handlers rb → phase k p st cb' rb'.
Proof.
  unfold handlers. intros [? ? [S1 [S2 S3]] H|? ? [S1 [S2 S3]] H|? ? [S1 [S2 S3]] H|? ? Hi H1 H2|? ? Hi [S1 [S2 S3]] H] E1 E2.
  - apply ph_connecting; [split_and!; congruence|unfold handlers in *; congruence].
  - apply ph_method; [split_and!; congruence|unfold handlers in *; congruence].
  - apply ph_reply; [split_and!; congruence|unfold handlers in *; congruence].
  - apply ph_pumping; [done|..]; unfold handlers in *; congruence.
  - apply ph_splicing; [done|split_and!; congruence|unfold handlers in *; congruence].
Qed.

Lemma continues_phase p c c' cs s s' :
  in_phase k s p c → flags_only c c' → continues p c' cs s s' → in_phase k s' p c'.
Proof.
  intros (cb & rb & Hcb & Hrb & Hph) ((_ & _ & E3 & E4 & _) & _ & _ & E8 & _) (m & -> & Hm & _).
  pose proof (Hm (client_bev c)) as H1. pose proof (Hm (relay_bev c)) as H2. rewrite Hcb in H1. rewrite Hrb in H2.
  destruct (m !! client_bev c) as [cb'|] eqn:M1; [|done]. destruct (m !! relay_bev c) as [rb'|] eqn:M2; [|done].
  exists cb', rb'. st_norm. rewrite E3, E4, E8. split_and!; [done|done|]. simpl in H1, H2.
  eapply phase_handlers; [done|congruence|congruence].
Qed.

Lemma continues_stage p c c' cs s s' :
  clients s !! p = Some c → flags_only c c' → continues p c' cs s s' → stage_of s' p = stage_of s p.
Proof.
  intros Hp ((_ & _ & _ & E4 & _) & _ & _ & E8 & _) (m & -> & Hm & _). pose proof (Hm (relay_bev c)) as H.
  unfold stage_of. st_norm. rewrite lookup_insert_eq, Hp. simpl. rewrite E4, E8.
  destruct (client_state c); try done. unfold handlers in H.
  destruct (m !! relay_bev c), (bevs s !! relay_bev c); simplify_option_eq; [by rewrite H|done].
Qed.

Lemma flags_if (b : bool) c c' : flags_only c c' → flags_only c (if b then c' else c).
Proof. by destruct b. Qed.

Lemma flags_identity c c' : flags_only c c' → same_identity c c'.
Proof. by intros (? & _ & _ & _ & ? & ? & ? & _). Qed.

Lemma flags_ends c c' : cf_impl k = transocks_bufferpump_ops_ref → flags_only c c' → same_sockets c c'.
Proof. by intros ? (_ & ? & ? & _ & _ & _ & _ & ?). Qed.

Lemma pump_outcome_step p c c' cs head l1 l2 s s' :
  cf_impl k = transocks_bufferpump_ops_ref → clients s !! p = Some c → client_ok s p c → in_phase k s p c → flags_only c c' →
  pump_outcome p c c' cs head l1 l2 s s' → client_step p c head l1 l2 s s'.
Proof.
  intros Hk Hp Hok Hph Hf. unfold pump_outcome. destruct (transocks_check_close c').
  - intros H%released_gone. by right.
  - intros H. left. exists c'. split_and!; [by eapply continues_goes_on|by apply flags_identity|by apply flags_ends|by eapply continues_phase|].
    left. by eapply continues_stage.
Qed.

Lemma event_spec_flags events errno b c c' cs :
  client_event_spec events errno b c = Some (c', cs) ∨ relay_event_spec events errno b c = Some (c', cs) →
  flags_only c c'.
Proof.
  unfold client_event_spec, relay_event_spec. intros [H|H]; repeat case_match; by simplify_eq.
Qed.

Lemma event_outcome_step p c o head l1 l2 s s' :
  cf_impl k = transocks_bufferpump_ops_ref → clients s !! p = Some c → client_ok s p c → in_phase k s p c → (∀ c' cs, o = Some (c', cs) → flags_only c c') →
  event_outcome p c o head l1 l2 s s' → client_step p c head l1 l2 s s'.
Proof.
  intros Hk Hp Hok Hph Hf. unfold event_outcome. destruct o as [[c' cs]|].
  - apply pump_outcome_step; eauto.
  - intros H%released_gone. by right.
Qed.

(** The lengths of the two kinds of socket addresses. *)
Definition inet_len (n : Z) : Prop := n = sizeof_sockaddr_in ∨ n = sizeof_sockaddr_in6.

Lemma inet_len_fits n : inet_len n → 0 < n ≤ sizeof_sockaddr_storage.
Proof. by intros [->| ->]. Qed.

Lemma inet_printable sa n : inet_len n → printable sa n.
Proof. unfold printable. intros [?|?]; auto. Qed.

(** Addresses reported by the kernel: the peer of an accepted connection and
    the original destination are IPv4 or IPv6 addresses. *)
Class AddressLaws (EXT : Env) : Prop := {
  al_accept tr fd n cfd errno src slen :
    ext tr (c_accept fd n) = (cfd, errno, src, slen) → 0 ≤ cfd → slen ≠ 0 → inet_len slen;
  al_origdst tr fd lv o n a len : ext tr (c_getsockopt_addr fd lv o n) = (0, a, len) → inet_len len
}.

(** What the callbacks of a listed client rely on. *)
Section the_client.
Context {env : Z} {e : transocks_global_env} {lfd lev : Z} {s : state} {l1 l2 : list Z} {p : Z} {c : transocks_client}.
Context (Hinv : inv k env e lfd lev (l1 ++ p :: l2) s) (Hp : clients s !! p = Some c).

Lemma the_client : client_inv k s env p c.
Proof. by apply (in_client Hinv). Qed.

Lemma the_list : dlist (nodes s) (clients_head env) ((client_node <$> l1) ++ client_node p :: (client_node <$> l2)).
Proof. pose proof (in_list Hinv) as H. by rewrite fmap_app, fmap_cons in H. Qed.

Lemma handle_set x : x ∈ client_handles c → x ≠ NULL.
Proof. apply (ci_set the_client). Qed.

Lemma inv_shaking : shaking s p c (clients_head env) (client_node <$> l1) (client_node <$> l2).
Proof.
  destruct (ci_phase the_client) as (cb & rb & _ & _ & Hph).
  split; [apply wf_null_ok, Hinv|apply the_client|by eapply phase_alive|apply handle_set; handle_in
         |apply handle_set; handle_in|apply the_list].
Qed.

Lemma inv_pumping : pumping s p c (clients_head env) (client_node <$> l1) (client_node <$> l2).
Proof. destruct inv_shaking. split; try done. apply handle_set; handle_in. Qed.

Lemma inv_timeable : timeable s c.
Proof.
  pose proof (in_env Hinv) as []. split; [apply wf_brk, Hinv|]. exists e.
  rewrite (ci_env the_client), ei_envs0, ei_bases0, !lookup_singleton_eq. eauto.
Qed.

Lemma bev_live x : x = client_bev c ∨ x = relay_bev c → is_Some (bevs s !! x).
Proof. destruct (ci_phase the_client) as (cb & rb & ? & ? & _). intros [->| ->]; eauto. Qed.

Lemma bevs_differ : client_bev c ≠ relay_bev c.
Proof.
  intros E. apply (handle_set (client_bev c)); [handle_in|].
  apply (co_bevs_ne _ _ _ (ci_ok the_client)), E.
Qed.

Lemma timer_live : is_Some (evs s !! timeout_ev c).
Proof. destruct (ci_timer the_client) as (t & ? & _). eauto. Qed.

End the_client.

Section callbacks.
Context {EXT : Env} `{!Survives EXT, !AddressLaws EXT} (buf : list item → evbuffer → list Z) {LAWS : EvbufferLaws EXT buf}.
Context {env : Z} {e : transocks_global_env} {lfd lev : Z}.
Implicit Types s : state.

Section client_callbacks.
Context {s : state} {l1 l2 : list Z} {p : Z} {c : transocks_client}.
Context (Hinv : inv k env e lfd lev (l1 ++ p :: l2) s) (Hp : clients s !! p = Some c).

Abbreviation step := (client_step p c (clients_head env) (client_node <$> l1) (client_node <$> l2) s).

(** A state that differs in the client's timer only. *)
Lemma step_timer cs :
  (client_state c = client_pumping_data → cf_impl k = transocks_bufferpump_ops_ref) →
  step (did cs (set_evs (alter (set_ev_added false) (timeout_ev c) (evs s)) s)).
Proof. intros Hs. left. exists c. split_and!; [by apply goes_on_evs|done|done|apply (the_client Hinv Hp)|by left]. Qed.

Lemma timeout_ends :
  wp (socks5_timeout_cb p) (λ _ s', gone p c (clients_head env) (client_node <$> l1) (client_node <$> l2) s s') s.
Proof. eapply (wp_free_client s s p c c); [apply (inv_shaking Hinv Hp)|apply (inv_shaking Hinv Hp)|by apply near_refl]. Qed.

Lemma step_errcb events :
  (client_state c = client_pumping_data → cf_impl k = transocks_bufferpump_ops_ref) →
  wp (socks_handshake_stage_errcb events p) (λ _ s', step s') s.
Proof.
  intros Hs. unfold socks_handshake_stage_errcb. st_steps. apply wp_timer_del; [apply (timer_live Hinv Hp)|]. intros _.
  destruct (_ || _).
  - eapply wp_mono; [eapply (wp_free_client s _ p c c); [apply (inv_shaking Hinv Hp)|apply (inv_shaking Hinv Hp)|]|by intros; right].
    by apply near_did, near_timer, near_refl.
  - by apply step_timer.
Qed.

Lemma step_onconnect events :
  client_state c = client_NEW → (∃ cb, bevs s !! client_bev c = Some cb ∧ silent cb) →
  wp (relay_onconnect_eventcb events p) (λ _ s', step s') s.
Proof.
  intros Hst (cb & Hcb & Hsil). destruct (TRANSOCKS_CHKBIT events BEV_EVENT_CONNECTED) eqn:Ev.
  - eapply wp_mono; [eapply wp_onconnect; [apply (inv_shaking Hinv Hp)|apply (inv_timeable Hinv Hp)|done]|].
    intros [] s' (Hgo & Hbev & _ & (rb & Hrb & R1 & R2 & R3 & R4 & _) & _). left. eexists. split_and!; [exact Hgo|done|done|..].
    + exists cb, rb. st_norm. split_and!; [|done|apply ph_method; [done|unfold handlers; congruence]].
      rewrite Hbev; [done|apply (bevs_differ Hinv Hp)].
    + right. rewrite (goes_on_stage _ _ _ _ _ _ _ Hgo Hrb eq_refl R1).
      replace (stage_of s p) with (Some Connecting) by (unfold stage_of; rewrite Hp; simpl; by rewrite Hst). constructor.
  - unfold relay_onconnect_eventcb. st_steps. apply wp_timer_del; [apply (timer_live Hinv Hp)|]. intros _. rewrite Ev.
    destruct (TRANSOCKS_CHKBIT events BEV_EVENT_ERROR); [|apply step_timer; congruence].
    eapply wp_mono; [eapply (wp_free_client s _ p c c); [apply (inv_shaking Hinv Hp)|apply (inv_shaking Hinv Hp)|]|by intros; right].
    by apply near_did, near_timer, near_refl.
Qed.

Lemma step_selected_method :
  client_state c = client_relay_connected → stage_of s p = Some Greeting → (∃ cb, bevs s !! client_bev c = Some cb ∧ silent cb) →
  wp (socks_on_server_selected_method_readcb (relay_bev c) p) (λ _ s', step s') s.
Proof.
  intros Hst Hstage (cb & Hcb & Hsil). destruct (ci_dump (the_client Hinv Hp)) as [_ (sa & n & Hsa & _)].
  eapply wp_mono; [eapply (wp_method_answer buf); [apply (inv_shaking Hinv Hp)|apply (inv_timeable Hinv Hp)|done|]|].
  - eapply alloc_fresh; [apply wf_blocks, Hinv|done].
  - intros [] s' H. case_decide; [|by right]. destruct (request_for sa) as [[size bytes]|]; [|by right].
    destruct H as [(_ & ((rb & Hrb & R1 & R2 & R3 & R4 & _) & _) & Hgo & Hbev)|[_ ?]]; [|by right].
    left. exists c. split_and!; [done|done|split_and!; congruence|..].
    + exists cb, rb. rewrite Hst. split_and!; [|done|apply ph_reply; [done|unfold handlers; congruence]].
      rewrite Hbev; [done|apply (bevs_differ Hinv Hp)].
    + right. rewrite (goes_on_stage _ _ _ _ _ _ _ Hgo Hrb Hst R1), Hstage. constructor.
Qed.

End client_callbacks.

(** ** The callbacks of the environment *)

Lemma inv_trace ps s tr : inv k env e lfd lev ps s → inv k env e lfd lev ps (set_trace tr s).
Proof.
  intros []. split; try done.
  - by destruct in_wf0.
  - by destruct in_env0.
  - intros p c Hp. eapply client_inv_mono; [by apply in_client0|done|done].
Qed.

Lemma inv_head ps s p l : inv k env e lfd lev ps s → ps = p :: l → ∃ c, clients s !! p = Some c.
Proof. intros Hinv ->. apply (in_dom Hinv). left. Qed.

(** A new client at the end of the list. *)
Lemma inv_accept ps s s1 s' cfd src slen dst dlen relay_a rfd ev :
  inv k env e lfd lev ps s → accepted env (client_node <$> ps) cfd src slen dst dlen s s1 →
  connecting (brk s) (accepted_client env (brk s) cfd slen dlen) e relay_a rfd ev s1 s' →
  inet_len slen → inet_len dlen → same_globals s s' → wf s' → inv k env e lfd lev (ps ++ [brk s]) s'.
Proof.
  intros Hinv [A1 A2 A3 A4 A5 A6 A7 A8 A9 A10] [B1 Hrfd Hev Hev' B2 (added & B3 & _) B4 B5 B6 B7 B8 B9 B10 _] Hs Hd Hg Hwf'.
  pose proof (in_wf Hinv) as Hwf. pose proof (wf_brk _ Hwf) as Hbrk.
  rewrite A1, insert_insert_eq in B1. rewrite A3 in B2. rewrite A2 in B5. rewrite A10 in B9.
  unfold accepted_client in *. st_norm. simpl in *.
  assert (∀ x, x ≠ ev → evs s' !! x = evs s !! x) as Hevs.
  { intros x Hx. rewrite <-A5, <-(lookup_delete_ne (evs s') ev), B4, lookup_delete_ne; done. }
  assert (∀ x, x ∈ client_handles (set_timeout_ev ev (set_relay_bev (brk s1) (set_relay_fd rfd
    (accepted_client env (brk s) cfd slen dlen)))) → brk s ≤ x) as Hnew.
  { intros x. unfold client_handles. simpl. rewrite !elem_of_cons, elem_of_nil. addr_lia. }
  eapply inv_add; [done|done|done|eapply alloc_fresh; [by apply wf_clients|done]|exact Hnew|exact B1|..]; simpl.
  - intros x Hx. rewrite B5, B2, Hevs by addr_lia. by rewrite !lookup_insert_ne by addr_lia.
  - intros x Hx. rewrite B5, !lookup_insert. repeat case_decide; auto. intros Hl%(wf_addrs _ Hwf). lia.
  - intros x Hx. rewrite B2, !lookup_insert. repeat case_decide; auto. intros Hl%(wf_bevs _ Hwf). lia.
  - intros x Hx Hl. destruct (decide (x = ev)) as [|Hne]; [done|]. rewrite Hevs in Hl by done. apply (wf_evs _ Hwf) in Hl. lia.
  - by rewrite B6.
  - by rewrite B6.
  - done.
  - split; simpl; [done| |intros x Hx; specialize (Hnew x Hx); addr_lia| | |].
    + split; simpl; rewrite ?B1, ?B2, ?B3, ?B5; [st_lookup|right; rewrite B3; eauto|right; st_lookup|right; st_lookup|addr_lia
        |right; st_lookup|right; st_lookup|addr_lia].
    + split; [exists (take (Z.to_nat slen) src), slen|exists dst, dlen]; (split; [rewrite B5; unfold accepted_client; simpl; st_lookup|]);
        (split; [done|]); by apply inet_printable.
    + eexists. split; [exact B3|done].
    + unfold in_phase, accepted_client. st_norm. rewrite B2.
      do 2 eexists. split_and!; [rewrite lookup_insert_ne by addr_lia; apply lookup_insert_eq|apply lookup_insert_eq|]. by apply ph_connecting.
Qed.

(** The objects are as before, the nodes linked anew. *)
Lemma inv_relinked ps s s' :
  inv k env e lfd lev ps s → clients s' = clients s → addrs s' = addrs s → bevs s' = bevs s → evs s' = evs s →
  pump_heaps s' = pump_heaps s → dlist (nodes s') (clients_head env) (client_node <$> ps) →
  (∀ n, is_Some (nodes s' !! n) → n ∈ clients_head env :: (client_node <$> ps)) → same_globals s s' → wf s' →
  inv k env e lfd lev ps s' ∧ session_step (cf_impl k) Listening (connections ps s) (connections ps s').
Proof.
  intros Hinv F1 F2 F3 F4 F5 Hd Hn Hg Hwf'. split.
  - destruct Hinv. split; rewrite ?F1, ?F2, ?F3, ?F4; try done.
    + eapply env_inv_mono; [done|done|done|]. by rewrite F2, F4.
    + intros p c Hp. eapply client_inv_mono; [by apply in_client0|by rewrite F1|by rewrite F2, F3, F4].
  - replace (connections ps s') with (connections ps s) by (unfold connections, stage_of; by rewrite F1, F3). by constructor.
Qed.

Lemma inv_refused ps s s' :
  inv k env e lfd lev ps s → same_objects s s' → same_globals s s' → wf s' →
  inv k env e lfd lev ps s' ∧ session_step (cf_impl k) Listening (connections ps s) (connections ps s').
Proof.
  intros Hinv (F1 & F2 & F3 & F4 & F5 & F6). apply inv_relinked; try done; rewrite F5; apply Hinv.
Qed.

(** A new client that is gone again. *)
Lemma abandoned_same ps s s1 s' cfd src slen dst dlen :
  wf s → accepted env (client_node <$> ps) cfd src slen dst dlen s s1 →
  gone (brk s) (accepted_client env (brk s) cfd slen dlen) (clients_head env) (client_node <$> ps) [] s1 s' →
  clients s' = clients s ∧ addrs s' = addrs s ∧ bevs s' = bevs s ∧ evs s' = evs s ∧ pump_heaps s' = pump_heaps s.
Proof.
  intros Hwf [A1 A2 A3 A4 A5 A6 A7 A8 A9 A10] [G1 G2 G3 G4 G5 G6 G7 G8].
  pose proof (wf_null_ok _ Hwf) as [_ _ Nb Ne]. pose proof (wf_brk _ Hwf) as Hbrk.
  unfold accepted_client in *. simpl in *. split_and!.
  - rewrite G1, A1. apply delete_insert_id. eapply alloc_fresh; [by apply wf_clients|done].
  - rewrite G4, A2. apply map_eq. intros q. rewrite !lookup_delete, !lookup_insert.
    repeat case_decide; try done; subst; symmetry; (eapply alloc_fresh; [by apply wf_addrs|addr_lia]).
  - rewrite G3, A3, (delete_id _ NULL) by (rewrite lookup_insert_ne by addr_lia; done).
    apply delete_insert_id. eapply alloc_fresh; [by apply wf_bevs|addr_lia].
  - by rewrite G2, A5, delete_id.
  - congruence.
Qed.

Lemma inv_abandoned ps s s1 s' cfd src slen dst dlen :
  inv k env e lfd lev ps s → accepted env (client_node <$> ps) cfd src slen dst dlen s s1 →
  gone (brk s) (accepted_client env (brk s) cfd slen dlen) (clients_head env) (client_node <$> ps) [] s1 s' →
  same_globals s s' → wf s' →
  inv k env e lfd lev ps s' ∧ session_step (cf_impl k) Listening (connections ps s) (connections ps s').
Proof.
  intros Hinv Hac Hgone. destruct (abandoned_same _ _ _ _ _ _ _ _ _ (in_wf Hinv) Hac Hgone) as (? & ? & ? & ? & ?).
  destruct Hac as [_ _ _ _ _ _ _ _ A9 _], Hgone as [_ _ _ _ G5 G6 G7 _].
  rewrite app_nil_r in G5. apply inv_relinked; [done..|].
  intros n Hn. destruct (decide (n = client_node (brk s))) as [->|Hn1]; [rewrite G6 in Hn; by destruct Hn|].
  destruct (decide (n ∈ clients_head env :: (client_node <$> ps))) as [|Hn2]; [done|].
  apply (in_nodes Hinv). rewrite <-(A9 n), <-(G7 n); [done|..]; clear -Hn1 Hn2; set_solver.
Qed.

Lemma accept_step ps s s1 s' cfd src slen dst dlen relay_a rfd ev :
  inv k env e lfd lev ps s → accepted env (client_node <$> ps) cfd src slen dst dlen s s1 →
  connecting (brk s) (accepted_client env (brk s) cfd slen dlen) e relay_a rfd ev s1 s' →
  session_step (cf_impl k) Listening (connections ps s) (connections (ps ++ [brk s]) s').
Proof.
  intros Hinv [A1 A2 A3 A4 A5 A6 A7 A8 A9 A10] [B1 Hrfd Hev Hev' B2 B3 B4 B5 B6 B7 B8 B9 B10 _].
  pose proof (in_wf Hinv) as Hwf. rewrite A1, insert_insert_eq in B1. rewrite A3 in B2.
  assert (∀ q, q ∈ ps → q ≠ brk s) as Hne.
  { intros q [c Hc]%(in_dom Hinv) ->. assert (brk s < brk s); [|lia]. apply (wf_clients _ Hwf). eauto. }
  rewrite connections_app, (connections_frame ps s s').
  - simpl. replace (stage_of s' (brk s)) with (Some Connecting) by (unfold stage_of; by rewrite B1, lookup_insert_eq).
    apply ss_accept. unfold connections. rewrite <-list_fmap_compose. intros (q & E & Hq)%list_elem_of_fmap. by destruct (Hne q Hq).
  - intros q Hq. pose proof (Hne q Hq). apply (in_dom Hinv) in Hq as [c Hc].
    assert (relay_bev c < brk s) as Hold by (eapply client_handles_old; [done|done|handle_in]).
    eapply stage_frame; [done|by rewrite B1, lookup_insert_ne|]. rewrite B2, !lookup_insert_ne; [done|unfold accepted_client in *; simpl in *; addr_lia..].
Qed.

(** The kernel's answers for the original destination. *)
Lemma origdst_laws fd : origdst_spec fd (λ _ dlen, inet_len dlen) True.
Proof.
  intros s da old Q Hda HQ HF. unfold getorigdst. st_steps.
  destruct (ext _ _) as [[err6 a6] l6] eqn:E6. destruct (Z.eqb_spec err6 0) as [->|]; cbn [negb]; st_steps.
  - apply (HQ a6 l6 [_]). by eapply al_origdst.
  - destruct (ext (_ :: _) _) as [[err4 a4] l4] eqn:E4. destruct (Z.eqb_spec err4 0) as [->|]; cbn [negb]; st_steps.
    + apply (HQ a4 l4 [_; _]). by eapply al_origdst.
    + by apply (HF [_; _]).
Qed.

(** What the listener's callback does: nothing, or a new client that is gone
    again, or a new client that waits for the relay. *)
Inductive listener_outcome (ps : list Z) (s s' : state) : Prop :=
| lo_same : same_objects s s' → listener_outcome ps s s'
| lo_gone s1 cfd src slen dst dlen :
    accepted env (client_node <$> ps) cfd src slen dst dlen s s1 →
    gone (brk s) (accepted_client env (brk s) cfd slen dlen) (clients_head env) (client_node <$> ps) [] s1 s' →
    listener_outcome ps s s'
| lo_new s1 cfd src slen dst dlen relay_a rfd ev :
    0 ≤ cfd → inet_len slen → inet_len dlen → accepted env (client_node <$> ps) cfd src slen dst dlen s s1 →
    connecting (brk s) (accepted_client env (brk s) cfd slen dlen) e relay_a rfd ev s1 s' →
    listener_outcome ps s s'.

Lemma wp_listener_outcome ps s :
  inv k env e lfd lev ps s → wp (listener_cb env) (λ _ s', listener_outcome ps s s') s.
Proof.
  intros Hinv. pose proof (in_wf Hinv) as Hwf. pose proof (in_env Hinv) as [].
  destruct ei_bind0 as (bind_a & n & Hb & [= <-] & Pb), ei_relay0 as (relay_a & Hr).
  assert (envs s !! env = Some e) as He by (by rewrite ei_envs0, lookup_singleton_eq).
  assert (listeners s !! listener e = Some (TransocksListener (Some lfd) (Some lev))) as Hl
    by (by rewrite ei_listeners0, lookup_singleton_eq).
  assert (is_Some (bases s !! eventBaseLoop e)) as Hba by (rewrite ei_bases0, lookup_singleton_eq; eauto).
  destruct (ext (trace s) (c_accept lfd sizeof_sockaddr_storage)) as [[[cfd errno] src] slen] eqn:Eacc.
  destruct (listener_cb_no_peer s env e lfd (Some lev) cfd errno src slen He Hl Eacc) as (R1 & R2).
  destruct (Z.lt_ge_cases cfd 0) as [Hlt|Hfd]; [eapply wp_Ok_run; [by apply R1|by apply lo_same]|].
  destruct (decide (slen = 0)) as [->|Hlen]; [eapply wp_Ok_run; [by apply R2|by apply lo_same]|].
  pose proof (al_accept _ _ _ _ _ _ _ Eacc Hfd Hlen) as Hs.
  eapply wp_listener_cb; [done|done|done|done|done|apply Hinv|done|done|by apply inet_len_fits|apply origdst_laws|done
    |by apply inet_printable|by intros; apply inet_printable| |by intros s1 _; apply lo_same].
  intros dst dlen s1 Hd Hac. eapply wp_mono; [by eapply wp_accepted_connect|].
  intros [] s' [(rfd & ev & Hcn)|[_ Hgone]]; [exact (lo_new _ _ _ _ _ _ _ _ _ _ _ _ Hfd Hs Hd Hac Hcn)|by eapply lo_gone].
Qed.

(** The listener's callback: nothing changes, or there is a new client. *)
Lemma inv_listener ps s s' :
  inv k env e lfd lev ps s → listener_outcome ps s s' → same_globals s s' → wf s' →
  ∃ ps', inv k env e lfd lev ps' s' ∧ session_step (cf_impl k) Listening (connections ps s) (connections ps' s').
Proof.
  intros Hinv [Hs|s1 cfd src slen dst dlen Hac Hgone|s1 cfd src slen dst dlen relay_a rfd ev ? ? ? Hac Hcn] Hg Hwf'.
  - exists ps. by eapply inv_refused.
  - exists ps. by eapply inv_abandoned.
  - exists (ps ++ [brk s]). split; [by eapply inv_accept|by eapply accept_step].
Qed.

Lemma wp_listener_step ps s :
  inv k env e lfd lev ps s →
  wp (listener_cb env) (λ _ s', same_globals s s' → wf s' → ∃ ps', inv k env e lfd lev ps' s' ∧
    session_step (cf_impl k) Listening (connections ps s) (connections ps' s')) s.
Proof. intros Hinv. eapply wp_mono; [by apply wp_listener_outcome|]. intros [] s' Ho. by apply inv_listener. Qed.

(** ** One event *)

(** libevent delivers events only for what is registered with it. *)
Definition live_target (ev : loop_event) (s : state) : bool :=
  match ev with
  | le_event v _ => bool_decide (is_Some (evs s !! v))
  | le_bev_read b | le_bev_write b | le_bev_event b _ _ => bool_decide (is_Some (bevs s !! b))
  end.

(** Whom an event is for, by its callback and the argument it is registered
    with. *)
Definition actor_of (f : fn) (arg : Z) : actor :=
  match f with
  | fn_listener_cb => Listening
  | fn_drop_all_clients_signal_cb => Dropping
  | fn_socks5_timeout_cb => Expired arg
  | fn_splicepump_client_readcb | fn_splicepump_client_writecb
  | fn_splicepump_relay_readcb | fn_splicepump_relay_writecb => Acting arg
  | _ => Watching
  end.

Definition owner (ev : loop_event) (s : state) : actor :=
  match ev with
  | le_event v _ => match evs s !! v with Some t => actor_of (ev_cb t) (ev_arg t) | None => Watching end
  | le_bev_read b | le_bev_write b | le_bev_event b _ _ =>
      match bevs s !! b with Some r => Acting (bev_cbarg r) | None => Watching end
  end.

(** The state after a callback satisfies the invariant if it kept the globals
    and is well-formed, and the connections made a step. *)
Abbreviation leads_to o ps s0 := (λ _ s', same_globals s0 s' → wf s' →
  ∃ ps', inv k env e lfd lev ps' s' ∧ session_step (cf_impl k) o (connections ps s0) (connections ps' s')).

Lemma wp_step (m : C unit) l1 l2 p c s :
  inv k env e lfd lev (l1 ++ p :: l2) s → clients s !! p = Some c →
  wp m (λ _ s', client_step p c (clients_head env) (client_node <$> l1) (client_node <$> l2) s s') s →
  wp m (leads_to (Acting p) (l1 ++ p :: l2) s) s.
Proof.
  intros Hinv Hp Hm. eapply wp_mono; [exact Hm|]. intros [] s' Hst Hg Hwf'.
  destruct (inv_step _ _ _ _ _ _ _ _ _ _ Hinv Hp Hg Hwf' Hst) as (ps' & ? & ? & _). eauto.
Qed.

Lemma the_split ps s p c : inv k env e lfd lev ps s → clients s !! p = Some c → ∃ l1 l2, ps = l1 ++ p :: l2.
Proof. intros Hinv Hp. apply list_elem_of_split, (in_dom Hinv). eauto. Qed.

Lemma leads_same o ps s cs : may_idle o = true → inv k env e lfd lev ps s → leads_to o ps s tt (did cs s).
Proof. intros Ho Hinv _ _. exists ps. split; [by apply inv_trace|by constructor]. Qed.

End callbacks.

(** ** Every run of the event loop *)

Section schedules.
Context {EXT : Env} (live : loop_event → state → bool).

(** Each event of the schedule is for an object that is live, in the sense of
    [live], when it is delivered. *)
Fixpoint delivers (sched : list loop_event) (s : state) : bool :=
  match sched with
  | [] => true
  | ev :: sched => live ev s && match run_callback ev s with Ok _ s' => delivers sched s' | _ => true end
  end.

(** What every event keeps, every schedule keeps. *)
Lemma run_callbacks_keep (I : state → Prop) sched s :
  (∀ ev s, I s → live ev s = true → ∃ s', run_callback ev s = Ok tt s' ∧ I s') →
  I s → delivers sched s = true → ∃ s', run_callbacks sched s = Ok tt s' ∧ I s'.
Proof.
  intros Hone. revert s. induction sched as [|ev sched IH]; intros s Hs Hd; [by exists s|]. simpl in Hd.
  apply andb_true_iff in Hd as [Hl Hd]. destruct (Hone ev s Hs Hl) as (s1 & E1 & H1).
  rewrite E1 in Hd. destruct (IH s1 H1 Hd) as (s2 & E2 & H2). exists s2. split; [|done].
  simpl. by rewrite (bind_Ok _ _ _ _ _ E1).
Qed.

(** A schedule in two parts. *)
Lemma run_callbacks_app sched1 sched2 s s1 :
  run_callbacks sched1 s = Ok tt s1 → run_callbacks (sched1 ++ sched2) s = run_callbacks sched2 s1.
Proof.
  revert s. induction sched1 as [|ev sched1 IH]; simpl; intros s; [by intros [= ->]|].
  unfold mbind, M_bind. destruct (run_callback ev s) as [[] s2| |]; [apply IH|done..].
Qed.

Lemma delivers_app sched1 sched2 s s1 :
  run_callbacks sched1 s = Ok tt s1 →
  delivers (sched1 ++ sched2) s = delivers sched1 s && delivers sched2 s1.
Proof.
  revert s. induction sched1 as [|ev sched1 IH]; simpl; intros s; [by intros [= ->]|].
  unfold mbind, M_bind. destruct (run_callback ev s) as [[] s2| |]; [intros E; by rewrite (IH _ E), andb_assoc|done..].
Qed.

Lemma delivers_prefix sched1 sched2 s : delivers (sched1 ++ sched2) s = true → delivers sched1 s = true.
Proof.
  revert s. induction sched1 as [|ev sched1 IH]; simpl; intros s; [done|].
  destruct (run_callback ev s) as [[] s2| |]; [|done..]. intros [-> H]%andb_true_iff. by apply IH in H.
Qed.
End schedules.

(** What the callbacks of a pump promise to the event loop: an event that
    [live] admits runs without a fault from every state of [I], leads to one
    again, and is one step of the connections' state machine; and the
    connections of [I] are those that have a stage. *)
Class Loop {EXT : Env} (r : pump_ref) (live : loop_event → state → bool) (I : list Z → state → Prop) : Prop := {
  lp_event ev ps s : I ps s → live ev s = true → ∃ s' ps', run_callback ev s = Ok tt s' ∧ I ps' s' ∧
    session_step r (owner ev s) (connections ps s) (connections ps' s');
  lp_listed ps s p : I ps s → p ∈ ps ↔ ∃ b, stage_of s p = Some b
}.

Section loops.
Context {EXT : Env} {r : pump_ref} {live : loop_event → state → bool} {I : list Z → state → Prop} `{!Loop r live I}.

Lemma loop_runs sched ps s :
  I ps s → delivers live sched s = true → ∃ s' ps', run_callbacks sched s = Ok tt s' ∧ I ps' s'.
Proof.
  intros HI Hd. destruct (run_callbacks_keep live (λ s, ∃ ps, I ps s) sched s) as (s' & E & ps' & H'); [|eauto..].
  intros ev t [ps0 Ht] Hl. destruct (lp_event ev ps0 t Ht Hl) as (t' & ps' & ? & ? & _). eauto.
Qed.

(** The stage before was reached at an earlier point of the run. *)
Lemma loop_stages sched s s' p b :
  I [] s → delivers live sched s = true → run_callbacks sched s = Ok tt s' → stage_of s' p = Some b →
  b = Connecting ∨ ∃ sched1 sched2 s1, sched = sched1 ++ sched2 ∧ run_callbacks sched1 s = Ok tt s1 ∧
    next_stage (stage_of s1 p) (Some b).
Proof.
  intros HI. revert s'. induction sched as [|ev sched IH] using rev_ind; intros s' Hd Hrun Hp.
  { injection Hrun as ->. assert (p ∈ []) as []%elem_of_nil. apply (lp_listed _ _ p HI). eauto. }
  destruct (loop_runs sched [] s HI (delivers_prefix _ _ _ _ Hd)) as (s1 & ps1 & E1 & H1).
  rewrite (delivers_app _ _ _ _ _ E1) in Hd. apply andb_true_iff in Hd as [Hd Hev].
  rewrite (run_callbacks_app _ _ _ _ E1) in Hrun. simpl in Hev, Hrun. apply andb_true_iff in Hev as [Hev _].
  destruct (lp_event ev ps1 s1 H1 Hev) as (s2 & ps2 & E2 & H2 & Hst).
  rewrite (bind_Ok _ _ _ _ _ E2) in Hrun. injection Hrun as ->.
  assert ((p, Some b) ∈ connections ps2 s') as Hin.
  { rewrite <-Hp. apply (list_elem_of_fmap_2 (λ p, (p, stage_of s' p))), (lp_listed _ _ p H2). eauto. }
  destruct (session_step_stage _ _ _ _ _ _ Hst Hin) as [?|[Hsame|(a & Hn & Ha)]]; [by left|..].
  - apply list_elem_of_fmap in Hsame as (q & [= <- Hq] & _).
    destruct (IH s1 Hd E1 (eq_sym Hq)) as [?|(l1 & l2 & s3 & -> & ? & ?)]; [by left|].
    right. exists l1, (l2 ++ [ev]), s3. by rewrite (assoc_L (++)).
  - apply list_elem_of_fmap in Ha as (q & [= <- ->] & _). right. by exists sched, [ev], s1.
Qed.

(** Every listed connection is in a stage that it reached in order. *)
Lemma loop_in_order sched s :
  I [] s → delivers live sched s = true →
  ∃ s' ps', run_callbacks sched s = Ok tt s' ∧ I ps' s' ∧
    ∀ p, p ∈ ps' → ∃ b, stage_of s' p = Some b ∧
      (b = Connecting ∨ ∃ sched1 sched2 s1, sched = sched1 ++ sched2 ∧ run_callbacks sched1 s = Ok tt s1 ∧
         next_stage (stage_of s1 p) (Some b)).
Proof.
  intros HI Hd. destruct (loop_runs sched [] s HI Hd) as (s' & ps' & H1 & H2).
  exists s', ps'. split_and!; [done|done|]. intros p Hp. destruct (proj1 (lp_listed _ _ p H2) Hp) as [b Hb].
  exists b. split; [done|]. by eapply loop_stages.
Qed.
End loops.

(** ** Start and end of the program *)

(** A program that has no object yet. *)
Record fresh (s : state) : Prop := {
  fr_wf : wf s;
  fr_clients : clients s = ∅;
  fr_addrs : addrs s = ∅;
  fr_heaps : pump_heaps s = (∅, ∅, ∅);
  fr_envs : envs s = ∅;
  fr_listeners : listeners s = ∅;
  fr_strs : strs s = ∅;
  fr_bases : bases s = ∅;
  fr_nodes : nodes s = ∅;
  fr_bevs : bevs s = ∅;
  fr_evs : evs s = ∅;
  fr_pump : pumpMethodImpl s = None
}.

Lemma env_ok_trace s env e fd ev tr : env_ok s env e fd ev → env_ok (set_trace tr s) env e fd ev.
Proof. intros [? [[? ? ? ?] ?] ? ? ? ? ? ? ? ?]. by split. Qed.

(** The end of [main] once no client is left. *)
Lemma wp_shutdown_rest {EXT : Env} s env e fd ev (Q : Z → state → Prop) :
  env_ok s env e fd ev → is_Some (bases s !! eventBaseLoop e) →
  (∀ cs s', env_released env e fd ev (did cs s) s' → Q 0 s') →
  wp (base ← fld env eventBaseLoop;
      _ ← load (T:=unit) base;
      ge ← sys (c_event_base_got_exit base);
      (if (ge : bool) then mret tt else sys (c_event_base_got_break base) ;; mret tt) ;;
      TRANSOCKS_FREE transocks_global_env_free env ;;
      mret 0) Q s.
Proof.
  intros Hok [b Hb] HQ. pose proof (eo_live _ _ _ _ _ Hok) as He. st_steps. set (ge := ext _ _).
  assert (∀ (P : unit → state → Prop) t, (∀ cs, P tt (did cs t)) →
    wp (if (ge : bool) then mret tt else sys (c_event_base_got_break (eventBaseLoop e)) ;; mret tt) P t) as Hbr.
  { intros P t HP. destruct ge; [apply wp_ret; specialize (HP []); by rewrite did_nil in HP|]. st_steps. apply (HP [_]). }
  apply Hbr. intros cs. rewrite TRANSOCKS_FREE_live.
  2:{ intros E. destruct (eo_null _ _ _ _ _ Hok) as (_ & Hn & _). congruence. }
  apply wp_bind. eapply wp_mono; [by eapply (wp_global_env_free _ env e fd ev), env_ok_trace, env_ok_trace|].
  intros [] s' Hr. apply wp_ret, (HQ ([c_event_base_got_exit (eventBaseLoop e)] ++ cs)). rewrite <-did_did. exact Hr.
Qed.

Section stop.
Context {env : Z} {e : transocks_global_env} {lfd lev : Z}.
Implicit Types s : state.

Lemma apart_NoDup l : NoDup l → apart_list l.
Proof. induction 1 as [|x l Hx _ IH]; constructor; [|done]. apply Forall_forall. intros y Hy <-. by destruct Hx. Qed.

Lemma inv_env_ok ps s : inv k env e lfd lev ps s → env_ok s env e lfd lev.
Proof.
  intros Hinv. pose proof (in_env Hinv) as [].
  assert (∀ v, v ∈ (env_events e lev).*1 → handle_ok (evs s) v) as Hv.
  { intros v ([x f] & -> & H)%list_elem_of_fmap. right. destruct (ei_evs0 _ _ H) as (t & E & _). simpl. eauto. }
  pose proof (in_wf Hinv) as Hwf. split.
  - by rewrite ei_envs0, lookup_singleton_eq.
  - split; [by apply wf_null_ok|]. destruct Hwf. split_and!; (eapply below_None; [eassumption|unfold NULL; lia]).
  - right. rewrite ei_strs0, lookup_singleton_eq. eauto.
  - right. destruct ei_relay0 as [a ->]. eauto.
  - right. destruct ei_bind0 as (a & n & -> & _). eauto.
  - inversion_clear ei_apart0 as [|? ? Hn _]. intros E. destruct Hn. rewrite E. left.
  - right. split; [by rewrite ei_listeners0, lookup_singleton_eq|]. apply Hv. left.
  - apply Forall_forall. intros v Hin. apply Hv. unfold signal_evs in Hin. simpl. set_solver.
  - apply apart_NoDup. revert ei_apart0. unfold env_handles, signal_evs. simpl. rewrite !NoDup_cons. set_solver.
  - right. rewrite ei_bases0, lookup_singleton_eq. eauto.
Qed.

(** After the release of the environment of a program without clients nothing
    is left. *)
Lemma inv_released s s' :
  cf_heaps k = (∅, ∅, ∅) → cf_extra k = ∅ → inv k env e lfd lev [] s → env_released env e lfd lev s s' →
  nothing_live s' = true.
Proof.
  intros Hh Hx Hinv (_ & E1 & E2 & E3 & E4 & E5 & E6 & E7 & E8 & E9 & E10).
  pose proof (inv_env_ok _ _ Hinv) as Hok. pose proof (in_wf Hinv) as Hwf.
  pose proof (in_env Hinv) as [].
  assert (clients s = ∅) as Hc.
  { apply map_empty. intros p. destruct (clients s !! p) eqn:E; [|done].
    assert (p ∈ []) as ?%elem_of_nil by (apply (in_dom Hinv); eauto). done. }
  assert (listener e ≠ NULL) as Hl.
  { intros E. destruct (eo_null _ _ _ _ _ Hok) as (_ & _ & _ & Hn & _). rewrite ei_listeners0, E, lookup_singleton_eq in Hn. done. }
  rewrite ei_heaps0, Hh in E10. injection E10 as H1 H2 H3.
  rewrite ei_envs0, delete_singleton_eq in E1. rewrite ei_strs0, delete_singleton_eq in E2.
  rewrite ei_listeners0, delete_singleton_eq in E4. rewrite ei_bases0, delete_singleton_eq in E6. rewrite Hc in E8.
  rewrite (proj2 (Z.eqb_neq _ _) Hl) in E5.
  assert (addrs s' = ∅) as Ha.
  { apply map_empty. intros q. rewrite E3, !lookup_delete. repeat case_decide; try done.
    destruct (addrs s !! q) eqn:E; [|done].
    destruct (in_addrs Hinv q) as [?|[?|(? & ? & Hp & _)]]; [eauto|congruence|congruence|]. by rewrite Hc in Hp. }
  assert (evs s' = ∅) as Hev.
  { apply map_empty. intros q. rewrite E5. simpl. rewrite !lookup_delete. repeat case_decide; try done.
    destruct (evs s !! q) eqn:E; [|done].
    destruct (in_evs Hinv q) as [Hq|[(? & ? & Hp & _)|Hq]]; [eauto| |by rewrite Hc in Hp|by rewrite Hx in Hq]. simpl in Hq. set_solver. }
  assert (nodes s' = ∅) as Hn.
  { apply map_empty. intros q. rewrite E7, !lookup_delete. case_decide; [done|].
    destruct (nodes s !! q) eqn:E; [|done].
    apply (mk_is_Some _ _), (in_nodes Hinv) in E. simpl in E. set_solver. }
  assert (bevs s' = ∅) as Hb.
  { apply map_empty. intros q. rewrite E9. destruct (bevs s !! q) eqn:E; [|done].
    destruct (in_bevs Hinv q) as (? & ? & Hp & _); [eauto|]. by rewrite Hc in Hp. }
  unfold nothing_live. rewrite E1, E2, E4, E6, E8, Ha, Hev, Hn, Hb, H1, H2, H3. done.
Qed.
End stop.
End generic.

(** ** The objects of the pump *)

(** Only the implementation of the pump matters for the phases. *)
Lemma client_inv_config k k' s env p c :
  cf_impl k' = cf_impl k → client_inv k s env p c → client_inv k' s env p c.
Proof.
  intros E [? ? ? ? ? (cb & rb & ? & ? & Hph)]. split; try done. exists cb, rb. split_and!; [done..|].
  destruct Hph; [by apply ph_connecting|by apply ph_method|by apply ph_reply|apply ph_pumping; [congruence|done..]
    |apply ph_splicing; [congruence|done..]].
Qed.

(** The pump's objects and events come and go without the others noticing. *)
Lemma inv_extra k k' env e lfd lev ps s s' :
  inv k env e lfd lev ps s → cf_impl k' = cf_impl k → cf_name k' = cf_name k → pump_heaps s' = cf_heaps k' →
  same_globals s s' → wf s' →
  clients s' = clients s → addrs s' = addrs s → bevs s' = bevs s → nodes s' = nodes s →
  (∀ v, v ∉ cf_extra k → v ∉ cf_extra k' → evs s' !! v = evs s !! v) →
  (∀ v, v ∈ cf_extra k → v ∉ cf_extra k' → evs s' !! v = None) →
  (∀ v, v ∈ cf_extra k' → is_Some (evs s' !! v) ∧ (v ∉ env_handles e lev) ∧
     (∀ p c, clients s !! p = Some c → v ∉ client_handles c)) →
  inv k' env e lfd lev ps s'.
Proof.
  intros Hinv Ei En Eh Hg Hwf' Ec Ea Eb Ens Hsame Hgone Hnew.
  assert (∀ v, v ∈ env_handles e lev → evs s' !! v = evs s !! v) as Henv.
  { intros v Hv. apply Hsame; [intros (_ & H & _)%(in_extra Hinv)|intros (_ & H & _)%Hnew]; done. }
  assert (∀ v p c, clients s !! p = Some c → v ∈ client_handles c → evs s' !! v = evs s !! v) as Hcl.
  { intros v p c Hp Hv. apply Hsame; [intros (_ & _ & H)%(in_extra Hinv)|intros (_ & _ & H)%Hnew]; by eapply (H p c). }
  pose proof Hinv as []. split; rewrite ?Ec, ?Ea, ?Eb, ?Ens; try done.
  - destruct in_env0, Hg. split; try congruence; [unfold addr_printable in *; by rewrite Ea|by rewrite Ea|]. intros v f Hin.
    rewrite Henv; [by apply ei_evs0|]. unfold env_handles. do 2 right. by apply (list_elem_of_fmap_2' fst _ (v, f)).
  - intros p c Hp. apply (client_inv_config k); [done|].
    eapply client_inv_mono; [by apply in_client0|by rewrite Ec|]. intros x Hx. by rewrite Ea, Eb, (Hcl x p c Hp Hx).
  - intros v Hv. destruct (decide (v ∈ cf_extra k')) as [|Hv']; [by auto|].
    destruct (decide (v ∈ cf_extra k)) as [Hk|Hk]; [rewrite (Hgone v Hk Hv') in Hv; by destruct Hv|].
    rewrite Hsame in Hv by done. destruct (in_evs0 v Hv) as [?|[?|?]]; [by auto|by auto|done].
Qed.

(** A state with fewer objects is well-formed too. *)
Lemma wf_events_pumps s m ps pps :
  wf s → below (brk s) m → below (brk s) ps → below (brk s) pps →
  wf (set_evs m (set_pumps ps (set_pipes pps s))).
Proof. by intros [] ? ? ?; split. Qed.
