(* ===== verification/Streams.v ===== *)
(** * The bytes of a connection

    Which bytes the program takes out of the buffers of libevent and which it
    hands over, read off the history of its calls; and what these are for a
    connection at each stage of the handshake and while it relays.  Each
    callback moves bytes of the connection it runs for only, and what it moves
    is what the next stage asks for. *)

From S2P Require Import Prelude DList ListSpec Structs World Util Context BufferPump SplicePump Pump Socks5 Listener Main Kept Inv.
Local Open Scope Z_scope.

(** ** Flows *)

(** Bytes taken out of the front of a buffer, or handed to the end of one. *)
Inductive flow := Took (q : evbuffer) (bs : list Z) | Gave (q : evbuffer) (bs : list Z).

Definition flow_buf (f : flow) : evbuffer := match f with Took q _ | Gave q _ => q end.

Definition given_by (q : evbuffer) (f : flow) : list Z :=
  match f with Gave q' bs => if decide (q' = q) then bs else [] | Took _ _ => [] end.

Definition taken_by (q : evbuffer) (f : flow) : list Z :=
  match f with Took q' bs => if decide (q' = q) then bs else [] | Gave _ _ => [] end.

(** All that was handed to the buffer [q], and all that was taken out of it, in
    order. *)
Definition given (q : evbuffer) (fs : list flow) : list Z := concat (given_by q <$> fs).
Definition taken (q : evbuffer) (fs : list flow) : list Z := concat (taken_by q <$> fs).

Lemma given_app q fs gs : given q (fs ++ gs) = given q fs ++ given q gs.
Proof. unfold given. by rewrite fmap_app, concat_app. Qed.

Lemma taken_app q fs gs : taken q (fs ++ gs) = taken q fs ++ taken q gs.
Proof. unfold taken. by rewrite fmap_app, concat_app. Qed.

(** The part of the flows that goes through one of the buffers of [bs]. *)
Definition through (bs : list Z) (fs : list flow) : list flow := filter (λ f, buf_bev (flow_buf f) ∈ bs) fs.

Lemma through_all bs fs : (∀ f, f ∈ fs → buf_bev (flow_buf f) ∈ bs) → through bs fs = fs.
Proof.
  intros H. unfold through. induction fs as [|f fs IH]; [done|].
  rewrite filter_cons_True by (apply H; left). rewrite IH; [done|]. intros g Hg. apply H. by right.
Qed.

Lemma through_none bs fs : (∀ f, f ∈ fs → buf_bev (flow_buf f) ∉ bs) → through bs fs = [].
Proof.
  intros H. unfold through. induction fs as [|f fs IH]; [done|].
  rewrite filter_cons_False by (apply H; left). apply IH. intros g Hg. apply H. by right.
Qed.

Lemma given_through q bs fs : buf_bev q ∈ bs → given q (through bs fs) = given q fs.
Proof.
  intros Hq. unfold given, through. induction fs as [|f fs IH]; [done|].
  destruct (decide (buf_bev (flow_buf f) ∈ bs)) as [Hf|Hf]; [rewrite filter_cons_True by done|rewrite filter_cons_False by done];
    rewrite ?fmap_cons; simpl; rewrite IH; [done|].
  destruct f as [q'|q']; simpl in *; [done|]. by rewrite decide_False by (by intros ->).
Qed.

Lemma taken_through q bs fs : buf_bev q ∈ bs → taken q (through bs fs) = taken q fs.
Proof.
  intros Hq. unfold taken, through. induction fs as [|f fs IH]; [done|].
  destruct (decide (buf_bev (flow_buf f) ∈ bs)) as [Hf|Hf]; [rewrite filter_cons_True by done|rewrite filter_cons_False by done];
    rewrite ?fmap_cons; simpl; rewrite IH; [done|].
  destruct f as [q'|q']; simpl in *; [|done]. by rewrite decide_False by (by intros ->).
Qed.

Section flows.
Context (buf : list item → evbuffer → list Z).

(** The flows of one call, made after the history [tr]. *)
Definition flows_of (tr : list item) (c : call) : list flow :=
  match c with
  | c_bufferevent_write b data => [Gave (Output b) data]
  | c_evbuffer_drain q n => [Took q (take (Z.to_nat n) (buf tr q))]
  | c_evbuffer_remove_buffer a b n =>
      let bs := take (Z.to_nat n) (buf tr a) in [Took a bs; Gave b bs]
  | _ => []
  end.

Fixpoint flows (tr : list item) : list flow :=
  match tr with
  | [] => []
  | ICall c :: tr => flows tr ++ flows_of tr c
  | IEvent _ :: tr => flows tr
  end.

Lemma flows_call tr c : moves_bytes c = false → flows (ICall c :: tr) = flows tr.
Proof. intros Hc. simpl. rewrite <-(app_nil_r (flows tr)) at 2. f_equal. by destruct c. Qed.

Lemma flows_did cs s : quiet_calls cs → flows (trace (did cs s)) = flows (trace s).
Proof.
  revert s. induction cs as [|c cs IH]; intros s Hcs; [by rewrite did_nil|]. simpl in Hcs.
  apply andb_true_iff in Hcs as [H1 H2]. change (c :: cs) with ([c] ++ cs).
  rewrite <-did_did, IH by done. change (trace (did [c] s)) with (ICall c :: trace s).
  apply flows_call. by destruct c.
Qed.

(** The program moved no bytes. *)
Definition same_flows (s s' : state) : Prop := flows (trace s') = flows (trace s).

#[export] Instance same_flows_preorder : PreOrder same_flows.
Proof. split; [by intros s|]. intros s1 s2 s3 H1 H2. unfold same_flows in *. congruence. Qed.

#[export] Instance same_flows_calls {EXT : Env} : KeepsCalls same_flows.
Proof.
  split; [apply _|intros c Hc s a s' [= _ <-]; by apply flows_call|].
  intros A m _ s a s'. unfold list_op, zoom. destruct (m (nodes s)); by intros [= _ <-].
Qed.

Ltac keeps_heap_flows :=
  split; [by intros v s a s' [= _ <-]|intros p f s a s'|intros p s a s'];
  unfold modify, dealloc; case_match; by intros [= _ <-].

#[export] Instance same_flows_client : KeepsHeap same_flows transocks_client.
Proof. keeps_heap_flows. Qed.
#[export] Instance same_flows_addr : KeepsHeap same_flows (option sockaddr_storage).
Proof. keeps_heap_flows. Qed.
#[export] Instance same_flows_bev : KeepsHeap same_flows bufferevent.
Proof. keeps_heap_flows. Qed.
#[export] Instance same_flows_ev : KeepsHeap same_flows event.
Proof. keeps_heap_flows. Qed.
#[export] Instance same_flows_block : KeepsHeap same_flows (list Z).
Proof. keeps_heap_flows. Qed.
#[export] Instance same_flows_spump : KeepsHeap same_flows transocks_splicepump.
Proof. keeps_heap_flows. Qed.
#[export] Instance same_flows_pipe : KeepsHeap same_flows transocks_splicepipe.
Proof. keeps_heap_flows. Qed.
#[export] Instance same_flows_env : KeepsHeap same_flows transocks_global_env.
Proof. keeps_heap_flows. Qed.
#[export] Instance same_flows_listener : KeepsHeap same_flows transocks_listener.
Proof. keeps_heap_flows. Qed.
#[export] Instance same_flows_str : KeepsHeap same_flows string.
Proof. keeps_heap_flows. Qed.
#[export] Instance same_flows_base : KeepsHeap same_flows unit.
Proof. keeps_heap_flows. Qed.
End flows.

(** ** The bytes of a connection, stage by stage *)

(** The original destination of a client. *)
Definition dest_of (s : state) (c : transocks_client) : option sockaddr_storage := mjoin (addrs s !! dest_addr c).

(** [req] is the CONNECT request for the destination [d]. *)
Definition asks (d : option sockaddr_storage) (req : list Z) : Prop :=
  ∃ sa size, d = Some sa ∧ request_for sa = Some (size, req).

(** [reply] is what the code takes for the reply: the first bytes of an answer
    that it accepts. *)
Definition accepts_reply (reply : list Z) : Prop := ∃ b n, reply_length b = Some n ∧ reply = take n b.

(** The bytes handed to the relay, taken from the relay, handed to the client
    and taken from the client, of a connection to [d] at a stage, under the
    pump [r].  The splice pump moves no data through buffers. *)
Inductive traffic (r : pump_ref) (d : option sockaddr_storage) : stage → list Z → list Z → list Z → list Z → Prop :=
| tf_connecting : traffic r d Connecting [] [] [] []
| tf_greeting : traffic r d Greeting [5; 1; 0] [] [] []
| tf_requesting req : asks d req → traffic r d Requesting ([5; 1; 0] ++ req) [5; 0] [] []
| tf_relaying req reply down up :
    asks d req → accepts_reply reply → (r = transocks_splicepump_ops_ref → down = [] ∧ up = []) →
    traffic r d Relaying ([5; 1; 0] ++ req ++ up) ([5; 0] ++ reply ++ down) down up.

(** The bytes that one event moves through the buffers of the client's
    bufferevent [cb] and the relay's [rb], and the stage it leads to. *)
Inductive moves_on (r : pump_ref) (d : option sockaddr_storage) (cb rb : Z) : option stage → option stage → list flow → Prop :=
| mo_idle g : moves_on r d cb rb g g []
| mo_connected : moves_on r d cb rb (Some Connecting) (Some Greeting) [Gave (Output rb) [5; 1; 0]]
| mo_method req : asks d req →
    moves_on r d cb rb (Some Greeting) (Some Requesting) [Took (Input rb) [5; 0]; Gave (Output rb) req]
| mo_reply reply : accepts_reply reply → moves_on r d cb rb (Some Requesting) (Some Relaying) [Took (Input rb) reply]
| mo_up bs : r = transocks_bufferpump_ops_ref →
    moves_on r d cb rb (Some Relaying) (Some Relaying) [Took (Input cb) bs; Gave (Output rb) bs]
| mo_down bs : r = transocks_bufferpump_ops_ref →
    moves_on r d cb rb (Some Relaying) (Some Relaying) [Took (Input rb) bs; Gave (Output cb) bs].

Definition traffic_in (r : pump_ref) (d : option sockaddr_storage) (cb rb : Z) (b : stage) (fs : list flow) : Prop :=
  traffic r d b (given (Output rb) fs) (taken (Input rb) fs) (given (Output cb) fs) (taken (Input cb) fs).

(** The buffers through which the bytes of the client go. *)
Definition own_bevs (c : transocks_client) : list Z := [client_bev c; relay_bev c].

Ltac flow_bytes := cbn; repeat first [rewrite decide_True by done | rewrite decide_False by congruence]; rewrite ?app_nil_r.

Lemma moves_on_traffic r d cb rb g g' b fs new :
  cb ≠ rb → moves_on r d cb rb g g' new → g = Some b → traffic_in r d cb rb b fs →
  ∃ b', g' = Some b' ∧ traffic_in r d cb rb b' (fs ++ new).
Proof.
  intros Hne Hm Hg. unfold traffic_in.
  destruct Hm as [g| |req Hr|reply Hr|bs Hr|bs Hr]; simplify_eq; [exists b; by rewrite app_nil_r|..]; intros Ht;
    eexists; (split; [done|]); rewrite !given_app, !taken_app; inversion Ht; subst; flow_bytes; try by econstructor.
  - rewrite <-(app_nil_r req), <-(app_nil_r reply). by apply (tf_relaying r d req reply [] []).
  - rewrite <-(assoc_L (++)). by apply (tf_relaying _ d req reply _ (_ ++ bs)).
  - rewrite <-(assoc_L (++)). by apply (tf_relaying _ d req reply (_ ++ bs)).
Qed.

(** ** States of the event loop *)

Section streams.
Context (buf : list item → evbuffer → list Z) (r : pump_ref).

(** Every connection has the traffic of its stage, and no byte went through a
    bufferevent that does not exist yet. *)
Record streamed (s : state) : Prop := {
  sd_traffic p c : clients s !! p = Some c →
    ∃ b, stage_of s p = Some b ∧ traffic_in r (dest_of s c) (client_bev c) (relay_bev c) b (flows buf (trace s));
  sd_old f : f ∈ flows buf (trace s) → buf_bev (flow_buf f) < brk s
}.

(** One event moved the bytes [new]: these are, for each connection, those of
    its step, and a new connection has new buffers. *)
Record streams_by (new : list flow) (s s' : state) : Prop := {
  so_flows : flows buf (trace s') = flows buf (trace s) ++ new;
  so_old f : f ∈ new → buf_bev (flow_buf f) < brk s;
  so_clients p c' : clients s' !! p = Some c' →
    (stage_of s' p = Some Connecting ∧ ∀ b, b ∈ own_bevs c' → brk s ≤ b) ∨
    ∃ c, clients s !! p = Some c ∧ own_bevs c' = own_bevs c ∧ dest_of s' c' = dest_of s c ∧
      moves_on r (dest_of s c) (client_bev c) (relay_bev c) (stage_of s p) (stage_of s' p) (through (own_bevs c) new)
}.

Definition streams_on (s s' : state) : Prop := ∃ new, streams_by new s s'.

Lemma bytes_absent q n fs : (∀ f, f ∈ fs → buf_bev (flow_buf f) < n) → n ≤ buf_bev q → given q fs = [] ∧ taken q fs = [].
Proof.
  intros Hfs Hq. rewrite <-(given_through q [buf_bev q]), <-(taken_through q [buf_bev q]) by set_solver.
  rewrite through_none; [done|]. intros f Hf Heq%list_elem_of_singleton. specialize (Hfs f Hf). lia.
Qed.

Lemma streamed_on s s' :
  streamed s → streams_on s s' → brk s ≤ brk s' →
  (∀ p c, clients s !! p = Some c → client_bev c ≠ relay_bev c) → streamed s'.
Proof.
  intros [Ht Ho] (new & [Hfl Hold Hcl]) Hbrk Hne.
  assert (∀ f, f ∈ flows buf (trace s') → buf_bev (flow_buf f) < brk s) as Hall.
  { intros f. rewrite Hfl, elem_of_app. intros [?|?]; auto. }
  split; [|intros f Hf; specialize (Hall f Hf); lia].
  intros p c' Hc'. destruct (Hcl p c' Hc') as [[Hst Hb]|(c & Hc & Hown & Hd & Hm)].
  - exists Connecting. split; [done|]. unfold own_bevs in Hb. unfold traffic_in.
    destruct (bytes_absent (Output (relay_bev c')) _ _ Hall) as [-> _]; [apply Hb; set_solver|].
    destruct (bytes_absent (Input (relay_bev c')) _ _ Hall) as [_ ->]; [apply Hb; set_solver|].
    destruct (bytes_absent (Output (client_bev c')) _ _ Hall) as [-> _]; [apply Hb; set_solver|].
    destruct (bytes_absent (Input (client_bev c')) _ _ Hall) as [_ ->]; [apply Hb; set_solver|]. constructor.
  - destruct (Ht p c Hc) as (b & Hb & Htr). injection Hown as E1 E2.
    destruct (moves_on_traffic _ _ _ _ _ _ _ _ _ (Hne p c Hc) Hm Hb Htr) as (b' & Hb' & Htr').
    exists b'. split; [done|]. rewrite Hd, E1, E2, Hfl. revert Htr'. unfold traffic_in.
    rewrite !given_app, !taken_app, !given_through, !taken_through by (unfold own_bevs; set_solver). done.
Qed.

(** The delivery of an event moves no bytes. *)
Lemma streams_delivered ev s s' : streams_on (push (IEvent ev) s) s' → streams_on s s'.
Proof. intros (new & [H1 H2 H3]). exists new. by split. Qed.

(** An event that moves no bytes and leaves the clients as they are, or adds
    one. *)
Lemma streams_quiet s s' :
  same_flows buf s s' →
  (∀ p c', clients s' !! p = Some c' →
    (stage_of s' p = Some Connecting ∧ ∀ b, b ∈ own_bevs c' → brk s ≤ b) ∨
    (clients s !! p = Some c' ∧ dest_of s' c' = dest_of s c' ∧ stage_of s' p = stage_of s p)) →
  streams_on s s'.
Proof.
  intros Hf Hc. exists []. split; [by rewrite app_nil_r|set_solver|].
  intros p c' [?|(H1 & H2 & H3)]%Hc; [by left|]. right. exists c'. split_and!; [done..|]. rewrite H3. constructor.
Qed.

(** ** The event of a client *)

Section one_client.
Context {k : config} {env : Z} {e : transocks_global_env} {lfd lev : Z} {s : state} {l1 l2 : list Z} {p : Z} {c : transocks_client}.
Context (Hinv : inv k env e lfd lev (l1 ++ p :: l2) s) (Hp : clients s !! p = Some c).

(** What the callback of a client does to its bytes. *)
Definition client_streams (s' : state) : Prop :=
  ∃ new, flows buf (trace s') = flows buf (trace s) ++ new ∧ (∀ f, f ∈ new → buf_bev (flow_buf f) ∈ own_bevs c) ∧
    (is_Some (clients s' !! p) → moves_on r (dest_of s c) (client_bev c) (relay_bev c) (stage_of s p) (stage_of s' p) new).

Lemma own_handle c' x : x ∈ own_bevs c' → x ∈ client_handles c'.
Proof. unfold own_bevs, client_handles. rewrite !elem_of_cons. tauto. Qed.

(** The client keeps its buffers and its destination if it is still there, and
    every other client is as it was, in its stage. *)
Record client_frame (s' : state) : Prop := {
  cf_self c' : clients s' !! p = Some c' → own_bevs c' = own_bevs c ∧ dest_of s' c' = dest_of s c;
  cf_others q c' : q ≠ p → clients s' !! q = Some c' →
    clients s !! q = Some c' ∧ dest_of s' c' = dest_of s c' ∧ stage_of s' q = stage_of s q
}.

Lemma frame_changed s' c1 :
  clients s' = <[p := c1]> (clients s) → same_handles c c1 → addrs s' = addrs s →
  (∀ q, q ≠ client_bev c → q ≠ relay_bev c → bevs s' !! q = bevs s !! q) → client_frame s'.
Proof.
  intros Ec (E1 & E2 & E3 & E4 & E5) Ea Eb. split.
  - intros c'. rewrite Ec, lookup_insert_eq. intros [= <-]. unfold own_bevs, dest_of. by rewrite E2, E3, E4, Ea.
  - intros q c' Hq Hc'. pose proof Hc' as Hc0. rewrite Ec, lookup_insert_ne in Hc0 by done.
    split_and!; [done|unfold dest_of; by rewrite Ea|]. eapply stage_frame; [done|done|].
    apply Eb; eapply (other_not_mine _ _ _ _ _ _ _ _ Hinv Hp q c'); [done|done|handle_in..|done|done|handle_in|handle_in].
Qed.

Lemma frame_gone s' :
  clients s' = delete p (clients s) → addrs s' = delete (dest_addr c) (delete (client_addr c) (addrs s)) →
  bevs s' = delete (client_bev c) (delete (relay_bev c) (bevs s)) → client_frame s'.
Proof.
  intros Ec Ea Eb. split; [intros c'; by rewrite Ec, lookup_delete_eq|].
  intros q c' Hq Hc'. pose proof Hc' as Hc0. rewrite Ec, lookup_delete_ne in Hc0 by done. split_and!; [done| |].
  - unfold dest_of. rewrite Ea, !lookup_delete_ne; [done|eapply not_eq_sym, (other_not_mine _ _ _ _ _ _ _ _ Hinv Hp q c'); [done|done|handle_in..]..].
  - eapply stage_frame; [done|done|].
    rewrite Eb, !lookup_delete_ne; [done|eapply not_eq_sym, (other_not_mine _ _ _ _ _ _ _ _ Hinv Hp q c'); [done|done|handle_in..]..].
Qed.

Lemma step_frame s' :
  client_step (k:=k) p c (clients_head env) (client_node <$> l1) (client_node <$> l2) s s' → client_frame s'.
Proof.
  intros [(c1 & [Hnr _] & _)|[]]; [|by apply frame_gone].
  eapply frame_changed; [apply Hnr|apply Hnr|apply Hnr|]. intros q. by apply (near_bevs _ _ _ _ _ _ Hnr).
Qed.

Lemma client_streams_on s' : client_frame s' → client_streams s' → streams_on s s'.
Proof.
  intros [Hself Hoth] (new & Hfl & Hown & Hm). exists new. split; [done|..].
  { intros f Hf%Hown%own_handle. exact (client_handles_old _ _ _ _ _ _ Hinv _ _ _ Hp Hf). }
  intros q c' Hc'. right. destruct (decide (q = p)) as [->|Hq].
  - destruct (Hself c' Hc') as [E1 E2]. exists c. split_and!; [done..|]. rewrite through_all by done. eauto.
  - destruct (Hoth q c' Hq Hc') as (Hc0 & Hd & Hst). exists c'. split_and!; [done..|].
    rewrite Hst, through_none; [constructor|]. intros f Hf%Hown%own_handle Hf'%own_handle.
    exact (in_apart Hinv q p c' c _ Hq Hc0 Hp Hf' Hf).
Qed.
End one_client.

(** ** What the functions that move bytes move *)

Section adds.
Context {EXT : Env}.

(** When [m] returns from [s], it has moved the bytes [new]. *)
Definition adds {A} (new : list flow) (m : C A) (s : state) : Prop :=
  ∀ a s', m s = Ok a s' → flows buf (trace s') = flows buf (trace s) ++ new.

Lemma adds_quiet {A} (m : C A) s : keeps (same_flows buf) m → adds [] m s.
Proof. intros Hm a s' Hrun. rewrite app_nil_r. exact (Hm _ _ _ Hrun). Qed.

Lemma adds_runs {A} (m m' : C A) s s1 new new' :
  m s = m' s1 → flows buf (trace s1) = flows buf (trace s) ++ new → adds new' m' s1 → adds (new ++ new') m s.
Proof. intros E Hs1 Hm a s' Hrun. rewrite E in Hrun. by rewrite (Hm _ _ Hrun), Hs1, (assoc_L (++)). Qed.

Lemma adds_then {A B} (m : C A) (f : A → C B) s new :
  keeps (same_flows buf) m → (∀ a s', m s = Ok a s' → adds new (f a) s') → adds new (m ≫= f) s.
Proof.
  intros Hm Hf b s'. unfold mbind, M_bind. destruct (m s) as [a s1| |] eqn:E; [|done..]. intros Hrun.
  rewrite (Hf _ _ eq_refl _ _ Hrun). f_equal. exact (Hm _ _ _ E).
Qed.

Lemma adds_first {A B} (m : C A) (f : A → C B) s new :
  adds new m s → (∀ a, keeps (same_flows buf) (f a)) → adds new (m ≫= f) s.
Proof.
  intros Hm Hf b s'. unfold mbind, M_bind. destruct (m s) as [a s1| |] eqn:E; [|done..]. intros Hrun.
  etrans; [exact (Hf _ _ _ _ Hrun)|exact (Hm _ _ E)].
Qed.

Lemma adds_write b data s : adds [Gave (Output b) data] (bufferevent_write b data) s.
Proof.
  unfold bufferevent_write. apply adds_then; [apply keeps_load; apply _|]. intros _ s1 _ a s' Hrun.
  unfold sys in Hrun. by injection Hrun as _ <-.
Qed.

Lemma adds_fld {T A B} `{!HeapOf T} p (g : T → A) (f : A → C B) v s new :
  hget s !! p = Some v → adds new (f (g v)) s → adds new (fld p g ≫= f) s.
Proof.
  intros Hv Hf. eapply (adds_runs _ (f (g v)) s s [] new); [|by rewrite app_nil_r|done].
  apply bind_runs. by eapply wp_fld.
Qed.

Lemma adds_method_selection p c s :
  clients s !! p = Some c → adds [Gave (Output (relay_bev c)) [5; 1; 0]] (socks_send_method_selection p) s.
Proof.
  intros Hp. unfold socks_send_method_selection. eapply adds_fld; [exact Hp|].
  apply adds_then; [apply keeps_bev_setwatermark; apply _|]. intros _ s1 _.
  apply adds_first; [apply adds_write|]. intros _. keeps;
    first [apply keeps_bev_setcb | apply keeps_bev_enable | apply keeps_set_timeout]; apply _.
Qed.

Lemma adds_send_request relay size rq m1 m2 s :
  keeps (same_flows buf) m1 → keeps (same_flows buf) m2 → 0 < brk s →
  adds (if ext (trace s) (c_malloc size) then [Gave (Output relay) (bytes_of_request rq)] else []) 
    (send_request relay size rq m1 m2) s.
Proof.
  intros H1 H2 Hbrk. destruct (ext (trace s) (c_malloc size)) eqn:E.
  - eapply (adds_runs _ (bufferevent_write relay (bytes_of_request rq) ;; TRANSOCKS_FREE (tr_free (list Z)) (brk s) ;; m2) _ _ []).
    + unfold send_request, tr_malloc_block. apply bind_runs. st_steps. rewrite E. st_steps. not_null. st_run. done.
    + rewrite app_nil_r. by apply flows_call.
    + apply adds_first; [apply adds_write|]. intros _. keeps. apply keeps_FREE; [apply _|].
      intros q. apply keeps_tr_free; apply _.
  - eapply (adds_runs _ m1 _ (push (ICall (c_malloc size)) s) []); [|rewrite app_nil_r; by apply flows_call|by apply adds_quiet].
    unfold send_request, tr_malloc_block. apply bind_runs. st_steps. rewrite E. by st_steps.
Qed.

Lemma adds_connect_request p c sa s :
  clients s !! p = Some c → addrs s !! dest_addr c = Some (Some sa) → 0 < brk s →
  adds match request_for sa with
       | Some (size, req) => if ext (trace s) (c_malloc size) then [Gave (Output (relay_bev c)) req] else []
       | None => []
       end (socks_send_connect_request p) s.
Proof.
  intros Hp Hsa Hbrk. assert (keeps (same_flows buf) (free_client p)) by (apply keeps_free_client; apply _).
  unfold socks_send_connect_request. do 2 (eapply adds_fld; [exact Hp|]). unfold request_for.
  destruct (ss_family sa =? AF_INET) eqn:E4; [|destruct (ss_family sa =? AF_INET6) eqn:E6].
  - eapply (adds_runs _ _ _ s []); [st_run; rewrite E4; reflexivity|by rewrite app_nil_r|].
    apply adds_send_request; [done|apply keeps_await_reply; apply _|done].
  - eapply (adds_runs _ _ _ s []); [st_run; rewrite E4, E6; reflexivity|by rewrite app_nil_r|].
    apply adds_send_request; [done|apply keeps_await_reply; apply _|done].
  - eapply (adds_runs _ _ _ s []); [st_run; rewrite E4, E6; reflexivity|by rewrite app_nil_r|by apply adds_quiet].
Qed.
End adds.

(** ** The callbacks of the handshake *)

Section handshake.
Context {EXT : Env} {LAWS : EvbufferLaws EXT buf}.
Context {k : config} {env : Z} {e : transocks_global_env} {lfd lev : Z} {s : state} {l1 l2 : list Z} {p : Z} {c : transocks_client}.
Context (Hinv : inv k env e lfd lev (l1 ++ p :: l2) s) (Hp : clients s !! p = Some c).

Abbreviation its_streams := (client_streams (s:=s) (p:=p) (c:=c)).
Abbreviation is_gone := (gone p c (clients_head env) (client_node <$> l1) (client_node <$> l2)).

(** No bytes moved, and the client is in its stage or gone. *)
Lemma streams_still s' : same_flows buf s s' → clients s' !! p = None ∨ stage_of s' p = stage_of s p → its_streams s'.
Proof.
  intros Hf Hst. exists []. rewrite app_nil_r. split_and!; [done|by intros f []%elem_of_nil|]. intros Hl.
  destruct Hst as [Hn|Hst]; [rewrite Hn in Hl; by destruct Hl|]. rewrite Hst. constructor.
Qed.

(** A client that is gone may have moved bytes of its own. *)
Lemma streams_ended s0 s' new :
  flows buf (trace s') = flows buf (trace s) ++ new → (∀ f, f ∈ new → buf_bev (flow_buf f) ∈ own_bevs c) →
  is_gone s0 s' → its_streams s'.
Proof.
  intros Hf Hown Hg. exists new. split_and!; [done..|]. rewrite (gn_clients _ _ _ _ _ _ _ Hg), lookup_delete_eq. by intros [].
Qed.

Lemma is_gone_None s0 s' : is_gone s0 s' → clients s' !! p = None.
Proof. intros Hg. by rewrite (gn_clients _ _ _ _ _ _ _ Hg), lookup_delete_eq. Qed.

Lemma streams_timeout : wp (socks5_timeout_cb p) (λ _ s', its_streams s') s.
Proof.
  pose proof (inv_shaking Hinv Hp) as Hsk.
  eapply wp_mono; [eapply (wp_keeps (same_flows buf)), (keeps_handshake_ends _ p 0); try apply _|].
  - eapply (wp_free_client s s p c c); [done|apply Hsk|by apply near_refl].
  - intros [] s' [Hg Hf]. apply streams_still; [done|left; by eapply is_gone_None].
Qed.

Lemma streams_errcb events : wp (socks_handshake_stage_errcb events p) (λ _ s', its_streams s') s.
Proof.
  pose proof (inv_shaking Hinv Hp) as Hsk.
  eapply (wp_mono _ (λ _ s', (clients s' !! p = None ∨ stage_of s' p = stage_of s p) ∧ same_flows buf s s')); 
    [apply wp_keeps; [|apply (keeps_handshake_ends _ p events); apply _]|].
  - unfold socks_handshake_stage_errcb. st_steps. apply wp_timer_del; [apply (timer_live Hinv Hp)|]. intros _.
    destruct (_ || _); [|by right].
    eapply wp_mono; [eapply (wp_free_client s _ p c c); [done|apply Hsk|by apply near_did, near_timer, near_refl]|].
    intros [] s' Hg. left. by eapply is_gone_None.
  - intros [] s' [Hst Hf]. by apply streams_still.
Qed.

Lemma stage_new : client_state c = client_NEW → stage_of s p = Some Connecting.
Proof. intros Hst. unfold stage_of. rewrite Hp. simpl. by rewrite Hst. Qed.

Lemma streams_onconnect events :
  client_state c = client_NEW → wp (relay_onconnect_eventcb events p) (λ _ s', its_streams s') s.
Proof.
  intros Hst. pose proof (inv_shaking Hinv Hp) as Hsk. pose proof (timer_live Hinv Hp) as Ht.
  destruct (TRANSOCKS_CHKBIT events BEV_EVENT_CONNECTED) eqn:Ev.
  - assert (adds [Gave (Output (relay_bev c)) [5; 1; 0]] (relay_onconnect_eventcb events p) s) as Hadds.
    { eapply (adds_runs _ (socks_send_method_selection p) _ _ []).
      - unfold relay_onconnect_eventcb. st_run. apply bind_runs, wp_timer_del; [done|]. intros _. rewrite Ev. st_run. reflexivity.
      - rewrite app_nil_r. by apply flows_call.
      - apply (adds_method_selection p (set_client_state client_relay_connected c)). st_norm. apply lookup_insert_eq. }
    eapply wp_mono; [eapply wp_and; [eapply wp_onconnect; [done|apply (inv_timeable Hinv Hp)|done]|intros a s' Hrun _; exact (Hadds _ _ Hrun)]|].
    intros [] s' [(Hgo & _ & _ & (rb & Hrb & R1 & _) & _) Hf]. exists [Gave (Output (relay_bev c)) [5; 1; 0]].
    split_and!; [done|intros f ->%list_elem_of_singleton; unfold own_bevs; set_solver|]. intros _.
    rewrite (goes_on_stage _ _ _ _ _ _ _ Hgo Hrb eq_refl R1), stage_new by done. constructor.
  - unfold relay_onconnect_eventcb. st_steps. apply wp_timer_del; [done|]. intros _. rewrite Ev.
    destruct (TRANSOCKS_CHKBIT events BEV_EVENT_ERROR); [|apply streams_still; [by apply flows_call|by right]].
    eapply wp_mono; [eapply (wp_keeps (same_flows buf)); [|apply keeps_free_client; apply _]|].
    + eapply (wp_free_client s _ p c c); [done|apply Hsk|by apply near_did, near_timer, near_refl].
    + intros [] s' [Hg Hf]. apply streams_still; [|left; by eapply is_gone_None]. etrans; [|exact Hf]. by apply flows_call.
Qed.

(** The bytes that the calls of a callback took out of the buffer [q]. *)
Lemma flows_drained cs q n s0 :
  quiet_calls cs → trace s0 = trace s →
  flows buf (trace (did (cs ++ [c_evbuffer_drain q (Z.of_nat n)]) s0)) = flows buf (trace s) ++ [Took q (take n (buf (trace s) q))].
Proof.
  intros Hcs Es. rewrite <-did_did. change (trace (did [?k] ?t)) with (ICall k :: trace t). cbn [flows flows_of].
  rewrite flows_did, Es, Nat2Z.id by done. do 4 f_equal. etrans; [by apply eb_keeps_did|by rewrite Es].
Qed.

(** The flows of the calls before the request. *)
Lemma flows_answer cs (d : bool) :
  quiet_calls cs →
  flows buf (trace (did (cs ++ if d then drain_calls (relay_bev c) else []) (timer_stopped c s)))
  = flows buf (trace s) ++ if d then [Took (Input (relay_bev c)) (take 2 (buf (trace s) (Input (relay_bev c))))] else [].
Proof.
  intros Hcs. destruct d; [|rewrite !app_nil_r; by apply (flows_did buf cs (timer_stopped c s))].
  change (drain_calls (relay_bev c)) with ([c_evbuffer_drain (Input (relay_bev c)) (Z.of_nat 2)] ++ [c_evbuffer_get_length (Input (relay_bev c))]).
  rewrite (assoc_L (++)), <-did_did, flows_did by done. by apply flows_drained.
Qed.

Lemma streams_selected_method :
  client_state c = client_relay_connected → stage_of s p = Some Greeting →
  wp (socks_on_server_selected_method_readcb (relay_bev c) p) (λ _ s', its_streams s') s.
Proof.
  intros Hst Hstage. pose proof (inv_shaking Hinv Hp) as Hsk.
  destruct (ci_dump (the_client Hinv Hp)) as [_ (sa & n & Hsa & _)].
  destruct (method_answer_runs buf _ _ _ _ _ _ Hsk) as (cs & d & Hcs & Hd & Hrun).
  eapply wp_runs; [exact Hrun|]. clear Hrun. pose proof (flows_answer cs d Hcs) as Hf1.
  destruct (timer_stopped_goes_on p c s (cs ++ if d then drain_calls (relay_bev c) else []) Hp) as [Hnr _].
  set (s1 := did _ _) in *. assert (addrs s1 = addrs s ∧ brk s1 = brk s ∧ clients s1 = clients s ∧ blocks s1 = blocks s
    ∧ envs s1 = envs s ∧ bases s1 = bases s) as (Ea & Eb & Ec & Ebl & Ee & Eba) by done. clearbody s1.
  set (new := if d then _ else _) in Hf1. assert (∀ f, f ∈ new → buf_bev (flow_buf f) ∈ own_bevs c) as Hnew.
  { unfold new, own_bevs. destruct d; [|set_solver]. intros f ->%list_elem_of_singleton. set_solver. }
  destruct (decide _) as [E|E].
  - assert (d = true) as -> by auto. assert (new = [Took (Input (relay_bev c)) [5; 0]]) as Enew by (unfold new; by rewrite E). clearbody new. subst new.
    pose proof (adds_connect_request p c sa s1 (eq_trans (f_equal _ Ec) Hp) (eq_trans (f_equal _ Ea) Hsa)) as Hadds.
    eapply wp_mono; [eapply wp_and; [eapply (wp_send_connect_request s1 p c); [by eapply near_shaking| |by rewrite Ea|]|]|].
    + destruct (inv_timeable Hinv Hp). split; [by rewrite Eb|by rewrite Ee, Eba].
    + rewrite Ebl, Eb. eapply alloc_fresh; [apply wf_blocks, Hinv|done].
    + intros a s' Hrun _. refine (Hadds _ _ _ Hrun). rewrite Eb. apply wf_brk, Hinv.
    + intros [] s' [Hs Hf]. rewrite Hf1 in Hf. destruct (request_for sa) as [[size req]|] eqn:Er.
      2: { rewrite app_nil_r in Hf. eapply streams_ended; [exact Hf|done|exact Hs]. }
      destruct (ext _ _).
      2: { rewrite app_nil_r in Hf. eapply streams_ended; [exact Hf|done|exact Hs]. }
      destruct Hs as (_ & ((rb & Hrb & R1 & _) & _) & Hgo & _). exists [Took (Input (relay_bev c)) [5; 0]; Gave (Output (relay_bev c)) req].
      rewrite Hf, <-(assoc_L (++)). split_and!; [done| |].
      * intros f. unfold own_bevs. rewrite !elem_of_cons, elem_of_nil. intros [->|[->|[]]]; simpl; auto.
      * intros _. rewrite (goes_on_stage _ _ _ _ _ _ _ Hgo Hrb Hst R1), Hstage. constructor.
        exists sa, size. unfold dest_of. by rewrite Hsa.
  - eapply wp_mono; [eapply (wp_keeps (same_flows buf)); [|apply keeps_free_client; apply _]|].
    + eapply (wp_free_client s _ p c c); [done|apply Hsk|done].
    + intros [] s' [Hg Hf]. eapply streams_ended; [by rewrite Hf|done|exact Hg].
Qed.

(** The bytes of the reply are taken out of the buffer. *)
Lemma adds_connect_reply :
  let b := buf (trace s) (Input (relay_bev c)) in
  adds match reply_length b with Some n => [Took (Input (relay_bev c)) (take n b)] | None => [] end
    (socks_on_server_connect_reply_readcb p) s.
Proof.
  intros b. destruct (connect_reply_runs buf _ _ _ _ _ _ (inv_shaking Hinv Hp)) as (cs & Hcs & Hrun). fold b in Hrun.
  destruct (reply_length b) as [n|].
  - eapply (adds_runs _ _ _ _ [_] []); [exact Hrun|by apply flows_drained|apply adds_quiet, keeps_reply_start_pump; apply _].
  - eapply (adds_runs _ _ _ _ [] []); [exact Hrun| |apply adds_quiet, keeps_free_client; apply _].
    rewrite app_nil_r. by apply (flows_did buf cs (timer_stopped c s)).
Qed.

(** Its callback ends the client, or the client relays after it took a reply
    that the code accepts. *)
Lemma streams_reply (Q : unit → state → Prop) :
  stage_of s p = Some Requesting →
  wp (socks_on_server_connect_reply_readcb p) Q s →
  (∀ s', Q tt s' → clients s' !! p = None ∨
     (reply_length (buf (trace s) (Input (relay_bev c))) ≠ None ∧ stage_of s' p = Some Relaying)) →
  wp (socks_on_server_connect_reply_readcb p) (λ _ s', its_streams s') s.
Proof.
  intros Hstage Hwp HQ. pose proof adds_connect_reply as Hadds.
  eapply wp_mono; [eapply wp_and; [exact Hwp|intros a s' Hr _; exact (Hadds _ _ Hr)]|].
  intros [] s' [Hq Hf]. eexists. split_and!; [exact Hf| |].
  - intros f. unfold own_bevs. destruct (reply_length _); [|set_solver]. intros ->%list_elem_of_singleton. set_solver.
  - intros Hl. destruct (HQ s' Hq) as [Hn|[Hr Hst]]; [rewrite Hn in Hl; by destruct Hl|].
    destruct (reply_length _) as [n|] eqn:E; [|done]. rewrite Hstage, Hst. apply mo_reply. by eexists _, n.
Qed.

Lemma streams_connect_reply :
  pumpMethodImpl s = Some transocks_bufferpump_ops_ref → stage_of s p = Some Requesting →
  wp (socks_on_server_connect_reply_readcb p) (λ _ s', its_streams s') s.
Proof.
  intros Hi Hstage. pose proof (inv_shaking Hinv Hp) as Hsk.
  destruct (reply_length (buf (trace s) (Input (relay_bev c)))) as [n|] eqn:E.
  - eapply streams_reply; [done|eapply (wp_connect_reply_accepted buf); [done|apply (handle_set Hinv Hp); handle_in|done|exact E]|].
    intros s' [[[[Hnr _] _ _] _]|[_ Hg]]; [right|left; by eapply is_gone_None]. split; [by rewrite E|].
    unfold stage_of. by rewrite (nr_clients _ _ _ _ _ Hnr), lookup_insert_eq.
  - eapply streams_reply; [done|eapply (wp_connect_reply_rejected buf); [exact Hsk|exact E]|]. intros s' Hg. left. exact (is_gone_None _ _ Hg).
Qed.

(** ** The callbacks of the buffer pump *)

Lemma streams_relaying s' :
  client_step (k:=k) p c (clients_head env) (client_node <$> l1) (client_node <$> l2) s s' →
  stage_of s p = Some Relaying → same_flows buf s s' → its_streams s'.
Proof.
  intros Hst Hstage Hf. apply streams_still; [done|]. destruct Hst as [(c1 & _ & _ & _ & _ & [?|Hn])|Hg]; [by right| |left; by eapply is_gone_None].
  rewrite Hstage in Hn. inversion Hn.
Qed.

Lemma streams_move_all a b :
  stage_of s p = Some Relaying → buf_bev a ∈ own_bevs c → buf_bev b ∈ own_bevs c →
  (∀ bs, moves_on r (dest_of s c) (client_bev c) (relay_bev c) (Some Relaying) (Some Relaying) [Took a bs; Gave b bs]) →
  wp (srclen ← evbuffer_get_length a; evbuffer_remove_buffer a b srclen ;; mret tt) (λ _ s', its_streams s') s.
Proof.
  intros Hstage Ha Hb Hm. assert (∀ x, x ∈ own_bevs c → is_Some (bevs s !! x)) as Hlive.
  { intros x Hx. apply (bev_live Hinv Hp). unfold own_bevs in Hx. rewrite !elem_of_cons, elem_of_nil in Hx. tauto. }
  apply wp_bind, (wp_get_length buf); [by apply Hlive|]. destruct (Hlive _ Ha) as [va Ea]. destruct (Hlive _ Hb) as [vb Eb].
  unfold evbuffer_remove_buffer. st_steps. eexists. split_and!.
  - change (trace (push ?i ?t)) with (i :: trace t). cbn [flows flows_of].
    change (flows buf (trace (did [c_evbuffer_get_length a] s))) with (flows buf (trace s) ++ []).
    rewrite app_nil_r. reflexivity.
  - intros f. rewrite !elem_of_cons, elem_of_nil. intros [->|[->|[]]]; done.
  - intros _. change (stage_of _ p) with (stage_of s p). rewrite Hstage. apply Hm.
Qed.

Lemma streams_client_readcb :
  r = transocks_bufferpump_ops_ref → stage_of s p = Some Relaying → wp (transocks_client_readcb p) (λ _ s', its_streams s') s.
Proof.
  intros Hr Hstage. unfold transocks_client_readcb. do 4 st_step.
  apply streams_move_all; [done|unfold own_bevs; set_solver..|]. intros bs. by constructor.
Qed.

Lemma streams_relay_readcb :
  r = transocks_bufferpump_ops_ref → stage_of s p = Some Relaying → wp (transocks_relay_readcb p) (λ _ s', its_streams s') s.
Proof.
  intros Hr Hstage. unfold transocks_relay_readcb. do 4 st_step.
  apply streams_move_all; [done|unfold own_bevs; set_solver..|]. intros bs. by constructor.
Qed.
End handshake.

(** ** The callbacks of the environment *)

Section environment.
Context {EXT : Env} {k : config} {env : Z} {e : transocks_global_env} {lfd lev : Z} {s : state} {ps : list Z}.
Context (Hinv : inv k env e lfd lev ps s).

Lemma streams_same s' :
  same_flows buf s s' → clients s' = clients s → addrs s' = addrs s → bevs s' = bevs s → streams_on s s'.
Proof.
  intros Hf Ec Ea Eb. apply streams_quiet; [done|]. intros p c Hc. right. rewrite Ec in Hc. unfold dest_of, stage_of.
  by rewrite Ec, Ea, Eb.
Qed.

Lemma streams_empty s' : same_flows buf s s' → clients s' = ∅ → streams_on s s'.
Proof. intros Hf Ec. apply streams_quiet; [done|]. intros p c. by rewrite Ec, lookup_empty. Qed.

Lemma streams_listener s' :
  listener_outcome (env:=env) (e:=e) ps s s' → same_flows buf s s' → streams_on s s'.
Proof.
  intros [(F1 & F2 & F3 & _)|s1 cfd src slen dst dlen Hac Hgone|s1 cfd src slen dst dlen relay_a rfd ev _ _ _ Hac Hcn] Hf.
  - by apply streams_same.
  - destruct (abandoned_same _ _ _ _ _ _ _ _ _ (in_wf Hinv) Hac Hgone) as (? & ? & ? & _). by apply streams_same.
  - destruct Hac as [A1 A2 A3 A4 A5 A6 A7 A8 A9 A10], Hcn as [B1 Hrfd Hev Hev' B2 B3 B4 B5 B6 B7 B8 B9 B10 _].
    rewrite A1, insert_insert_eq in B1. rewrite A3 in B2. rewrite A2 in B5.
    apply streams_quiet; [done|]. intros p c'. rewrite B1, lookup_insert. case_decide as Hpb; [subst p; intros [= <-]; left|intros Hc'; right].
    + split; [unfold stage_of; by rewrite B1, lookup_insert_eq|]. unfold own_bevs, accepted_client. st_norm.
      intros b. rewrite !elem_of_cons, elem_of_nil. unfold accepted_client in *. simpl in *. addr_lia.
    + assert (∀ x, x ∈ client_handles c' → x < brk s) as Hold by (intros x; by apply (client_handles_old _ _ _ _ _ _ Hinv p)).
      split_and!; [done| |].
      * unfold dest_of. rewrite B5. pose proof (Hold (dest_addr c') ltac:(handle_in)).
        unfold accepted_client. simpl. by rewrite !lookup_insert_ne by addr_lia.
      * pose proof (Hold (relay_bev c') ltac:(handle_in)). eapply stage_frame; [done|by rewrite B1, lookup_insert_ne|].
        rewrite B2, !lookup_insert_ne; [done|unfold accepted_client in *; simpl in *; addr_lia..].
Qed.
End environment.
End streams.

(** ** Every run of the event loop *)

(** What the callbacks of a pump promise about the bytes: each event moves
    those of its step, and the clients are the connections, with two buffers
    each. *)
Class StreamLoop {EXT : Env} (buf : list item → evbuffer → list Z) (r : pump_ref) (live : loop_event → state → bool)
    (I : list Z → state → Prop) : Prop := {
  sl_event ev ps s : I ps s → live ev s = true →
    ∃ s' ps', run_callback ev s = Ok tt s' ∧ I ps' s' ∧ streams_on buf r s s';
  sl_client ps s p c : I ps s → clients s !! p = Some c → p ∈ ps ∧ client_bev c ≠ relay_bev c
}.

Section stream_loops.
Context {EXT : Env} {buf : list item → evbuffer → list Z} {r : pump_ref} {live : loop_event → state → bool}.
Context {I : list Z → state → Prop} `{!StreamLoop buf r live I}.

Lemma streams_run sched ps s :
  I ps s → streamed buf r s → delivers live sched s = true →
  ∃ s' ps', run_callbacks sched s = Ok tt s' ∧ I ps' s' ∧ streamed buf r s'.
Proof.
  intros HI Hs Hd. destruct (run_callbacks_keep live (λ s, ∃ ps, I ps s ∧ streamed buf r s) sched s) as (s' & E & ps' & H'); [|eauto..].
  intros ev t (ps0 & Ht & Hst) Hl. destruct (sl_event ev ps0 t Ht Hl) as (t' & ps' & Hrun & Ht' & Hon).
  exists t'. split; [done|]. exists ps'. split; [done|].
  eapply streamed_on; [done|done|exact (gr_brk _ _ (run_callback_grows ev _ _ _ Hrun))|].
  intros p c Hp. exact (proj2 (sl_client ps0 t p c Ht Hp)).
Qed.

(** Without connections and before the first byte. *)
Lemma streamed_idle s : I [] s → flows buf (trace s) = [] → streamed buf r s.
Proof.
  intros HI Hfl. split; [|rewrite Hfl; by intros f []%elem_of_nil]. intros p c Hp.
  destruct (sl_client [] s p c HI Hp) as [[]%elem_of_nil _].
Qed.
End stream_loops.
