(* ===== verification/Run.v ===== *)
(** * The event loop under the buffer pump

    Every callback that libevent may deliver keeps the invariant of the event
    loop, so the program never faults, whatever the peers send, in whatever
    order events arrive, and whatever calls fail that the code survives; and
    at the end everything is released. *)

From S2P Require Import Prelude DList ListSpec Structs World Util Context BufferPump SplicePump Pump Socks5 Listener Main Kept Inv Streams.
Local Open Scope Z_scope.

Section callbacks.
Context {EXT : Env} `{!Survives EXT, !AddressLaws EXT} (buf : list item → evbuffer → list Z) {LAWS : EvbufferLaws EXT buf}.
Context (env : Z) (e : transocks_global_env) (lfd lev : Z).
Implicit Types s : state.

Abbreviation k := buffer_config.

(** The invariant holds again, the connections made a step, and the bytes that
    were moved are those of the step. *)
Abbreviation leads_to o ps s0 := (λ _ s', (same_globals s0 s' → wf s' →
  ∃ ps', inv k env e lfd lev ps' s' ∧ session_step (cf_impl k) o (connections ps s0) (connections ps' s')) ∧ streams_on buf (cf_impl k) s0 s').

Lemma stage_pumping s p c : clients s !! p = Some c → client_state c = client_pumping_data → stage_of s p = Some Relaying.
Proof. intros Hp Hst. unfold stage_of. rewrite Hp. simpl. by rewrite Hst. Qed.

Section client_callbacks.
Context (s : state) (l1 l2 : list Z) (p : Z) (c : transocks_client).
Context (Hinv : inv k env e lfd lev (l1 ++ p :: l2) s) (Hp : clients s !! p = Some c).

Abbreviation step := (client_step (k:=k) p c (clients_head env) (client_node <$> l1) (client_node <$> l2) s).
Abbreviation bytes := (client_streams buf (cf_impl k) (s:=s) (p:=p) (c:=c)).

(** A callback of a client. *)
Lemma wp_client_callback (m : C unit) :
  wp m (λ _ s', step s') s → wp m (λ _ s', bytes s') s → wp m (leads_to (Acting p) (l1 ++ p :: l2) s) s.
Proof.
  intros Hst Hby. eapply wp_mono; [apply wp_and; [exact Hst|]; intros a s' Hrun _; exact (wp_elim _ _ _ _ _ Hby Hrun)|].
  intros [] s' [H1 H2]. split; [intros Hg Hwf'|exact (client_streams_on buf _ Hinv Hp _ (step_frame Hinv Hp _ H1) H2)].
  destruct (inv_step _ _ _ _ _ _ _ _ _ _ Hinv Hp Hg Hwf' H1) as (ps' & ? & ? & _). eauto.
Qed.

(** The timeout. *)
Lemma wp_expired_callback (m : C unit) :
  wp m (λ _ s', gone p c (clients_head env) (client_node <$> l1) (client_node <$> l2) s s') s →
  wp m (λ _ s', bytes s') s → wp m (leads_to (Expired p) (l1 ++ p :: l2) s) s.
Proof.
  intros Hst Hby. eapply wp_mono; [apply wp_and; [exact Hst|]; intros a s' Hrun _; exact (wp_elim _ _ _ _ _ Hby Hrun)|].
  intros [] s' [H1 H2]. split; [intros Hg Hwf'|exact (client_streams_on buf _ Hinv Hp _ (step_frame Hinv Hp _ (or_intror H1)) H2)].
  destruct (inv_step _ _ _ _ _ _ _ _ _ _ Hinv Hp Hg Hwf' (or_intror H1)) as (ps' & ? & _ & ?). eauto.
Qed.

(** One of a client that relays data, which moves no bytes. *)
Lemma wp_quiet_callback (m : C unit) :
  stage_of s p = Some Relaying → keeps (same_flows buf) m → wp m (λ _ s', step s') s →
  wp m (leads_to (Acting p) (l1 ++ p :: l2) s) s.
Proof.
  intros Hstage Hk Hst. apply wp_client_callback; [done|]. eapply wp_mono; [exact (wp_keeps _ _ _ _ Hst Hk)|].
  intros [] s' [H1 H2]. exact (streams_relaying buf _ _ H1 Hstage H2).
Qed.

Lemma step_connect_reply :
  stage_of s p = Some Requesting → wp (socks_on_server_connect_reply_readcb p) (λ _ s', step s') s.
Proof.
  intros Hstage. destruct (reply_length (buf (trace s) (Input (relay_bev c)))) as [n|] eqn:E.
  - eapply wp_mono; [eapply (wp_connect_reply_accepted buf); [apply (inv_shaking Hinv Hp)| | |done]|].
    + apply (handle_set Hinv Hp). handle_in.
    + apply (in_env Hinv).
    + intros [] s' [[[Hgo R1 R2] _]|[_ ?]]; [|by right]. left. eexists. split_and!; [exact Hgo|done|done|..].
      { destruct R1 as (cb & Hcb & []), R2 as (rb & Hrb & []). exists cb, rb. split_and!; [done|done|].
        apply ph_pumping; [done|unfold handlers; congruence..]. }
      right. rewrite Hstage. unfold stage_of. rewrite (nr_clients _ _ _ _ _ (proj1 Hgo)), lookup_insert_eq. constructor.
  - eapply wp_mono; [by eapply (wp_connect_reply_rejected buf), E; apply (inv_shaking Hinv Hp)|]. intros [] s' Hg. by right.
Qed.

(** The callbacks of the buffer pump. *)
Lemma step_data_pump f :
  f ∈ [fn_transocks_client_readcb; fn_transocks_client_writecb; fn_transocks_relay_readcb; fn_transocks_relay_writecb] →
  ∀ bev, wp (run_data_fn f bev p) (λ _ s', step s') s.
Proof.
  intros Hf bev. pose proof (inv_pumping Hinv Hp) as Hpu. pose proof (pu_ok _ _ _ _ _ _ Hpu) as Hok.
  pose proof (ci_phase (the_client Hinv Hp)) as Hph.
  destruct (client_readcb_moves buf s p c Hp) as (s1 & E1 & _ & _ & _ & cs1 & ->); [apply (bev_live Hinv Hp); auto..|].
  destruct (relay_readcb_moves buf s p c Hp) as (s2 & E2 & _ & _ & _ & cs2 & ->); [apply (bev_live Hinv Hp); auto..|].
  assert (∀ cs, step (did cs s)) as Hdid by (intros cs; left; exists c; split_and!; [by apply goes_on_did|done|done|done|by left]).
  destruct (relay_writecb_outcome buf s p c _ _ _ Hpu) as (s3 & E3 & H3).
  destruct (client_writecb_outcome buf s p c _ _ _ Hpu) as (s4 & E4 & H4).
  rewrite !elem_of_cons in Hf. destruct Hf as [->|[->|[->|[->|[]%elem_of_nil]]]]; simpl run_data_fn.
  - by eapply wp_Ok_run.
  - eapply wp_Ok_run; [done|]. eapply pump_outcome_step; [done|done|done|done| |done]. by apply flags_if.
  - by eapply wp_Ok_run.
  - eapply wp_Ok_run; [done|]. eapply pump_outcome_step; [done|done|done|done| |done]. by apply flags_if.
Qed.

Lemma step_event_pump f :
  f = fn_transocks_client_eventcb ∨ f = fn_transocks_relay_eventcb →
  ∀ what errno, wp (run_bevent_fn f what errno p) (λ _ s', step s') s.
Proof.
  intros Hf what errno. pose proof (inv_pumping Hinv Hp) as Hpu. pose proof (pu_ok _ _ _ _ _ _ Hpu) as Hok.
  pose proof (ci_phase (the_client Hinv Hp)) as Hph.
  destruct (client_eventcb_outcome buf s p c _ _ _ what errno Hpu) as (s1 & E1 & H1).
  destruct (relay_eventcb_outcome buf s p c _ _ _ what errno Hpu) as (s2 & E2 & H2).
  destruct Hf as [->| ->]; (eapply wp_Ok_run; [done|]; eapply event_outcome_step; [done|done|done|done| |done]);
    eauto using event_spec_flags.
Qed.
End client_callbacks.

(** One round of the loop that drops all clients. *)
Lemma wp_drop_first p l s :
  inv k env e lfd lev (p :: l) s →
  wp (transocks_pump_dump_info p "close connection" ;; transocks_pump_free p) (λ _ s', inv k env e lfd lev l s') s.
Proof.
  intros Hinv. destruct (inv_head _ _ _ _ Hinv eq_refl) as [c Hp].
  pose proof (in_env Hinv) as Henv.
  cut (wp (transocks_pump_dump_info p "close connection" ;; transocks_pump_free p)
         (λ _ s', gone p c (clients_head env) [] (client_node <$> l) s s') s).
  { intros Hwp%(wp_keeps same_globals); [|apply keeps_drop_one; apply _].
    apply (wp_keeps grows) in Hwp; [|apply keeps_drop_one; apply _].
    eapply wp_mono; [exact Hwp|]. intros [] s' [[Hgone Hg] Hgr].
    exact (inv_gone _ _ _ _ _ _ _ p c Hinv Hp Hg (gr_wf _ _ Hgr (in_wf Hinv)) [] l eq_refl Hgone). }
  apply wp_bind. eapply wp_mono; [eapply (wp_pump_dump_info sv_ntop); [apply Henv|done|]|].
  { by apply (ci_dump (in_client Hinv _ _ Hp)). }
  intros [] s1 [cs ->]. unfold transocks_pump_free, pump_call. st_steps. rewrite (ei_pump Henv). st_steps.
  assert (inv k env e lfd lev ([] ++ p :: l) (did cs s)) as Hinv' by (by apply inv_trace).
  eapply wp_mono; [eapply wp_bufferpump_free, (inv_pumping Hinv' Hp)|].
  intros [] s' H%released_gone. by destruct H; split.
Qed.

Lemma wp_drop_all ps s :
  inv k env e lfd lev ps s → wp (transocks_drop_all_clients env) (λ _ s', inv k env e lfd lev [] s') s.
Proof.
  intros Hinv. pose proof (in_list Hinv) as Hd.
  unfold transocks_drop_all_clients, list_fuel. st_steps.
  eapply wp_mono; [apply (wp_list_for_each_entry_safe nodes _ _ _ (client_node <$> ps)
    (λ _ rest s', ∃ todo, rest = client_node <$> todo ∧ inv k env e lfd lev todo s'))|].
  - apply Hd.
  - intros vis rest s' (todo & -> & Hinv'). apply (dlist_rest _ _ []), (in_list Hinv').
  - intros vis x rest s' _ ([|p todo] & [= -> ->] & Hinv'). rewrite client_node_sub.
    eapply wp_mono; [by apply wp_drop_first|]. intros [] s2 H. by exists todo.
  - by exists ps.
  - done.
  - rewrite length_fmap. pose proof (nodes_length _ _ _ Hd) as H. rewrite length_fmap in H. lia.
  - intros [] s' ([|p todo] & E & H); [done|done].
Qed.

Lemma wp_env_event ps s v f :
  inv k env e lfd lev ps s → (v, f) ∈ env_events e lev → wp (run_event_fn f env) (leads_to (actor_of f env) ps s) s.
Proof.
  intros Hinv Hin. pose proof (in_env Hinv) as Henv.
  assert (wp (terminate_signal_cb env) (leads_to Watching ps s) s) as Hterm.
  { unfold terminate_signal_cb. assert (envs s !! env = Some e) by (by rewrite (ei_envs Henv), lookup_singleton_eq).
    assert (bases s !! eventBaseLoop e = Some tt) by (by rewrite (ei_bases Henv), lookup_singleton_eq). st_steps.
    split; [by apply (leads_same _ ps s [_])|]. apply streams_same; [by apply flows_call|done..]. }
  assert (wp (dump_client_info_signal_cb env) (leads_to Watching ps s) s) as Hdump.
  { eapply wp_mono; [eapply (wp_keeps (same_flows buf)), keeps_dump_all_client_info; try apply _;
      eapply (wp_dump_all_client_info sv_ntop); [apply Henv|apply Hinv|]|].
    - intros p [c Hp]%(in_dom Hinv). exists c. split; [done|].
      apply (ci_dump (in_client Hinv _ _ Hp)).
    - intros [] s' [[cs ->] Hf]. split; [by apply leads_same|by apply streams_same]. }
  assert (wp (drop_all_clients_signal_cb env) (leads_to Dropping ps s) s) as Hdrop.
  { eapply wp_mono; [eapply (wp_keeps (same_flows buf)), keeps_drop_all_clients; try apply _; by eapply wp_drop_all|].
    intros [] s' [H Hf]. split.
    - intros _ _. exists []. split; [done|apply (ss_drop_all transocks_bufferpump_ops_ref)].
    - apply streams_empty; [done|]. apply map_empty. intros p. apply eq_None_not_Some. by intros []%(in_dom H)%elem_of_nil. }
  unfold env_events in Hin. rewrite !elem_of_cons, elem_of_nil in Hin.
  destruct Hin as [[= -> ->]|[[= -> ->]|[[= -> ->]|[[= -> ->]|[[= -> ->]|[]]]]]]; try done.
  eapply wp_mono; [eapply (wp_keeps (same_flows buf)), keeps_listener_cb; try apply _; exact (wp_listener_outcome ps s Hinv)|].
  intros [] s' [Ho Hf]. split; [by apply inv_listener|exact (streams_listener buf _ Hinv _ Ho Hf)].
Qed.

(** The callbacks of a bufferevent, by the phase of its client. *)
Lemma wp_bev_callbacks ps s b r :
  inv k env e lfd lev ps s → bevs s !! b = Some r →
  (∀ f, bev_readcb r = Some f → wp (run_data_fn f b (bev_cbarg r)) (leads_to (Acting (bev_cbarg r)) ps s) s) ∧
  (∀ f, bev_writecb r = Some f → wp (run_data_fn f b (bev_cbarg r)) (leads_to (Acting (bev_cbarg r)) ps s) s) ∧
  (∀ f what errno, bev_eventcb r = Some f → wp (run_bevent_fn f what errno (bev_cbarg r)) (leads_to (Acting (bev_cbarg r)) ps s) s).
Proof.
  intros Hinv Hr. destruct (in_bevs Hinv b) as (p & c & Hp & Hb); [eauto|].
  destruct (the_split _ _ _ _ Hinv Hp) as (l1 & l2 & ->).
  destruct (ci_phase (in_client Hinv _ _ Hp)) as (cb & rb & Hcb & Hrb & Hph).
  destruct Hb as [->| ->]; simplify_eq.
  - remember (client_state c) as st eqn:Est.
    destruct Hph as [? ? [S1 [S2 S3]] _|? ? [S1 [S2 S3]] _|? ? [S1 [S2 S3]] _|? ? _ H1 _|? ? Hi _ _]; [rewrite S1, S2, S3; done..| |done].
    assert (stage_of s p = Some Relaying) as Hstage by exact (stage_pumping _ _ _ Hp (eq_sym Est)).
    unfold handlers in H1. injection H1 as E1 E2 E3 E4. rewrite E1, E2, E3, E4.
    split_and!; intros f; [intros [= <-]|intros [= <-]|intros what errno [= <-]].
    + eapply wp_client_callback; [done|done|eapply step_data_pump; [done|done|set_solver]|by eapply streams_client_readcb].
    + eapply wp_quiet_callback; [done|done|done|apply (keeps_bufferpump_callbacks _ _ 0 0); apply _|eapply step_data_pump; [done|done|set_solver]].
    + eapply wp_quiet_callback; [done|done|done|apply (keeps_bufferpump_callbacks _ _ what errno); apply _|eapply step_event_pump; [done|done|by left]].
  - remember (client_state c) as st eqn:Est. destruct Hph as [? ? S H1|? ? S H1|? ? S H1|? ? _ _ H1|? ? Hi _ _]; [..|done]; unfold handlers in H1; injection H1 as E1 E2 E3 E4;
      rewrite E1, E2, E3, E4; split_and!; intros f; try done.
    + intros what errno [= <-]. eapply wp_client_callback; [done|done|eapply step_onconnect; eauto|by eapply streams_onconnect].
    + intros [= <-]. assert (stage_of s p = Some Greeting) by exact (stage_at _ _ _ _ _ Hp Hr (eq_sym Est) E1).
      eapply wp_client_callback; [done|done|eapply step_selected_method; eauto|by eapply streams_selected_method].
    + intros what errno [= <-]. eapply wp_client_callback; [done|done|by eapply step_errcb|by eapply streams_errcb].
    + intros [= <-]. assert (stage_of s p = Some Requesting) as Hstage by exact (stage_at _ _ _ _ _ Hp Hr (eq_sym Est) E1).
      eapply wp_client_callback; [done|done|eapply step_connect_reply; eauto|exact (streams_connect_reply buf _ Hinv Hp (ei_pump (in_env Hinv)) Hstage)].
    + intros what errno [= <-]. eapply wp_client_callback; [done|done|by eapply step_errcb|by eapply streams_errcb].
    + intros [= <-]. eapply wp_client_callback; [done|done|eapply step_data_pump; [done|done|set_solver]|].
      exact (streams_relay_readcb buf _ Hinv Hp eq_refl (stage_pumping _ _ _ Hp (eq_sym Est))).
    + intros [= <-]. eapply wp_quiet_callback; [done|done|exact (stage_pumping _ _ _ Hp (eq_sym Est))|apply (keeps_bufferpump_callbacks _ _ 0 0); apply _|].
      eapply step_data_pump; [done|done|set_solver].
    + intros what errno [= <-]. eapply wp_quiet_callback; [done|done|exact (stage_pumping _ _ _ Hp (eq_sym Est))|apply (keeps_bufferpump_callbacks _ _ what errno); apply _|].
      eapply step_event_pump; [done|done|by right].
Qed.

Lemma run_callback_step ev ps s :
  inv k env e lfd lev ps s → live_target ev s = true →
  ∃ s' ps', run_callback ev s = Ok tt s' ∧ inv k env e lfd lev ps' s' ∧
    session_step transocks_bufferpump_ops_ref (owner ev s) (connections ps s) (connections ps' s') ∧ streams_on buf transocks_bufferpump_ops_ref s s'.
Proof.
  intros Hinv Hlive. set (s0 := push (IEvent ev) s). assert (inv k env e lfd lev ps s0) as Hinv0 by (by apply inv_trace).
  cut (wp (run_callback ev) (leads_to (owner ev s) ps s0) s).
  { intros ([] & s' & Hrun & Hgo & Hst)%wp_run. exists s'.
    destruct Hgo as (ps' & H1 & H2); [|by eapply (gr_wf _ _ (run_callback_grows ev _ _ _ Hrun)), Hinv|exact (ex_intro _ ps' (conj Hrun (conj H1 (conj H2 (streams_delivered buf _ ev s s' Hst)))))].
    by destruct (run_callback_globals ev _ _ _ Hrun). }
  unfold run_callback. apply wp_bind, wp_puts. fold s0.
  assert (∀ p, wp (mret tt) (leads_to (Acting p) ps s0) s0) as Hidle.
  { intros p. apply wp_ret. split; [|by apply streams_same]. intros _ _. exists ps. split; [done|by constructor]. }
  destruct ev as [v what|b|b|b what errno]; simpl in Hlive; apply bool_decide_eq_true in Hlive as [r Hr].
  - apply wp_bind. eapply wp_load; [exact Hr|].
    destruct (in_evs Hinv0 v) as [([v' f] & -> & Hin)%list_elem_of_fmap|[(p & c & Hp & ->)|[]%not_elem_of_empty]]; [eauto|..].
    + destruct (ei_evs (in_env Hinv0) _ _ Hin) as (t & Ht & <- & Harg). simpl in Hr.
      assert (t = r) as -> by (change (evs s0) with (evs s) in Ht; congruence). rewrite Harg.
      replace (owner _ s) with (actor_of (ev_cb r) env) by (simpl; by rewrite Hr, Harg). by eapply wp_env_event.
    + destruct (ci_timer (in_client Hinv0 _ _ Hp)) as (t & Ht & Hcb & Harg).
      assert (t = r) as -> by (change (evs s0) with (evs s) in Ht; congruence). rewrite Hcb, Harg.
      replace (owner _ s) with (Expired p) by (simpl; by rewrite Hr, Hcb, Harg).
      destruct (the_split _ _ _ _ Hinv0 Hp) as (l1 & l2 & ->).
      eapply wp_expired_callback; [done|done|by eapply timeout_ends|by eapply streams_timeout].
  - simpl owner. rewrite Hr. apply wp_bind. eapply wp_load; [exact Hr|]. destruct (wp_bev_callbacks ps s0 b r Hinv0 Hr) as (H1 & _ & _).
    destruct (bev_readcb r); [by apply H1|apply Hidle].
  - simpl owner. rewrite Hr. apply wp_bind. eapply wp_load; [exact Hr|]. destruct (wp_bev_callbacks ps s0 b r Hinv0 Hr) as (_ & H1 & _).
    destruct (bev_writecb r); [by apply H1|apply Hidle].
  - simpl owner. rewrite Hr. apply wp_bind. eapply wp_load; [exact Hr|]. destruct (wp_bev_callbacks ps s0 b r Hinv0 Hr) as (_ & _ & H1).
    destruct (bev_eventcb r); [by apply H1|apply Hidle].
Qed.

Lemma run_callback_inv ev ps s :
  inv k env e lfd lev ps s → live_target ev s = true →
  ∃ s' ps', run_callback ev s = Ok tt s' ∧ inv k env e lfd lev ps' s' ∧
    session_step transocks_bufferpump_ops_ref (owner ev s) (connections ps s) (connections ps' s').
Proof. intros Hinv Hl. destruct (run_callback_step ev ps s Hinv Hl) as (s' & ps' & ? & ? & ? & _). eauto. Qed.

(** ** Every run of the event loop *)

(** Each event of the schedule is for an object that is registered when it is
    delivered. *)
Definition deliverable : list loop_event → state → bool := delivers live_target.

#[export] Instance buffer_streams : StreamLoop buf transocks_bufferpump_ops_ref live_target (inv k env e lfd lev).
Proof.
  split.
  - intros ev ps s Hinv Hl. destruct (run_callback_step ev ps s Hinv Hl) as (s' & ps' & ? & ? & _ & ?). eauto.
  - intros ps s p c Hinv Hp. destruct (the_split _ _ _ _ Hinv Hp) as (l1 & l2 & ->).
    split; [apply (in_dom Hinv); eauto|exact (bevs_differ Hinv Hp)].
Qed.

#[export] Instance buffer_loop : Loop transocks_bufferpump_ops_ref live_target (inv k env e lfd lev).
Proof.
  split; [apply run_callback_inv|]. intros ps s p Hinv. split; [by eapply listed_stage|]. intros [b Hb]. by eapply stage_listed.
Qed.
End callbacks.

Section stop.
Context (env : Z) (e : transocks_global_env) (lfd lev : Z).
Implicit Types s : state.

Context {EXT : Env} `{!Survives EXT, !AddressLaws EXT} (buf : list item → evbuffer → list Z) {LAWS : EvbufferLaws EXT buf}.

(** The end of [main] from a state of the loop. *)
Lemma wp_main_shutdown ps s :
  inv buffer_config env e lfd lev ps s → wp (main_shutdown env) (λ r s', r = 0 ∧ nothing_live s' = true) s.
Proof.
  intros Hinv. unfold main_shutdown. apply wp_bind. eapply wp_mono; [by eapply wp_drop_all|].
  intros [] s1 H1. pose proof (inv_env_ok _ _ H1) as Hok.
  eapply wp_shutdown_rest; [exact Hok|..].
  - rewrite (ei_bases (in_env H1)), lookup_singleton_eq. eauto.
  - intros cs s' Hr. split; [done|]. eapply (inv_released (k:=buffer_config)); [done|done| |exact Hr]. by apply inv_trace.
Qed.
End stop.
