(* ===== verification/SpliceRun.v ===== *)
(** * The event loop under the splice pump

    A client of the splice pump that relays data owns a pump, two pipes and
    four more events.  [layer] says who owns them; with the invariant of the
    event loop it is kept by every callback that libevent may deliver, so a
    program that relays with [splice] never faults either where the calls of
    the pump's start succeed ([SpliceReady]). *)

From S2P Require Import Prelude DList ListSpec Structs World Util Context BufferPump SplicePump Pump Socks5 Listener Main Kept Inv Streams.
Local Open Scope Z_scope.

(** ** The objects of a relaying client *)

(** A pipe both of whose ends were created, with a known capacity. *)
Definition usable (pp : transocks_splicepipe) : Prop :=
  pipe_readfd pp ≠ -1 ∧ pipe_writefd pp ≠ -1 ∧ is_Some (capacity pp).

(** The events of the pump [pm] call the data callbacks for [p]. *)
Record data_events (s : state) (p : Z) (pm : transocks_splicepump) : Prop := {
  de_client_read : registration <$> evs s !! client_read_ev pm = Some (fn_splicepump_client_readcb, p);
  de_client_write : registration <$> evs s !! client_write_ev pm = Some (fn_splicepump_client_writecb, p);
  de_relay_read : registration <$> evs s !! relay_read_ev pm = Some (fn_splicepump_relay_readcb, p);
  de_relay_write : registration <$> evs s !! relay_write_ev pm = Some (fn_splicepump_relay_writecb, p)
}.

(** The client [c] at [p] relays through the pump [pm] and its pipes: its timer
    is stopped and its bufferevents have lost their descriptors. *)
Record spliced (s : state) (p : Z) (c : transocks_client) (pm : transocks_splicepump)
    (pi po : transocks_splicepipe) : Prop := {
  sd_ok : splice_ok s c pm pi po;
  sd_set : Forall (.≠ NULL) (pump_evs pm);
  sd_in : usable pi;
  sd_out : usable po;
  sd_events : data_events s p pm;
  sd_timer : ev_added <$> evs s !! timeout_ev c = Some false;
  sd_fds : bev_fd <$> bevs s !! client_bev c = Some (-1) ∧ bev_fd <$> bevs s !! relay_bev c = Some (-1)
}.

Definition pump_objs (c : transocks_client) (pm : transocks_splicepump) : list Z :=
  user_arg c :: inbound_pipe pm :: outbound_pipe pm :: pump_evs pm.

(** [pm] is the pump of the relaying client [c] at [p]. *)
Definition relays_by (s : state) (p : Z) (c : transocks_client) (pm : transocks_splicepump) : Prop :=
  clients s !! p = Some c ∧ client_state c = client_pumping_data ∧ pumps s !! user_arg c = Some pm.

Definition own_event s p v : Prop := ∃ c pm, relays_by s p c pm ∧ v ∈ pump_evs pm.
Definition own_pump s p u : Prop := ∃ c pm, relays_by s p c pm ∧ u = user_arg c.
Definition own_pipe s p u : Prop := ∃ c pm, relays_by s p c pm ∧ (u = inbound_pipe pm ∨ u = outbound_pipe pm).

(** What the client at [p] needs. *)
Record client_layer (s : state) (p : Z) (c : transocks_client) : Prop := {
  cy_fds : client_fd c ≠ -1 ∧ relay_fd c ≠ -1;
  cy_shaking : client_state c ≠ client_pumping_data → user_arg c = NULL;
  cy_pumping : client_state c = client_pumping_data → ∃ pm pi po, spliced s p c pm pi po
}.

(** Every object of a pump belongs to one relaying client. *)
Record layer (k : config) (s : state) : Prop := {
  ly_client p c : clients s !! p = Some c → client_layer s p c;
  ly_apart p q c c' pm pm' x : p ≠ q → relays_by s p c pm → relays_by s q c' pm' →
    x ∈ pump_objs c pm → x ∉ pump_objs c' pm';
  ly_events v : v ∈ cf_extra k ↔ ∃ p, own_event s p v;
  ly_pumps u : is_Some (pumps s !! u) → ∃ p, own_pump s p u;
  ly_pipes u : is_Some (pipes s !! u) → ∃ p, own_pipe s p u;
  ly_blocks : blocks s = ∅
}.

Arguments ly_client {k s} _ _ _ _.
Arguments ly_apart {k s} _ _ _ _ _ _ _ _ _ _ _ _ _.
Arguments ly_events {k s} _ _.
Arguments ly_pumps {k s} _ _ _.
Arguments ly_pipes {k s} _ _ _.
Arguments ly_blocks {k s} _.

(** The client's own objects and those of its pump are the same in both states. *)
Record untouched (c : transocks_client) (pm : transocks_splicepump) (s s' : state) : Prop := {
  un_pump : pumps s' !! user_arg c = pumps s !! user_arg c;
  un_in : pipes s' !! inbound_pipe pm = pipes s !! inbound_pipe pm;
  un_out : pipes s' !! outbound_pipe pm = pipes s !! outbound_pipe pm;
  un_evs v : v ∈ pump_evs pm → evs s' !! v = evs s !! v;
  un_timer : evs s' !! timeout_ev c = evs s !! timeout_ev c;
  un_client : bevs s' !! client_bev c = bevs s !! client_bev c;
  un_relay : bevs s' !! relay_bev c = bevs s !! relay_bev c
}.

(** The four events of a pump. *)
Ltac ev_in := unfold pump_evs; rewrite !elem_of_cons; tauto.

Lemma spliced_frame s s' p c pm pi po :
  wf s' → untouched c pm s s' → spliced s p c pm pi po → spliced s' p c pm pi po.
Proof.
  intros Hwf [Hp Hi Ho Hv Ht Hb Hr] [Hok ? ? ? [] ? ?]. split; try done.
  - split; [by rewrite Hp; apply Hok|..|by rewrite Hi; apply Hok|by rewrite Ho; apply Hok|apply Hok| |apply Hok].
    + eapply below_None; [by apply wf_pumps|unfold NULL; lia].
    + eapply below_None; [by apply wf_pipes|unfold NULL; lia].
    + pose proof (so_evs _ _ _ _ _ Hok) as Hall. rewrite Forall_forall in Hall.
      apply Forall_forall. intros x Hin. unfold handle_ok. rewrite Hv by done. by apply Hall.
  - by split; rewrite Hv by ev_in.
  - by rewrite Ht.
  - by rewrite Hb, Hr.
Qed.

Section layers.
Context {k : config}.
Implicit Types s : state.

(** The pump of a relaying client. *)
Lemma layer_pump s p c : layer k s → clients s !! p = Some c → client_state c = client_pumping_data →
  ∃ pm pi po, spliced s p c pm pi po ∧ relays_by s p c pm.
Proof.
  intros Hl Hp Hst. destruct (cy_pumping _ _ _ (ly_client Hl _ _ Hp) Hst) as (pm & pi & po & H).
  exists pm, pi, po. split; [done|]. split_and!; [done|done|apply H].
Qed.

Lemma relays_by_spliced s p c pm : layer k s → relays_by s p c pm → ∃ pi po, spliced s p c pm pi po.
Proof.
  intros Hl (Hp & Hst & Hpm). destruct (layer_pump s p c Hl Hp Hst) as (pm' & pi & po & H & _ & _ & E).
  exists pi, po. congruence.
Qed.

(** A step for the client at [p] that does not touch the objects of others. *)
Lemma layer_change k' s s' p :
  layer k s → wf s' → blocks s' = ∅ →
  (∀ q, q ≠ p → clients s' !! q = clients s !! q) →
  (∀ q c pm, q ≠ p → relays_by s q c pm → untouched c pm s s') →
  (∀ c, clients s' !! p = Some c → client_layer s' p c) →
  (∀ q c c' pm pm' x, q ≠ p → relays_by s' p c pm → relays_by s q c' pm' → x ∈ pump_objs c pm → x ∉ pump_objs c' pm') →
  (∀ v, v ∈ cf_extra k' ↔ own_event s' p v ∨ ∃ q, q ≠ p ∧ own_event s q v) →
  (∀ u, is_Some (pumps s' !! u) → own_pump s' p u ∨ ∃ q, q ≠ p ∧ own_pump s q u) →
  (∀ u, is_Some (pipes s' !! u) → own_pipe s' p u ∨ ∃ q, q ≠ p ∧ own_pipe s q u) →
  layer k' s'.
Proof.
  intros Hl Hwf Hbl Hcl Hun Hp Hap Hev Hpu Hpi.
  assert (∀ q c pm, q ≠ p → relays_by s q c pm → relays_by s' q c pm) as Hto.
  { intros q c pm Hq Hof. pose proof Hof as (H1 & H2 & H3). split_and!; [by rewrite Hcl|done|].
    by rewrite (un_pump _ _ _ _ (Hun q c pm Hq Hof)). }
  assert (∀ q c pm, q ≠ p → relays_by s' q c pm → relays_by s q c pm) as Hfrom.
  { intros q c pm Hq (H1 & H2 & H3). rewrite Hcl in H1 by done.
    destruct (layer_pump s q c Hl H1 H2) as (pm0 & _ & _ & _ & Hof). pose proof (Hto q c pm0 Hq Hof) as (_ & _ & E).
    assert (pm0 = pm) as -> by congruence. done. }
  split; [..|done].
  - intros q c Hc. destruct (decide (q = p)) as [->|Hq]; [by apply Hp|]. rewrite Hcl in Hc by done.
    destruct (ly_client Hl q c Hc) as [? ? _]. split; [done|done|]. intros Hst.
    destruct (layer_pump s q c Hl Hc Hst) as (pm & pi & po & Hs & Hof). exists pm, pi, po. by eapply spliced_frame; eauto.
  - intros q1 q2 c1 c2 m1 m2 x Hne H1 H2 Hx1 Hx2.
    destruct (decide (q1 = p)) as [->|Hq1]; [by eapply (Hap q2); eauto|].
    destruct (decide (q2 = p)) as [->|Hq2]; [by eapply (Hap q1); eauto|].
    by eapply (ly_apart Hl q1 q2); eauto.
  - intros v. rewrite Hev. split.
    + intros [?|(q & Hq & c & pm & Hof & Hv)]; [eauto|]. exists q, c, pm. split; [by apply Hto|done].
    + intros [q (c & pm & Hof & Hv)]. destruct (decide (q = p)) as [->|Hq]; [left; by exists c, pm|].
      right. exists q. split; [done|]. exists c, pm. split; [by apply Hfrom|done].
  - intros u [?|(q & Hq & c & pm & Hof & Hu)]%Hpu; [eauto|]. exists q, c, pm. split; [by apply Hto|done].
  - intros u [?|(q & Hq & c & pm & Hof & Hu)]%Hpi; [eauto|]. exists q, c, pm. split; [by apply Hto|done].
Qed.
End layers.

(** ** Steps of the handshake *)

Section quiet.
Context {k : config} {env : Z} {e : transocks_global_env} {lfd lev : Z} {ps : list Z} {s : state}.
Context (Hinv : inv k env e lfd lev ps s) (Hly : layer k s).

(** No pump is concerned: the client at [p] is in the handshake, new or gone. *)
Lemma layer_quiet s' p :
  wf s' → pump_heaps s' = pump_heaps s →
  (∀ q, q ≠ p → clients s' !! q = clients s !! q) →
  (∀ q c, q ≠ p → clients s !! q = Some c → evs s' !! timeout_ev c = evs s !! timeout_ev c ∧
     bevs s' !! client_bev c = bevs s !! client_bev c ∧ bevs s' !! relay_bev c = bevs s !! relay_bev c) →
  (∀ v, v ∈ cf_extra k → evs s' !! v = evs s !! v) →
  (∀ c, clients s !! p = Some c → client_state c ≠ client_pumping_data) →
  (∀ c, clients s' !! p = Some c → client_state c ≠ client_pumping_data ∧ user_arg c = NULL ∧
     client_fd c ≠ -1 ∧ relay_fd c ≠ -1) →
  layer k s'.
Proof.
  intros Hwf Hh Hcl Hobj Hev Hno Hno'. injection Hh as E1 E2 E3.
  assert (∀ c pm, ¬ relays_by s p c pm) as Hnp by (intros c pm (H1 & H2 & _); by eapply Hno).
  assert (∀ c pm, ¬ relays_by s' p c pm) as Hnp'.
  { intros c pm (H1 & H2 & _). by destruct (Hno' c H1) as [? _]. }
  apply (layer_change k s s' p Hly Hwf); [rewrite E3; apply Hly|done|..].
  - intros q c pm Hq Hof. destruct (Hobj q c Hq (proj1 Hof)) as (? & ? & ?). split; try done; [congruence..|].
    intros v Hv. apply Hev, (ly_events Hly). by exists q, c, pm.
  - intros c Hc. destruct (Hno' c Hc) as (? & ? & ?). by split.
  - intros q c c' pm pm' x _ Hof. by destruct (Hnp' _ _ Hof).
  - intros v. rewrite (ly_events Hly). split.
    + intros [q Hq]. right. exists q. split; [|done]. intros ->. destruct Hq as (c & pm & Hof & _). naive_solver.
    + intros [(c & pm & Hof & _)|(q & _ & Hq)]; [naive_solver|eauto].
  - rewrite E1. intros u [q Hq]%(ly_pumps Hly). right. exists q. split; [|done]. intros ->. destruct Hq as (c & pm & Hof & _). naive_solver.
  - rewrite E2. intros u [q Hq]%(ly_pipes Hly). right. exists q. split; [|done]. intros ->. destruct Hq as (c & pm & Hof & _). naive_solver.
Qed.

(** The client of a step of the handshake. *)
Lemma layer_step p c s' l1 l2 :
  cf_impl k = transocks_splicepump_ops_ref → clients s !! p = Some c → client_state c ≠ client_pumping_data → wf s' →
  client_step (k:=k) p c (clients_head env) l1 l2 s s' → layer k s'.
Proof.
  intros Hk Hp Hst Hwf Hstep. pose proof (ly_client Hly p c Hp) as [[Hf1 Hf2] Hsh _].
  assert (∀ c', clients s !! p = Some c' → client_state c' ≠ client_pumping_data) as Hno by (intros; by simplify_eq).
  assert (∀ v, v ∈ cf_extra k → v ≠ timeout_ev c) as Hne.
  { intros v (_ & _ & Hv)%(in_extra Hinv) ->. apply (Hv p c Hp). handle_in. }
  destruct Hstep as [(c1 & [Hnr _] & _ & (F1 & F2 & F3 & F4) & _)|[G1 G2 G3 G4 _ _ _ G8]].
  - apply (layer_quiet s' p Hwf); [apply Hnr|..|done|].
    + intros q Hq. by rewrite (nr_clients _ _ _ _ _ Hnr), lookup_insert_ne.
    + intros q c' Hq Hc'. split_and!; [eapply near_evs; [done|]|eapply near_bevs; [done|..]..];
        (eapply (other_not_mine _ _ _ _ _ _ p c Hinv Hp q c'); [done|done|handle_in..]).
    + intros v Hv. eapply near_evs; [done|]. by apply Hne.
    + intros c'. rewrite (nr_clients _ _ _ _ _ Hnr), lookup_insert_eq. intros [= <-].
      split_and!; [intros H; rewrite (F4 H) in Hk; done|rewrite F3; by apply Hsh|congruence..].
  - apply (layer_quiet s' p Hwf); [done|..|done|].
    + intros q Hq. by rewrite G1, lookup_delete_ne.
    + intros q c' Hq Hc'. rewrite G2, G3. rewrite !lookup_delete_ne; [done|apply not_eq_sym;
        (eapply (other_not_mine _ _ _ _ _ _ p c Hinv Hp q c'); [done|done|handle_in..])..].
    + intros v Hv. rewrite G2, lookup_delete_ne; [done|]. by apply not_eq_sym, Hne.
    + intros c'. by rewrite G1, lookup_delete_eq.
Qed.

(** Nothing changed. *)
Lemma layer_same s' :
  wf s' → clients s' = clients s → bevs s' = bevs s → evs s' = evs s → pump_heaps s' = pump_heaps s → layer k s'.
Proof.
  intros Hwf E1 E2 E3 E4. assert (clients s !! brk s = None) as Hnew by (eapply alloc_fresh; [apply wf_clients, Hinv|done]).
  apply (layer_quiet s' (brk s) Hwf); rewrite ?E1, ?E2, ?E3; try done; congruence.
Qed.

(** A new client. *)
Lemma layer_listener {EXT : Env} s' : wf s' → listener_outcome (env:=env) (e:=e) ps s s' → layer k s'.
Proof.
  intros Hwf' [(E1 & _ & E3 & E4 & _ & E6)|s1 cfd src slen dst dlen Hac Hgone|s1 cfd src slen dst dlen relay_a rfd ev Hcfd _ _ Hac Hcn].
  - by apply layer_same.
  - destruct (abandoned_same _ _ _ _ _ _ _ _ _ (in_wf Hinv) Hac Hgone) as (? & _ & ? & ? & ?). by apply layer_same.
  - destruct Hac as [A1 A2 A3 A4 A5 A6 A7 A8 A9 A10], Hcn as [B1 Hrfd Hev Hev' B2 _ B4 B5 B6 B7 B8 B9 B10 _].
    pose proof (in_wf Hinv) as Hwf. rewrite A1, insert_insert_eq in B1. rewrite A3 in B2. unfold accepted_client in *. simpl in *.
    assert (∀ x, x ≠ ev → evs s' !! x = evs s !! x) as Hevs.
    { intros x Hx. rewrite <-A5, <-(lookup_delete_ne (evs s') ev), B4, lookup_delete_ne; done. }
    assert (∀ q c x, clients s !! q = Some c → x ∈ client_handles c → x < brk s) as Hold.
    { intros q c x Hq Hx. by eapply client_handles_old. }
    apply (layer_quiet s' (brk s) Hwf').
    + congruence.
    + intros q Hq. by rewrite B1, lookup_insert_ne.
    + intros q c _ Hc. pose proof (Hold q c (timeout_ev c) Hc ltac:(handle_in)).
      pose proof (Hold q c (client_bev c) Hc ltac:(handle_in)). pose proof (Hold q c (relay_bev c) Hc ltac:(handle_in)).
      rewrite B2, Hevs by addr_lia. by rewrite !lookup_insert_ne by addr_lia.
    + intros v (Hl & _ & _)%(in_extra Hinv). apply (wf_evs _ Hwf) in Hl. apply Hevs. addr_lia.
    + intros c Hc. assert (brk s < brk s); [|lia]. apply (wf_clients _ Hwf). eauto.
    + intros c. rewrite B1, lookup_insert_eq. intros [= <-]. simpl. split_and!; [done|done|lia|lia].
Qed.
End quiet.

(** ** Steps of a relaying client *)

(** The pump of [p] and its objects are the same. *)
Definition same_pump (s s' : state) (p : Z) : Prop :=
  ∀ c pm, relays_by s p c pm → ∃ c', relays_by s' p c' pm ∧ user_arg c' = user_arg c.

Lemma same_pump_own s s' p :
  same_pump s s' p →
  (∀ v, own_event s p v → own_event s' p v) ∧ (∀ u, own_pump s p u → own_pump s' p u) ∧ (∀ u, own_pipe s p u → own_pipe s' p u).
Proof.
  intros H. split_and!; intros x (c & pm & (c' & Hof & E)%H & Hx); exists c', pm; rewrite ?E; done.
Qed.

Section relaying.
Context {k : config} {env : Z} {e : transocks_global_env} {lfd lev : Z} {l1 l2 : list Z} {s : state}.
Context {p : Z} {c : transocks_client} {pm : transocks_splicepump} {pi po : transocks_splicepipe}.
Context (Hinv : inv k env e lfd lev (l1 ++ p :: l2) s) (Hly : layer k s) (Hp : clients s !! p = Some c).
Context (Hst : client_state c = client_pumping_data) (Hsp : spliced s p c pm pi po).

Lemma relaying_pump : relays_by s p c pm.
Proof. split_and!; [done|done|apply Hsp]. Qed.

Lemma relaying_splicing : splicing s p c pm pi po (clients_head env) (client_node <$> l1) (client_node <$> l2).
Proof.
  destruct (inv_shaking Hinv Hp) as [? ? ? ? ? ?]. split; [done|done|done|apply Hsp|done].
Qed.

Lemma own_extra v : v ∈ pump_evs pm → v ∈ cf_extra k.
Proof. intros Hv. apply (ly_events Hly). exists p, c, pm. split; [apply relaying_pump|done]. Qed.

Lemma extra_not_handle v q c' x : v ∈ pump_evs pm → clients s !! q = Some c' → x ∈ client_handles c' → x ≠ v.
Proof. intros (_ & _ & H)%own_extra%(in_extra Hinv) Hq Hx ->. by eapply H. Qed.

Lemma dir_events d : dir_read_ev d pm ∈ pump_evs pm ∧ dir_write_ev d pm ∈ pump_evs pm.
Proof. destruct d; split; ev_in. Qed.

Lemma dir_pipe_obj d : dir_pipe d pm ∈ pump_objs c pm.
Proof. unfold pump_objs. rewrite !elem_of_cons. destruct d; tauto. Qed.

(** Nothing of another relaying client's pump is this one's. *)
Lemma other_pump q c' pm' x y : q ≠ p → relays_by s q c' pm' → x ∈ pump_objs c' pm' → y ∈ pump_objs c pm → x ≠ y.
Proof. intros Hq Hof Hx Hy ->. exact (ly_apart Hly _ _ _ _ _ _ _ Hq Hof relaying_pump Hx Hy). Qed.

(** *** Data was moved *)

Section moved_data.
Context (d : transocks_splicepump_data_direction) (c' : transocks_client) (pp' : transocks_splicepipe) (s' : state).
Context (Hmv : moved p d pm c c' pp' s s') (Hf : flags_changed c c') (Hg : same_globals s s') (Hwf' : wf s').
Context (Hus : usable pp').

Let k' : config := Config (cf_impl k) (cf_name k) (pump_heaps s') (cf_extra k).

Lemma inv_moved : inv k' env e lfd lev (l1 ++ p :: l2) s'.
Proof.
  set (sm := set_clients (<[p := c']> (clients s)) s).
  pose proof Hf as (Hh & _ & _ & E3 & _ & E5 & E6 & E7).
  assert (goes_on p c c' s sm) as Hgo by (split; [by split|intros t Ht **; by exists t]).
  assert (inv k env e lfd lev (l1 ++ p :: l2) sm) as Him.
  { eapply (inv_goes_on _ _ _ _ _ _ sm p c); [done|done|done| |exact Hgo|done|].
    - destruct (in_wf Hinv). split; try done. intros q Hq. apply wf_clients.
      revert Hq. subst sm. st_norm. by rewrite (insert_live _ _ _ _ _ Hp).
    - destruct (ci_phase (the_client Hinv Hp)) as (cb & rb & ? & ? & ?). destruct Hh as (_ & _ & Eb & Er & _).
      exists cb, rb. subst sm. st_norm. rewrite Eb, Er, E3. by split_and!. }
  eapply (inv_extra k k' _ _ _ _ _ sm); [done|done|done|done|by destruct Hg|done|..].
  all: destruct Hmv; subst sm; st_norm; try done.
  - intros v Hv _. rewrite <-(lookup_delete_ne (evs s') (dir_read_ev d pm)), mv_evs, lookup_delete_ne; [done|..];
      intros <-; by apply Hv, own_extra, dir_events.
  - intros v Hv. destruct (in_extra Him v Hv) as (Hl & ? & ?). split; [|done]. by apply (moved_live _ _ _ _ _ _ _ _ v Hmv).
Qed.
Lemma moved_pump : same_pump s s' p ∧ same_pump s' s p.
Proof.
  destruct Hmv, Hf as (_ & _ & _ & E3 & E4 & _). split; intros c0 pm0 (H1 & H2 & H3).
  - exists c'. simplify_eq. split; [|congruence]. split_and!; [by rewrite mv_clients, lookup_insert_eq|congruence|congruence].
  - rewrite mv_clients, lookup_insert_eq in H1. injection H1 as <-. exists c. split; [|congruence].
    split_and!; [done|done|congruence].
Qed.

Lemma moved_spliced : ∃ pi' po', spliced s' p c' pm pi' po'.
Proof.
  pose proof (moved_splicing _ _ _ _ _ _ _ _ _ _ _ _ _ relaying_splicing Hf Hmv) as [_ _ _ Hok _].
  pose proof (λ v, moved_registration _ _ _ _ _ _ _ _ v Hmv) as Hreg.
  destruct Hf as ((_ & _ & Eb & Er & Et) & _), Hsp as [_ ? ? ? [] ? ?].
  do 2 eexists. split; [exact Hok|done|by destruct d|by destruct d|by split; rewrite Hreg|..].
  - rewrite Et. destruct Hmv. rewrite <-(lookup_delete_ne (evs s') (dir_read_ev d pm)), mv_evs, lookup_delete_ne; [done|..];
      apply not_eq_sym, (extra_not_handle _ p c); [apply dir_events|done|handle_in|apply dir_events|done|handle_in].
  - by rewrite Eb, Er, (mv_bevs _ _ _ _ _ _ _ _ Hmv).
Qed.

Lemma layer_moved : layer k' s'.
Proof.
  destruct moved_pump as [Hto Hfrom].
  destruct (same_pump_own _ _ _ Hto) as (O1 & O2 & O3), (same_pump_own _ _ _ Hfrom) as (P1 & P2 & P3).
  apply (layer_change k' s s' p Hly Hwf').
  - rewrite (mv_blocks _ _ _ _ _ _ _ _ Hmv). apply Hly.
  - intros q Hq. by rewrite (mv_clients _ _ _ _ _ _ _ _ Hmv), lookup_insert_ne.
  - intros q c0 pm0 Hq Hof. pose proof Hof as (Hc0 & _ & _). destruct Hmv. split; rewrite ?mv_pumps, ?mv_bevs, ?mv_pipes; try done.
    + rewrite lookup_insert_ne; [done|]. apply not_eq_sym, (other_pump q c0 pm0); [done|done| |apply dir_pipe_obj].
      unfold pump_objs; rewrite !elem_of_cons; tauto.
    + rewrite lookup_insert_ne; [done|]. apply not_eq_sym, (other_pump q c0 pm0); [done|done| |apply dir_pipe_obj].
      unfold pump_objs; rewrite !elem_of_cons; tauto.
    + intros v Hv. assert (v ≠ dir_read_ev d pm) as Hne.
      { apply (other_pump q c0 pm0); [done|done|do 3 right; done|do 3 right; apply dir_events]. }
      by rewrite <-(lookup_delete_ne (evs s') (dir_read_ev d pm)), mv_evs, lookup_delete_ne.
    + assert (timeout_ev c0 ≠ dir_read_ev d pm) as Hne.
      { apply (extra_not_handle _ q c0); [apply dir_events|done|handle_in]. }
      by rewrite <-(lookup_delete_ne (evs s') (dir_read_ev d pm)), mv_evs, lookup_delete_ne.
  - intros c0. rewrite (mv_clients _ _ _ _ _ _ _ _ Hmv), lookup_insert_eq. intros [= <-].
    destruct (ly_client Hly p c Hp) as [[] _ _], moved_spliced as (pi' & po' & Hs), Hf as (_ & E1 & E2 & E3 & _).
    split; [split; congruence|congruence|by eauto].
  - intros q c0 c1 m0 m1 x Hq (c2 & Hof & E)%Hfrom Hof1 Hx Hx1.
    eapply (ly_apart Hly q p c1 c2 m1 m0 x); [done..|]. unfold pump_objs in *. by rewrite E.
  - intros v. simpl. rewrite (ly_events Hly). split.
    + intros [q Hq]. destruct (decide (q = p)) as [->|]; eauto.
    + intros [?|(q & _ & Hq)]; eauto.
  - rewrite (mv_pumps _ _ _ _ _ _ _ _ Hmv). intros u [q Hq]%(ly_pumps Hly). destruct (decide (q = p)) as [->|]; eauto.
  - intros u Hu. destruct (ly_pipes Hly u) as [q Hq]; [|destruct (decide (q = p)) as [->|]; eauto].
    rewrite (mv_pipes _ _ _ _ _ _ _ _ Hmv) in Hu. revert Hu. destruct Hsp as [[] _ _ _ _ _ _].
    rewrite lookup_insert. case_decide; [|done]. subst. destruct d; simpl; eauto.
Qed.
Lemma connections_moved ps : connections ps s' = connections ps s.
Proof.
  destruct Hf as ((_ & _ & _ & Er & _) & _ & _ & E3 & _), Hmv. apply connections_frame. intros q _.
  unfold stage_of. rewrite mv_clients, mv_bevs, lookup_insert. case_decide; [subst|done]. rewrite Hp. simpl. by rewrite E3, Er.
Qed.
End moved_data.

(** *** The connection was released *)

Section released.
Context (cs : list call) (s' : state).
Context (Hr : splice_released p c pm pi po cs (clients_head env) (client_node <$> l1) (client_node <$> l2) s s').
Context (Hg : same_globals s s') (Hwf' : wf s').

Let k' : config := Config (cf_impl k) (cf_name k) (pump_heaps s') (cf_extra k ∖ list_to_set (pump_evs pm)).

(** The events without the pump's. *)
Let evs0 : gmap Z event := delete (relay_write_ev pm) (delete (relay_read_ev pm)
  (delete (client_write_ev pm) (delete (client_read_ev pm) (evs s)))).

Lemma evs0_lookup v : evs0 !! v = if decide (v ∈ pump_evs pm) then None else evs s !! v.
Proof.
  destruct (decide (v ∈ pump_evs pm)) as [H|H]; unfold pump_evs in H; rewrite !elem_of_cons, elem_of_nil in H;
    unfold evs0; rewrite !lookup_delete; repeat case_decide; try done; exfalso; intuition congruence.
Qed.

Lemma released_stripped : ∃ sm, inv k' env e lfd lev (l1 ++ p :: l2) sm ∧ clients sm !! p = Some c ∧ same_globals sm s' ∧
  gone p c (clients_head env) (client_node <$> l1) (client_node <$> l2) sm s'.
Proof.
  set (sm := set_evs evs0 (set_pumps (pumps s') (set_pipes (pipes s') s))). exists sm.
  assert (∀ v, v ∉ pump_evs pm → evs0 !! v = evs s !! v) as Hv by (intros v H; rewrite evs0_lookup; by case_decide).
  destruct Hr. split_and!; [|done|by destruct Hg|split; try done; unfold pump_heaps; subst sm; st_norm; congruence].
  eapply (inv_extra k k'); [exact Hinv|done|done| |done| |done|done|done|done|..].
  - simpl. unfold pump_heaps. subst sm. st_norm. by rewrite sr_blocks.
  - pose proof (in_wf Hinv) as Hwf. apply wf_events_pumps; [done|..].
    + intros q. rewrite evs0_lookup. case_decide; [by intros []|]. by apply wf_evs.
    + intros q. rewrite sr_pumps, lookup_delete_is_Some. intros [_ H]. by apply (wf_pumps _ Hwf).
    + intros q. rewrite sr_pipes, !lookup_delete_is_Some. intros (_ & _ & H). by apply (wf_pipes _ Hwf).
  - intros v H _. subst sm. st_norm. apply Hv. by intros ?%own_extra.
  - intros v H H'. subst sm. st_norm. rewrite evs0_lookup. case_decide as Hin; [done|]. destruct H'. cbn [k' cf_extra].
    apply elem_of_difference. by rewrite elem_of_list_to_set.
  - cbn [k' cf_extra]. intros v [H1 H2]%elem_of_difference. rewrite elem_of_list_to_set in H2.
    destruct (in_extra Hinv v H1) as (Hl & ? & ?). split_and!; [|done|done]. subst sm. st_norm. by rewrite Hv.
Qed.

Lemma inv_released_client : inv k' env e lfd lev (l1 ++ l2) s'.
Proof. destruct released_stripped as (sm & Him & Hpm & Hgm & Hgone). by eapply inv_gone. Qed.

Lemma layer_released : layer k' s'.
Proof.
  assert (∀ c0 pm0, ¬ relays_by s' p c0 pm0) as Hno.
  { intros c0 pm0 (H & _ & _). by rewrite (sr_clients _ _ _ _ _ _ _ _ _ _ _ Hr), lookup_delete_eq in H. }
  destruct Hr. apply (layer_change k' s s' p Hly Hwf').
  - rewrite sr_blocks. apply Hly.
  - intros q Hq. by rewrite sr_clients, lookup_delete_ne.
  - intros q c0 pm0 Hq Hof. pose proof Hof as (Hc0 & _ & _).
    assert (∀ x y, x ∈ pump_objs c0 pm0 → y ∈ pump_objs c pm → y ≠ x) as Hne.
    { intros x y Hx Hy. by apply not_eq_sym, (other_pump q c0 pm0). }
    assert (∀ x y, x ∈ client_handles c0 → y ∈ client_handles c → y ≠ x) as Hne'.
    { intros x y Hx Hy. by apply not_eq_sym, (other_not_mine _ _ _ _ _ _ p c Hinv Hp q c0). }
    split; rewrite ?sr_pumps, ?sr_pipes, ?sr_bevs, ?sr_evs.
    + rewrite lookup_delete_ne; [done|]. apply Hne; left.
    + rewrite !lookup_delete_ne; [done|apply Hne; unfold pump_objs; rewrite !elem_of_cons; tauto..].
    + rewrite !lookup_delete_ne; [done|apply Hne; unfold pump_objs; rewrite !elem_of_cons; tauto..].
    + intros v Hv. rewrite lookup_delete_ne.
      * fold evs0. rewrite evs0_lookup, decide_False; [done|]. intros Hin. by destruct (Hne v v); [do 3 right..|].
      * assert (v ∈ cf_extra k) as (_ & _ & Hx)%(in_extra Hinv) by (apply (ly_events Hly); by exists q, c0, pm0).
        intros <-. apply (Hx p c Hp). handle_in.
    + rewrite lookup_delete_ne by (apply Hne'; handle_in). fold evs0. rewrite evs0_lookup, decide_False; [done|].
      intros Hin. by apply (extra_not_handle _ q c0 (timeout_ev c0) Hin Hc0); [handle_in|].
    + rewrite !lookup_delete_ne; [done|apply Hne'; handle_in..].
    + rewrite !lookup_delete_ne; [done|apply Hne'; handle_in..].
  - intros c0. by rewrite sr_clients, lookup_delete_eq.
  - intros q c0 c1 m0 m1 x _ Hof. by destruct (Hno _ _ Hof).
  - intros v. cbn [k' cf_extra]. rewrite elem_of_difference, elem_of_list_to_set, (ly_events Hly). split.
    + intros [[q Hq] Hv]. right. exists q. split; [|done]. intros ->. destruct Hq as (c0 & pm0 & Hof & Hin).
      destruct Hof as (? & _ & ?), relaying_pump as (_ & _ & ?). by simplify_eq.
    + intros [(c0 & pm0 & Hof & _)|(q & Hne & Hq)]; [by destruct (Hno _ _ Hof)|]. split; [eauto|]. intros Hin.
      destruct Hq as (c0 & pm0 & Hof & Hin0). eapply (other_pump q c0 pm0 v v); [done|done|by do 3 right..|done].
  - intros u. rewrite sr_pumps, lookup_delete_is_Some. intros [Hne [q Hq]%(ly_pumps Hly)]. right. exists q. split; [|done].
    intros ->. destruct Hq as (c0 & pm0 & (H0 & _) & ->). by simplify_eq.
  - intros u. rewrite sr_pipes, !lookup_delete_is_Some. intros (Hne1 & Hne2 & [q Hq]%(ly_pipes Hly)). right. exists q. split; [|done].
    intros ->. destruct Hq as (c0 & pm0 & Hof & Hu). destruct Hof as (? & _ & ?), relaying_pump as (_ & _ & ?). simplify_eq. naive_solver.
Qed.

Lemma connections_released :
  connections (l1 ++ p :: l2) s = connections l1 s ++ (p, Some Relaying) :: connections l2 s ∧
  connections (l1 ++ l2) s' = connections l1 s ++ connections l2 s.
Proof.
  pose proof (split_once _ _ _ _ _ _ _ _ Hinv) as Hpn. split.
  { rewrite connections_app. simpl. by replace (stage_of s p) with (Some Relaying) by (unfold stage_of; rewrite Hp; simpl; by rewrite Hst). }
  rewrite <-connections_app. apply connections_frame. intros q Hq. destruct Hr.
  assert (q ≠ p) as Hne by (intros ->; done).
  destruct (proj2 (in_dom Hinv q)) as [c0 Hc0]; [clear -Hq; set_solver|].
  eapply (stage_frame s s' q c0); [done|by rewrite sr_clients, lookup_delete_ne|].
  rewrite sr_bevs, !lookup_delete_ne; [done|apply not_eq_sym, (other_not_mine _ _ _ _ _ _ p c Hinv Hp q c0); [done|done|handle_in..]..].
Qed.
End released.
End relaying.

(** ** The start of the pump *)

(** The client [c] became [c'], which relays through a new pump. *)
Record splice_begun (p : Z) (c c' : transocks_client) (pm : transocks_splicepump) (pi po : transocks_splicepipe)
    (s s' : state) : Prop := {
  sb_client : clients s' = <[p := c']> (clients s);
  sb_identity : same_identity c c' ∧ client_fd c' = client_fd c ∧ relay_fd c' = relay_fd c;
  sb_state : client_state c' = client_pumping_data;
  sb_spliced : spliced s' p c' pm pi po;
  sb_new x : x ∈ pump_objs c' pm → brk s ≤ x;
  sb_handlers q : handlers <$> bevs s' !! q = handlers <$> bevs s !! q;
  sb_bevs : delete (client_bev c) (delete (relay_bev c) (bevs s')) = delete (client_bev c) (delete (relay_bev c) (bevs s));
  sb_timer : evs s' !! timeout_ev c = set_ev_added false <$> evs s !! timeout_ev c;
  sb_evs q : q ∉ pump_evs pm → q ≠ timeout_ev c → evs s' !! q = evs s !! q;
  sb_pumps : pumps s' = <[user_arg c' := pm]> (pumps s);
  sb_pipes : pipes s' = <[outbound_pipe pm := po]> (<[inbound_pipe pm := pi]> (pipes s));
  sb_others : addrs s' = addrs s ∧ nodes s' = nodes s ∧ blocks s' = blocks s
}.

Section begins.
Context {k : config} {env : Z} {e : transocks_global_env} {lfd lev : Z} {l1 l2 : list Z} {s : state}.
Context {p : Z} {c c' : transocks_client} {pm : transocks_splicepump} {pi po : transocks_splicepipe} {s' : state}.
Context (Hinv : inv k env e lfd lev (l1 ++ p :: l2) s) (Hly : layer k s) (Hp : clients s !! p = Some c).
Context (Hk : cf_impl k = transocks_splicepump_ops_ref) (Hstage : stage_of s p = Some Requesting).
Context (Hb : splice_begun p c c' pm pi po s s') (Hg : same_globals s s') (Hwf' : wf s').

Let k' : config := Config (cf_impl k) (cf_name k) (pump_heaps s') (cf_extra k ∪ list_to_set (pump_evs pm)).

Lemma begun_new v : v ∈ pump_evs pm → brk s ≤ v.
Proof. intros Hv. apply (sb_new _ _ _ _ _ _ _ _ Hb). by do 3 right. Qed.

Lemma begun_extra v : v ∈ cf_extra k → v < brk s.
Proof. intros (Hl & _)%(in_extra Hinv). by apply (wf_evs _ (in_wf Hinv)). Qed.

(** The state without the new objects. *)
Let sm : state := set_evs (alter (set_ev_added false) (timeout_ev c) (evs s)) (set_clients (clients s') (set_bevs (bevs s') s)).

Lemma begun_stripped : goes_on p c c' s sm.
Proof.
  destruct Hb. split; [split; subst sm; st_norm; try done|].
  - apply sb_identity0.
  - intros q. apply alter_is_Some.
  - by rewrite delete_alter.
  - intros q. rewrite <-(fmap_is_Some handlers), sb_handlers0. apply fmap_is_Some.
  - intros t Ht Hcb Harg. subst sm. st_norm. exists (set_ev_added false t). by rewrite lookup_alter_eq, Ht.
Qed.

Lemma begun_phase : in_phase k sm p c'.
Proof.
  destruct (ci_phase (the_client Hinv Hp)) as (cb & rb & Hcb & Hrb & Hph). destruct Hb.
  assert (silent cb ∧ handlers rb = (Some fn_socks_on_server_connect_reply_readcb, None, Some fn_socks_handshake_stage_errcb, p)) as [Hs Hh].
  { clear -Hstage Hph Hp Hrb. unfold stage_of in Hstage. rewrite Hp in Hstage. simpl in Hstage.
    destruct Hph as [? ? ? H|? ? ? H|? ? ? H|? ? ? ? H|? ? ? ? H]; try done.
    rewrite Hrb in Hstage. simpl in Hstage. unfold handlers in H. injection H as E _ _ _. by rewrite E in Hstage. }
  pose proof (sb_handlers0 (client_bev c)) as H1. pose proof (sb_handlers0 (relay_bev c)) as H2. rewrite Hcb in H1. rewrite Hrb in H2.
  apply fmap_Some in H1 as (cb' & Hcb' & E1). apply fmap_Some in H2 as (rb' & Hrb' & E2).
  destruct sb_identity0 as (((_ & _ & Eb & Er & _) & _) & _).
  exists cb', rb'. subst sm. st_norm. rewrite Eb, Er, sb_state0. split_and!; [done|done|]. apply ph_splicing; [done| |congruence].
  unfold silent, handlers in *. destruct Hs as (? & ? & ?). split_and!; congruence.
Qed.

Lemma inv_begun : inv k' env e lfd lev (l1 ++ p :: l2) s'.
Proof.
  assert (inv k env e lfd lev (l1 ++ p :: l2) sm) as Him.
  { eapply (inv_goes_on _ _ _ _ _ _ sm p c Hinv Hp); [done| |exact begun_stripped|apply Hb|apply begun_phase].
    destruct (in_wf Hinv), begun_stripped as [[] _]. split; try done.
    - rewrite nr_clients. intros q. rewrite (insert_live _ _ _ _ _ Hp). apply wf_clients.
    - intros q. rewrite nr_bevs_live. apply wf_bevs.
    - intros q. rewrite nr_evs_live. apply wf_evs. }
  pose proof begun_new as Hnew. pose proof begun_extra as Hex. destruct Hb, sb_others0 as (Fa & Fn & Fb).
  eapply (inv_extra k k' _ _ _ _ _ sm); [done|done|done|done|by destruct Hg|done|done|done|done|done|..]; cbn [k' cf_extra].
  - intros v H1 H2. subst sm. st_norm. rewrite not_elem_of_union, not_elem_of_list_to_set in H2. destruct H2 as [_ H2].
    destruct (decide (v = timeout_ev c)) as [->|Hne]; [by rewrite lookup_alter_eq|]. rewrite lookup_alter_ne by done. by apply sb_evs0.
  - intros v H1 H2. destruct H2. by apply elem_of_union_l.
  - intros v [Hv|Hv%elem_of_list_to_set]%elem_of_union.
    + destruct (in_extra Him v Hv) as (Hl & ? & ?). split_and!; [|done|done]. rewrite sb_evs0.
      * pose proof (in_extra Hinv v Hv) as [? _]. done.
      * intros Hin%Hnew. apply Hex in Hv. lia.
      * intros ->. pose proof (in_extra Hinv _ Hv) as (_ & _ & Hx). apply (Hx p c Hp). handle_in.
    + apply Hnew in Hv as Hlt. split_and!.
      * destruct sb_spliced0 as [Hok Hset _ _ _ _ _]. pose proof (so_evs _ _ _ _ _ Hok) as H. rewrite Forall_forall in H, Hset.
        destruct (H v Hv) as [->|]; [by destruct (Hset _ Hv)|done].
      * intros H%(env_handles_old _ _ _ _ _ _ Hinv). lia.
      * intros q c0 Hc0 Hin. destruct (in_client Him q c0 Hc0) as [_ Hok Hs _ _ _].
        pose proof (client_handles_old _ _ _ _ _ _ Him q c0 v Hc0 Hin) as Hold. subst sm. simpl in Hold. lia.
Qed.
(** The pumps of the others are older. *)
Lemma old_pump q c0 pm0 x : relays_by s q c0 pm0 → x ∈ pump_objs c0 pm0 → x < brk s.
Proof.
  intros Hof Hx. destruct (relays_by_spliced _ _ _ _ Hly Hof) as (i & o & [Hok Hset _ _ _ _ _]).
  pose proof (in_wf Hinv) as Hwf. destruct Hok. rewrite Forall_forall in so_evs, Hset.
  unfold pump_objs in Hx. rewrite !elem_of_cons in Hx. destruct Hx as [->|[->|[->|Hv]]].
  - apply (wf_pumps _ Hwf). eauto.
  - apply (wf_pipes _ Hwf). eauto.
  - apply (wf_pipes _ Hwf). eauto.
  - apply (wf_evs _ Hwf). apply handle_live; auto.
Qed.

Lemma handshake_no_pump c0 pm0 : ¬ relays_by s p c0 pm0.
Proof. intros (H1 & H2 & _). unfold stage_of in Hstage. rewrite H1 in Hstage. simpl in Hstage. by rewrite H2 in Hstage. Qed.

Lemma begun_pump : relays_by s' p c' pm.
Proof. destruct Hb. split_and!; [by rewrite sb_client0, lookup_insert_eq|done|apply sb_spliced0]. Qed.

Lemma begun_only c0 pm0 : relays_by s' p c0 pm0 → c0 = c' ∧ pm0 = pm.
Proof. intros (H1 & _ & H3). destruct begun_pump as (H1' & _ & H3'). by simplify_eq. Qed.

Lemma layer_begun : layer k' s'.
Proof.
  pose proof (sb_new _ _ _ _ _ _ _ _ Hb) as Hnew. pose proof begun_pump as Hof'.
  assert (∀ x q c0 pm0, relays_by s q c0 pm0 → x ∈ pump_objs c0 pm0 → x ∉ pump_objs c' pm) as Hap.
  { intros x q c0 pm0 Hof Hx Hx'. apply Hnew in Hx'. apply (old_pump _ _ _ _ Hof) in Hx. lia. }
  apply (layer_change k' s s' p Hly Hwf').
  - destruct (sb_others _ _ _ _ _ _ _ _ Hb) as (_ & _ & ->). apply Hly.
  - intros q Hq. by rewrite (sb_client _ _ _ _ _ _ _ _ Hb), lookup_insert_ne.
  - intros q c0 pm0 Hq Hof. pose proof Hof as (Hc0 & _ & _). pose proof (λ x, Hap x q c0 pm0 Hof) as Hne.
    pose proof (other_not_mine _ _ _ _ _ _ p c Hinv Hp q c0) as Hne'.
    assert (∀ x y, x ∈ pump_objs c0 pm0 → y ∈ pump_objs c' pm → y ≠ x) as Hd by (intros x y Hx Hy ->; by eapply Hne).
    destruct Hb. rewrite <-?sb_pumps0. split; rewrite ?sb_pumps0, ?sb_pipes0.
    + rewrite lookup_insert_ne; [done|]. apply Hd; left.
    + rewrite !lookup_insert_ne; [done|apply Hd; unfold pump_objs; rewrite !elem_of_cons; tauto..].
    + rewrite !lookup_insert_ne; [done|apply Hd; unfold pump_objs; rewrite !elem_of_cons; tauto..].
    + intros v Hv. apply sb_evs0; [intros Hin; by eapply (Hd v v); [do 3 right..|]|].
      assert (v ∈ cf_extra k) as (_ & _ & Hx)%(in_extra Hinv) by (apply (ly_events Hly); by exists q, c0, pm0).
      intros ->. apply (Hx p c Hp). handle_in.
    + apply sb_evs0; [|apply Hne'; [done|done|handle_in..]]. intros Hin%begun_new.
      pose proof (client_handles_old _ _ _ _ _ _ Hinv q c0 (timeout_ev c0) Hc0 ltac:(handle_in)). lia.
    + eapply (near_bevs p c c' s sm), Hne'; [apply begun_stripped|apply Hne'; [done|done|handle_in..]|done|done|handle_in..].
    + eapply (near_bevs p c c' s sm), Hne'; [apply begun_stripped|apply Hne'; [done|done|handle_in..]|done|done|handle_in..].
  - intros c0 Hc0. destruct Hof' as (E & _ & _). assert (c0 = c') as -> by congruence. clear Hc0 E.
    destruct (ly_client Hly p c Hp) as [[] _ _], Hb. destruct sb_identity0 as (_ & E1 & E2).
    split; [split; congruence|congruence|by eauto].
  - intros q c0 c1 m0 m1 x _ [-> ->]%begun_only Hof Hx Hx'. by eapply Hap.
  - intros v. cbn [k' cf_extra]. rewrite elem_of_union, elem_of_list_to_set, (ly_events Hly). split.
    + intros [[q Hq]|Hv]; [|left; by exists c', pm]. right. exists q. split; [|done]. intros ->.
      destruct Hq as (? & ? & Hof & _). by eapply handshake_no_pump.
    + intros [(c0 & pm0 & [-> ->]%begun_only & Hv)|(q & _ & Hq)]; eauto.
  - intros u. rewrite (sb_pumps _ _ _ _ _ _ _ _ Hb), lookup_insert_is_Some'. intros [<-|[q Hq]%(ly_pumps Hly)]; [left; by exists c', pm|].
    right. exists q. split; [|done]. intros ->. destruct Hq as (? & ? & Hof & _). by eapply handshake_no_pump.
  - intros u. rewrite (sb_pipes _ _ _ _ _ _ _ _ Hb), !lookup_insert_is_Some'.
    intros [<-|[<-|[q Hq]%(ly_pipes Hly)]]; [left; exists c', pm; auto..|].
    right. exists q. split; [|done]. intros ->. destruct Hq as (? & ? & Hof & _). by eapply handshake_no_pump.
Qed.

Lemma connections_begun :
  session_step (cf_impl k) (Acting p) (connections (l1 ++ p :: l2) s) (connections (l1 ++ p :: l2) s').
Proof.
  pose proof (split_once _ _ _ _ _ _ _ _ Hinv) as Hpn.
  assert (stage_of s' p = Some Relaying) as Hs'.
  { destruct Hb. unfold stage_of. rewrite sb_client0, lookup_insert_eq. simpl. by rewrite sb_state0. }
  assert (∀ l, l = l1 ∨ l = l2 → connections l s' = connections l s) as Hl.
  { intros l El. apply connections_frame. intros q Hq. pose proof begun_stripped as Hgo.
    assert (q ∈ l1 ++ l2) as Hin by (clear -El Hq; set_solver). assert (q ≠ p) as Hne by (intros ->; done).
    transitivity (stage_of sm q); [done|]. eapply (others_goes_on _ _ _ _ _ _ sm p c Hinv Hp c'); [done|done|clear -Hin; set_solver]. }
  rewrite !connections_app. simpl. rewrite !Hl, Hstage, Hs' by auto. apply ss_advance. constructor.
Qed.

Lemma begun_frame : client_frame (s:=s) (p:=p) (c:=c) s'.
Proof.
  destruct Hb. apply (frame_changed Hinv Hp s' c'); [done|apply sb_identity0|apply sb_others0|].
  intros q H1 H2. rewrite <-(lookup_delete_ne (bevs s') (relay_bev c)) by done.
  rewrite <-(lookup_delete_ne (delete _ (bevs s')) (client_bev c)) by done. by rewrite sb_bevs0, !lookup_delete_ne.
Qed.
End begins.

Section start.
Context {EXT : Env} `{!SpliceReady EXT} (buf : list item → evbuffer → list Z) {LAWS : EvbufferLaws EXT buf}.
Context {k : config} {env : Z} {e : transocks_global_env} {lfd lev : Z} {l1 l2 : list Z} {s : state}.
Context {p : Z} {c : transocks_client}.
Context (Hinv : inv k env e lfd lev (l1 ++ p :: l2) s) (Hp : clients s !! p = Some c).
Context (Hk : cf_impl k = transocks_splicepump_ops_ref).

(** The client in the state in which the pump is started. *)
Let c2 : transocks_client := set_client_state client_socks5_finish_handshake c.

(** The state in which it is started: [f] disabled the relay's bufferevent. *)
Let starting (f : bufferevent → bufferevent) (cs cs' : list call) : state :=
  did cs' (set_bevs (alter f (relay_bev c) (bevs s)) (set_clients (<[p := c2]> (clients s)) (did cs (timer_stopped c s)))).

Lemma starting_wf f cs cs' : wf (starting f cs cs').
Proof.
  destruct (in_wf Hinv). split; try done; intros q.
  - unfold starting, timer_stopped. st_norm. rewrite (insert_live _ _ _ _ _ Hp). apply wf_clients.
  - unfold starting, timer_stopped. st_norm. rewrite alter_is_Some. apply wf_bevs.
  - unfold starting, timer_stopped. st_norm. rewrite alter_is_Some. apply wf_evs.
Qed.

Lemma starting_ok f cs cs' : client_ok (starting f cs cs') p c2.
Proof.
  eapply client_ok_mono; [apply (the_client Hinv Hp)|apply lookup_insert_eq|done|..]; intros q Hq;
    unfold starting, timer_stopped; st_norm; rewrite ?alter_is_Some; done.
Qed.

Lemma started_begun f cs cs' pm pi po s3 :
  (∀ x, handlers (f x) = handlers x) → let s2 := starting f cs cs' in let c3 := set_user_arg (brk s) c2 in
  splicing s3 p c3 pm pi po (clients_head env) (client_node <$> l1) (client_node <$> l2) →
  Forall (.≠ NULL) (pump_evs pm) → splice_started p (brk s) c2 pm pi po s2 s3 →
  let c' := set_client_state client_pumping_data c3 in
  splice_begun p c c' pm pi po s (set_clients (<[p := c']> (clients s3)) s3).
Proof.
  intros Hf s2 c3 [_ Hok3 _ Hso _] Hset [] c'.
  assert (timeout_ev c ∉ pump_evs pm) as Hnt.
  { intros Hin%ss_evs_new. change (brk s2) with (brk s) in Hin.
    pose proof (client_handles_old _ _ _ _ _ _ Hinv p c (timeout_ev c) Hp ltac:(handle_in)). lia. }
  split; st_norm; try done.
  - rewrite ss_client. subst s2. unfold starting. st_norm. by rewrite !insert_insert_eq.
  - split; [by destruct Hso|done|..].
    + destruct ss_in as (? & ? & _ & ?). split_and!; [lia|lia|done].
    + destruct ss_out as (? & ? & _ & ?). split_and!; [lia|lia|done].
    + split; st_norm; rewrite ?ss_client_read, ?ss_client_write, ?ss_relay_read, ?ss_relay_write; done.
    + st_norm. simpl. rewrite ss_evs by done. subst s2. unfold starting, timer_stopped. st_norm. rewrite lookup_alter_eq.
      destruct (timer_live Hinv Hp) as [t ->]. done.
    + done.
  - intros x. unfold pump_objs. rewrite !elem_of_cons. change (brk s) with (brk s2).
    destruct ss_pipes_new. intros [->|[->|[->|?]]]; [done|done|done|by apply ss_evs_new].
  - intros q. rewrite ss_handlers. subst s2. unfold starting. st_norm. by apply handlers_alter.
  - etrans; [exact ss_bevs|]. subst s2. unfold starting. st_norm. by rewrite delete_alter.
  - rewrite ss_evs by done. subst s2. unfold starting, timer_stopped. st_norm. by rewrite lookup_alter_eq.
  - intros q Hq Hne. rewrite ss_evs by done. subst s2. unfold starting, timer_stopped. st_norm. by rewrite lookup_alter_ne.
  - by destruct ss_others as (? & ? & ? & ?).
Qed.

(** The relay's answer is refused and the client gone, or the client relays. *)
Lemma wp_connect_reply_spliced :
  wp (socks_on_server_connect_reply_readcb p) (λ _ s',
    gone p c (clients_head env) (client_node <$> l1) (client_node <$> l2) s s' ∨
    reply_length (buf (trace s) (Input (relay_bev c))) ≠ None ∧ ∃ c' pm pi po, splice_begun p c c' pm pi po s s') s.
Proof.
  pose proof (inv_shaking Hinv Hp) as Hsk. pose proof Hsk as [Hn Hc Ha Ht Hb Hl].
  destruct (connect_reply_runs buf _ _ _ _ _ _ Hsk) as (cs0 & _ & Hrun).
  destruct (reply_length _) as [n|]; (eapply wp_runs; [exact Hrun|]; clear Hrun).
  2: { eapply wp_mono; [eapply (wp_free_client s); [done|done|by apply timer_stopped_goes_on]|by intros; left]. }
  set (cs := cs0 ++ _). set (s1 := did cs (timer_stopped c s)). clearbody cs.
  destruct (inv_timeable Hinv Hp) as (_ & e0 & He & Hba).
  destruct (bev_live Hinv Hp (relay_bev c)) as [rb Erb]; [by right|].
  assert (pumpMethodImpl s1 = Some transocks_splicepump_ops_ref) as Hi by (by rewrite <-Hk; apply (in_env Hinv)).
  assert (clients s1 !! p = Some c) as Hp1 by done.
  unfold connect_reply_start_pump, transocks_start_pump, pump_call. st_steps.
  apply wp_bev_disable; [eauto|]. intros f _ Hf. st_steps.
  match goal with |- wp _ _ (did ?cs' _) => 
    eapply wp_mono; [eapply (wp_splicepump_start (starting f cs cs') p c2 e0 (clients_head env) (client_node <$> l1) (client_node <$> l2))|] end.
  - apply starting_wf.
  - apply starting_ok.
  - done.
  - apply (handle_set Hinv Hp). handle_in.
  - done.
  - done.
  - done.
  - done.
  - intros r s3 (-> & pm & pi & po & Hspl & Hset & Hss). cbn [Z.eqb negb].
    apply wp_bind. eapply wp_modify; [apply Hspl|]. st_steps. cbn [Z.eqb negb]. st_steps. right.
    split; [done|]. do 4 eexists. by eapply started_begun.
Qed.
End start.

(** ** The callbacks *)

(** What a data callback leaves of the client and the pipe. *)
Lemma write_spec_same d c pm pp n errno pending c' pp' cs :
  write_spec d c pm pp n errno pending = Some (c', pp', cs) → flags_changed c c' ∧ (usable pp → usable pp').
Proof.
  unfold write_spec. intros H. repeat case_match; simplify_eq; split; try done. apply flags_changed_read.
Qed.

Lemma read_spec_same d c pp n errno c' pp' cs :
  read_spec d c pp n errno = Some (c', pp', cs) → flags_changed c c' ∧ (usable pp → usable pp').
Proof.
  unfold read_spec. intros H. repeat case_match; simplify_eq; split; try done. apply flags_changed_write.
Qed.

(** The event loop of a program that relays with the splice pump. *)
Definition splice_inv (env : Z) (e : transocks_global_env) (lfd lev : Z) (ps : list Z) (s : state) : Prop :=
  ∃ k, cf_impl k = transocks_splicepump_ops_ref ∧ inv k env e lfd lev ps s ∧ layer k s.

(** What is left when the clients were dropped and the environment released:
    the clients in their handshake, and what they own. *)
Record only_handshakes (s : state) : Prop := {
  oh_clients p c : clients s !! p = Some c → client_state c ≠ client_pumping_data;
  oh_heaps : pump_heaps s = (∅, ∅, ∅);
  oh_envs : envs s = ∅;
  oh_listeners : listeners s = ∅;
  oh_strs : strs s = ∅;
  oh_bases : bases s = ∅;
  oh_addrs a : is_Some (addrs s !! a) → ∃ p c, clients s !! p = Some c ∧ (a = client_addr c ∨ a = dest_addr c);
  oh_bevs b : is_Some (bevs s !! b) → ∃ p c, clients s !! p = Some c ∧ (b = client_bev c ∨ b = relay_bev c);
  oh_evs v : is_Some (evs s !! v) → ∃ p c, clients s !! p = Some c ∧ v = timeout_ev c;
  oh_nodes n : is_Some (nodes s !! n) → ∃ p c, clients s !! p = Some c ∧ n = client_node p
}.

(** Without a client that is nothing at all. *)
Lemma only_handshakes_nothing s : only_handshakes s → clients s = ∅ → nothing_live s = true.
Proof.
  intros [Hc Hh E1 E2 E3 E4 Ha Hb Hv Hn] Hcl. unfold pump_heaps in Hh. injection Hh as F1 F2 F3.
  assert (∀ {T} (m : gmap Z T) (f : Z → Z → transocks_client → Prop),
    (∀ x, is_Some (m !! x) → ∃ p c, clients s !! p = Some c ∧ f x p c) → m = ∅) as Hnone.
  { intros T m f H. apply map_empty. intros x. apply eq_None_not_Some. intros (p & c & Hp & _)%H. by rewrite Hcl in Hp. }
  unfold nothing_live. rewrite Hcl, E1, E2, E3, E4, F1, F2, F3, (Hnone _ _ _ Ha), (Hnone _ _ _ Hb), (Hnone _ _ _ Hv), (Hnone _ _ _ Hn). done.
Qed.

Lemma nothing_only_handshakes s : nothing_live s = true → only_handshakes s.
Proof.
  unfold nothing_live. rewrite !andb_true_iff, !bool_decide_eq_true. intros H. destruct_and! H.
  split; repeat match goal with E : _ = ∅ |- _ => rewrite E; clear E end; try done; try (by intros x []).
  unfold pump_heaps. congruence.
Qed.

Section callbacks.
Context {EXT : Env} `{!Survives EXT, !SpliceReady EXT, !AddressLaws EXT} (buf : list item → evbuffer → list Z) {LAWS : EvbufferLaws EXT buf}.
Context {env : Z} {e : transocks_global_env} {lfd lev : Z}.
Implicit Types s : state.

Abbreviation sinv := (splice_inv env e lfd lev).

(** The invariant holds again, the connections made a step, and the bytes that
    were moved through buffers are those of the step. *)
Abbreviation leads_to o ps s0 := (λ _ s', (same_globals s0 s' → wf s' →
  ∃ ps', sinv ps' s' ∧ session_step transocks_splicepump_ops_ref o (connections ps s0) (connections ps' s')) ∧
  streams_on buf transocks_splicepump_ops_ref s0 s').

Abbreviation its_bytes s p c := (client_streams buf transocks_splicepump_ops_ref (s:=s) (p:=p) (c:=c)).

Lemma splice_inv_trace ps s tr : sinv ps s → sinv ps (set_trace tr s).
Proof.
  intros (k & Hk & Hinv & Hly). exists k. assert (inv k env e lfd lev ps (set_trace tr s)) as Hinv' by (by apply inv_trace).
  split_and!; [done|done|]. eapply (layer_same Hinv Hly); [apply Hinv'|done..].
Qed.

(** A callback of a client in its handshake. *)
Lemma wp_handshake_step (m : C unit) k l1 l2 p c s :
  cf_impl k = transocks_splicepump_ops_ref → inv k env e lfd lev (l1 ++ p :: l2) s → layer k s →
  clients s !! p = Some c → client_state c ≠ client_pumping_data →
  wp m (λ _ s', client_step (k:=k) p c (clients_head env) (client_node <$> l1) (client_node <$> l2) s s') s →
  wp m (λ _ s', its_bytes s p c s') s → wp m (leads_to (Acting p) (l1 ++ p :: l2) s) s.
Proof.
  intros Hk Hinv Hly Hp Hst Hm Hby.
  eapply wp_mono; [apply wp_and; [exact Hm|intros a s' Hrun _; exact (wp_elim _ _ _ _ _ Hby Hrun)]|].
  intros [] s' [Hstep Hb]. split; [intros Hg Hwf'|exact (client_streams_on buf _ Hinv Hp _ (step_frame Hinv Hp _ Hstep) Hb)].
  destruct (inv_step _ _ _ _ _ _ _ _ _ _ Hinv Hp Hg Hwf' Hstep) as (ps' & Hinv' & Hss & _). rewrite Hk in Hss.
  exists ps'. split; [|done]. exists k. split_and!; [done|done|]. exact (layer_step Hinv Hly p c s' _ _ Hk Hp Hst Hwf' Hstep).
Qed.

(** Its timeout. *)
Lemma wp_expired_step (m : C unit) k l1 l2 p c s :
  cf_impl k = transocks_splicepump_ops_ref → inv k env e lfd lev (l1 ++ p :: l2) s → layer k s →
  clients s !! p = Some c → client_state c ≠ client_pumping_data →
  wp m (λ _ s', gone p c (clients_head env) (client_node <$> l1) (client_node <$> l2) s s') s →
  wp m (λ _ s', its_bytes s p c s') s → wp m (leads_to (Expired p) (l1 ++ p :: l2) s) s.
Proof.
  intros Hk Hinv Hly Hp Hst Hm Hby.
  eapply wp_mono; [apply wp_and; [exact Hm|intros a s' Hrun _; exact (wp_elim _ _ _ _ _ Hby Hrun)]|].
  intros [] s' [Hgone Hb]. pose proof (or_intror Hgone : client_step (k:=k) _ _ _ _ _ _ _) as Hstep.
  split; [intros Hg Hwf'|exact (client_streams_on buf _ Hinv Hp _ (step_frame Hinv Hp _ Hstep) Hb)].
  destruct (inv_step _ _ _ _ _ _ _ _ _ _ Hinv Hp Hg Hwf' Hstep) as (ps' & Hinv' & _ & Hss). specialize (Hss Hgone). rewrite Hk in Hss.
  exists ps'. split; [|done]. exists k. split_and!; [done|done|]. exact (layer_step Hinv Hly p c s' _ _ Hk Hp Hst Hwf' Hstep).
Qed.

(** The answer to the request, after which the client relays. *)
Lemma wp_reply_step k l1 l2 p c s :
  cf_impl k = transocks_splicepump_ops_ref → inv k env e lfd lev (l1 ++ p :: l2) s → layer k s →
  clients s !! p = Some c → stage_of s p = Some Requesting →
  wp (socks_on_server_connect_reply_readcb p) (leads_to (Acting p) (l1 ++ p :: l2) s) s.
Proof.
  intros Hk Hinv Hly Hp Hst. pose proof (wp_connect_reply_spliced buf Hinv Hp Hk) as Hwp.
  eapply wp_mono; [eapply wp_and; [exact Hwp|intros a s' Hrun _; refine (wp_elim _ _ a _ s' (streams_reply buf transocks_splicepump_ops_ref Hinv Hp _ Hst Hwp _) Hrun)]|].
  { intros s2 [Hg|(Hr & c' & pm & pi & po & [])]; [left; exact (is_gone_None _ _ Hg)|right]. split; [done|].
    unfold stage_of. rewrite sb_client0, lookup_insert_eq. simpl. by rewrite sb_state0. }
  intros [] s' [[Hgone|(_ & c' & pm & pi & po & Hb)] Hby].
  2: { split; [intros Hg Hwf'|exact (client_streams_on buf _ Hinv Hp _ (begun_frame Hinv Hp Hb) Hby)].
    exists (l1 ++ p :: l2). split; [|rewrite <-Hk; exact (connections_begun Hinv Hp Hst Hb)].
    eexists. split_and!; [|exact (inv_begun Hinv Hp Hk Hst Hb Hg Hwf')|exact (layer_begun Hinv Hly Hp Hst Hb Hwf')]. done. }
  split; [intros Hg Hwf'|exact (client_streams_on buf _ Hinv Hp _ (step_frame (k:=k) Hinv Hp _ (or_intror Hgone)) Hby)].
  - destruct (inv_step _ _ _ _ _ _ _ _ _ _ Hinv Hp Hg Hwf' (or_intror Hgone)) as (ps' & Hinv' & Hss & _). rewrite Hk in Hss.
    exists ps'. split; [|done]. exists k. split_and!; [done|done|]. eapply (layer_step Hinv Hly); [done|done| |done|by right].
    intros E. unfold stage_of in Hst. rewrite Hp in Hst. simpl in Hst. by rewrite E in Hst.
Qed.

(** A relaying client was released. *)
Lemma splice_inv_released k l1 l2 p c pm pi po cs s s' :
  cf_impl k = transocks_splicepump_ops_ref → inv k env e lfd lev (l1 ++ p :: l2) s → layer k s →
  clients s !! p = Some c → client_state c = client_pumping_data → spliced s p c pm pi po →
  splice_released p c pm pi po cs (clients_head env) (client_node <$> l1) (client_node <$> l2) s s' →
  same_globals s s' → wf s' → sinv (l1 ++ l2) s'.
Proof.
  intros Hk Hinv Hly Hp Hst Hsp Hr Hg Hwf'. eexists.
  split_and!; [|exact (inv_released_client Hinv Hly Hp Hst Hsp cs s' Hr Hg Hwf')|exact (layer_released Hinv Hly Hp Hst Hsp cs s' Hr Hwf')].
  done.
Qed.

(** What the outcome of a data callback leaves alone. *)
Lemma splice_outcome_frame k l1 l2 p c pm pi po d spec sp s s' :
  inv k env e lfd lev (l1 ++ p :: l2) s → clients s !! p = Some c →
  (∀ c' pp' cs, spec = Some (c', pp', cs) → flags_changed c c') →
  splice_outcome p d pm pi po c (clients_head env) (client_node <$> l1) (client_node <$> l2) spec sp s s' →
  client_frame (s:=s) (p:=p) (c:=c) s' ∧ (clients s' !! p = None ∨ stage_of s' p = stage_of s p).
Proof.
  intros Hinv Hp Hspec. assert (∀ cs, splice_released p c pm pi po cs (clients_head env) (client_node <$> l1) (client_node <$> l2) s s' →
    client_frame (s:=s) (p:=p) (c:=c) s' ∧ (clients s' !! p = None ∨ stage_of s' p = stage_of s p)) as Hrel.
  { intros cs []. split; [by apply (frame_gone Hinv Hp)|left]. by rewrite sr_clients, lookup_delete_eq. }
  unfold splice_outcome. destruct spec as [[[c' pp'] cs]|]; [|by apply Hrel].
  destruct (normal_termination c' d); [by apply Hrel|]. intros [[] _].
  destruct (Hspec c' pp' cs eq_refl) as (Hh & _ & _ & Es & _). split.
  - apply (frame_changed Hinv Hp s' c'); [done..|]. intros q _ _. by rewrite mv_bevs.
  - right. destruct Hh as (_ & _ & _ & Er & _). unfold stage_of. rewrite mv_clients, mv_bevs, lookup_insert_eq, Hp. simpl. by rewrite Es, Er.
Qed.

(** The outcome of a data callback. *)
Lemma splice_outcome_step k l1 l2 p c pm pi po d spec sp s s' :
  cf_impl k = transocks_splicepump_ops_ref → inv k env e lfd lev (l1 ++ p :: l2) s → layer k s →
  clients s !! p = Some c → client_state c = client_pumping_data → spliced s p c pm pi po →
  (∀ c' pp' cs, spec = Some (c', pp', cs) → flags_changed c c' ∧ (usable (dir_struct d pi po) → usable pp')) →
  splice_outcome p d pm pi po c (clients_head env) (client_node <$> l1) (client_node <$> l2) spec sp s s' →
  same_flows buf s s' → leads_to (Acting p) (l1 ++ p :: l2) s tt s'.
Proof.
  intros Hk Hinv Hly Hp Hst Hsp Hspec Ho Hfl. split.
  2: { destruct (splice_outcome_frame k l1 l2 p c pm pi po d spec sp s s' Hinv Hp) as [Hfr Hs']; [|done|].
    - intros c' pp' cs E. exact (proj1 (Hspec c' pp' cs E)).
    - exact (client_streams_on buf _ Hinv Hp _ Hfr (streams_still buf _ s' Hfl Hs')). }
  intros Hg Hwf'.
  assert (∀ cs, splice_released p c pm pi po cs (clients_head env) (client_node <$> l1) (client_node <$> l2) s s' →
    ∃ ps', sinv ps' s' ∧ session_step transocks_splicepump_ops_ref (Acting p) (connections (l1 ++ p :: l2) s) (connections ps' s')) as Hrel.
  { intros cs Hr. exists (l1 ++ l2). split; [by eapply splice_inv_released|].
    destruct (connections_released Hinv Hp Hst cs s' Hr) as [-> ->]. constructor. }
  unfold splice_outcome in Ho. destruct spec as [[[c' pp'] cs]|]; [|by eapply Hrel].
  destruct (normal_termination c' d); [by eapply Hrel|]. destruct Ho as [Hmv _].
  destruct (Hspec c' pp' cs eq_refl) as [Hf Hus]. assert (usable pp') as Hus' by (apply Hus; destruct Hsp, d; done).
  exists (l1 ++ p :: l2). split; [|rewrite (connections_moved Hinv Hp Hsp d c' pp' s' Hmv Hf); by constructor].
  eexists. split_and!; [|exact (inv_moved Hinv Hly Hp Hst Hsp d c' pp' s' Hmv Hf Hg Hwf')
    |exact (layer_moved Hinv Hly Hp Hst Hsp d c' pp' s' Hmv Hf Hwf' Hus')]. done.
Qed.

(** The four data callbacks. *)
Lemma wp_data_event k l1 l2 p c pm pi po s v t :
  cf_impl k = transocks_splicepump_ops_ref → inv k env e lfd lev (l1 ++ p :: l2) s → layer k s →
  clients s !! p = Some c → client_state c = client_pumping_data → spliced s p c pm pi po →
  v ∈ pump_evs pm → evs s !! v = Some t →
  ev_arg t = p ∧ owner (le_event v EV_READ) s = Acting p ∧ wp (run_event_fn (ev_cb t) p) (leads_to (Acting p) (l1 ++ p :: l2) s) s.
Proof.
  intros Hk Hinv Hly Hp Hst Hsp Hv Ht. pose proof (relaying_splicing Hinv Hp Hsp) as Hsg.
  destruct (ly_client Hly p c Hp) as [[Hf1 Hf2] _ _]. pose proof Hsp as [_ Hset (Hi1 & Hi2 & icap & Hi3) (Ho1 & Ho2 & ocap & Ho3) [] _ _].
  assert (∀ d, dir_source d c ≠ -1 ∧ dir_target d c ≠ -1) as Hd by (by intros []).
  assert (∀ d, wp (transocks_write_to_pipe p d) (leads_to (Acting p) (l1 ++ p :: l2) s) s) as Hwrite.
  { intros d. assert (∃ cap, capacity (dir_struct d pi po) = Some cap) as [cap Hcap] by (destruct d; eauto).
    destruct (ext (trace s) (c_splice (dir_source d c) (pipe_writefd (dir_struct d pi po)) cap splice_flags)) as [n errno] eqn:E.
    eapply wp_mono; [eapply (wp_keeps (same_flows buf)), keeps_write_to_pipe; try apply _;
      eapply (wp_write_to_pipe s p c pm pi po); [done|done|by apply Hd|by destruct d|done|exact E]|].
    intros [] s' [Ho Hfl]. eapply (splice_outcome_step k l1 l2 p c pm pi po d); [done..| |exact Ho|exact Hfl]. intros c' pp' cs. apply write_spec_same. }
  assert (∀ d, wp (transocks_read_from_pipe p d) (leads_to (Acting p) (l1 ++ p :: l2) s) s) as Hread.
  { intros d. destruct (ext (trace s) (c_splice (pipe_readfd (dir_struct d pi po)) (dir_target d c) (data_in_pipe (dir_struct d pi po)) splice_flags))
      as [n errno] eqn:E.
    eapply wp_mono; [eapply (wp_keeps (same_flows buf)), keeps_read_from_pipe; try apply _;
      eapply (wp_read_from_pipe s p c pm pi po); [done|by apply Hd|by destruct d|exact E]|].
    intros [] s' [Ho Hfl]. eapply (splice_outcome_step k l1 l2 p c pm pi po d); [done..| |exact Ho|exact Hfl]. intros c' pp' cs. apply read_spec_same. }
  unfold pump_evs in Hv. rewrite !elem_of_cons, elem_of_nil in Hv.
  destruct Hv as [->|[->|[->|[->|[]]]]]; [rewrite Ht in de_client_read0|rewrite Ht in de_client_write0|rewrite Ht in de_relay_read0|rewrite Ht in de_relay_write0];
    match goal with H : _ = Some (_, p) |- _ => injection H as E1 E2; rewrite E1, E2 end;
    (split_and!; [done|simpl; rewrite Ht; simpl; by rewrite E1, E2|]); simpl run_event_fn.
  - apply Hwrite.
  - apply Hread.
  - apply Hwrite.
  - unfold transocks_splicepump_relay_writecb, transocks_get_splicepump. st_steps. apply Hread.
Qed.

(** ** The events of the environment *)

Lemma wp_splice_dump ps s p tag cs :
  sinv ps s → p ∈ ps → wp (transocks_pump_dump_info p tag) (λ _ s', ∃ ds, s' = did ds (did cs s)) (did cs s).
Proof.
  intros Hs Hin. apply (splice_inv_trace _ _ (trace (did cs s))) in Hs. change (set_trace _ s) with (did cs s) in Hs.
  destruct Hs as (k & Hk & Hinv & Hly). pose proof (proj2 (in_dom Hinv p) Hin) as [c Hp].
  pose proof (ei_pump (in_env Hinv)) as Hi. rewrite Hk in Hi. destruct (decide (client_state c = client_pumping_data)) as [Hst|Hst].
  - destruct (layer_pump _ _ _ Hly Hp Hst) as (pm & pi & po & [? ? (_ & _ & ?) (_ & _ & ?) _ _ _] & _).
    eapply (wp_splice_dump_info sv_ntop); [done|done|apply (in_client Hinv _ _ Hp)|done..].
  - unfold transocks_pump_dump_info, pump_call, print_line. st_steps. eapply wp_Ok_run; [|by exists (dump_header tag)].
    apply (splicepump_dump_no_pump _ p c); [done|]. by apply (cy_shaking _ _ _ (ly_client Hly p c Hp)).
Qed.
Lemma relaying_stage s p c : clients s !! p = Some c → stage_of s p = Some Relaying ↔ client_state c = client_pumping_data.
Proof.
  intros Hp. unfold stage_of. rewrite Hp. simpl. destruct (client_state c); try done.
  destruct (bevs s !! relay_bev c) as [b|]; [simpl|done]. by destruct (bev_readcb b) as [[]|].
Qed.

(** The clients that are left are as they were, in their stages. *)
Definition spares s s' : Prop := ∀ p c, clients s' !! p = Some c →
  clients s !! p = Some c ∧ dest_of s' c = dest_of s c ∧ stage_of s' p = stage_of s p.

Lemma spares_trans s1 s2 s3 : spares s1 s2 → spares s2 s3 → spares s1 s3.
Proof.
  intros H1 H2 p c Hc. destruct (H2 p c Hc) as (Hc2 & E2 & F2). destruct (H1 p c Hc2) as (Hc1 & E1 & F1).
  split_and!; [done|congruence..].
Qed.

Lemma frame_spares s s' p c : client_frame (s:=s) (p:=p) (c:=c) s' → clients s' !! p = None → spares s s'.
Proof. intros [_ Ho] Hp q c' Hc'. apply Ho; [|done]. intros ->. congruence. Qed.

(** One round of the loop that drops the clients: a client that relays goes,
    another stays. *)
Lemma wp_splice_drop_one l1 l2 p s :
  sinv (l1 ++ p :: l2) s →
  wp (transocks_pump_dump_info p "close connection" ;; transocks_pump_free p) (λ _ s',
    let ps' := if decide (stage_of s p = Some Relaying) then l1 ++ l2 else l1 ++ p :: l2 in
    sinv ps' s' ∧ connections ps' s' = connections ps' s ∧ spares s s') s.
Proof.
  intros Hs. assert (p ∈ l1 ++ p :: l2) as Hin by set_solver.
  pose proof (wp_splice_dump _ s p "close connection" [] Hs Hin) as Hdump.
  rewrite did_nil in Hdump. pose proof Hs as (k & Hk & Hinv & Hly). pose proof (proj2 (in_dom Hinv p) Hin) as [c Hp].
  cut (wp (transocks_pump_dump_info p "close connection" ;; transocks_pump_free p) (λ _ s',
    if decide (stage_of s p = Some Relaying)
    then ∃ pm pi po cs, spliced s p c pm pi po ∧ splice_released p c pm pi po cs (clients_head env) (client_node <$> l1) (client_node <$> l2) s s'
    else ∃ cs, s' = did cs s) s).
  { intros Hwp%(wp_keeps same_globals); [|apply keeps_drop_one; apply _].
    apply (wp_keeps grows) in Hwp; [|apply keeps_drop_one; apply _].
    eapply wp_mono; [exact Hwp|]. intros [] s' [[H Hg] Hgr]. pose proof (gr_wf _ _ Hgr (in_wf Hinv)) as Hwf'.
    destruct (decide _) as [Hst%(relaying_stage _ _ _ Hp)|_].
    - destruct H as (pm & pi & po & cs & Hsp & Hr). split; [by eapply splice_inv_released|].
      destruct (connections_released Hinv Hp Hst cs s' Hr) as [_ ->]. split; [by rewrite connections_app|].
      destruct Hr. apply (frame_spares s s' p c); [by apply (frame_gone Hinv Hp)|by rewrite sr_clients, lookup_delete_eq].
    - destruct H as [cs ->]. split; [by apply splice_inv_trace|done]. }
  apply wp_bind. eapply wp_mono; [exact Hdump|]. intros [] s1 [cs ->].
  pose proof (ei_pump (in_env Hinv)) as Hi. rewrite Hk in Hi. unfold transocks_pump_free, pump_call. st_steps.
  destruct (decide _) as [Hst%(relaying_stage _ _ _ Hp)|Hst].
  - destruct (layer_pump _ _ _ Hly Hp Hst) as (pm & pi & po & Hsp & _).
    eapply wp_mono; [eapply (wp_release_moved s (did cs s) p c c outbound pm pi po po)|].
    + by apply (relaying_splicing Hinv Hp Hsp).
    + apply flags_changed_refl.
    + apply moved_did; [done|apply Hsp].
    + done.
    + done.
    + intros [] s' Hr. by exists pm, pi, po, cs.
  - eapply wp_Ok_run; [apply (splicepump_free_no_pump _ p c); [done|]|by exists cs].
    apply (cy_shaking _ _ _ (ly_client Hly p c Hp)). by intros E%(relaying_stage _ _ _ Hp).
Qed.

(** Dropping all clients leaves those in their handshake. *)
Lemma wp_splice_drop_all ps s :
  sinv ps s → wp (transocks_drop_all_clients env) (λ _ s', ∃ ps', sinv ps' s' ∧
    connections ps' s' = spared transocks_splicepump_ops_ref (connections ps s) ∧ spares s s') s.
Proof.
  intros Hs. pose proof Hs as (k & Hk & Hinv & Hly). pose proof (in_list Hinv) as Hd.
  unfold transocks_drop_all_clients, list_fuel. st_steps.
  eapply wp_mono; [apply (wp_list_for_each_entry_safe nodes _ _ _ (client_node <$> ps)
    (λ _ rest s', ∃ dn kept todo, ps = dn ++ todo ∧ rest = client_node <$> todo ∧ sinv (kept ++ todo) s' ∧
       connections kept s' = filter (λ x, x.2 ≠ Some Relaying) (connections dn s) ∧ connections todo s' = connections todo s ∧ spares s s'))|].
  - apply Hd.
  - intros vis rest s' (dn & kept & todo & _ & -> & (k' & _ & Hinv' & _) & _).
    pose proof (in_list Hinv') as Hd'. rewrite fmap_app in Hd'. by eapply dlist_rest.
  - intros vis x rest s' _ (dn & kept & [|p todo] & -> & [= -> ->] & Hs' & Hkept & Htodo & Hsp). rewrite client_node_sub.
    eapply wp_mono; [by apply wp_splice_drop_one|]. intros [] s2 (Hs2 & Hc2 & Hsp2). pose proof (spares_trans _ _ _ Hsp Hsp2) as Hsp'.
    injection Htodo as Hstage Htodo. exists (dn ++ [p]). rewrite connections_app, filter_app, <-Hkept. cbn [connections fmap list_fmap].
    destruct (decide _) as [Hst|Hst].
    + exists kept, todo. rewrite !connections_app in Hc2. apply app_inj_1 in Hc2 as [E1 E2]; [|unfold connections; by rewrite !length_fmap].
      split_and!; [by rewrite <-(assoc_L (++))|done|done| |congruence|done].
      rewrite E1, filter_cons_False, filter_nil, app_nil_r; [done|]. simpl. intros H. apply H. congruence.
    + exists (kept ++ [p]), todo. rewrite !connections_app in Hc2. apply app_inj_1 in Hc2 as [E1 E2]; [|unfold connections; by rewrite !length_fmap].
      injection E2 as E2 E3. split_and!; [by rewrite <-(assoc_L (++))|done|by rewrite <-(assoc_L (++))| |congruence|done].
      rewrite connections_app, E1. cbn [connections fmap list_fmap]. rewrite filter_cons_True, filter_nil by (simpl; congruence).
      by rewrite E2, Hstage.
  - exists [], [], ps. done.
  - done.
  - rewrite length_fmap. pose proof (nodes_length _ _ _ Hd) as H. rewrite length_fmap in H. lia.
  - intros [] s' (dn & kept & [|p todo] & -> & E & Hs' & Hkept & _ & Hsp); [|done]. exists kept. rewrite !app_nil_r in *. done.
Qed.

Lemma wp_splice_env_event ps s v f :
  sinv ps s → (v, f) ∈ env_events e lev → wp (run_event_fn f env) (leads_to (actor_of f env) ps s) s.
Proof.
  intros Hs Hin. pose proof Hs as (k & Hk & Hinv & Hly). pose proof (in_env Hinv) as Henv.
  assert (∀ cs, same_flows buf s (did cs s) → leads_to Watching ps s tt (did cs s)) as Hsame.
  { intros cs Hfl. split; [|by apply streams_same]. intros _ _. exists ps. split; [by apply splice_inv_trace|by constructor]. }
  assert (wp (terminate_signal_cb env) (leads_to Watching ps s) s) as Hterm.
  { unfold terminate_signal_cb. assert (envs s !! env = Some e) by (by rewrite (ei_envs Henv), lookup_singleton_eq).
    assert (bases s !! eventBaseLoop e = Some tt) by (by rewrite (ei_bases Henv), lookup_singleton_eq). st_steps.
    apply (Hsame [_]). by apply flows_call. }
  assert (wp (dump_client_info_signal_cb env) (leads_to Watching ps s) s) as Hdump.
  { eapply wp_mono; [eapply (wp_keeps (same_flows buf)), keeps_dump_all_client_info; try apply _;
      eapply wp_dump_all; [apply Hinv|intros; by eapply wp_splice_dump]|]. intros [] s' [[cs ->] Hfl]. by apply Hsame. }
  assert (wp (drop_all_clients_signal_cb env) (leads_to Dropping ps s) s) as Hdrop.
  { eapply wp_mono; [eapply (wp_keeps (same_flows buf)), keeps_drop_all_clients; try apply _; by eapply wp_splice_drop_all|].
    intros [] s' [(ps' & Hs' & E & Hsp) Hfl]. split; [intros _ _; exists ps'; split; [done|rewrite E; constructor]|].
    apply streams_quiet; [done|]. intros p c Hc. right. by apply Hsp. }
  assert (wp (listener_cb env) (leads_to Listening ps s) s) as Hlisten.
  { eapply wp_mono; [eapply (wp_keeps (same_flows buf)), keeps_listener_cb; try apply _; exact (wp_listener_outcome ps s Hinv)|].
    intros [] s' [Ho Hfl]. split; [intros Hg Hwf'|exact (streams_listener buf _ Hinv _ Ho Hfl)].
    destruct (inv_listener _ _ _ Hinv Ho Hg Hwf') as (ps' & Hinv' & Hss). rewrite Hk in Hss.
    exists ps'. split; [|done]. exists k. split_and!; [done|done|]. exact (layer_listener Hinv Hly s' Hwf' Ho). }
  unfold env_events in Hin. rewrite !elem_of_cons, elem_of_nil in Hin.
  destruct Hin as [[= -> ->]|[[= -> ->]|[[= -> ->]|[[= -> ->]|[[= -> ->]|[]]]]]]; done.
Qed.
(** ** One event *)

(** libevent delivers an event that was added, and looks at the descriptor of a
    bufferevent that has one. *)
Definition live_splice (ev : loop_event) (s : state) : bool :=
  match ev with
  | le_event v _ => match evs s !! v with Some t => ev_added t | None => false end
  | le_bev_read b | le_bev_write b | le_bev_event b _ _ =>
      match bevs s !! b with Some r => negb (bev_fd r =? -1) | None => false end
  end.

(** The callbacks of a bufferevent that has a descriptor. *)
Lemma wp_splice_bev_callbacks ps s b r :
  sinv ps s → bevs s !! b = Some r → bev_fd r ≠ -1 →
  (∀ f, bev_readcb r = Some f → wp (run_data_fn f b (bev_cbarg r)) (leads_to (Acting (bev_cbarg r)) ps s) s) ∧
  (∀ f, bev_writecb r = Some f → wp (run_data_fn f b (bev_cbarg r)) (leads_to (Acting (bev_cbarg r)) ps s) s) ∧
  (∀ f what errno, bev_eventcb r = Some f → wp (run_bevent_fn f what errno (bev_cbarg r)) (leads_to (Acting (bev_cbarg r)) ps s) s).
Proof.
  intros (k & Hk & Hinv & Hly) Hr Hfd. destruct (in_bevs Hinv b) as (p & c & Hp & Hb); [eauto|].
  destruct (the_split _ _ _ _ Hinv Hp) as (l1 & l2 & ->).
  assert (client_state c ≠ client_pumping_data) as Hst.
  { intros Hst. destruct (layer_pump _ _ _ Hly Hp Hst) as (pm & pi & po & [_ _ _ _ _ _ [F1 F2]] & _).
    destruct Hb as [->| ->]; [rewrite Hr in F1; by injection F1|rewrite Hr in F2; by injection F2]. }
  destruct (ci_phase (in_client Hinv _ _ Hp)) as (cb & rb & Hcb & Hrb & Hph).
  assert (∀ m, wp m (λ _ s', client_step (k:=k) p c (clients_head env) (client_node <$> l1) (client_node <$> l2) s s') s →
    wp m (λ _ s', its_bytes s p c s') s → wp m (leads_to (Acting p) (l1 ++ p :: l2) s) s) as Hstep
    by (intros m; by apply (wp_handshake_step m k l1 l2 p c)).
  destruct Hb as [->| ->]; simplify_eq; remember (client_state c) as st eqn:Est.
  - destruct Hph as [? ? [S1 [S2 S3]] _|? ? [S1 [S2 S3]] _|? ? [S1 [S2 S3]] _| |]; [rewrite S1, S2, S3; done..|done|done].
  - destruct Hph as [? ? S H1|? ? S H1|? ? S H1| |]; [..|done|done]; unfold handlers in H1; injection H1 as E1 E2 E3 E4;
      rewrite E1, E2, E3, E4; split_and!; intros f; try done.
    + intros what errno [= <-]. apply Hstep; [eapply step_onconnect; eauto|by eapply streams_onconnect].
    + intros [= <-]. assert (stage_of s p = Some Greeting) by exact (stage_at _ _ _ _ _ Hp Hr (eq_sym Est) E1).
      apply Hstep; [eapply step_selected_method; eauto|by eapply streams_selected_method].
    + intros what errno [= <-]. apply Hstep; [by eapply step_errcb; [..|rewrite <-Est]|by eapply streams_errcb].
    + intros [= <-]. eapply (wp_reply_step k); [done..|]. exact (stage_at _ _ _ _ _ Hp Hr (eq_sym Est) E1).
    + intros what errno [= <-]. apply Hstep; [by eapply step_errcb; [..|rewrite <-Est]|by eapply streams_errcb].
Qed.

(** The callback of an event. *)
Lemma wp_splice_event ps s v t :
  sinv ps s → evs s !! v = Some t → ev_added t = true →
  wp (run_event_fn (ev_cb t) (ev_arg t)) (leads_to (owner (le_event v EV_READ) s) ps s) s.
Proof.
  intros Hs Ht Hadd. pose proof Hs as (k & Hk & Hinv & Hly).
  destruct (in_evs Hinv v) as [([v' f] & -> & Hin)%list_elem_of_fmap|[(p & c & Hp & ->)|(p & c & pm & Hof & Hv)%(ly_events Hly)]]; [eauto|..].
  - destruct (ei_evs (in_env Hinv) _ _ Hin) as (t' & Ht' & <- & Harg). simpl in Ht.
    assert (t' = t) as -> by congruence. rewrite Harg.
    replace (owner _ s) with (actor_of (ev_cb t) env) by (simpl; by rewrite Ht, Harg). by eapply wp_splice_env_event.
  - destruct (ci_timer (in_client Hinv _ _ Hp)) as (t' & Ht' & Hcb & Harg).
    assert (t' = t) as -> by congruence. rewrite Hcb, Harg.
    replace (owner _ s) with (Expired p) by (simpl; by rewrite Ht, Hcb, Harg).
    destruct (the_split _ _ _ _ Hinv Hp) as (l1 & l2 & ->). eapply wp_expired_step; [done..| |by eapply timeout_ends|by eapply streams_timeout].
    intros Hst. destruct (layer_pump _ _ _ Hly Hp Hst) as (pm & pi & po & [_ _ _ _ _ F _] & _).
    rewrite Ht in F. simpl in F. congruence.
  - pose proof Hof as (Hp & Hst & _). destruct (the_split _ _ _ _ Hinv Hp) as (l1 & l2 & ->).
    destruct (relays_by_spliced _ _ _ _ Hly Hof) as (pi & po & Hsp).
    destruct (wp_data_event k l1 l2 p c pm pi po s v t) as (-> & -> & Hwp); done.
Qed.

Lemma splice_callback_step ev ps s :
  sinv ps s → live_splice ev s = true →
  ∃ s' ps', run_callback ev s = Ok tt s' ∧ sinv ps' s' ∧
    session_step transocks_splicepump_ops_ref (owner ev s) (connections ps s) (connections ps' s') ∧
    streams_on buf transocks_splicepump_ops_ref s s'.
Proof.
  intros Hs Hlive. set (s0 := push (IEvent ev) s). assert (sinv ps s0) as Hs0 by (by apply splice_inv_trace).
  cut (wp (run_callback ev) (leads_to (owner ev s) ps s0) s).
  { intros ([] & s' & Hrun & Hgo & Hon)%wp_run. exists s'. destruct Hs as (k & _ & Hinv & _).
    destruct Hgo as (ps' & H1 & H2); [|by eapply (gr_wf _ _ (run_callback_grows ev _ _ _ Hrun)), Hinv
      |exact (ex_intro _ ps' (conj Hrun (conj H1 (conj H2 (streams_delivered buf _ ev s s' Hon)))))].
    by destruct (run_callback_globals ev _ _ _ Hrun). }
  unfold run_callback. apply wp_bind, wp_puts. fold s0.
  assert (∀ p, wp (mret tt) (leads_to (Acting p) ps s0) s0) as Hidle.
  { intros p. apply wp_ret. split; [|by apply streams_same]. intros _ _. exists ps. split; [done|by constructor]. }
  destruct ev as [v what|b|b|b what errno]; simpl in Hlive.
  - destruct (evs s !! v) as [t|] eqn:Ht; [|done]. apply wp_bind. eapply wp_load; [exact Ht|].
    exact (wp_splice_event ps s0 v t Hs0 Ht Hlive).
  - destruct (bevs s !! b) as [r|] eqn:Hr; [|done]. apply negb_true_iff, Z.eqb_neq in Hlive.
    simpl owner. rewrite Hr. apply wp_bind. eapply wp_load; [exact Hr|].
    destruct (wp_splice_bev_callbacks ps s0 b r Hs0 Hr Hlive) as (H1 & _ & _). destruct (bev_readcb r); [by apply H1|apply Hidle].
  - destruct (bevs s !! b) as [r|] eqn:Hr; [|done]. apply negb_true_iff, Z.eqb_neq in Hlive.
    simpl owner. rewrite Hr. apply wp_bind. eapply wp_load; [exact Hr|].
    destruct (wp_splice_bev_callbacks ps s0 b r Hs0 Hr Hlive) as (_ & H1 & _). destruct (bev_writecb r); [by apply H1|apply Hidle].
  - destruct (bevs s !! b) as [r|] eqn:Hr; [|done]. apply negb_true_iff, Z.eqb_neq in Hlive.
    simpl owner. rewrite Hr. apply wp_bind. eapply wp_load; [exact Hr|].
    destruct (wp_splice_bev_callbacks ps s0 b r Hs0 Hr Hlive) as (_ & _ & H1). destruct (bev_eventcb r); [by apply H1|apply Hidle].
Qed.

Lemma splice_callback_inv ev ps s :
  sinv ps s → live_splice ev s = true →
  ∃ s' ps', run_callback ev s = Ok tt s' ∧ sinv ps' s' ∧
    session_step transocks_splicepump_ops_ref (owner ev s) (connections ps s) (connections ps' s').
Proof. intros Hs Hl. destruct (splice_callback_step ev ps s Hs Hl) as (s' & ps' & ? & ? & ? & _). eauto. Qed.

#[export] Instance splice_streams : StreamLoop buf transocks_splicepump_ops_ref live_splice (splice_inv env e lfd lev).
Proof.
  split.
  - intros ev ps s Hs Hl. destruct (splice_callback_step ev ps s Hs Hl) as (s' & ps' & ? & ? & _ & ?). eauto.
  - intros ps s p c (k & _ & Hinv & _) Hp. destruct (the_split _ _ _ _ Hinv Hp) as (l1 & l2 & ->).
    split; [apply (in_dom Hinv); eauto|exact (bevs_differ Hinv Hp)].
Qed.

#[export] Instance splice_loop : Loop transocks_splicepump_ops_ref live_splice (splice_inv env e lfd lev).
Proof.
  split; [apply splice_callback_inv|]. intros ps s p (k & _ & Hinv & _). split; [by eapply listed_stage|].
  intros [b Hb]. by eapply stage_listed.
Qed.

(** ** Start and end of the program *)

(** Before the first connection no pump has an object. *)
Lemma idle_splice_inv name s : inv (idle_config transocks_splicepump_ops_ref name) env e lfd lev [] s → sinv [] s.
Proof.
  intros Hinv. exists (idle_config transocks_splicepump_ops_ref name). split_and!; [done|done|].
  pose proof (ei_heaps (in_env Hinv)) as [= E1 E2 E3].
  assert (∀ p, clients s !! p = None) as Hno.
  { intros p. apply eq_None_not_Some. intros H%(in_dom Hinv). by apply elem_of_nil in H. }
  split; rewrite ?E1, ?E2; try done.
  - intros p c Hp. by rewrite Hno in Hp.
  - intros p q c c' pm pm' x _ (Hp & _). by rewrite Hno in Hp.
  - intros v. split; [by intros []%not_elem_of_empty|]. intros (p & c & pm & (Hp & _) & _). by rewrite Hno in Hp.
  - by intros u [].
  - by intros u [].
Qed.

Lemma dropped_idle ps s l :
  sinv ps s → connections ps s = spared transocks_splicepump_ops_ref l →
  (∀ p c, clients s !! p = Some c → client_state c ≠ client_pumping_data) ∧ pump_heaps s = (∅, ∅, ∅) ∧
  ∃ k, cf_heaps k = (∅, ∅, ∅) ∧ cf_extra k = ∅ ∧ inv k env e lfd lev ps s.
Proof.
  intros (k & Hk & Hinv & Hly) Hsp.
  assert (∀ p c, clients s !! p = Some c → client_state c ≠ client_pumping_data) as Hno.
  { intros p c Hp Hst%(relaying_stage _ _ _ Hp). assert ((p, Some Relaying) ∈ connections ps s) as Hin.
    { rewrite <-Hst. apply (list_elem_of_fmap_2 (λ p, (p, stage_of s p))), (in_dom Hinv). eauto. }
    rewrite Hsp in Hin. by apply list_elem_of_filter in Hin as [? _]. }
  assert (∀ p c pm, ¬ relays_by s p c pm) as Hnr by (intros p c pm (Hp & Hst & _); by eapply Hno).
  assert (pump_heaps s = (∅, ∅, ∅)) as Hh.
  { unfold pump_heaps. rewrite (ly_blocks Hly). f_equal; f_equal; apply map_empty; intros u; apply eq_None_not_Some.
    - intros (p & c & pm & Hof & _)%(ly_pumps Hly). by eapply Hnr.
    - intros (p & c & pm & Hof & _)%(ly_pipes Hly). by eapply Hnr. }
  split_and!; [done|done|]. exists k. split_and!; [|apply elem_of_equiv_empty_L; intros v (p & c & pm & Hof & _)%(ly_events Hly); by eapply Hnr|done].
  by rewrite <-(ei_heaps (in_env Hinv)).
Qed.

(** The end of [main] from a state of the loop. *)
Lemma wp_splice_shutdown ps s : sinv ps s → wp (main_shutdown env) (λ r s', r = 0 ∧ only_handshakes s') s.
Proof.
  intros Hs. unfold main_shutdown. apply wp_bind. eapply wp_mono; [by eapply wp_splice_drop_all|].
  intros [] s1 (ps1 & Hs1 & Hc1 & _). destruct (dropped_idle _ _ _ Hs1 Hc1) as (Hno & Hh & k & Hk1 & Hk2 & Hinv).
  pose proof (in_env Hinv) as Henv. eapply wp_shutdown_rest; [by eapply inv_env_ok|rewrite (ei_bases Henv), lookup_singleton_eq; eauto|].
  intros cs s' (_ & E1 & E2 & E3 & E4 & E5 & E6 & E7 & E8 & E9 & E10). split; [done|].
  rewrite (ei_listeners Henv : listeners (did cs s1) = _), delete_singleton_eq in E4.
  rewrite (ei_envs Henv : envs (did cs s1) = _), delete_singleton_eq in E1.
  rewrite (ei_strs Henv : strs (did cs s1) = _), delete_singleton_eq in E2.
  rewrite (ei_bases Henv : bases (did cs s1) = _), delete_singleton_eq in E6.
  split; [by rewrite E8|by rewrite E10|done..| | | |].
  - intros a. rewrite E3, !lookup_delete_is_Some, E8. intros (? & ? & [?|[?|H]]%(in_addrs Hinv)); [by destruct H..|done].
  - intros b. rewrite E9, E8. apply (in_bevs Hinv).
  - intros v. rewrite E5, E8. intros Hv. assert (is_Some (evs s1 !! v) ∧ v ∉ (env_events e lev).*1) as [Hl Hne].
    { assert (listener e ≠ NULL) as Hl%Z.eqb_neq.
      { intros E. pose proof (eo_null _ _ _ _ _ (inv_env_ok _ _ Hinv)) as (_ & _ & _ & Hn & _).
        by rewrite (ei_listeners Henv), E, lookup_singleton_eq in Hn. }
      rewrite Hl in Hv. simpl in Hv. rewrite !lookup_delete_is_Some in Hv. destruct Hv as (? & ? & ? & ? & ? & ?).
      split; [done|]. simpl. rewrite !elem_of_cons, elem_of_nil. intuition congruence. }
    destruct (in_evs Hinv v Hl) as [?|[?|Hx]]; [done|done|]. rewrite Hk2 in Hx. by apply not_elem_of_empty in Hx.
  - intros n. rewrite E7, lookup_delete_is_Some. intros [Hne Hn%(in_nodes Hinv)]. rewrite E8.
    apply elem_of_cons in Hn as [->|(p & -> & [c Hp]%(in_dom Hinv))%list_elem_of_fmap]; [done|]. by exists p, c.
Qed.
End callbacks.
