(* ===== verification/Start.v ===== *)
(** * The start of the program

    The start of the program in any world: whichever of its calls fails, from
    the second allocation on, [main] returns 0 and everything it had set up by
    then is released; and if it reaches the event loop, it does so in a state
    of the loop's invariant.  The invariant [half] describes an environment of
    which any part may still be missing. *)

From S2P Require Import Prelude DList ListSpec Structs World Util Context BufferPump SplicePump Pump Socks5 Listener Main Kept Inv.
Local Open Scope Z_scope.

(** The calls of the start that a new connection does not make. *)
Class Starts (EXT : Env) : Prop := {
  sa_calloc tr n m : ext tr (c_calloc n m) = true;
  sa_base_new tr : ext tr c_event_base_new = true;
  sa_strdup tr n : ext tr (c_strdup n) = true;
  sa_bind tr fd a n : ext tr (c_bind fd a n) = 0;
  sa_listen tr fd n : ext tr (c_listen fd n) = 0
}.

(** The fields of the environment that point to objects of their own, the
    events apart. *)
Definition env_parts (e : transocks_global_env) : Z * Z * Z * Z * Z :=
  (pump_method_name e, bind_addr e, relay_addr e, eventBaseLoop e, listener e).

(** An environment in the making: it exists with its addresses [A], its base
    and an empty list of clients; its listener, the name of the pump and each
    of the events, with its callback, are there or not; and there is nothing
    else. *)
Record half (A : sockaddr_storage * sockaddr_storage) (env : Z) (e : transocks_global_env) (lfd lev : Z) (s : state) : Prop := {
  ha_brk : 0 < brk s;
  ha_env : 0 < env;
  ha_envs : envs s = {[env := e]};
  ha_bases : bases s = {[eventBaseLoop e := tt]};
  ha_addrs : addrs s = <[relay_addr e := Some A.2]> {[bind_addr e := Some A.1]};
  ha_room : 0 < bind_addr e < relay_addr e ∧ relay_addr e < brk s;
  ha_listener : (listener e = NULL ∧ lev = NULL ∧ listeners s = ∅) ∨
    (listener e ≠ NULL ∧ listeners s = {[listener e := TransocksListener (Some lfd) (Some lev)]});
  ha_name : (pump_method_name e = NULL ∧ strs s = ∅) ∨
    (pump_method_name e ≠ NULL ∧ ∃ n, strs s = {[pump_method_name e := n]});
  ha_evs v : is_Some (evs s !! v) ↔ v ≠ NULL ∧ v ∈ lev :: signal_evs e;
  ha_cbs v f t : (v, f) ∈ env_events e lev → evs s !! v = Some t → ev_cb t = f ∧ ev_arg t = env;
  ha_apart : apart_list (lev :: signal_evs e);
  ha_old v : v ∈ lev :: signal_evs e → v < brk s;
  ha_new v : v ∈ lev :: signal_evs e → v ≠ NULL → relay_addr e < v;
  ha_list : dlist (nodes s) (clients_head env) [];
  ha_nodes n : is_Some (nodes s !! n) → n = clients_head env;
  ha_none : (clients s, bevs s, pump_heaps s) = (∅, ∅, (∅, ∅, ∅))
}.

(** The events of the environment are its signals' and its listener's. *)
Lemma env_events_in e lev v f : (v, f) ∈ env_events e lev → v ∈ lev :: signal_evs e.
Proof.
  unfold env_events, signal_evs. rewrite !elem_of_cons, elem_of_nil. intros H.
  destruct_or! H; try done; injection H as -> _; tauto.
Qed.

Lemma apart_distinct l : apart_list l → Forall (λ v, v ≠ NULL) l → NoDup l.
Proof.
  induction 1 as [|x l Hx _ IH]; inversion_clear 1; constructor; [|by apply IH].
  intros Hin. rewrite Forall_forall in Hx. by apply (Hx x) in Hin.
Qed.

Section half_lemmas.
Context (A : sockaddr_storage * sockaddr_storage).

Lemma half_did env e lfd lev s cs : half A env e lfd lev s → half A env e lfd lev (did cs s).
Proof. by intros []; split. Qed.

Lemma half_push env e lfd lev s i : half A env e lfd lev s → half A env e lfd lev (push i s).
Proof. by intros []; split. Qed.

(** The same objects. *)
Lemma half_same env e lfd lev s s' :
  half A env e lfd lev s → brk s' = brk s → envs s' = envs s → bases s' = bases s → addrs s' = addrs s →
  listeners s' = listeners s → strs s' = strs s → evs s' = evs s → nodes s' = nodes s → clients s' = clients s →
  bevs s' = bevs s → pump_heaps s' = pump_heaps s → half A env e lfd lev s'.
Proof. intros [] F1 F2 F3 F4 F5 F6 F7 F8 F9 F10 F11. split; rewrite ?F1, ?F2, ?F3, ?F4, ?F5, ?F6, ?F7, ?F8, ?F9, ?F10, ?F11; done. Qed.

Lemma half_null env e lfd lev s : half A env e lfd lev s → evs s !! NULL = None.
Proof. intros H. apply eq_None_not_Some. by intros [? _]%(ha_evs _ _ _ _ _ _ H). Qed.

(** The events change, but not which of them there are. *)
Lemma half_update env e lfd lev s v t t' :
  half A env e lfd lev s → evs s !! v = Some t → ev_cb t' = ev_cb t → ev_arg t' = ev_arg t →
  half A env e lfd lev (set_evs (<[v := t']> (evs s)) s).
Proof.
  intros [] Hv Hcb Harg. split; try done.
  - intros q. st_norm. rewrite lookup_insert_is_Some', <-ha_evs0. naive_solver.
  - intros q f t0 Hin. st_norm. rewrite lookup_insert. case_decide; [|by apply ha_cbs0]. intros [= <-]. subst.
    rewrite Hcb, Harg. by apply (ha_cbs0 q).
Qed.

(** The lengths of the addresses and the addresses themselves. *)
Lemma half_addrs env e lfd lev s e' a b :
  half A env e lfd lev s → env_parts e' = env_parts e → signal_evs e' = signal_evs e →
  half (a, b) env e' lfd lev (set_envs {[env := e']} (set_addrs (<[relay_addr e := Some b]> {[bind_addr e := Some a]}) s)).
Proof.
  intros [] [= E1 E2 E3 E4 E5] Es. pose proof Es as [= S1 S2 S3 S4].
  split; st_norm; rewrite ?Es, ?E1, ?E2, ?E3, ?E4, ?E5; eauto.
  intros v f t. unfold env_events. rewrite S1, S2, S3, S4. apply ha_cbs0.
Qed.

(** One more event, of a signal or of the listener. *)
Lemma half_event env e lfd lev s e' lev' ls l1 l2 t :
  half A env e lfd lev s → env_parts e' = env_parts e → lev :: signal_evs e = l1 ++ NULL :: l2 →
  lev' :: signal_evs e' = l1 ++ brk s :: l2 → ev_arg t = env →
  (∀ v f, (v, f) ∈ env_events e' lev' → (v, f) = (brk s, ev_cb t) ∨ (v, f) ∈ env_events e lev) →
  (listener e = NULL ∧ lev' = NULL ∧ ls = ∅) ∨
    (listener e ≠ NULL ∧ ls = {[listener e := TransocksListener (Some lfd) (Some lev')]}) →
  half A env e' lfd lev' (set_listeners ls (set_evs (<[brk s := t]> (evs s)) (set_envs {[env := e']} (set_brk (brk s + 1) s)))).
Proof.
  intros H [= E1 E2 E3 E4 E5] El El' Harg Hcbs Hl. pose proof H as [].
  assert (∀ v f, (v, f) ∈ env_events e lev → v < brk s) as Hold' by (intros v f Hv; by eapply ha_old0, env_events_in).
  rewrite El in *.
  assert (∀ v, v ∈ l1 ++ l2 → v < brk s) as Hold by (intros v Hv; apply ha_old0; set_solver).
  assert (∀ v, v ∈ l1 ++ brk s :: l2 → v = brk s ∨ v ∈ l1 ++ NULL :: l2) as Hin.
  { intros v. rewrite !elem_of_app, !elem_of_cons. tauto. }
  split; st_norm; rewrite ?E1, ?E2, ?E3, ?E4, ?E5, ?El'; try done.
  - lia.
  - lia.
  - intros v. rewrite lookup_insert_is_Some, ha_evs0, !elem_of_app, !elem_of_cons. split.
    + intros [<-|[Hne [Hv Hi]]]; [split; [unfold NULL; lia|auto]|naive_solver].
    + intros [Hv Hi]. destruct (decide (brk s = v)); naive_solver.
  - intros v f t0 [[= -> ->]|Hv]%Hcbs; [rewrite lookup_insert_eq; by intros [= <-]|].
    pose proof (Hold' _ _ Hv). rewrite lookup_insert_ne by lia. by apply ha_cbs0.
  - revert ha_apart0. clear -Hold ha_brk0. induction l1 as [|x l1 IH]; simpl; intros H; inversion_clear H as [|? ? Hx Hl]; constructor.
    + apply Forall_forall. intros y Hy ->. pose proof (Hold (brk s) Hy). lia.
    + done.
    + rewrite Forall_app, Forall_cons in *. destruct Hx as (? & ? & ?). split_and!; [done| |done].
      intros E. pose proof (Hold x ltac:(left)). lia.
    + apply IH; [|done]. intros v Hv. apply Hold. by right.
  - intros v [->|Hv]%Hin; [lia|]. apply ha_old0 in Hv. lia.
  - intros v [->|Hv]%Hin Hn; [lia|]. by apply ha_new0.
Qed.

(** ** The end of the program from there *)

Lemma half_env_ok env e lfd lev s : half A env e lfd lev s → wf s → env_ok s env e lfd lev.
Proof.
  intros H Hwf. pose proof H as [].
  assert (∀ v, v ∈ lev :: signal_evs e → handle_ok (evs s) v) as Hv.
  { intros v Hin. destruct (decide (v = NULL)) as [->|Hn]; [by left|]. right. by apply ha_evs0. }
  split.
  - by rewrite ha_envs0, lookup_singleton_eq.
  - split; [by apply wf_null_ok|]. destruct Hwf. split_and!; (eapply below_None; [eassumption|unfold NULL; lia]).
  - destruct ha_name0 as [[-> _]|[_ [n ->]]]; [by left|]. right. rewrite lookup_singleton_eq. eauto.
  - right. rewrite ha_addrs0, lookup_insert_eq. eauto.
  - right. rewrite ha_addrs0, lookup_insert_ne, lookup_singleton_eq by lia. eauto.
  - lia.
  - destruct ha_listener0 as [(-> & _ & _)|[_ Hl]]; [by left|]. right. rewrite Hl, lookup_singleton_eq. split; [done|].
    apply Hv. left.
  - apply Forall_forall. intros v Hin. apply Hv. by right.
  - done.
  - right. rewrite ha_bases0, lookup_singleton_eq. eauto.
Qed.

Lemma delete_signals_None (l : list Z) (m : gmap Z event) v : v ∈ l ∨ m !! v = None → foldl (flip delete) m l !! v = None.
Proof.
  revert m. induction l as [|x l IH]; simpl; intros m; [by intros [?%elem_of_nil|]|].
  intros H. apply IH. rewrite lookup_delete. case_decide as Hx; [by right|]. rewrite elem_of_cons in H. naive_solver.
Qed.

Lemma half_released env e lfd lev s s' :
  half A env e lfd lev s → wf s → env_released env e lfd lev s s' → nothing_live s' = true.
Proof.
  intros H Hwf (_ & E1 & E2 & E3 & E4 & E5 & E6 & E7 & E8 & E9 & E10). destruct H.
  injection ha_none0 as Hc Hb H1 H2 H3. unfold pump_heaps in E10. rewrite H1, H2, H3 in E10. injection E10 as H4 H5 H6.
  rewrite Hc in E8. rewrite Hb in E9. rewrite ha_envs0, delete_singleton_eq in E1. rewrite ha_bases0, delete_singleton_eq in E6.
  assert (strs s' = ∅) as Hs.
  { rewrite E2. destruct ha_name0 as [[_ ->]|[_ [n ->]]]; [apply delete_empty|apply delete_singleton_eq]. }
  assert (listeners s' = ∅) as Hl.
  { rewrite E4. destruct ha_listener0 as [(_ & _ & ->)|[_ ->]]; [apply delete_empty|apply delete_singleton_eq]. }
  assert (addrs s' = ∅) as Ha.
  { apply map_empty. intros q. rewrite E3, ha_addrs0, !lookup_delete, lookup_insert, lookup_singleton. repeat case_decide; done. }
  assert (nodes s' = ∅) as Hn.
  { apply map_empty. intros q. rewrite E7, lookup_delete. case_decide; [done|]. destruct (nodes s !! q) eqn:E; [|done].
    apply (mk_is_Some _ _), ha_nodes0 in E. done. }
  assert (evs s' = ∅) as Hv.
  { apply map_empty. intros q. rewrite E5. apply delete_signals_None.
    destruct (decide (q ∈ signal_evs e)) as [|Hq]; [by left|right].
    assert (evs s !! q = None ∨ q = lev ∧ q ≠ NULL) as [Hq'|[-> Hn']].
    { destruct (evs s !! q) eqn:E; [|auto]. apply (mk_is_Some _ _), ha_evs0 in E. rewrite elem_of_cons in E. naive_solver. }
    { destruct (_ =? _); [done|]. rewrite lookup_delete. by case_decide. }
    destruct ha_listener0 as [(_ & ? & _)|[->%Z.eqb_neq _]]; [done|]. apply lookup_delete_eq. }
  unfold nothing_live. by rewrite E1, E6, E8, E9, Hs, Hl, Ha, Hn, Hv, H4, H5, H6.
Qed.

(** A complete environment: the state in which the event loop starts. *)
Lemma half_inv env e lfd lev s r name :
  half A env e lfd lev s → wf s → listener e ≠ NULL → Forall (λ v, v ≠ NULL) (lev :: signal_evs e) →
  printable A.1 (bind_addr_len e) → strs s = {[pump_method_name e := name]} →
  pumpMethodImpl s = Some r → inv (idle_config r name) env e lfd lev [] s.
Proof.
  intros H Hwf Hl Hnn Hpr Hs Hi. pose proof H as []. injection ha_none0 as N1 N2 N3 N4 N5. rewrite Forall_forall in Hnn.
  assert (∀ v, v ∈ lev :: signal_evs e → v ∈ (env_events e lev).*1) as Hev.
  { intros v. unfold signal_evs, env_events. simpl. rewrite !elem_of_cons, elem_of_nil. tauto. }
  split; rewrite ?N1, ?N2; try done.
  - split; try done.
    + by destruct ha_listener0 as [[]|[_ ?]].
    + unfold pump_heaps. simpl. congruence.
    + exists A.1, (bind_addr_len e). rewrite ha_addrs0, lookup_insert_ne, lookup_singleton_eq by lia. done.
    + exists A.2. by rewrite ha_addrs0, lookup_insert_eq.
    + intros v f Hin. pose proof (env_events_in _ _ _ _ Hin) as Hv. destruct (proj2 (ha_evs0 v)) as [t Ht]; [auto|].
      exists t. split; [done|]. by apply (ha_cbs0 v).
    + assert (∀ v, v ∈ (env_events e lev).*1 → relay_addr e < v) as Hnew.
      { intros v ([x f] & -> & Hin%env_events_in)%list_elem_of_fmap. auto. }
      unfold env_handles. constructor; [rewrite elem_of_cons; intros [?|?%Hnew]; lia|].
      constructor; [intros ?%Hnew; lia|].
      pose proof (apart_distinct _ ha_apart0 (proj2 (Forall_forall _ _) Hnn)) as Hnd.
      eapply NoDup_Permutation_proper; [|exact Hnd]. unfold env_events, signal_evs. simpl. apply perm_skip, perm_swap.
  - intros p. rewrite lookup_empty. split; [by intros []|by intros ?%elem_of_nil].
  - intros n ->%ha_nodes0. left.
  - intros a. rewrite ha_addrs0, lookup_insert. case_decide; [auto|]. rewrite lookup_singleton. case_decide; [auto|by intros []].
  - intros b. rewrite lookup_empty. by intros [].
  - intros v [_ Hv]%ha_evs0. left. by apply Hev.
Qed.
End half_lemmas.

Section failures.
Context {EXT : Env}.
Implicit Types s : state.

Lemma wp_half_shutdown A env e lfd lev s :
  half A env e lfd lev s → wf s → wp (main_shutdown env) (λ r s', r = 0 ∧ nothing_live s' = true) s.
Proof.
  intros H Hwf. pose proof (half_env_ok _ _ _ _ _ _ H Hwf) as Hok. pose proof (eo_live _ _ _ _ _ Hok) as He.
  pose proof (ha_list _ _ _ _ _ _ H) as Hd.
  unfold main_shutdown. apply wp_bind. apply (wp_mono _ (λ _ t, t = s)).
  - unfold transocks_drop_all_clients, list_fuel. st_steps.
    eapply wp_mono; [apply (wp_list_for_each_entry_safe nodes _ _ _ [] (λ _ rest t, t = s ∧ rest = []))|by intros ? ? [? _]].
    + apply Hd.
    + intros vis rest t [-> ->]. apply (dlist_rest _ _ [] _ Hd).
    + by intros [|? vis] x rest t.
    + done.
    + done.
    + simpl. lia.
  - intros [] t ->. eapply wp_shutdown_rest; [exact Hok|rewrite (ha_bases _ _ _ _ _ _ H), lookup_singleton_eq; eauto|].
    intros cs s' Hr. split; [done|]. eapply half_released; [by apply half_did|by destruct Hwf; split|exact Hr].
Qed.
(** ** The steps of the start, whatever they reply *)

(** Some call of the start failed. *)
Abbreviation start_failed := (¬ (Succeeds EXT ∧ Starts EXT)).

(** A computation that only makes calls, and returns 0 if they succeed. *)
Definition tries (m : C Z) : Prop :=
  ∀ s (Q : Z → state → Prop), (∀ r cs, (r ≠ 0 → start_failed) → Q r (did cs s)) → wp m Q s.

Lemma tries_setsockopt fd l o v : tries (setsockopt fd l o v).
Proof.
  intros s Q HQ. unfold setsockopt. apply wp_sys. apply (HQ _ [_]). intros Hr [Hs _]. by rewrite su_setsockopt in Hr.
Qed.

Lemma tries_nonblocking fd : 0 ≤ fd → tries (setnonblocking fd true).
Proof. intros Hfd s Q HQ. apply wp_setnonblocking_any; [done|]. intros r cs Hr. apply HQ. naive_solver. Qed.

Lemma tries_ipv6only (b : bool) fd : 0 ≤ fd → tries (if b then apply_ipv6only fd 0 else mret 0).
Proof.
  intros Hfd s Q HQ. destruct b; [|apply wp_ret; specialize (HQ 0 []); rewrite did_nil in HQ; by apply HQ].
  unfold apply_ipv6only. rewrite (proj2 (Z.ltb_ge fd 0)) by done. apply wp_bind, tries_setsockopt. intros r cs Hr.
  destruct (Z.ltb_spec r 0); apply wp_ret, HQ; [|done]. intros _. apply Hr. lia.
Qed.

Section steps.
Context (A : sockaddr_storage * sockaddr_storage) (env : Z).

Lemma wp_half_tries {B} (m : C Z) (K : Z → C B) e lfd lev s (Q : B → state → Prop) :
  tries m → half A env e lfd lev s → (∀ r s', (r ≠ 0 → start_failed) → half A env e lfd lev s' → wp (K r) Q s') →
  wp (m ≫= K) Q s.
Proof. intros Hm H HQ. apply wp_bind, Hm. intros r cs Hr. by apply HQ, half_did. Qed.

(** A signal's event is created or not, and its field is set. *)
Lemma wp_half_signal {B} (set : Z → transocks_global_env → transocks_global_env) e lfd lev base l1 l2 sig cb (K : Z → C B)
    s (Q : B → state → Prop) :
  half A env e lfd lev s → eventBaseLoop e = base → set NULL e = e → (∀ v, env_parts (set v e) = env_parts e) →
  (∀ v, lev :: signal_evs (set v e) = l1 ++ v :: l2) →
  (∀ w v f, (v, f) ∈ env_events (set w e) lev → (v, f) = (w, cb) ∨ (v, f) ∈ env_events e lev) →
  (∀ v s', (v = NULL → start_failed) → half A env (set v e) lfd lev s' → wp (K v) Q s') →
  wp (v ← evsignal_new base sig cb env; modify env (set v) ;; K v) Q s.
Proof.
  intros H <- Hnull Hparts Hev Hcbs HK. pose proof H as [].
  assert (envs s !! env = Some e) as He by (by rewrite ha_envs0, lookup_singleton_eq).
  assert (bases s !! eventBaseLoop e = Some tt) as Hb by (by rewrite ha_bases0, lookup_singleton_eq).
  unfold evsignal_new, event_new. st_steps. destruct (ext _ _) eqn:En; st_steps.
  - apply HK; [unfold NULL; lia|]. eapply half_same; [eapply (half_event A env e lfd lev s (set (brk s) e) lev (listeners s) l1 l2
      (Event sig (Z.lor EV_SIGNAL EV_PERSIST) cb env false));
      [done|done|by rewrite <-(Hev NULL), Hnull|apply Hev|done|apply (Hcbs (brk s))|done]|..]; st_norm; try done.
    by rewrite ha_envs0, insert_singleton_eq.
  - apply HK; [intros _ [Hs _]; by rewrite su_event_new in En|]. rewrite Hnull.
    eapply half_same; [exact H|..]; st_norm; try done. by rewrite ha_envs0, insert_singleton_eq.
Qed.

(** An event is added or not. *)
Lemma wp_half_add {B} e lfd lev v o (K : Z → C B) s (Q : B → state → Prop) :
  half A env e lfd lev s → v ≠ NULL → v ∈ lev :: signal_evs e →
  (∀ r s', (r ≠ 0 → start_failed) → half A env e lfd lev s' → wp (K r) Q s') → wp (r ← event_add v o; K r) Q s.
Proof.
  intros H Hn Hin HK. destruct (proj2 (ha_evs _ _ _ _ _ _ H v)) as [t Ht]; [done|]. unfold event_add. st_steps.
  apply HK; [intros Hr [Hs _]; by rewrite su_event_add in Hr|].
  eapply (half_update _ _ _ _ _ (push (ICall (c_event_add v o)) s)); [by apply half_push|exact Ht|by case_match..].
Qed.

Ltac same_events := intros w v f; unfold env_events; simpl; rewrite !elem_of_cons, elem_of_nil; tauto.

Lemma wp_half_signal_init e lfd s (Q : Z → state → Prop) :
  half A env e lfd NULL s → signal_evs e = [NULL; NULL; NULL; NULL] →
  (∀ r e' s', half A env e' lfd NULL s' → env_parts e' = env_parts e → (r ≠ 0 → start_failed) →
     (r = 0 → Forall (λ v, v ≠ NULL) (signal_evs e')) → Q r s') → wp (signal_init env) Q s.
Proof.
  intros H Hs HQ. pose proof H as []. destruct e as [nm ba ra bl rl base lp e1 e2 e3 e4].
  injection Hs as -> -> -> ->.
  assert (envs s !! env = Some (TransocksGlobalEnv nm ba ra bl rl base lp NULL NULL NULL NULL)) as He
    by (by rewrite ha_envs0, lookup_singleton_eq).
  unfold signal_init. apply wp_bind. eapply wp_fld; [exact He|].
  eapply (wp_half_signal set_sigterm_ev _ _ _ _ [NULL; NULL] [NULL; NULL]); [exact H|done|done|done|done|same_events|]. intros v1 s1 F1 H1.
  eapply (wp_half_signal set_sigint_ev _ _ _ _ [NULL] [v1; NULL; NULL]); [exact H1|done|done|done|done|same_events|]. intros v2 s2 F2 H2.
  eapply (wp_half_signal set_sighup_ev _ _ _ _ [NULL; v2; v1] [NULL]); [exact H2|done|done|done|done|same_events|]. intros v3 s3 F3 H3.
  eapply (wp_half_signal set_sigusr1_ev _ _ _ _ [NULL; v2; v1; v3] []); [exact H3|done|done|done|done|same_events|]. intros v4 s4 F4 H4.
  clear H H1 H2 H3. destruct (_ || _) eqn:En.
  { apply wp_ret. eapply HQ; [done|done| |done]. intros _. rewrite !orb_true_iff, !Z.eqb_eq in En. tauto. }
  rewrite !orb_false_iff, !Z.eqb_neq in En. destruct En as [[[N1 N2] N3] N4]. clear F1 F2 F3 F4.
  assert (∀ v, v ∈ [v1; v2; v3; v4] → v ∈ NULL :: signal_evs (set_sigusr1_ev v4 (set_sighup_ev v3 (set_sigint_ev v2
    (set_sigterm_ev v1 (TransocksGlobalEnv nm ba ra bl rl base lp NULL NULL NULL NULL)))))) as Hin.
  { intros v. unfold signal_evs. simpl. rewrite !elem_of_cons. tauto. }
  unfold evsignal_add.
  eapply wp_half_add; [exact H4|done|apply Hin; set_solver|]. intros r1 s5 F1 H5. destruct (Z.eqb_spec r1 0); cbn [negb]; [|apply wp_ret; eapply HQ; first [eassumption|done|by auto]].
  eapply wp_half_add; [exact H5|done|apply Hin; set_solver|]. intros r2 s6 F2 H6. destruct (Z.eqb_spec r2 0); cbn [negb]; [|apply wp_ret; eapply HQ; first [eassumption|done|by auto]].
  eapply wp_half_add; [exact H6|done|apply Hin; set_solver|]. intros r3 s7 F3 H7. destruct (Z.eqb_spec r3 0); cbn [negb]; [|apply wp_ret; eapply HQ; first [eassumption|done|by auto]].
  eapply wp_half_add; [exact H7|done|apply Hin; set_solver|]. intros r4 s8 F4 H8. destruct (Z.eqb_spec r4 0); cbn [negb]; [|apply wp_ret; eapply HQ; first [eassumption|done|by auto]].
  apply wp_ret. eapply HQ; [done|done|done|]. intros _. by repeat constructor.
Qed.

(** The release of the listener. *)
Lemma wp_half_listener_deinit {B} e lfd lev (K : unit → C B) s (Q : B → state → Prop) :
  half A env e lfd lev s → (∀ s', half A env (set_listener NULL e) lfd NULL s' → wp (K tt) Q s') →
  wp (listener_deinit env ≫= K) Q s.
Proof.
  intros H HQ. pose proof H as []. apply wp_bind. eapply (wp_listener_deinit _ _ e lfd lev).
  - unfold NULL. lia.
  - by rewrite ha_envs0, lookup_singleton_eq.
  - destruct ha_listener0 as [(_ & _ & ->)|[Hn ->]]; [done|by rewrite lookup_singleton_ne].
  - by eapply half_null.
  - unfold listener_ok. destruct ha_listener0 as [(-> & _ & _)|[Hn ->]]; [by left|right]. rewrite lookup_singleton_eq. split; [done|].
    destruct (decide (lev = NULL)) as [->|Hv]; [by left|right]. apply ha_evs0. split; [done|left].
  - apply HQ. unfold listener_released. apply half_did. inversion_clear ha_apart0 as [|? ? Hap1 Hap2].
    split; st_norm; try done.
    + by rewrite ha_envs0, insert_singleton_eq.
    + left. split_and!; [done|done|]. destruct ha_listener0 as [(_ & _ & ->)|[_ ->]]; [apply delete_empty|apply delete_singleton_eq].
    + intros v. change (signal_evs (set_listener NULL e)) with (signal_evs e). rewrite Forall_forall in Hap1.
      assert (is_Some ((if listener e =? NULL then evs s else delete lev (evs s)) !! v) ↔ v ≠ lev ∧ is_Some (evs s !! v)) as ->.
      { destruct ha_listener0 as [(-> & -> & _)|[->%Z.eqb_neq _]]; [|by rewrite lookup_delete_is_Some; naive_solver].
        simpl. split; [|tauto]. intros Hs. split; [|done]. by apply ha_evs0 in Hs as [? _]. }
      rewrite ha_evs0, !elem_of_cons. naive_solver.
    + intros v f t Hin Ht. assert (v ≠ NULL ∧ evs s !! v = Some t) as [Hn Ht'].
      { assert (evs s !! v = Some t) as Ht'; [|split; [by eapply ha_evs0|done]].
        destruct (listener e =? NULL); [done|]. by apply lookup_delete_Some in Ht as [_ ?]. }
      apply (ha_cbs0 v); [|done]. revert Hin. unfold env_events. simpl. rewrite !elem_of_cons. intros [[= -> _]|Hin]; [done|auto].
    + constructor; [by apply Forall_forall|done].
    + intros v. rewrite elem_of_cons. intros [->|Hv]; [done|]. apply ha_old0. by right.
    + intros v. rewrite elem_of_cons. intros [->|Hv]; [done|]. apply ha_new0. by right.
Qed.

(** The listener: on every failure nothing of it is left. *)
Lemma wp_half_listener_event e lfd fd s (Q : Z → state → Prop) :
  half A env e lfd NULL s → listener e = NULL →
  (∀ n t, start_failed → half A env e n NULL t → wp (TRANSOCKS_CLOSE fd ;; mret (-1)) Q t) →
  (∀ e' lfd' lev s', half A env e' lfd' lev s' → set_listener NULL e' = e → listener e' ≠ NULL → lev ≠ NULL → Q 0 s') →
  wp (lp ← tr_malloc (TransocksListener None None);
      modify env (set_listener lp) ;;
      if lp =? NULL then listener_deinit env ;; TRANSOCKS_CLOSE fd ;; mret (-1) else
      modify lp (set_listener_fd (Some fd)) ;;
      base ← fld env eventBaseLoop;
      ev ← event_new base fd (Z.lor EV_READ EV_PERSIST) fn_listener_cb env;
      modify lp (set_listener_ev (Some ev)) ;;
      if ev =? NULL then listener_deinit env ;; TRANSOCKS_CLOSE fd ;; mret (-1) else
      r ← event_add ev None;
      if negb (r =? 0) then listener_deinit env ;; TRANSOCKS_CLOSE fd ;; mret (-1) else
      mret 0) Q s.
Proof.
  intros H Hl Hclose HQ. pose proof H as [].
  assert (envs s !! env = Some e) as He by (by rewrite ha_envs0, lookup_singleton_eq).
  assert (set_listener NULL e = e) as Hself by (destruct e; simpl in *; by subst).
  assert (bases s !! eventBaseLoop e = Some tt) as Hb by (by rewrite ha_bases0, lookup_singleton_eq).
  unfold tr_malloc. st_steps. destruct (ext _ _) eqn:Em; st_steps.
  2:{ rewrite Hself. eapply wp_half_listener_deinit; [eapply half_same; [exact H|..]; st_norm; try done|].
      - by rewrite ha_envs0, insert_singleton_eq.
      - intros s' Hs'. rewrite Hself in Hs'. eapply Hclose, Hs'. intros [Hs _]. by rewrite su_malloc in Em. }
  destruct ha_listener0 as [(_ & _ & Hls)|[? _]]; [|done]. not_null. unfold event_new. st_steps.
  set (lp := brk s) in *. set (e' := set_listener lp e).
  assert (half A env e' fd NULL (set_listeners {[lp := TransocksListener (Some fd) (Some NULL)]}
    (set_envs {[env := e']} (set_brk (lp + sizeof_transocks_listener) s)))) as H0.
  { split; st_norm; try done; [addr_lia|unfold e'; simpl; addr_lia|..].
    - right. split; [unfold e'; simpl; addr_lia|done].
    - intros v Hv. apply ha_old0 in Hv. addr_lia. }
  assert (∀ lev t, start_failed → half A env e' fd lev t → wp (listener_deinit env ;; TRANSOCKS_CLOSE fd ;; mret (-1)) Q t) as Hdeinit.
  { intros lev t Hf Ht. eapply wp_half_listener_deinit; [exact Ht|]. intros t' Ht'.
    change (set_listener NULL e') with (set_listener NULL e) in Ht'. rewrite Hself in Ht'. by eapply Hclose. }
  destruct (ext _ (c_event_new _ _ _ _ _)) eqn:En; st_steps.
  - set (ev := lp + sizeof_transocks_listener). not_null.
    eapply (wp_half_add e' fd ev); [|unfold ev; addr_lia|left|].
    + eapply half_same; [eapply (half_event _ _ _ _ _ _ e' ev {[lp := TransocksListener (Some fd) (Some ev)]} [] (signal_evs e')
        (Event fd (Z.lor EV_READ EV_PERSIST) fn_listener_cb env false));
        [exact H0|done|done|done|done| |right; split; [unfold e'; simpl; addr_lia|done]]|..]; st_norm; try done.
      * intros v f. unfold env_events. simpl. rewrite !elem_of_cons. tauto.
      * by rewrite ha_envs0, insert_singleton_eq.
      * by rewrite Hls, !insert_insert_eq.
    + intros r t Hr Ht. destruct (Z.eqb_spec r 0); cbn [negb]; [|by eapply Hdeinit; [auto|]]. apply wp_ret.
      eapply HQ; [exact Ht|done|unfold e'; simpl; addr_lia|unfold ev; addr_lia].
  - eapply Hdeinit, half_same; [intros [Hs _]; by rewrite su_event_new in En|exact H0|..]; st_norm; try done.
    + by rewrite ha_envs0, insert_singleton_eq.
    + by rewrite Hls, !insert_insert_eq.
Qed.

Ltac one_call H Hclose tac :=
  eapply wp_half_tries; [tac|exact H|]; clear H;
  let r := fresh "r" in let Hr := fresh "Hr" in intros r ? Hr H; destruct (Z.eqb_spec r 0); cbn [negb]; [clear Hr|by eapply Hclose; [auto|]].

Lemma tries_bind fd a n : tries (sys (c_bind fd a n)).
Proof. intros s Q HQ. apply wp_sys. apply (HQ _ [_]). intros Hr [_ Hs]. by rewrite sa_bind in Hr. Qed.

Lemma tries_listen fd n : tries (sys (c_listen fd n)).
Proof. intros s Q HQ. apply wp_sys. apply (HQ _ [_]). intros Hr [_ Hs]. by rewrite sa_listen in Hr. Qed.

Lemma wp_half_listener_init e lfd s (Q : Z → state → Prop) :
  half A env e lfd NULL s → listener e = NULL →
  (∀ r e' lfd' lev s', half A env e' lfd' lev s' → set_listener NULL e' = e → (r ≠ 0 → start_failed) →
     (r = 0 → listener e' ≠ NULL ∧ lev ≠ NULL) → Q r s') → wp (listener_init env) Q s.
Proof.
  intros H Hl HQ. pose proof (ha_addrs _ _ _ _ _ _ H) as Ea. pose proof (ha_room _ _ _ _ _ _ H) as Hro.
  assert (envs s !! env = Some e) as He by (by rewrite (ha_envs _ _ _ _ _ _ H), lookup_singleton_eq).
  assert (addrs s !! bind_addr e = Some (Some A.1)) as Ha by (rewrite Ea, lookup_insert_ne, lookup_singleton_eq by lia; done).
  assert (set_listener NULL e = e) as Hself by (destruct e; simpl in *; by subst).
  unfold listener_init. st_steps. set (fd := ext _ _). destruct (Z.ltb_spec fd 0) as [Hlt|Hfd].
  { apply wp_ret. eapply HQ; [by apply half_push|done| |done]. intros _ [Hs _]. pose proof (su_socket (trace s) (ss_family A.1) SOCK_STREAM 0). lia. }
  assert (∀ n t, start_failed → half A env e n NULL t → wp (TRANSOCKS_CLOSE fd ;; mret (-1)) Q t) as Hclose.
  { intros n t Hf Ht. apply wp_bind, wp_close_fd; [done|]. apply wp_ret. by eapply HQ; [by apply half_did|..]. }
  apply (half_push _ _ _ _ _ _ (ICall (c_socket (ss_family A.1) SOCK_STREAM 0))) in H. clear He Ha Ea.
  one_call H Hclose ltac:(apply tries_setsockopt). one_call H Hclose ltac:(apply tries_setsockopt).
  one_call H Hclose ltac:(by apply tries_nonblocking). one_call H Hclose ltac:(by apply tries_ipv6only).
  apply wp_bind. eapply wp_fld; [change (hget (T:=transocks_global_env)) with envs; by rewrite (ha_envs _ _ _ _ _ _ H), lookup_singleton_eq|].
  one_call H Hclose ltac:(apply tries_bind). one_call H Hclose ltac:(apply tries_listen).
  eapply wp_half_listener_event; [exact H|done|done|]. intros e' lfd' lev t H' E1 E2 E3. by eapply HQ.
Qed.
End steps.

(** The environment is created, or nothing is left. *)
Lemma wp_half_env_new s (Q : Z → state → Prop) :
  fresh s → ext (trace s) (c_calloc 1 sizeof_transocks_global_env) = true →
  (∀ s', start_failed → nothing_live s' = true → Q NULL s') →
  (∀ A e s', half A (brk s) e (-1) NULL s' → signal_evs e = [NULL; NULL; NULL; NULL] → listener e = NULL →
     pump_method_name e = NULL → Q (brk s) s') →
  wp transocks_global_env_new Q s.
Proof.
  intros [Hwf F1 F2 F3 F4 F5 F6 F7 F8 F9 F10 _] E1 HN HQ. pose proof (wf_brk _ Hwf) as Hb. injection F3 as P1 P2 P3.
  unfold transocks_global_env_new, tr_calloc, event_base_new. st_steps. rewrite E1. st_steps. not_null. st_steps.
  unfold TRANSOCKS_FREE, TRANSOCKS_FREE_at, event_base_free, tr_free, release.
  assert (∀ tr n m, ext tr (c_calloc n m) = false → start_failed) as Hca by (intros tr n m E [_ Hs]; by rewrite sa_calloc in E).
  destruct (ext (_ :: trace s) _) eqn:E2; st_steps; destruct (ext (_ :: _ :: trace s) _) eqn:E3; st_steps; not_null; st_steps.
  1:{ destruct (ext _ c_event_base_new) eqn:E4; st_steps; not_null; st_steps.
      - eapply wp_mono; [apply wp_INIT_LIST_HEAD; simplify_map_eq; eauto|]. intros [] h ->. st_steps.
        set (ba := brk s + sizeof_transocks_global_env). set (ra := ba + sizeof_sockaddr_storage).
        apply (HQ (replicate 128 0, replicate 128 0) (new_env ba ra (ra + sizeof_sockaddr_storage))); [|done..].
        split; st_norm; rewrite ?F1, ?F2, ?F4, ?F5, ?F6, ?F7, ?F8, ?F9, ?F10; try done.
        + subst ra ba. addr_lia.
        + by rewrite !insert_insert_eq.
        + subst ra ba. unfold new_env. simpl. addr_lia.
        + by left.
        + by left.
        + intros v. unfold signal_evs, new_env. simpl. rewrite lookup_empty, !elem_of_cons, elem_of_nil. split; [by intros []|naive_solver].
        + repeat constructor; done.
        + intros v. unfold signal_evs, new_env. simpl. rewrite !elem_of_cons, elem_of_nil. subst ra ba. intros Hv.
          assert (v = NULL) as -> by naive_solver. addr_lia.
        + intros v. unfold signal_evs, new_env. simpl. rewrite !elem_of_cons, elem_of_nil. intros Hv Hn. naive_solver.
        + apply dlist_init. simplify_map_eq. eauto.
        + intros n. rewrite is_Some_upd_prev, is_Some_upd_next, lookup_insert_is_Some, lookup_empty. by intros [?|[_ []]].
        + unfold pump_heaps. st_norm. by rewrite P1, P2, P3.
      - repeat (st_steps; not_null). apply HN; [intros [_ Hs]; by rewrite sa_base_new in E4|]. unfold nothing_live. st_norm.
        rewrite F1, F2, F4, F5, F6, F7, F8, F9, F10, P1, P2, P3.
        rewrite !insert_insert_eq, ?delete_insert_id, ?delete2_insert2 by done. done. }
  all: repeat (st_steps; not_null); (apply HN; [by eapply Hca|]); unfold nothing_live; st_norm.
  all: rewrite F1, F2, F4, F5, F6, F7, F8, F9, F10, P1, P2, P3.
  all: rewrite !insert_insert_eq, ?delete_insert_id by done; done.
Qed.

(** The name of the pump and its selection. *)
Lemma wp_half_name A env e lfd lev s pump (Q : Z * bool → state → Prop) :
  half A env e lfd lev s → pump_method_name e = NULL →
  (∀ n b s', half A env (set_pump_method_name n e) lfd lev s' →
     (b = true → strs s' = {[n := pump]}) →
     (∀ r, find_pump pump = Some r → if b then pumpMethodImpl s' = Some r else start_failed) →
     Q (env, b) s') →
  wp (name ← strdup pump;
      modify env (set_pump_method_name name) ;;
      if name =? NULL then mret (env, false) else
      r ← transocks_pump_init env;
      if negb (r =? 0) then mret (env, false) else mret (env, true)) Q s.
Proof.
  intros H Hn HQ. pose proof H as [].
  assert (envs s !! env = Some e) as He by (by rewrite ha_envs0, lookup_singleton_eq).
  unfold strdup. st_steps. destruct (ext _ _) eqn:Ed; st_steps.
  2:{ apply wp_ret. apply (HQ NULL); [|done|intros _ _ [_ Hs]; by rewrite sa_strdup in Ed].
      replace (set_pump_method_name NULL e) with e by (by destruct e; simpl in *; subst).
      eapply half_same; [exact H|..]; st_norm; try done. by rewrite ha_envs0, insert_singleton_eq. }
  not_null. set (e' := set_pump_method_name (brk s) e).
  assert (half A env e' lfd lev (set_strs {[brk s := pump]} (set_envs {[env := e']} (set_brk (brk s + 1) s)))) as H'.
  { split; st_norm; try done; [lia|unfold e'; simpl; lia|right; split; [unfold e'; simpl; addr_lia|by exists pump]|]. intros v Hv%ha_old0. lia. }
  destruct ha_name0 as [[_ Hs]|[? _]]; [|done]. unfold transocks_pump_init. st_steps.
  set (t := set_envs _ _). assert (half A env e' lfd lev t) as Ht.
  { eapply half_same; [exact H'|..]; unfold t; st_norm; try done; [by rewrite ha_envs0, insert_singleton_eq|by rewrite Hs]. }
  assert (∀ o u, half A env e' lfd lev u → strs u = {[brk s := pump]} →
    (∀ r, find_pump pump = Some r → o = Some r ∧ pumpMethodImpl u = o) → wp (match o with
    | Some r => if is_null (start_pump_fn (pump_of r)) then mret (-1) else if is_null (free_pump_fn (pump_of r)) then mret (-1)
                else if is_null (dump_info_fn (pump_of r)) then mret (-1) else mret 0
    | None => mret (-1) end) (λ a u', wp (if negb (a =? 0) then mret (env, false) else mret (env, true)) Q u') u) as Hfin.
  { intros o u Hu Hsu Ho. repeat case_match; apply wp_ret; simpl; apply wp_ret; (eapply HQ; [exact Hu|done|]);
      intros r0 Hp; destruct (Ho r0 Hp) as [Eo Ei]; simplify_eq; by destruct r0. }
  assert (strs t = {[brk s := pump]}) as Hst by (unfold t; st_norm; by rewrite Hs).
  destruct (find_pump pump) as [r|] eqn:Ef; st_steps.
  - apply (Hfin (Some r)); [by destruct Ht; split|done|]. by intros r0 [= <-].
  - by apply (Hfin (pumpMethodImpl s)).
Qed.

(** ** The start of [main] *)

Lemma wp_half_main_start s lss sss llen slen pump :
  fresh s → ext (trace s) (c_calloc 1 sizeof_transocks_global_env) = true →
  wp (main_start lss sss llen slen pump) (λ r s', (r = (NULL, false) ∧ nothing_live s' = true ∧ start_failed) ∨
    (r.1 ≠ NULL ∧ ∃ A e lfd lev, half A r.1 e lfd lev s' ∧
       (∀ impl, find_pump pump = Some impl →
          if r.2 then printable lss llen → wf s' → inv (idle_config impl pump) r.1 e lfd lev [] s' else start_failed))) s.
Proof.
  intros Hfr Hc. pose proof (wf_brk _ (fr_wf _ Hfr)) as Hb. unfold main_start.
  apply wp_bind, wp_half_env_new; [done|done|by intros s' Hf Hs'; left|].
  intros A e s1 H1 Hsig Hlis Hnm. not_null. set (env := brk s) in *. assert (env ≠ NULL) as Hnz by (unfold NULL; lia).
  apply wp_bind. eapply wp_half_signal_init; [exact H1|done|]. intros r e2 s2 H2 [= P1 P2 P3 P4 P5] F2 N2.
  destruct (Z.eqb_spec r 0) as [Hr|Hr]; cbn [negb]; [|apply wp_ret; right; split; [done|exists A, e2, (-1), NULL; split; [done|by simpl; auto]]].
  pose proof (ha_envs _ _ _ _ _ _ H2) as Hen. pose proof (ha_addrs _ _ _ _ _ _ H2) as Ea. pose proof (ha_room _ _ _ _ _ _ H2) as Hro.
  assert (envs s2 !! env = Some e2) as He by (by rewrite Hen, lookup_singleton_eq).
  assert (addrs s2 !! bind_addr e2 = Some (Some A.1)) as Hba by (rewrite Ea, lookup_insert_ne, lookup_singleton_eq by lia; done).
  assert (addrs s2 !! relay_addr e2 = Some (Some A.2)) as Hra by (by rewrite Ea, lookup_insert_eq).
  st_steps. set (e3 := set_relay_addr_len slen (set_bind_addr_len llen e2)).
  eapply (wp_half_listener_init (lss, sss)).
  - eapply half_same; [eapply (half_addrs _ _ _ _ _ _ e3 lss sss); [exact H2|done|done]|..]; st_norm; try done.
    + by rewrite Hen, !insert_insert_eq, insert_singleton_eq.
    + rewrite Ea. apply map_eq. intros q. rewrite !lookup_insert, !lookup_singleton. repeat case_decide; congruence.
  - change (listener e3) with (listener e2). congruence.
  - intros r' e4 lfd lev s4 H4 E4 F4 N4.
    destruct (Z.eqb_spec r' 0) as [Hr'|Hr']; cbn [negb]; [|apply wp_ret; right; split; [done|exists (lss, sss), e4, lfd, lev; split; [done|by simpl; auto]]].
    assert (pump_method_name e4 = NULL ∧ signal_evs e4 = signal_evs e2 ∧ bind_addr_len e4 = llen) as (Hn4 & Hs4 & Hl4).
    { change (pump_method_name (set_listener NULL e4) = NULL ∧ signal_evs (set_listener NULL e4) = signal_evs e2 ∧
        bind_addr_len (set_listener NULL e4) = llen). rewrite E4. split_and!; [|done..].
      change (pump_method_name e3) with (pump_method_name e2). congruence. }
    eapply wp_half_name; [exact H4|done|]. intros n b s5 H5 Hst Hi. right. split; [done|].
    exists (lss, sss), (set_pump_method_name n e4), lfd, lev. split; [done|]. intros impl Hp. specialize (Hi impl Hp).
    destruct b; [|done]. intros Hpr Hwf. destruct (N4 Hr') as [Nl Nv].
    eapply half_inv; [exact H5|done|done| |by rewrite <-Hl4 in Hpr|by rewrite (Hst eq_refl)|done].
    change (signal_evs (set_pump_method_name n e4)) with (signal_evs e4). rewrite Hs4. constructor; [done|auto].
Qed.

(** The program from its start: it returns with everything released, whatever
    the loop does in between, as long as the loop keeps what the end needs. *)
Lemma main_run_ends s s1 env (ok : bool) sched lss sss llen slen pump (P : state → Prop) :
  main_start lss sss llen slen pump s = Ok (env, ok) s1 →
  (env = NULL ∧ ok = false ∧ P s1) ∨
    (env ≠ NULL ∧ wp ((if ok then base ← fld env eventBaseLoop; event_base_dispatch base sched ;; mret tt else mret tt) ;; main_shutdown env)
                    (λ r s', r = 0 ∧ P s') s1) →
  ∃ s', main_run sched lss sss llen slen pump s = Ok 0 s' ∧ P s'.
Proof.
  intros Hrun H. unfold main_run. rewrite (bind_Ok _ _ _ _ _ Hrun). destruct H as [(-> & -> & Hl)|[Hnz%Z.eqb_neq Hwp]]; [by exists s1|].
  rewrite Hnz. apply wp_run in Hwp as (r & s' & E & -> & Hl). by exists s'.
Qed.

(** C33 Start-up, whatever fails: in every world where the first allocation
    succeeds, for every pump name and all addresses, the start of the program
    returns, without a fault; and if it could not reach the event loop, or the
    loop ends at once, [main] returns 0 with everything released: the
    environment and its addresses, the signal events that could be created,
    the listener with its event, the event base and the name of the pump. *)
Theorem start_failure_releases s lss sss llen slen pump :
  fresh s → ext (trace s) (c_calloc 1 sizeof_transocks_global_env) = true →
  ∃ env ok s1, main_start lss sss llen slen pump s = Ok (env, ok) s1 ∧
    ∀ sched, ok = false ∨ sched = [] →
      ∃ s', main_run sched lss sss llen slen pump s = Ok 0 s' ∧ nothing_live s' = true.
Proof.
  intros Hfr Hc. pose proof (wp_half_main_start s lss sss llen slen pump Hfr Hc) as Hwp.
  apply (wp_keeps grows) in Hwp; [|apply keeps_main_start; try apply _; apply grows_set_pump].
  apply wp_run in Hwp as ([env ok] & s1 & Hrun & Hs1 & Hgr). exists env, ok, s1. split; [done|]. intros sched Hok.
  eapply main_run_ends; [exact Hrun|]. destruct Hs1 as [([= -> ->] & Hlive & _)|(Hnz & A & e & lfd & lev & H & _)]; [by left|].
  right. split; [done|]. simpl in Hnz, H. pose proof (gr_wf _ _ Hgr (fr_wf _ Hfr)) as Hwf.
  pose proof (eo_live _ _ _ _ _ (half_env_ok _ _ _ _ _ _ H Hwf)) as He.
  assert (bases s1 !! eventBaseLoop e = Some tt) as Hb by (by rewrite (ha_bases _ _ _ _ _ _ H), lookup_singleton_eq).
  destruct ok; [destruct Hok as [| ->]; [done|]|st_steps; by eapply wp_half_shutdown].
  unfold event_base_dispatch. st_steps. eapply (wp_half_shutdown A env e lfd lev); [by apply half_push|by destruct Hwf].
Qed.
End failures.

(** ** A start that fails: the address is in use *)

Lemma fresh_state0 : fresh state0.
Proof. split; try done. apply wf_state0. Qed.

(** The address the command line of the session gives, twice. *)
Definition ex_ss : sockaddr_storage := [2; 0; 31; 144; 10; 0; 0; 1] ++ replicate 120 0.

Definition in_use : Env := λ _ c, match c with c_bind _ _ _ => -1 | c => quiet_reply c end.

Lemma start_failure_releases_witness :
  (∃ s1, main_start (EXT:=in_use) ex_ss ex_ss 16 16 PUMPMETHOD_SPLICE state0 = Ok (4096, false) s1) ∧
  ∃ s', main_run (EXT:=in_use) ex_sched ex_ss ex_ss 16 16 PUMPMETHOD_SPLICE state0 = Ok 0 s' ∧ nothing_live s' = true.
Proof.
  destruct (start_failure_releases (EXT:=in_use) state0 ex_ss ex_ss 16 16 PUMPMETHOD_SPLICE fresh_state0 eq_refl)
    as (env & ok & s1 & Hstart & Hrun).
  assert ((λ r, match r with Ok a _ => Some a | _ => None end)
    (main_start (EXT:=in_use) ex_ss ex_ss 16 16 PUMPMETHOD_SPLICE state0) = Some (4096, false)) as E by (vm_compute; reflexivity).
  rewrite Hstart in E. simpl in E. injection E as -> ->. split; [by exists s1|]. apply Hrun. by left.
Defined.
