(* ===== verification/Program.v ===== *)
(** * The whole program

    The theorems on every run of the program: one event is one step of the
    connections' state machine, no run of the event loop goes wrong, no
    handshake is cut short, and the program, started in any world whose
    failures it survives, ends with what it should release released.  [main]
    is followed once, for a pump that keeps the interface [PumpProgram]; the
    buffer pump and the splice pump keep it.  The worlds at the end show that
    the theorems are not vacuous: one in which every call succeeds, one in
    which each of the first connections fails in another way, and one that
    relays through pipes. *)

From S2P Require Import Prelude DList ListSpec Structs World Util Context BufferPump SplicePump Pump Socks5 Listener Main Kept Inv Streams Run SpliceRun Start.
Local Open Scope Z_scope.

(** ** The whole program *)

Section whole.
Context {EXT : Env} `{!Survives EXT, !AddressLaws EXT} (buf : list item → evbuffer → list Z) {LAWS : EvbufferLaws EXT buf}.
Implicit Types s : state.

(** C3 One event, one step of the connections' state machine: in every world
    whose failures the code survives, a callback returns, keeps the
    invariant, and changes the list of connections as [session_step] allows.
    An event of the listening socket may accept one connection, in its first
    stage; SIGUSR1 drops all; the timeout of a connection ends it; any other
    event of a connection may move it to the next stage or end it; and where
    it is not said that something must happen, the step may also be to change
    nothing.  Every other connection stays in its stage.  The bytes that the
    program moves meanwhile are, for each connection, exactly those of its step
    ([moves_on]): the greeting, the request for its destination, the relay's
    answers, or a block from one side to the other; a connection that makes no
    step moves none, and a new one has new buffers. *)
Theorem event_refines_session env e lfd lev ev ps s :
  inv buffer_config env e lfd lev ps s → live_target ev s = true →
  ∃ s' ps', run_callback ev s = Ok tt s' ∧ inv buffer_config env e lfd lev ps' s' ∧
    session_step transocks_bufferpump_ops_ref (owner ev s) (connections ps s) (connections ps' s') ∧ streams_on buf transocks_bufferpump_ops_ref s s'.
Proof. by apply (run_callback_step buf). Qed.

(** C2 The event loop never goes wrong: from a state where the invariant
    holds, whatever calls fail among those whose failure the code survives
    (all but four), and whatever events libevent delivers, in whatever order, as long as
    each is for an object that is registered at that moment, every callback
    returns (no read of freed or uninitialised memory, no double free, no
    list corruption), and the invariant holds again: the list holds exactly
    the live clients, each client owns its two addresses, its two
    bufferevents, its timer and its node alone, its bufferevents' callbacks
    are those of its state, and no object without an owner is left. *)
Theorem event_loop_safe env e lfd lev sched ps s :
  inv buffer_config env e lfd lev ps s → deliverable sched s = true →
  ∃ s' ps', run_callbacks sched s = Ok tt s' ∧ inv buffer_config env e lfd lev ps' s'.
Proof. apply loop_runs. Qed.

(** C4 The handshake is never cut short: in every run of the event loop that
    starts without connections, each client of the list is in one of the four
    stages, and if it waits for the relay's choice of method, waits for the
    reply to the request, or relays data, then at an earlier point of the same
    run it was in the stage just before: data is relayed only after the relay
    accepted the request, the request follows the method, and the method
    follows the connection to the relay. *)
Theorem handshake_in_order env e lfd lev sched s :
  inv buffer_config env e lfd lev [] s → deliverable sched s = true →
  ∃ s' ps', run_callbacks sched s = Ok tt s' ∧ inv buffer_config env e lfd lev ps' s' ∧
    ∀ p, p ∈ ps' → ∃ b, stage_of s' p = Some b ∧
      (b = Connecting ∨ ∃ sched1 sched2 s1, sched = sched1 ++ sched2 ∧ run_callbacks sched1 s = Ok tt s1 ∧
         next_stage (stage_of s1 p) (Some b)).
Proof. apply loop_in_order. Qed.

Lemma validated_printable ss len : validateAddrPort ss = true → printable ss len.
Proof.
  unfold validateAddrPort, printable. destruct (ss_family ss =? AF_INET) eqn:E4; [apply Z.eqb_eq in E4; auto|].
  destruct (ss_family ss =? AF_INET6) eqn:E6; [apply Z.eqb_eq in E6; auto|done].
Qed.

(** The state in which the loop starts: libevent has been called. *)
Definition loop_start (env : Z) (s : state) : state :=
  match envs s !! env with Some e => did [c_event_base_dispatch (eventBaseLoop e)] s | None => s end.

(** What a pump promises to [main]: the invariant [I] of its event loop holds
    when the loop starts, the loop keeps it, and from every state of the loop
    the end of the program returns 0 in a state of [P]. *)
Class PumpProgram (pump : string) (impl : pump_ref) (live : loop_event → state → bool)
    (I : Z → transocks_global_env → Z → Z → list Z → state → Prop) (P : state → Prop) : Prop := {
  pp_find : find_pump pump = Some impl;
  pp_loop env e lfd lev :: Loop impl live (I env e lfd lev);
  pp_start env e lfd lev s : inv (idle_config impl pump) env e lfd lev [] s → I env e lfd lev [] s;
  pp_trace env e lfd lev ps s tr : I env e lfd lev ps s → I env e lfd lev ps (set_trace tr s);
  pp_env env e lfd lev ps s : I env e lfd lev ps s → envs s !! env = Some e ∧ is_Some (bases s !! eventBaseLoop e);
  pp_end env e lfd lev ps s : I env e lfd lev ps s → wp (main_shutdown env) (λ r s', r = 0 ∧ P s') s;
  pp_nothing s : nothing_live s = true → P s
}.

Section main.
Context (pump : string) (impl : pump_ref) (live : loop_event → state → bool).
Context (I : Z → transocks_global_env → Z → Z → list Z → state → Prop) (P : state → Prop) `{!PumpProgram pump impl live I P}.

(** A run of [main] that reached the loop. *)
Lemma wp_loop_and_end env e lfd lev ps s sched :
  I env e lfd lev ps s → delivers live sched (loop_start env s) = true →
  wp ((base ← fld env eventBaseLoop; event_base_dispatch base sched ;; mret tt) ;; main_shutdown env) (λ r s', r = 0 ∧ P s') s.
Proof.
  intros HI Hdel. destruct (pp_env _ _ _ _ _ _ HI) as (He & b & Hb). unfold loop_start in Hdel. rewrite He in Hdel.
  unfold event_base_dispatch. st_steps.
  destruct (loop_runs _ _ _ (pp_trace _ _ _ _ _ _ (trace (did [c_event_base_dispatch (eventBaseLoop e)] s)) HI) Hdel) as (s2 & ps2 & Hrun & HI2).
  eapply wp_Ok_run; [exact Hrun|]. st_steps. by eapply pp_end.
Qed.

(** Start, loop and end of the program. *)
Lemma main_runs s lss sss llen slen :
  fresh s → ext (trace s) (c_calloc 1 sizeof_transocks_global_env) = true → validateAddrPort lss = true →
  ∃ env ok s1, main_start lss sss llen slen pump s = Ok (env, ok) s1 ∧
    (Succeeds EXT → Starts EXT → ok = true) ∧ (ok = true → ∃ e lfd lev, I env e lfd lev [] s1) ∧
    ∀ sched, (ok = true → delivers live sched (loop_start env s1) = true) →
      ∃ s', main_run sched lss sss llen slen pump s = Ok 0 s' ∧ P s'.
Proof.
  intros Hfr Hc Hval. pose proof (wp_half_main_start s lss sss llen slen pump Hfr Hc) as Hwp.
  apply (wp_keeps grows) in Hwp; [|apply keeps_main_start; try apply _; apply grows_set_pump].
  apply wp_run in Hwp as ([env ok] & s1 & Hrun & Hs1 & Hgr). exists env, ok, s1. pose proof (gr_wf _ _ Hgr (fr_wf _ Hfr)) as Hwf.
  destruct Hs1 as [([= -> ->] & Hlive & Hf)|(Hnz & A & e & lfd & lev & H & Hok)].
  { split_and!; [done|by intros; destruct Hf|done|]. intros sched _. eapply main_run_ends; [exact Hrun|left]. split_and!; [done|done|by apply pp_nothing]. }
  simpl in *. specialize (Hok impl pp_find). destruct ok.
  - specialize (Hok (validated_printable _ _ Hval) Hwf). apply pp_start in Hok. split_and!; [done|done|by eauto|].
    intros sched Hdel. eapply main_run_ends; [exact Hrun|right; split; [done|]]. eapply wp_loop_and_end; [exact Hok|by apply Hdel].
  - split_and!; [done|by intros; destruct Hok|done|]. intros sched _.
    eapply main_run_ends; [exact Hrun|right; split; [done|]]. st_steps.
    eapply wp_mono; [by eapply wp_half_shutdown|]. intros r s' [-> ?]. split; [done|by apply pp_nothing].
Qed.

(** A start that reaches the loop does so in a state of the invariant. *)
Lemma start_inv s lss sss llen slen env s1 :
  fresh s → ext (trace s) (c_calloc 1 sizeof_transocks_global_env) = true → validateAddrPort lss = true →
  main_start lss sss llen slen pump s = Ok (env, true) s1 → ∃ e lfd lev, I env e lfd lev [] s1.
Proof.
  intros Hfr Hc Hval Hrun. destruct (main_runs s lss sss llen slen Hfr Hc Hval) as (env' & ok & s1' & Hrun' & _ & HI & _).
  rewrite Hrun in Hrun'. injection Hrun' as <- <- <-. by apply HI.
Qed.

(** Every connection has moved the bytes of its stage. *)
Definition exact_streams s : Prop :=
  ∀ p c, clients s !! p = Some c → ∃ b, stage_of s p = Some b ∧
    let fs := flows buf (trace s) in
    traffic impl (dest_of s c) b (given (Output (relay_bev c)) fs) (taken (Input (relay_bev c)) fs)
      (given (Output (client_bev c)) fs) (taken (Input (client_bev c)) fs).

(** The loop starts with no bytes moved, and each event moves those of its
    step. *)
Lemma started_streams s lss sss llen slen env s1 sched :
  (∀ env e lfd lev, StreamLoop buf impl live (I env e lfd lev)) →
  fresh s → ext (trace s) (c_calloc 1 sizeof_transocks_global_env) = true → validateAddrPort lss = true →
  flows buf (trace s) = [] → main_start lss sss llen slen pump s = Ok (env, true) s1 →
  delivers live sched (loop_start env s1) = true →
  ∃ s', run_callbacks sched (loop_start env s1) = Ok tt s' ∧ exact_streams s'.
Proof.
  intros Hsl Hfr Hc Hval Hfl Hrun Hdel. destruct (start_inv s lss sss llen slen env s1 Hfr Hc Hval Hrun) as (e & lfd & lev & HI).
  destruct (pp_env _ _ _ _ _ _ HI) as [He _]. unfold loop_start in *. rewrite He in *.
  assert (same_flows buf s s1) as Hs1.
  { eapply (keeps_main_start (same_flows buf)), Hrun; try apply _. by intros o t a t' [= _ <-]. }
  pose proof (pp_trace _ _ _ _ _ _ (trace (did [c_event_base_dispatch (eventBaseLoop e)] s1)) HI) as HI'.
  destruct (streams_run sched [] _ HI') as (s' & ps' & E & _ & [Ht _]); [|exact Hdel|by exists s'].
  apply (streamed_idle _ HI'). etrans; [by apply flows_call|]. by rewrite <-Hfl.
Qed.
End main.

#[export] Instance buffer_program :
  PumpProgram PUMPMETHOD_BUFFER transocks_bufferpump_ops_ref live_target (inv buffer_config) (λ s, nothing_live s = true).
Proof.
  split; try done; [apply _|..]; intros env e lfd lev ps s.
  - intros tr. apply inv_trace.
  - intros Hinv. rewrite (ei_envs (in_env Hinv)), (ei_bases (in_env Hinv)), !lookup_singleton_eq. eauto.
  - by apply wp_main_shutdown.
Qed.

(** C1 The whole program with the buffer pump, whatever calls fail that it can
    survive: from the addresses the command line gave, its start returns,
    and if every call succeeds it reaches the event loop; the loop starts in a
    state where the invariant holds; and whatever the loop delivers until it
    is told to exit, or if it was not reached at all, the program then returns
    0 with every object released, the connections still open at that point
    included. *)
Theorem main_runs_and_releases s lss sss llen slen :
  fresh s → ext (trace s) (c_calloc 1 sizeof_transocks_global_env) = true → validateAddrPort lss = true →
  ∃ env ok s1, main_start lss sss llen slen PUMPMETHOD_BUFFER s = Ok (env, ok) s1 ∧
    (Succeeds EXT → Starts EXT → ok = true) ∧
    (ok = true → ∃ e lfd lev, inv buffer_config env e lfd lev [] s1) ∧
    ∀ sched, (ok = true → deliverable sched (loop_start env s1) = true) →
      ∃ s', main_run sched lss sss llen slen PUMPMETHOD_BUFFER s = Ok 0 s' ∧ nothing_live s' = true.
Proof. apply (main_runs PUMPMETHOD_BUFFER transocks_bufferpump_ops_ref live_target (inv buffer_config)), _. Qed.

(** C5 The bytes of every connection, in every run of the program: after its
    start, whatever calls fail among those the code survives, whatever the
    peers send and in whatever order events arrive, each connection has moved
    exactly the bytes of its stage ([traffic]).  While it connects, none; then
    the greeting 5, 1, 0 went to the relay; then, for the answer 5, 0, the
    request for its own destination; and once it relays, the relay was handed
    the greeting, the request and then exactly the bytes taken from the
    client, and the client exactly the bytes taken from the relay after its
    two answers: in order, with nothing added, lost, repeated or mixed up with
    another connection. *)
Theorem relayed_streams_exact s lss sss llen slen env s1 sched :
  fresh s → ext (trace s) (c_calloc 1 sizeof_transocks_global_env) = true → validateAddrPort lss = true →
  flows buf (trace s) = [] → main_start lss sss llen slen PUMPMETHOD_BUFFER s = Ok (env, true) s1 →
  deliverable sched (loop_start env s1) = true →
  ∃ s', run_callbacks sched (loop_start env s1) = Ok tt s' ∧
    ∀ p c, clients s' !! p = Some c → ∃ b, stage_of s' p = Some b ∧
      let fs := flows buf (trace s') in
      traffic transocks_bufferpump_ops_ref (dest_of s' c) b (given (Output (relay_bev c)) fs) (taken (Input (relay_bev c)) fs)
        (given (Output (client_bev c)) fs) (taken (Input (client_bev c)) fs).
Proof.
  intros. eapply (started_streams PUMPMETHOD_BUFFER transocks_bufferpump_ops_ref live_target (inv buffer_config) (λ s, nothing_live s = true)); [|done..].
  intros env' e lfd lev. apply _.
Qed.
End whole.

(** ** The program with the splice pump *)

Section spliced.
Context {EXT : Env} `{!Survives EXT, !SpliceReady EXT, !AddressLaws EXT} (buf : list item → evbuffer → list Z) {LAWS : EvbufferLaws EXT buf}.
Implicit Types s : state.

#[export] Instance splice_program :
  PumpProgram PUMPMETHOD_SPLICE transocks_splicepump_ops_ref live_splice splice_inv only_handshakes.
Proof.
  split; [done|apply _|..].
  - intros env e lfd lev s. apply idle_splice_inv.
  - intros env e lfd lev ps s tr. apply splice_inv_trace.
  - intros env e lfd lev ps s (k & _ & Hinv & _). rewrite (ei_envs (in_env Hinv)), (ei_bases (in_env Hinv)), !lookup_singleton_eq. eauto.
  - intros env e lfd lev ps s. by apply (wp_splice_shutdown buf).
  - apply nothing_only_handshakes.
Qed.

(** C8 One event under the splice pump is a step of the same state machine of
    connections as under the buffer pump.  The world is one whose failures the
    code survives ([Survives]) and in which the pump can be started
    ([SpliceReady]: pipe, malloc, event_new and the other calls of the start
    succeed; when they fail, the reply callback releases the client twice).
    The event is added, or its bufferevent has a descriptor; and if it is
    SIGUSR1, no connection is in its handshake (the code spares such
    connections, which is not what the signal is for).  Then the callback
    returns and keeps the invariant, and the connections make one step, in
    which SIGUSR1 drops all.  The invariant says in addition that each
    connection that relays owns a pump, two usable pipes and four events that
    call the data callbacks for it, that its timer is stopped and its
    bufferevents have no descriptor, that no two connections share any of
    these, and that no pump, pipe or event is without an owner.  The bytes
    that go through buffers are, for each connection, those of its step in the
    handshake, and none once it relays. *)
Theorem splice_event_refines_session env e lfd lev ev ps s :
  splice_inv env e lfd lev ps s → live_splice ev s = true →
  (owner ev s = Dropping → ∀ p, p ∈ ps → stage_of s p = Some Relaying) →
  ∃ s' ps', run_callback ev s = Ok tt s' ∧ splice_inv env e lfd lev ps' s' ∧
    session_step transocks_bufferpump_ops_ref (owner ev s) (connections ps s) (connections ps' s') ∧
    streams_on buf transocks_splicepump_ops_ref s s'.
Proof.
  intros Hs Hl Hd. destruct (splice_callback_step buf ev ps s Hs Hl) as (s' & ps' & ? & ? & Hst & ?). exists s', ps'.
  split_and!; [done|done| |done]. eapply session_step_pumps; [exact Hst|].
  intros Ho x (p & -> & Hp)%list_elem_of_fmap. by apply Hd.
Qed.

(** C7 The event loop under the splice pump cuts no handshake short and, where
    the pump can be started, never goes wrong.  In every world whose failures
    the code survives ([Survives]), in which the calls of the pump's start
    succeed ([SpliceReady]: pipe, malloc, event_new and the like; when they
    fail, the reply callback releases the client twice) and whose addresses are
    of IPv4 or IPv6, for every sequence of events that are added or whose
    bufferevent has a descriptor, and whatever [splice] replies, every callback
    returns, the invariant of the
    loop and the ownership of pumps, pipes and events hold again, and each
    connection that is beyond its first stage was in the stage just before at
    an earlier point of the run.  If the run starts before the first byte is
    moved, each connection has then moved exactly the bytes of its stage: the
    greeting and the request for its destination to the relay, the two answers
    from it, and nothing else through buffers. *)
Theorem splice_loop_in_order env e lfd lev sched s :
  splice_inv env e lfd lev [] s → delivers live_splice sched s = true →
  ∃ s' ps', run_callbacks sched s = Ok tt s' ∧ splice_inv env e lfd lev ps' s' ∧
    (∀ p, p ∈ ps' → ∃ b, stage_of s' p = Some b ∧
      (b = Connecting ∨ ∃ sched1 sched2 s1, sched = sched1 ++ sched2 ∧ run_callbacks sched1 s = Ok tt s1 ∧
         next_stage (stage_of s1 p) (Some b))) ∧
    (flows buf (trace s) = [] → exact_streams buf transocks_splicepump_ops_ref s').
Proof.
  intros HI Hd. destruct (loop_in_order sched s HI Hd) as (s' & ps' & Hrun & HI' & Hord). exists s', ps'. split_and!; [done..|].
  intros Hfl. destruct (streams_run sched [] s HI (streamed_idle _ HI Hfl) Hd) as (s2 & _ & Hrun2 & _ & [Ht _]).
  rewrite Hrun in Hrun2. by injection Hrun2 as <-.
Qed.

(** C6 The whole program with the splice pump, in a world whose failures the
    code survives ([Survives]), in which the calls of the pump's start succeed
    ([SpliceReady]: pipe, malloc, event_new and the like; when they fail, the
    reply callback releases the client twice) and whose addresses are of IPv4
    or IPv6: from the addresses the command line gave, the start returns; it
    reaches the loop if all its calls succeed, and if it does, in a state of
    the invariant; and whatever the loop delivers of events that are added or
    whose bufferevent has a descriptor, the program then returns 0 with every connection that relayed data released, with its pump, its
    pipes and its events, and the environment too.  What is left is only
    connections that were still in their handshake, with their own objects;
    without such connections nothing is left at all. *)
Theorem main_runs_spliced s lss sss llen slen :
  fresh s → ext (trace s) (c_calloc 1 sizeof_transocks_global_env) = true → validateAddrPort lss = true →
  ∃ env ok s1, main_start lss sss llen slen PUMPMETHOD_SPLICE s = Ok (env, ok) s1 ∧
    (Succeeds EXT → Starts EXT → ok = true) ∧
    (ok = true → ∃ e lfd lev, splice_inv env e lfd lev [] s1) ∧
    ∀ sched, (ok = true → delivers live_splice sched (loop_start env s1) = true) →
      ∃ s', main_run sched lss sss llen slen PUMPMETHOD_SPLICE s = Ok 0 s' ∧ only_handshakes s' ∧
        (clients s' = ∅ → nothing_live s' = true).
Proof.
  intros Hfr Hc Hval.
  destruct (main_runs PUMPMETHOD_SPLICE transocks_splicepump_ops_ref live_splice splice_inv only_handshakes s lss sss llen slen Hfr Hc Hval)
    as (env & ok & s1 & H1 & H2 & H3 & H4). exists env, ok, s1. split_and!; [done..|]. intros sched Hd.
  destruct (H4 sched Hd) as (s' & E & Ho). exists s'. split_and!; [done|done|]. by apply only_handshakes_nothing.
Qed.
End spliced.

(** ** The session as an instance *)

#[local] Instance session_succeeds recv : Succeeds (session recv).
Proof. split; try done. intros tr ???. unfold ext, session. lia. Qed.

#[local] Instance session_starts recv : Starts (session recv).
Proof. by split. Qed.

#[local] Instance session_addresses recv : AddressLaws (session recv).
Proof. split; unfold ext, session, quiet_reply; intros; simplify_eq; by left. Qed.

#[local] Instance session_laws recv : EvbufferLaws (session recv) (session_buf recv).
Proof.
  split; intros; simpl; try case_decide; simplify_eq; try done; try (case_decide; by simplify_eq).
  by destruct c.
Qed.

(** The state in which the loop starts. *)
Definition ex_started : state :=
  match main_start (EXT:=session ex_recv) ex_ss ex_ss 16 16 PUMPMETHOD_BUFFER state0 with Ok _ s => s | _ => state0 end.

Lemma ex_main_start :
  main_start (EXT:=session ex_recv) ex_ss ex_ss 16 16 PUMPMETHOD_BUFFER state0 = Ok (4096, true) ex_started.
Proof. vm_compute. reflexivity. Qed.

Lemma Ok_inj {A} (a b : A) (s t : state) : Ok a s = Ok b t → a = b ∧ s = t.
Proof. by intros [= -> ->]. Qed.

Lemma ex_started_inv : ∃ e lfd lev, inv buffer_config 4096 e lfd lev [] ex_started.
Proof. 
  eapply (start_inv (EXT:=session ex_recv) _ transocks_bufferpump_ops_ref live_target (inv buffer_config) (λ s, nothing_live s = true)), ex_main_start; [apply fresh_state0|done|done]. Qed.

(** ** A world of failures

    What fails depends on how many connections were accepted before: the
    options of the first cannot be set, there is no memory for the addresses
    of the second, the bufferevent of the third does not take its descriptor,
    there is no socket to reach the relay for the fourth, and the bufferevents
    of the fifth cannot be enabled when its handshake is done. *)
Definition accepts (tr : list item) : Z :=
  Z.of_nat (length (List.filter (λ i, match i with ICall (c_accept _ _) => true | _ => false end) tr)).

Definition flaky : Env := λ tr c,
  match c with
  | c_setsockopt _ _ _ _ => if accepts tr =? 1 then -1 else 0
  | c_malloc n => (n =? sizeof_transocks_client) || negb (accepts tr =? 2)
  | c_bufferevent_setfd _ _ => if accepts tr =? 3 then -1 else 0
  | c_socket _ _ _ => if accepts tr =? 4 then -1 else 10 + Z.of_nat (length tr)
  | c_bufferevent_enable _ _ => if accepts tr =? 5 then -1 else 0
  | c => session (λ _, [[5; 0]; [5; 0; 0; 1; 10; 0; 0; 1; 4; 56]; [79; 75]]) tr c
  end.

Definition flaky_buf : list item → evbuffer → list Z := session_buf (λ _, [[5; 0]; [5; 0; 0; 1; 10; 0; 0; 1; 4; 56]; [79; 75]]).

#[local] Instance flaky_survives : Survives flaky.
Proof. by split. Qed.

#[local] Instance flaky_addresses : AddressLaws flaky.
Proof. split; unfold ext, flaky, session, quiet_reply; intros; simplify_eq; by left. Qed.

#[local] Instance flaky_laws : EvbufferLaws flaky flaky_buf.
Proof.
  unfold flaky_buf. split; intros; simpl; try case_decide; simplify_eq; try done; try (case_decide; by simplify_eq).
  by destruct c.
Qed.

Definition flaky_started : state :=
  match main_start (EXT:=flaky) ex_ss ex_ss 16 16 PUMPMETHOD_BUFFER state0 with Ok _ s => s | _ => state0 end.

(** Five connections that fail, a sixth, and then SIGTERM. *)
Definition flaky_sched : list loop_event :=
  replicate 5 (le_event 4469 EV_READ) ++
  [le_bev_event 5626 BEV_EVENT_CONNECTED 0; le_bev_read 5626; le_bev_read 5626; le_event 4469 EV_READ; le_event 4449 EV_SIGNAL].

(** The number of clients after the first [n] events. *)
Definition flaky_clients (n : nat) : option nat :=
  match run_callbacks (EXT:=flaky) (take n flaky_sched) flaky_started with Ok _ s => Some (size (clients s)) | _ => None end.

Lemma flaky_main_start : main_start (EXT:=flaky) ex_ss ex_ss 16 16 PUMPMETHOD_BUFFER state0 = Ok (4096, true) flaky_started.
Proof. vm_compute. reflexivity. Qed.

Lemma flaky_fails : ¬ Succeeds flaky.
Proof. intros H. pose proof (su_setsockopt (EXT:=flaky) [ICall (c_accept 0 0)] 0 0 0 0) as E. vm_compute in E. discriminate. Qed.

Lemma event_loop_safe_witness :
  ¬ Succeeds flaky ∧ flaky_clients <$> seq 1 9 = Some <$> [0; 0; 0; 0; 1; 1; 1; 0; 1]%nat ∧
  ∃ e lfd lev s' ps', run_callbacks (EXT:=flaky) flaky_sched flaky_started = Ok tt s' ∧ inv buffer_config 4096 e lfd lev ps' s'.
Proof.
  split; [apply flaky_fails|]. split; [vm_compute; reflexivity|].
  destruct (start_inv (EXT:=flaky) _ transocks_bufferpump_ops_ref live_target (inv buffer_config) (λ s, nothing_live s = true) state0 ex_ss ex_ss 16 16 4096 flaky_started fresh_state0 eq_refl eq_refl flaky_main_start) as (e & lfd & lev & Hinv).
  exists e, lfd, lev.
  apply (event_loop_safe (EXT:=flaky) flaky_buf 4096 e lfd lev flaky_sched [] flaky_started Hinv). vm_compute. reflexivity.
Defined.

Lemma main_runs_and_releases_witness :
  ¬ Succeeds flaky ∧
  ∃ s', main_run (EXT:=flaky) flaky_sched ex_ss ex_ss 16 16 PUMPMETHOD_BUFFER state0 = Ok 0 s' ∧ nothing_live s' = true.
Proof.
  split; [apply flaky_fails|].
  destruct (main_runs_and_releases (EXT:=flaky) flaky_buf state0 ex_ss ex_ss 16 16 fresh_state0 eq_refl eq_refl)
    as (env & ok & s1 & Hstart & _ & _ & Hrun).
  apply Hrun. intros _. rewrite flaky_main_start in Hstart. apply Ok_inj in Hstart as [[= <- <-] <-].
  vm_compute. reflexivity.
Defined.

(** The stage of every live client after the first [n] events. *)
Definition ex_stages (n : nat) : option (list (Z * option stage)) :=
  match run_callbacks (EXT:=session ex_recv) (take n ex_sched) ex_started with
  | Ok _ s => Some ((λ p, (p, stage_of s p)) <$> (map_to_list (clients s)).*1)
  | _ => None
  end.

Lemma event_refines_session_witness :
  live_target (le_event 4469 EV_READ) ex_started = true ∧ owner (le_event 4469 EV_READ) ex_started = Listening ∧
  ∃ e lfd lev s' ps', run_callback (EXT:=session ex_recv) (le_event 4469 EV_READ) ex_started = Ok tt s' ∧
    inv buffer_config 4096 e lfd lev ps' s' ∧ session_step transocks_bufferpump_ops_ref (owner (le_event 4469 EV_READ) ex_started) [] (connections ps' s') ∧
    streams_on (session_buf ex_recv) transocks_bufferpump_ops_ref ex_started s'.
Proof.
  split; [vm_compute; reflexivity|]. split; [vm_compute; reflexivity|]. destruct ex_started_inv as (e & lfd & lev & Hinv). exists e, lfd, lev.
  apply (event_refines_session (EXT:=session ex_recv) (session_buf ex_recv) 4096 e lfd lev (le_event 4469 EV_READ) [] ex_started Hinv).
  vm_compute. reflexivity.
Defined.

Lemma handshake_in_order_witness :
  ex_stages <$> [0; 1; 2; 3; 4]%nat =
    [Some []; Some [(4471, Some Connecting)]; Some [(4471, Some Greeting)]; Some [(4471, Some Requesting)];
     Some [(4471, Some Relaying)]] ∧
  ∃ e lfd lev s' ps', run_callbacks (EXT:=session ex_recv) (take 4 ex_sched) ex_started = Ok tt s' ∧
    inv buffer_config 4096 e lfd lev ps' s' ∧
    ∀ p, p ∈ ps' → ∃ b, stage_of s' p = Some b ∧
      (b = Connecting ∨ ∃ sched1 sched2 s1, take 4 ex_sched = sched1 ++ sched2 ∧
         run_callbacks (EXT:=session ex_recv) sched1 ex_started = Ok tt s1 ∧ next_stage (stage_of s1 p) (Some b)).
Proof.
  split; [vm_compute; reflexivity|]. destruct ex_started_inv as (e & lfd & lev & Hinv). exists e, lfd, lev.
  apply (handshake_in_order (EXT:=session ex_recv) (session_buf ex_recv) 4096 e lfd lev _ ex_started Hinv).
  vm_compute. reflexivity.
Defined.

(** The four streams of the connection of the session after the first [n]
    events. *)
Definition ex_streams (n : nat) : option (list (list Z)) :=
  match run_callbacks (EXT:=session ex_recv) (take n ex_sched) (loop_start 4096 ex_started) with
  | Ok _ s => let fs := flows (session_buf ex_recv) (trace s) in
              Some [given (Output 4824) fs; taken (Input 4824) fs; given (Output 4823) fs; taken (Input 4823) fs]
  | _ => None
  end.

(** While it connects; when the greeting is out; when the request is; when the
    reply was accepted; after a block in each direction. *)
Lemma relayed_streams_exact_witness :
  let req := [5; 1; 0; 1; 10; 0; 0; 1; 31; 144] in
  let reply := [5; 0; 0; 1; 10; 0; 0; 1; 4; 56] in
  ex_streams <$> [1; 2; 3; 4; 6]%nat =
    [Some [[]; []; []; []]; Some [[5; 1; 0]; []; []; []]; Some [[5; 1; 0] ++ req; [5; 0]; []; []];
     Some [[5; 1; 0] ++ req; [5; 0] ++ reply; []; []];
     Some [[5; 1; 0] ++ req ++ [71; 69; 84]; [5; 0] ++ reply ++ [79; 75]; [79; 75]; [71; 69; 84]]] ∧
  ∃ s', run_callbacks (EXT:=session ex_recv) (take 6 ex_sched) (loop_start 4096 ex_started) = Ok tt s' ∧
    ∀ p c, clients s' !! p = Some c → ∃ b, stage_of s' p = Some b ∧
      let fs := flows (session_buf ex_recv) (trace s') in
      traffic transocks_bufferpump_ops_ref (dest_of s' c) b (given (Output (relay_bev c)) fs) (taken (Input (relay_bev c)) fs)
        (given (Output (client_bev c)) fs) (taken (Input (client_bev c)) fs).
Proof.
  intros req reply. split; [vm_compute; reflexivity|].
  apply (relayed_streams_exact (EXT:=session ex_recv) (session_buf ex_recv) state0 ex_ss ex_ss 16 16 4096 ex_started (take 6 ex_sched)
    fresh_state0 eq_refl eq_refl eq_refl ex_main_start).
  vm_compute. reflexivity.
Defined.

(** ** A world of pipes

    The options of the first connection cannot be set; the sockets of the
    others give five bytes, then nothing for a while, and then the end of the
    data. *)
Definition splices (tr : list item) : Z :=
  Z.of_nat (length (List.filter (λ i, match i with ICall (c_splice _ _ _ _) => true | _ => false end) tr)).

Definition piping_recv (_ : Z) : list (list Z) := [[5; 0]; [5; 0; 0; 1; 10; 0; 0; 1; 4; 56]].

Definition piping : Env := λ tr c,
  match c with
  | c_setsockopt _ _ _ _ => if accepts tr =? 1 then -1 else 0
  | c_pipe => (0, 100 + Z.of_nat (length tr), 101 + Z.of_nat (length tr))
  | c_splice _ _ _ _ => if splices tr <? 2 then (5, 0) else if splices tr =? 2 then (-1, EAGAIN) else (0, 0)
  | c => session piping_recv tr c
  end.

Definition piping_started : state :=
  match main_start (EXT:=piping) ex_ss ex_ss 16 16 PUMPMETHOD_SPLICE state0 with Ok _ s => s | _ => state0 end.

#[local] Instance piping_survives : Survives piping.
Proof. by split. Qed.

#[local] Instance piping_ready : SpliceReady piping.
Proof. split; try done. intros tr. unfold ext, piping. simpl. lia. Qed.

#[local] Instance piping_addresses : AddressLaws piping.
Proof. split; unfold ext, piping, session, quiet_reply; intros; simplify_eq; by left. Qed.

#[local] Instance piping_laws : EvbufferLaws piping (session_buf piping_recv).
Proof.
  split; intros; simpl; try case_decide; simplify_eq; try done; try (case_decide; by simplify_eq).
  by destruct c.
Qed.

(** A connection that fails; one that gets to relay data; a third that is
    still connecting when the second has moved a block, the clients are dumped,
    the relay has nothing to send, and the client's data ends. *)
Definition piping_sched : list loop_event :=
  [le_event 4469 EV_READ; le_event 4469 EV_READ; le_bev_event 4824 BEV_EVENT_CONNECTED 0; le_bev_read 4824; le_bev_read 4824;
   le_event 4469 EV_READ; le_event 4970 EV_READ; le_event 4973 EV_READ; le_event 4451 EV_SIGNAL; le_event 4972 EV_READ;
   le_event 4970 EV_READ; le_event 4973 EV_READ].

(** The stage of every live client after the first [n] events. *)
Definition piping_stages (n : nat) : option (list (Z * option stage)) :=
  match run_callbacks (EXT:=piping) (take n piping_sched) piping_started with
  | Ok _ s => Some ((λ p, (p, stage_of s p)) <$> (map_to_list (clients s)).*1)
  | _ => None
  end.

Lemma piping_main_start : main_start (EXT:=piping) ex_ss ex_ss 16 16 PUMPMETHOD_SPLICE state0 = Ok (4096, true) piping_started.
Proof. vm_compute. reflexivity. Qed.

Lemma piping_inv : ∃ e lfd lev, splice_inv 4096 e lfd lev [] piping_started.
Proof.
  eapply (start_inv (EXT:=piping) _ transocks_splicepump_ops_ref live_splice splice_inv only_handshakes), piping_main_start;
    [apply fresh_state0|done|done].
Qed.

(** After five events one connection relays; SIGUSR1 then drops it. *)
Definition piping_relaying : state :=
  match run_callbacks (EXT:=piping) (take 5 piping_sched) piping_started with Ok _ s => s | _ => state0 end.

Lemma piping_relays : run_callbacks (EXT:=piping) (take 5 piping_sched) piping_started = Ok tt piping_relaying.
Proof. vm_compute. reflexivity. Qed.

Lemma piping_relaying_inv : ∃ e lfd lev ps, splice_inv 4096 e lfd lev ps piping_relaying.
Proof.
  destruct piping_inv as (e & lfd & lev & Hinv). exists e, lfd, lev.
  destruct (loop_runs (EXT:=piping) (take 5 piping_sched) [] piping_started Hinv) as (s' & ps' & E & H); [vm_compute; reflexivity|].
  rewrite piping_relays in E. apply Ok_inj in E as [_ <-]. exists ps'. exact H.
Qed.

Lemma piping_stage p : p ∈ dom (clients piping_relaying) → stage_of piping_relaying p = Some Relaying.
Proof.
  assert (dom (clients piping_relaying) = {[4471]}) as -> by (vm_compute; reflexivity).
  intros ->%elem_of_singleton. vm_compute. reflexivity.
Qed.

Lemma splice_event_refines_session_witness :
  owner (le_event 4452 EV_SIGNAL) piping_relaying = Dropping ∧
  ∃ e lfd lev ps s' ps', run_callback (EXT:=piping) (le_event 4452 EV_SIGNAL) piping_relaying = Ok tt s' ∧
    splice_inv 4096 e lfd lev ps' s' ∧ clients s' = ∅ ∧
    session_step transocks_bufferpump_ops_ref (owner (le_event 4452 EV_SIGNAL) piping_relaying)
      (connections ps piping_relaying) (connections ps' s') ∧
    streams_on (session_buf piping_recv) transocks_splicepump_ops_ref piping_relaying s'.
Proof.
  split; [vm_compute; reflexivity|]. destruct piping_relaying_inv as (e & lfd & lev & ps & Hinv). exists e, lfd, lev, ps.
  destruct (splice_event_refines_session (EXT:=piping) (session_buf piping_recv) 4096 e lfd lev (le_event 4452 EV_SIGNAL) ps piping_relaying Hinv)
    as (s' & ps' & H1 & H2 & H3 & H4).
  - vm_compute. reflexivity.
  - intros _ p Hp. apply piping_stage, elem_of_dom. destruct Hinv as (k & _ & Hinv & _). apply (in_dom Hinv). exact Hp.
  - exists s', ps'. split; [exact H1|]. split; [exact H2|]. split; [|split; [exact H3|exact H4]].
    assert (clients <$> final (run_callback (EXT:=piping) (le_event 4452 EV_SIGNAL) piping_relaying) = Some ∅) as E by (vm_compute; reflexivity).
    rewrite H1 in E. apply (inj Some) in E. exact E.
Defined.

Lemma splice_loop_in_order_witness :
  piping_stages <$> [1; 2; 3; 4; 5; 6; 11; 12]%nat =
    [Some []; Some [(4471, Some Connecting)]; Some [(4471, Some Greeting)]; Some [(4471, Some Requesting)];
     Some [(4471, Some Relaying)]; Some [(4471, Some Relaying); (4974, Some Connecting)];
     Some [(4471, Some Relaying); (4974, Some Connecting)]; Some [(4974, Some Connecting)]] ∧
  ∃ e lfd lev s' ps', run_callbacks (EXT:=piping) piping_sched piping_started = Ok tt s' ∧
    splice_inv 4096 e lfd lev ps' s' ∧
    (∀ p, p ∈ ps' → ∃ b, stage_of s' p = Some b ∧
      (b = Connecting ∨ ∃ sched1 sched2 s1, piping_sched = sched1 ++ sched2 ∧
         run_callbacks (EXT:=piping) sched1 piping_started = Ok tt s1 ∧ next_stage (stage_of s1 p) (Some b))) ∧
    exact_streams (session_buf piping_recv) transocks_splicepump_ops_ref s'.
Proof.
  split; [vm_compute; reflexivity|]. destruct piping_inv as (e & lfd & lev & Hinv). exists e, lfd, lev.
  destruct (splice_loop_in_order (EXT:=piping) (session_buf piping_recv) 4096 e lfd lev piping_sched piping_started Hinv)
    as (s' & ps' & H1 & H2 & H3 & H4); [vm_compute; reflexivity|].
  exists s', ps'. split; [exact H1|]. split; [exact H2|]. split; [exact H3|]. apply H4. vm_compute. reflexivity.
Defined.

Lemma main_runs_spliced_witness :
  ∃ s', main_run (EXT:=piping) piping_sched ex_ss ex_ss 16 16 PUMPMETHOD_SPLICE state0 = Ok 0 s' ∧ only_handshakes s' ∧
    (clients s' = ∅ → nothing_live s' = true).
Proof.
  destruct (main_runs_spliced (EXT:=piping) (session_buf piping_recv) state0 ex_ss ex_ss 16 16 fresh_state0 eq_refl eq_refl)
    as (env & ok & s1 & Hstart & _ & _ & Hrun).
  apply Hrun. intros _. rewrite piping_main_start in Hstart. apply Ok_inj in Hstart as [[= <- <-] <-].
  vm_compute. reflexivity.
Defined.
